(** * hardened_malloc: the slab engine, the region table and the dispatcher

    A shallow embedding of [malloc.c].  Machine integers ([size_t],
    [uint64_t], pointers) are modelled as [Z] with the wrap-around of the
    64-bit arithmetic written out; C arrays indexed through a pointer are
    modelled as total maps from the index to the element; calls into the
    page provider and the PRNG take their results from explicit oracles
    carried in the state. *)

From Stdlib Require Import ZArith List Lia Bool String.
Import ListNotations.
Local Open Scope Z_scope.

(** ** Outcomes of a call *)

(** A call either returns, aborts the process through [fatal_error],
    dereferences a null pointer, or never leaves one of its loops. *)
Inductive outcome (A : Type) : Type :=
| Done (a : A)
| Fatal (msg : string)
| Crash
| Diverges.

Arguments Done {A} a.
Arguments Fatal {A} msg.
Arguments Crash {A}.
Arguments Diverges {A}.

Definition bind {A B : Type} (m : outcome A) (k : A -> outcome B) : outcome B :=
  match m with
  | Done a => k a
  | Fatal msg => Fatal msg
  | Crash => Crash
  | Diverges => Diverges
  end.

Declare Scope outcome_scope.
Delimit Scope outcome_scope with outcome.
Notation "x <- m ;; k" := (bind m (fun x => k))
  (at level 61, m at next level, right associativity) : outcome_scope.
Notation "' pat <- m ;; k" := (bind m (fun x => match x with pat => k end))
  (at level 61, pat pattern, m at next level, right associativity) : outcome_scope.

(** ** Machine arithmetic *)

Definition SIZE_MAX : Z := 2 ^ 64 - 1.

(** Reduction of an integer expression to [size_t]. *)
Definition wrap (x : Z) : Z := x mod 2 ^ 64.

(** [static_assert(PAGE_SIZE == 4096, ...)] pins the page size. *)
Definition PAGE_SIZE : Z := 4096.
Definition PAGE_SHIFT : Z := 12.

(** Modelled from the spec: the macro [PAGE_CEILING] of the absent
    [pages.h], the spec's [page_ceil]: the argument rounded up to a
    multiple of the page size, in [size_t] arithmetic. *)
Definition PAGE_CEILING (s : Z) : Z :=
  Z.land (wrap (s + PAGE_SIZE - 1)) (wrap (Z.lnot (PAGE_SIZE - 1))).

(** Total maps standing for C arrays: [upd a i v] is [a[i] = v]. *)
Definition upd {A : Type} (a : Z -> A) (i : Z) (v : A) : Z -> A :=
  fun k => if k =? i then v else a k.

(** ** The region table *)

Module Regions.
Local Open Scope outcome_scope.

Record region_info : Type := mk_region {
  p : Z;
  size : Z;
  guard_size : Z
}.

Definition sizeof_region_info : Z := 24.

Definition class_region_size : Z := 128 * 1024 * 1024 * 1024.
Definition initial_region_table_size : Z := 256.
Definition max_region_table_size : Z := class_region_size / PAGE_SIZE.

(** [regions] is the buffer in use, indexed by slot, and [spare] the
    other of the two buffers [ro.regions[0]] and [ro.regions[1]], as its
    memory reads. *)
Record regions_state : Type := mk_regions {
  regions : Z -> region_info;
  spare : Z -> region_info;
  regions_total : Z;
  regions_free : Z
}.

(** Memory the page provider has just handed out or dropped. *)
Definition fresh_buffer : Z -> region_info := fun _ => mk_region 0 0 0.

(** The table at start-up: [regions_total] and [regions_free] are
    initialised statically, the two buffers are fresh memory. *)
Definition init_regions : regions_state :=
  mk_regions fresh_buffer fresh_buffer
             initial_region_table_size initial_region_table_size.

Definition hash_page (q : Z) : Z :=
  let u := Z.shiftr q PAGE_SHIFT in
  let sum := u in
  let sum := wrap (Z.shiftl sum 7 - sum + Z.shiftr u 16) in
  let sum := wrap (Z.shiftl sum 7 - sum + Z.shiftr u 32) in
  let sum := wrap (Z.shiftl sum 7 - sum + Z.shiftr u 48) in
  sum.

(** [(index - 1) & mask] *)
Definition prev_index (index mask : Z) : Z := Z.land (wrap (index - 1)) mask.

(** The probing loop shared by [regions_grow] and [regions_insert]:
    [while (tbl[index].p != NULL) index = (index - 1) & mask;].  A probe
    that has visited [fuel] slots without leaving the loop is reported as
    divergent; the callers pass the number of slots. *)
Fixpoint probe_null (fuel : nat) (tbl : Z -> region_info) (mask index : Z)
  : outcome Z :=
  match fuel with
  | O => Diverges
  | S f =>
      if p (tbl index) =? 0 then Done index
      else probe_null f tbl mask (prev_index index mask)
  end.

(** The [for] loop of [regions_grow]: slots [i], [i+1], ... of the old
    buffer, [n] of them, are rehashed into [new]. *)
Fixpoint rehash (n : nat) (i : Z) (old new : Z -> region_info)
  (newtotal mask : Z) : outcome (Z -> region_info) :=
  match n with
  | O => Done new
  | S n' =>
      let q := p (old i) in
      if q =? 0 then rehash n' (i + 1) old new newtotal mask
      else
        index <- probe_null (Z.to_nat newtotal) new mask
                   (Z.land (hash_page q) mask) ;;
        rehash n' (i + 1) old (upd new index (old i)) newtotal mask
  end.

(** [regions_grow].  [protect_fails] is the result of the call
    [memory_protect_rw(p, newsize)], [map_fails] that of
    [memory_map_fixed(regions, ...)], which the code does not look at.
    The entries are rehashed into the other buffer as it is.  The buffer
    that is left reads as zeroes afterwards when [memory_map_fixed] has
    dropped it, and keeps its entries when it has not. *)
Definition regions_grow (protect_fails map_fails : bool) (s : regions_state)
  : outcome (Z * regions_state) :=
  if regions_total s >? SIZE_MAX / sizeof_region_info / 2 then Done (1, s)
  else
    let newtotal := wrap (regions_total s * 2) in
    let mask := wrap (newtotal - 1) in
    if newtotal >? max_region_table_size then Done (1, s)
    else if protect_fails then Done (1, s)
    else
      tbl <- rehash (Z.to_nat (regions_total s)) 0 (regions s)
               (spare s) newtotal mask ;;
      Done (0, mk_regions tbl
                 (if map_fails then regions s else fresh_buffer)
                 newtotal (wrap (regions_free s + regions_total s))).

Definition regions_insert (protect_fails map_fails : bool) (s : regions_state)
  (q sz guard : Z) : outcome (Z * regions_state) :=
  '(r, s1) <- (if wrap (regions_free s * 4) <? regions_total s
               then regions_grow protect_fails map_fails s else Done (0, s)) ;;
  if negb (r =? 0) then Done (1, s1)
  else
    let mask := wrap (regions_total s1 - 1) in
    index <- probe_null (Z.to_nat (regions_total s1)) (regions s1) mask
               (Z.land (hash_page q) mask) ;;
    Done (0, mk_regions (upd (regions s1) index (mk_region q sz guard))
               (spare s1) (regions_total s1) (wrap (regions_free s1 - 1))).

(** The loop of [regions_find]. *)
Fixpoint find_loop (fuel : nat) (tbl : Z -> region_info) (mask q index : Z)
  : outcome Z :=
  match fuel with
  | O => Diverges
  | S f =>
      let r := p (tbl index) in
      if negb (r =? q) && negb (r =? 0)
      then find_loop f tbl mask q (prev_index index mask)
      else Done index
  end.

(** [regions_find]: the slot of [q], or [None] for the null pointer. *)
Definition regions_find (s : regions_state) (q : Z) : outcome (option Z) :=
  let mask := wrap (regions_total s - 1) in
  index <- find_loop (Z.to_nat (regions_total s)) (regions s) mask q
             (Z.land (hash_page q) mask) ;;
  let r := p (regions s index) in
  Done (if (r =? q) && negb (r =? 0) then Some index else None).

(** [regions[i].p = NULL; regions[i].size = 0;] *)
Definition clear_entry (tbl : Z -> region_info) (i : Z) : Z -> region_info :=
  upd tbl i (mk_region 0 0 (guard_size (tbl i))).

(** The two nested loops of [regions_delete], entered after slot [j] has
    been cleared; [i] is the slot examined last.  Each unit of fuel is one
    turn of the inner loop. *)
Fixpoint delete_loop (fuel : nat) (tbl : Z -> region_info) (mask j i : Z)
  : outcome (Z -> region_info) :=
  match fuel with
  | O => Diverges
  | S f =>
      let i := prev_index i mask in
      if p (tbl i) =? 0 then Done tbl
      else
        let r := Z.land (hash_page (p (tbl i))) mask in
        if ((i <=? r) && (r <? j)) || ((r <? j) && (j <? i))
           || ((j <? i) && (i <=? r))
        then delete_loop f tbl mask j i
        else delete_loop f (clear_entry (upd tbl j (tbl i)) i) mask i i
  end.

(** [regions_delete]; the region is given by its slot. *)
Definition regions_delete (s : regions_state) (i : Z) : outcome regions_state :=
  let mask := wrap (regions_total s - 1) in
  let free := wrap (regions_free s + 1) in
  tbl <- delete_loop (Z.to_nat (regions_total s))
           (clear_entry (regions s) i) mask i i ;;
  Done (mk_regions tbl (spare s) (regions_total s) free).

End Regions.

(** ** The allocator state *)

Module Alloc.

(** The build options of the absent [config.h], and the byte order of the
    target, as parameters of the model. *)
Record config : Type := mk_config {
  SLAB_CANARY : bool;
  ZERO_ON_FREE : bool;
  WRITE_AFTER_FREE_CHECK : bool;
  GUARD_SLABS : bool;
  SLOT_RANDOMIZE : bool;
  LITTLE_ENDIAN : bool
}.

Definition ENOMEM : Z := 12.

Definition min_align : Z := 16.
Definition max_slab_size_class : Z := 16384.

Definition size_classes : list Z :=
  [ (* 0 *) 0;
    (* 16 *) 16; 32; 48; 64; 80; 96; 112; 128;
    (* 32 *) 160; 192; 224; 256;
    (* 64 *) 320; 384; 448; 512;
    (* 128 *) 640; 768; 896; 1024;
    (* 256 *) 1280; 1536; 1792; 2048;
    (* 512 *) 2560; 3072; 3584; 4096;
    (* 1024 *) 5120; 6144; 7168; 8192;
    (* 2048 *) 10240; 12288; 14336; 16384 ].

Definition size_class_slots : list Z :=
  [ (* 0 *) 256;
    (* 16 *) 256; 128; 85; 64; 51; 42; 36; 64;
    (* 32 *) 51; 64; 54; 64;
    (* 64 *) 64; 64; 64; 64;
    (* 128 *) 64; 64; 64; 64;
    (* 256 *) 16; 16; 16; 16;
    (* 512 *) 8; 8; 8; 8;
    (* 1024 *) 8; 8; 8; 8;
    (* 2048 *) 6; 5; 4; 4 ].

Definition N_SIZE_CLASSES : Z := Z.of_nat (List.length size_classes).

(** [size_classes[class]] and [size_class_slots[class]] *)
Definition class_size (class : Z) : Z := nth (Z.to_nat class) size_classes 0.
Definition class_slots (class : Z) : Z := nth (Z.to_nat class) size_class_slots 0.

Record size_info : Type := mk_size_info {
  info_size : Z;
  info_class : Z
}.

(** The [for] loop of [get_size_info], [n] classes from [class] on. *)
Fixpoint scan_classes (n : nat) (class size : Z) : outcome size_info :=
  match n with
  | O => Fatal "invalid size for slabs"
  | S n' =>
      let real_size := class_size class in
      if size <=? real_size then Done (mk_size_info real_size class)
      else scan_classes n' (class + 1) size
  end.

Definition get_size_info (size : Z) : outcome size_info :=
  if size =? 0 then Done (mk_size_info 0 0)
  else if size <=? 128 then
    Done (mk_size_info (Z.land (wrap (size + 15)) (wrap (Z.lnot 15)))
                       (wrap (Z.shiftr (wrap (size - 1)) 4 + 1)))
  else scan_classes (Z.to_nat (N_SIZE_CLASSES - 9)) 9 size.

Definition get_slab_size (slots size : Z) : Z := PAGE_CEILING (wrap (slots * size)).

(** limit on the number of cached empty slabs before attempting purging
    instead *)
Definition max_empty_slabs_total : Z := 64 * 1024.

Definition class_region_size : Z := 128 * 1024 * 1024 * 1024.
Definition real_class_region_size : Z := class_region_size * 2.
Definition slab_region_size : Z := real_class_region_size * N_SIZE_CLASSES.

Definition sizeof_slab_metadata : Z := 32.

(** A [struct slab_metadata *] is kept as the index of the entry in the
    class's [slab_info] array; [None] is the null pointer. *)
Record slab_metadata : Type := mk_metadata {
  bitmap : Z;
  next : option Z;
  prev : option Z;
  canary_value : Z
}.

(** An entry of freshly committed metadata memory. *)
Definition zero_metadata : slab_metadata := mk_metadata 0 None None 0.

(** Modelled from the spec: the state of the PRNG of the absent
    [random.h], as the draws still to come. *)
Definition random_state : Type := list Z.

(** [struct size_class] without its lock.  [slab_info] is the metadata
    array by index, [slab_info_addr] its address; the two divisors stand
    for the [libdivide] structures made from them. *)
Record size_class : Type := mk_size_class {
  class_region_start : Z;
  slab_info_addr : Z;
  slab_info : Z -> slab_metadata;
  partial_slabs : option Z;
  empty_slabs : option Z;
  empty_slabs_total : Z;
  free_slabs_head : option Z;
  free_slabs_tail : option Z;
  size_divisor : Z;
  slab_size_divisor : Z;
  rng : random_state;
  metadata_allocated : Z;
  metadata_count : Z
}.

Definition zero_size_class : size_class :=
  mk_size_class 0 0 (fun _ => zero_metadata) None None 0 None None 0 0 [] 0 0.

(** The calls into the page provider ([memory.h], [pages.h]) and libc. *)
Inductive os_call : Type :=
| Sysconf_pagesize
| MemoryMap (size : Z)
| MemoryMapFixed (addr size : Z)
| MemoryUnmap (addr size : Z)
| MemoryProtectRW (addr size : Z)
| MemoryProtectRO_root
| MemoryRemapFixed (old old_size new new_size : Z)
| AllocatePages (size guard_size : Z) (randomize : bool)
| AllocatePagesAligned (size alignment guard_size : Z)
| DeallocatePages (addr size guard_size : Z)
| PthreadAtfork.

(** The process: the read-only root [ro], the per-class state, the region
    table, user memory by byte address, [errno]; [os_next] holds the
    values the next calls into the page provider return, [os_log] the
    calls made so far, latest first, and [seeds] the streams the next
    calls of [random_state_init] install. *)
Record state : Type := mk_state {
  slab_region_start : Z;
  slab_region_end : Z;
  ro_regions0 : Z;
  ro_regions1 : Z;
  initialized : bool;
  size_class_metadata : Z -> size_class;
  regions_rng : random_state;
  regions_addr : Z;
  rtable : Regions.regions_state;
  mem : Z -> Z;
  errno : Z;
  os_next : list Z;
  os_log : list os_call;
  seeds : list random_state
}.

(** *** Field updates *)

Definition set_bitmap (m : slab_metadata) (v : Z) : slab_metadata :=
  mk_metadata v (next m) (prev m) (canary_value m).
Definition set_next (m : slab_metadata) (v : option Z) : slab_metadata :=
  mk_metadata (bitmap m) v (prev m) (canary_value m).
Definition set_prev (m : slab_metadata) (v : option Z) : slab_metadata :=
  mk_metadata (bitmap m) (next m) v (canary_value m).
Definition set_canary_value (m : slab_metadata) (v : Z) : slab_metadata :=
  mk_metadata (bitmap m) (next m) (prev m) v.

Definition set_slab_info (c : size_class) (v : Z -> slab_metadata) : size_class :=
  mk_size_class (class_region_start c) (slab_info_addr c) v (partial_slabs c)
    (empty_slabs c) (empty_slabs_total c) (free_slabs_head c) (free_slabs_tail c)
    (size_divisor c) (slab_size_divisor c) (rng c) (metadata_allocated c)
    (metadata_count c).
Definition set_partial_slabs (c : size_class) (v : option Z) : size_class :=
  mk_size_class (class_region_start c) (slab_info_addr c) (slab_info c) v
    (empty_slabs c) (empty_slabs_total c) (free_slabs_head c) (free_slabs_tail c)
    (size_divisor c) (slab_size_divisor c) (rng c) (metadata_allocated c)
    (metadata_count c).
Definition set_empty_slabs (c : size_class) (v : option Z) : size_class :=
  mk_size_class (class_region_start c) (slab_info_addr c) (slab_info c)
    (partial_slabs c) v (empty_slabs_total c) (free_slabs_head c)
    (free_slabs_tail c) (size_divisor c) (slab_size_divisor c) (rng c)
    (metadata_allocated c) (metadata_count c).
Definition set_empty_slabs_total (c : size_class) (v : Z) : size_class :=
  mk_size_class (class_region_start c) (slab_info_addr c) (slab_info c)
    (partial_slabs c) (empty_slabs c) v (free_slabs_head c) (free_slabs_tail c)
    (size_divisor c) (slab_size_divisor c) (rng c) (metadata_allocated c)
    (metadata_count c).
Definition set_free_slabs_head (c : size_class) (v : option Z) : size_class :=
  mk_size_class (class_region_start c) (slab_info_addr c) (slab_info c)
    (partial_slabs c) (empty_slabs c) (empty_slabs_total c) v (free_slabs_tail c)
    (size_divisor c) (slab_size_divisor c) (rng c) (metadata_allocated c)
    (metadata_count c).
Definition set_free_slabs_tail (c : size_class) (v : option Z) : size_class :=
  mk_size_class (class_region_start c) (slab_info_addr c) (slab_info c)
    (partial_slabs c) (empty_slabs c) (empty_slabs_total c) (free_slabs_head c) v
    (size_divisor c) (slab_size_divisor c) (rng c) (metadata_allocated c)
    (metadata_count c).
Definition set_rng (c : size_class) (v : random_state) : size_class :=
  mk_size_class (class_region_start c) (slab_info_addr c) (slab_info c)
    (partial_slabs c) (empty_slabs c) (empty_slabs_total c) (free_slabs_head c)
    (free_slabs_tail c) (size_divisor c) (slab_size_divisor c) v
    (metadata_allocated c) (metadata_count c).
Definition set_metadata_allocated (c : size_class) (v : Z) : size_class :=
  mk_size_class (class_region_start c) (slab_info_addr c) (slab_info c)
    (partial_slabs c) (empty_slabs c) (empty_slabs_total c) (free_slabs_head c)
    (free_slabs_tail c) (size_divisor c) (slab_size_divisor c) (rng c) v
    (metadata_count c).
Definition set_metadata_count (c : size_class) (v : Z) : size_class :=
  mk_size_class (class_region_start c) (slab_info_addr c) (slab_info c)
    (partial_slabs c) (empty_slabs c) (empty_slabs_total c) (free_slabs_head c)
    (free_slabs_tail c) (size_divisor c) (slab_size_divisor c) (rng c)
    (metadata_allocated c) v.

(** [c->slab_info[i] = f(c->slab_info[i])] *)
Definition md_update (c : size_class) (i : Z) (f : slab_metadata -> slab_metadata)
  : size_class :=
  set_slab_info c (upd (slab_info c) i (f (slab_info c i))).

Definition set_classes (s : state) (v : Z -> size_class) : state :=
  mk_state (slab_region_start s) (slab_region_end s) (ro_regions0 s)
    (ro_regions1 s) (initialized s) v (regions_rng s) (regions_addr s)
    (rtable s) (mem s) (errno s) (os_next s) (os_log s) (seeds s).
Definition set_mem (s : state) (v : Z -> Z) : state :=
  mk_state (slab_region_start s) (slab_region_end s) (ro_regions0 s)
    (ro_regions1 s) (initialized s) (size_class_metadata s) (regions_rng s)
    (regions_addr s) (rtable s) v (errno s) (os_next s) (os_log s) (seeds s).
Definition set_errno (s : state) (v : Z) : state :=
  mk_state (slab_region_start s) (slab_region_end s) (ro_regions0 s)
    (ro_regions1 s) (initialized s) (size_class_metadata s) (regions_rng s)
    (regions_addr s) (rtable s) (mem s) v (os_next s) (os_log s) (seeds s).
Definition set_os (s : state) (results : list Z) (log : list os_call) : state :=
  mk_state (slab_region_start s) (slab_region_end s) (ro_regions0 s)
    (ro_regions1 s) (initialized s) (size_class_metadata s) (regions_rng s)
    (regions_addr s) (rtable s) (mem s) (errno s) results log (seeds s).
Definition set_regions (s : state) (addr : Z) (t : Regions.regions_state) : state :=
  mk_state (slab_region_start s) (slab_region_end s) (ro_regions0 s)
    (ro_regions1 s) (initialized s) (size_class_metadata s) (regions_rng s)
    addr t (mem s) (errno s) (os_next s) (os_log s) (seeds s).
Definition set_regions_rng (s : state) (v : random_state) : state :=
  mk_state (slab_region_start s) (slab_region_end s) (ro_regions0 s)
    (ro_regions1 s) (initialized s) (size_class_metadata s) v (regions_addr s)
    (rtable s) (mem s) (errno s) (os_next s) (os_log s) (seeds s).
Definition set_seeds (s : state) (v : list random_state) : state :=
  mk_state (slab_region_start s) (slab_region_end s) (ro_regions0 s)
    (ro_regions1 s) (initialized s) (size_class_metadata s) (regions_rng s)
    (regions_addr s) (rtable s) (mem s) (errno s) (os_next s) (os_log s) v.
Definition set_ro_regions (s : state) (r0 r1 : Z) : state :=
  mk_state (slab_region_start s) (slab_region_end s) r0 r1 (initialized s)
    (size_class_metadata s) (regions_rng s) (regions_addr s) (rtable s) (mem s)
    (errno s) (os_next s) (os_log s) (seeds s).
Definition set_slab_region (s : state) (start end_ : Z) : state :=
  mk_state start end_ (ro_regions0 s) (ro_regions1 s) (initialized s)
    (size_class_metadata s) (regions_rng s) (regions_addr s) (rtable s) (mem s)
    (errno s) (os_next s) (os_log s) (seeds s).
Definition set_initialized (s : state) (v : bool) : state :=
  mk_state (slab_region_start s) (slab_region_end s) (ro_regions0 s)
    (ro_regions1 s) v (size_class_metadata s) (regions_rng s) (regions_addr s)
    (rtable s) (mem s) (errno s) (os_next s) (os_log s) (seeds s).

(** *** Calls that read and write the state *)

Definition M (A : Type) : Type := state -> outcome (A * state).

Definition ret {A : Type} (a : A) : M A := fun s => Done (a, s).

Definition bindM {A B : Type} (m : M A) (k : A -> M B) : M B :=
  fun s =>
    match m s with
    | Done (a, s') => k a s'
    | Fatal msg => Fatal msg
    | Crash => Crash
    | Diverges => Diverges
    end.

Definition fatal_error {A : Type} (msg : string) : M A := fun _ => Fatal msg.

Definition lift {A : Type} (o : outcome A) : M A :=
  fun s =>
    match o with
    | Done a => Done (a, s)
    | Fatal msg => Fatal msg
    | Crash => Crash
    | Diverges => Diverges
    end.

Declare Scope alloc_scope.
Delimit Scope alloc_scope with alloc.
Notation "x <- m ;; k" := (bindM m (fun x => k))
  (at level 61, m at next level, right associativity) : alloc_scope.
Notation "' pat <- m ;; k" := (bindM m (fun x => match x with pat => k end))
  (at level 61, pat pattern, m at next level, right associativity) : alloc_scope.
Notation "m ;;; k" := (bindM m (fun _ => k))
  (at level 61, right associativity) : alloc_scope.
Local Open Scope alloc_scope.

Definition get_state : M state := fun s => Done (s, s).
Definition modify (f : state -> state) : M unit := fun s => Done (tt, f s).

Definition get_class (class : Z) : M size_class :=
  fun s => Done (size_class_metadata s class, s).
Definition put_class (class : Z) (c : size_class) : M unit :=
  fun s => Done (tt, set_classes s (upd (size_class_metadata s) class c)).


(** *** The collaborators *)

Section WithConfig.

Variable cfg : config.

(** either sizeof(uint64_t) or 0 *)
Definition canary_size : Z := if SLAB_CANARY cfg then 8 else 0.

Definition canary_mask : Z :=
  if LITTLE_ENDIAN cfg then 0xffffffffffffff00 else 0x00ffffffffffffff.

(** Modelled from the spec: the page provider and libc.  A call is
    logged and returns the next value of [os_next] (0 once they are used
    up): a status, 0 for success, or an address, 0 for none. *)
Definition os (c : os_call) : M Z :=
  fun s => Done (hd 0 (os_next s), set_os s (tl (os_next s)) (c :: os_log s)).

(** [n] bytes of value [v] from address [a] on. *)
Definition memset (m : Z -> Z) (a v n : Z) : Z -> Z :=
  fun x => if (a <=? x) && (x <? a + n) then v else m x.

(** [n] bytes copied from [src] to [dst]. *)
Definition memcpy (m : Z -> Z) (dst src n : Z) : Z -> Z :=
  fun x => if (dst <=? x) && (x <? dst + n) then m (src + (x - dst)) else m x.

Definition memory_protect_rw (addr size : Z) : M Z := os (MemoryProtectRW addr size).
Definition memory_protect_ro_root : M Z := os MemoryProtectRO_root.
Definition memory_map (size : Z) : M Z := os (MemoryMap size).
Definition memory_unmap (addr size : Z) : M Z := os (MemoryUnmap addr size).

(** [map_fixed] drops what the range holds and leaves the reservation: the
    range reads as zeroes when it is committed again. *)
Definition memory_map_fixed (addr size : Z) : M Z :=
  r <- os (MemoryMapFixed addr size) ;;
  if r =? 0 then fun s => Done (r, set_mem s (memset (mem s) addr 0 size))
  else ret r.

(** [pages]: a fresh committed range, zero-filled. *)
Definition allocate_pages (size guard_size : Z) (randomize : bool) : M Z :=
  q <- os (AllocatePages size guard_size randomize) ;;
  if q =? 0 then ret q
  else fun s => Done (q, set_mem s (memset (mem s) q 0 size)).

Definition allocate_pages_aligned (size alignment guard_size : Z) : M Z :=
  q <- os (AllocatePagesAligned size alignment guard_size) ;;
  if q =? 0 then ret q
  else fun s => Done (q, set_mem s (memset (mem s) q 0 size)).

Definition deallocate_pages (addr size guard_size : Z) : M Z :=
  os (DeallocatePages addr size guard_size).

(** [remap_fixed] moves the pages of the old range to the new one. *)
Definition memory_remap_fixed (old old_size new new_size : Z) : M Z :=
  r <- os (MemoryRemapFixed old old_size new new_size) ;;
  if r =? 0 then
    fun s => Done (r, set_mem s (memcpy (mem s) new old (Z.min old_size new_size)))
  else ret r.

(** Modelled from the spec: the PRNG, [u64(state)], [u16_uniform(state,
    n)] and [u64_uniform(state, n)]: the next draw, reduced to the range
    of the result. *)
Definition get_random_u64 (r : random_state) : Z * random_state :=
  (wrap (hd 0 r), tl r).

Definition get_random_u16_uniform (r : random_state) (bound : Z) : Z * random_state :=
  ((if bound =? 0 then 0 else hd 0 r mod bound), tl r).

Definition get_random_u64_uniform (r : random_state) (bound : Z) : Z * random_state :=
  ((if bound =? 0 then 0 else hd 0 r mod bound), tl r).

(** [init(state)]: the state is seeded afresh. *)
Definition random_state_init : M random_state :=
  fun s => Done (hd [] (seeds s), set_seeds s (tl (seeds s))).

(** Modelled from the spec: [libdivide_u64_do] and [libdivide_u32_do] of
    the absent [third_party/libdivide.h], the quotient by the divisor the
    structure was generated from; the 32-bit one takes its numerator as
    [uint32_t]. *)
Definition libdivide_u64_do (numer denom : Z) : Z := numer / denom.
Definition libdivide_u32_do (numer denom : Z) : Z := (numer mod 2 ^ 32) / denom.

(** The object representation of a [uint64_t], and back. *)
Definition bytes_of_u64 (v : Z) : list Z :=
  let le := map (fun i => Z.land (Z.shiftr v (8 * i)) 255) [0; 1; 2; 3; 4; 5; 6; 7] in
  if LITTLE_ENDIAN cfg then le else rev le.

Fixpoint u64_of_le (l : list Z) : Z :=
  match l with
  | [] => 0
  | b :: l' => b + 256 * u64_of_le l'
  end.

Definition u64_of_bytes (l : list Z) : Z :=
  u64_of_le (if LITTLE_ENDIAN cfg then l else rev l).

Fixpoint store_bytes (m : Z -> Z) (a : Z) (l : list Z) : Z -> Z :=
  match l with
  | [] => m
  | b :: l' => store_bytes (upd m a b) (a + 1) l'
  end.

Fixpoint load_bytes (m : Z -> Z) (a : Z) (n : nat) : list Z :=
  match n with
  | O => []
  | S n' => m a :: load_bytes m (a + 1) n'
  end.

(** *** The slab engine *)

(** [__builtin_ffsl]: one plus the index of the least significant 1-bit,
    0 for 0; the search below looks at bits [i], [i+1], ... *)
Fixpoint ffs_from (n : nat) (i x : Z) : Z :=
  match n with
  | O => 0
  | S n' => if Z.testbit x i then i + 1 else ffs_from n' (i + 1) x
  end.

Definition ffsl (x : Z) : Z := ffs_from 64 0 x.

Definition ffzl (x : Z) : Z := ffsl (wrap (Z.lnot x)).

Definition get_slab (c : size_class) (slab_size metadata : Z) : Z :=
  wrap (class_region_start c + wrap (metadata * slab_size)).

Definition get_metadata_max (slab_size : Z) : Z := class_region_size / slab_size.

(** [alloc_metadata]: the new entry, or [None] for [NULL]. *)
Definition alloc_metadata (class slab_size : Z) (non_zero_size : bool)
  : M (option Z) :=
  c <- get_class class ;;
  grown <-
    (if metadata_count c >=? metadata_allocated c then
       let metadata_max := get_metadata_max slab_size in
       if metadata_count c >=? metadata_max then
         (fun s => Done (false, set_errno s ENOMEM))
       else
         let allocate := wrap (metadata_allocated c * 2) in
         let allocate := if allocate >? metadata_max then metadata_max else allocate in
         r <- memory_protect_rw (slab_info_addr c)
                (wrap (allocate * sizeof_slab_metadata)) ;;
         if negb (r =? 0) then ret false
         else put_class class (set_metadata_allocated c allocate) ;;; ret true
     else ret true) ;;
  if negb grown then ret None
  else
    c <- get_class class ;;
    let metadata := metadata_count c in
    let slab := get_slab c slab_size metadata in
    r <- (if non_zero_size then memory_protect_rw slab slab_size else ret 0) ;;
    if negb (r =? 0) then ret None
    else
      let c := set_metadata_count c (wrap (metadata_count c + 1)) in
      let c := if GUARD_SLABS cfg
               then set_metadata_count c (wrap (metadata_count c + 1)) else c in
      put_class class c ;;;
      ret (Some metadata).

Definition check_index (index : Z) : outcome unit :=
  if index >=? 64 then Fatal "invalid index" else Done tt.

Definition set_slot (metadata : slab_metadata) (index : Z) : outcome slab_metadata :=
  (_ <- check_index index ;;
   Done (set_bitmap metadata (Z.lor (bitmap metadata) (wrap (Z.shiftl 1 index)))))%outcome.

Definition clear_slot (metadata : slab_metadata) (index : Z) : outcome slab_metadata :=
  (_ <- check_index index ;;
   Done (set_bitmap metadata
           (Z.land (bitmap metadata) (wrap (Z.lnot (wrap (Z.shiftl 1 index)))))))%outcome.

Definition get_slot (metadata : slab_metadata) (index : Z) : outcome bool :=
  (_ <- check_index index ;;
   Done (negb (Z.land (Z.shiftr (bitmap metadata) index) 1 =? 0)))%outcome.

Definition get_mask (slots : Z) : Z :=
  if slots <? 64 then wrap (Z.shiftl (wrap (Z.lnot 0)) slots) else 0.

Definition get_free_slot (r : random_state) (slots : Z) (metadata : slab_metadata)
  : outcome (Z * random_state) :=
  let slots := if slots >? 64 then 64 else slots in
  let masked := Z.lor (bitmap metadata) (get_mask slots) in
  if masked =? wrap (Z.lnot 0) then Fatal "no zero bits"
  else if SLOT_RANDOMIZE cfg then
    (* randomize start location for linear search *)
    let '(start, r') := get_random_u16_uniform r slots in
    let random_split := wrap (Z.lnot (wrap (Z.shiftl (wrap (Z.lnot 0)) start))) in
    let slot := ffzl (Z.lor masked random_split) in
    if negb (slot =? 0) then Done (wrap (slot - 1), r')
    else Done (wrap (ffzl masked - 1), r')
  else Done (wrap (ffzl masked - 1), r).

Definition has_free_slots (slots : Z) (metadata : slab_metadata) : bool :=
  let slots := if slots >? 64 then 64 else slots in
  let masked := Z.lor (bitmap metadata) (get_mask slots) in
  negb (masked =? wrap (Z.lnot 0)).

Definition is_free_slab (metadata : slab_metadata) : bool := bitmap metadata =? 0.

Definition get_metadata (c : size_class) (q : Z) : outcome Z :=
  let offset := wrap (q - class_region_start c) in
  let index := libdivide_u64_do offset (slab_size_divisor c) in
  (* still caught without this check either as a read access violation or
     "double free" *)
  if index >=? metadata_allocated c
  then Fatal "invalid free within a slab yet to be used"
  else Done index.

Definition slot_pointer (size slab slot : Z) : Z := wrap (slab + wrap (slot * size)).

(** The loop of [write_after_free_check], [n] turns from offset [i] on. *)
Fixpoint write_after_free_loop (n : nat) (m : Z -> Z) (q i size : Z) : outcome unit :=
  match n with
  | O => Done tt
  | S n' =>
      if i <? size then
        if negb (u64_of_bytes (load_bytes m (q + i) 8) =? 0)
        then Fatal "detected write after free"
        else write_after_free_loop n' m q (i + 8) size
      else Done tt
  end.

Definition write_after_free_check (q size : Z) : M unit :=
  if negb (WRITE_AFTER_FREE_CHECK cfg) then ret tt
  else fun s =>
    lift (write_after_free_loop (Z.to_nat ((size + 7) / 8)) (mem s) q 0 size) s.

Definition set_canary (metadata : slab_metadata) (q size : Z) : M unit :=
  fun s =>
    Done (tt, set_mem s
      (store_bytes (mem s) (q + size - canary_size)
         (firstn (Z.to_nat canary_size) (bytes_of_u64 (canary_value metadata))))).

(** The statements every path of [allocate_small] runs on the slab it has
    chosen: [slot = get_free_slot(&c->rng, slots, metadata);
    set_slot(metadata, slot); p = slot_pointer(size, slab, slot);]. *)
Definition take_slot (c : size_class) (slots size slab_size metadata : Z)
  : outcome (size_class * Z * Z) :=
  ('(slot, r') <- get_free_slot (rng c) slots (slab_info c metadata) ;;
   let c := set_rng c r' in
   md <- set_slot (slab_info c metadata) slot ;;
   let c := set_slab_info c (upd (slab_info c) metadata md) in
   Done (c, slot, slot_pointer size (get_slab c slab_size metadata) slot))%outcome.

Definition allocate_small (requested_size : Z) : M Z :=
  info <- lift (get_size_info requested_size) ;;
  let size := if negb (info_size info =? 0) then info_size info else 16 in
  let class := info_class info in
  let slots := class_slots class in
  let slab_size := get_slab_size slots size in
  c <- get_class class ;;
  match partial_slabs c with
  | None =>
      match empty_slabs c with
      | Some metadata =>
          let c := set_empty_slabs c (next (slab_info c metadata)) in
          let c := set_empty_slabs_total c (wrap (empty_slabs_total c - slab_size)) in
          let c := md_update c metadata (fun m => set_prev (set_next m None) None) in
          let c := set_partial_slabs c (Some metadata) in
          '(c, slot, q) <- lift (take_slot c slots size slab_size metadata) ;;
          put_class class c ;;;
          (if negb (requested_size =? 0) then
             write_after_free_check q (size - canary_size) ;;;
             set_canary (slab_info c metadata) q size
           else ret tt) ;;;
          ret q
      | None =>
          match free_slabs_head c with
          | Some metadata =>
              let '(v, r') := get_random_u64 (rng c) in
              let c := set_rng c r' in
              let c := md_update c metadata (fun m => set_canary_value m v) in
              let slab := get_slab c slab_size metadata in
              put_class class c ;;;
              r <- (if negb (requested_size =? 0)
                    then memory_protect_rw slab slab_size else ret 0) ;;
              if negb (r =? 0) then ret 0
              else
                let c := set_free_slabs_head c (next (slab_info c metadata)) in
                let c := match free_slabs_head c with
                         | None => set_free_slabs_tail c None
                         | Some _ => c
                         end in
                let c := md_update c metadata (fun m => set_prev (set_next m None) None) in
                let c := set_partial_slabs c (Some metadata) in
                '(c, slot, q) <- lift (take_slot c slots size slab_size metadata) ;;
                put_class class c ;;;
                (if negb (requested_size =? 0)
                 then set_canary (slab_info c metadata) q size else ret tt) ;;;
                ret q
          | None =>
              found <- alloc_metadata class slab_size (negb (requested_size =? 0)) ;;
              match found with
              | None => ret 0
              | Some metadata =>
                  c <- get_class class ;;
                  let '(v, r') := get_random_u64 (rng c) in
                  let c := set_rng c r' in
                  let c := md_update c metadata
                             (fun m => set_canary_value m (Z.land v canary_mask)) in
                  let c := set_partial_slabs c (Some metadata) in
                  '(c, slot, q) <- lift (take_slot c slots size slab_size metadata) ;;
                  put_class class c ;;;
                  (if negb (requested_size =? 0)
                   then set_canary (slab_info c metadata) q size else ret tt) ;;;
                  ret q
              end
          end
      end
  | Some metadata =>
      '(c, slot, q) <- lift (take_slot c slots size slab_size metadata) ;;
      let c :=
        if negb (has_free_slots slots (slab_info c metadata)) then
          let c := set_partial_slabs c (next (slab_info c metadata)) in
          match partial_slabs c with
          | Some head => md_update c head (fun m => set_prev m None)
          | None => c
          end
        else c in
      put_class class c ;;;
      (if negb (requested_size =? 0) then
         write_after_free_check q (size - canary_size) ;;;
         set_canary (slab_info c metadata) q size
       else ret tt) ;;;
      ret q
  end.

Definition slab_size_class (q : Z) : M Z :=
  fun s =>
    let offset := wrap (q - slab_region_start s) in
    Done (offset / real_class_region_size, s).

Definition slab_usable_size (q : Z) : M Z :=
  class <- slab_size_class q ;;
  ret (class_size class).

Definition enqueue_free_slab (c : size_class) (metadata : Z) : size_class :=
  let c := md_update c metadata (fun m => set_next m None) in
  let c := match free_slabs_tail c with
           | Some tail => md_update c tail (fun m => set_next m (Some metadata))
           | None => set_free_slabs_head c (Some metadata)
           end in
  set_free_slabs_tail c (Some metadata).

(** The slab [metadata], full until now, goes to the head of the partial
    list: [metadata->next = c->partial_slabs; metadata->prev = NULL;
    if (c->partial_slabs) c->partial_slabs->prev = metadata;
    c->partial_slabs = metadata;]. *)
Definition push_partial (c : size_class) (metadata : Z) : size_class :=
  let c := md_update c metadata
             (fun m => set_prev (set_next m (partial_slabs c)) None) in
  let c := match partial_slabs c with
           | Some head => md_update c head (fun m => set_prev m (Some metadata))
           | None => c
           end in
  set_partial_slabs c (Some metadata).

(** The slab [metadata] leaves the partial list:
    [if (metadata->prev) metadata->prev->next = metadata->next;
    else c->partial_slabs = metadata->next;
    if (metadata->next) metadata->next->prev = metadata->prev;
    metadata->prev = NULL;]. *)
Definition unlink_partial (c : size_class) (metadata : Z) : size_class :=
  let c := match prev (slab_info c metadata) with
           | Some before =>
               md_update c before (fun m => set_next m (next (slab_info c metadata)))
           | None => set_partial_slabs c (next (slab_info c metadata))
           end in
  let c := match next (slab_info c metadata) with
           | Some after =>
               md_update c after (fun m => set_prev m (prev (slab_info c metadata)))
           | None => c
           end in
  md_update c metadata (fun m => set_prev m None).

(** The slab [metadata] goes to the head of the empty list:
    [metadata->next = c->empty_slabs; c->empty_slabs = metadata;
    c->empty_slabs_total += slab_size;]. *)
Definition push_empty (c : size_class) (metadata slab_size : Z) : size_class :=
  let c := md_update c metadata (fun m => set_next m (empty_slabs c)) in
  let c := set_empty_slabs c (Some metadata) in
  set_empty_slabs_total c (wrap (empty_slabs_total c + slab_size)).

(** [deallocate_small]; [expected_size] is [None] for a null pointer. *)
Definition deallocate_small (q : Z) (expected_size : option Z) : M unit :=
  class <- slab_size_class q ;;
  c <- get_class class ;;
  let size := class_size class in
  if match expected_size with
     | Some expected => negb (size =? expected)
     | None => false
     end
  then fatal_error "sized deallocation mismatch"
  else
    let is_zero_size := size =? 0 in
    let size := if is_zero_size then 16 else size in
    let slots := class_slots class in
    let slab_size := get_slab_size slots size in
    metadata <- lift (get_metadata c q) ;;
    let slab := get_slab c slab_size metadata in
    let slot := libdivide_u32_do (wrap (q - slab)) (size_divisor c) in
    if negb (slot_pointer size slab slot =? q)
    then fatal_error "invalid unaligned free"
    else
      taken <- lift (get_slot (slab_info c metadata) slot) ;;
      if negb taken then fatal_error "double free"
      else
        (if negb is_zero_size then
           (if ZERO_ON_FREE cfg
            then fun s => Done (tt, set_mem s (memset (mem s) q 0 (size - canary_size)))
            else ret tt) ;;;
           (if negb (canary_size =? 0) then
              fun s =>
                let canary_value' :=
                  u64_of_bytes (load_bytes (mem s) (q + size - canary_size)
                                  (Z.to_nat canary_size)) in
                if negb (canary_value' =? canary_value (slab_info c metadata))
                then Fatal "canary corrupted"
                else Done (tt, s)
            else ret tt)
         else ret tt) ;;;
        let c := if negb (has_free_slots slots (slab_info c metadata))
                 then push_partial c metadata else c in
        md <- lift (clear_slot (slab_info c metadata) slot) ;;
        let c := set_slab_info c (upd (slab_info c) metadata md) in
        if is_free_slab (slab_info c metadata) then
          let c := unlink_partial c metadata in
          purged <-
            (if wrap (empty_slabs_total c + slab_size) >? max_empty_slabs_total then
               r <- memory_map_fixed slab slab_size ;;
               ret (r =? 0)
             else ret false) ;;
          if purged then put_class class (enqueue_free_slab c metadata)
          else
            (* handle out-of-memory by just putting it into the empty slabs list *)
            put_class class (push_empty c metadata slab_size)
        else put_class class c.

(** *** Initialisation *)

Definition is_init : M bool := fun s => Done (initialized s, s).

Definition enforce_init : M unit :=
  ok <- is_init ;;
  if negb ok then fatal_error "invalid uninitialized allocator usage" else ret tt.

(** The body of the [for] loop of [init_slow_path] for one class. *)
Definition init_class (class : Z) : M unit :=
  r <- random_state_init ;;
  s <- get_state ;;
  let bound := wrap (wrap (real_class_region_size - class_region_size) / PAGE_SIZE - 1) in
  let '(u, rr) := get_random_u64_uniform (regions_rng s) bound in
  modify (fun s => set_regions_rng s rr) ;;;
  let gap := wrap (wrap (u + 1) * PAGE_SIZE) in
  let start := wrap (wrap (slab_region_start s + wrap (real_class_region_size * class)) + gap) in
  let size := class_size class in
  let size := if size =? 0 then 16 else size in
  let slab_size := get_slab_size (class_slots class) size in
  let metadata_max := get_metadata_max slab_size in
  info <- allocate_pages (wrap (metadata_max * sizeof_slab_metadata)) PAGE_SIZE false ;;
  if info =? 0 then fatal_error "failed to allocate slab metadata"
  else
    c <- get_class class ;;
    let allocated := PAGE_SIZE / sizeof_slab_metadata in
    put_class class
      (mk_size_class start info (fun _ => zero_metadata) (partial_slabs c)
         (empty_slabs c) (empty_slabs_total c) (free_slabs_head c)
         (free_slabs_tail c) size slab_size r allocated (metadata_count c)) ;;;
    e <- memory_protect_rw info (wrap (allocated * sizeof_slab_metadata)) ;;
    if negb (e =? 0) then fatal_error "failed to allocate initial slab info"
    else ret tt.

Fixpoint init_classes (n : nat) (class : Z) : M unit :=
  match n with
  | O => ret tt
  | S n' => init_class class ;;; init_classes n' (class + 1)
  end.

Definition init_slow_path : M unit :=
  ok <- is_init ;;
  if ok then ret tt
  else
    pagesize <- os Sysconf_pagesize ;;
    if negb (pagesize =? PAGE_SIZE) then fatal_error "page size mismatch"
    else
      r <- random_state_init ;;
      modify (fun s => set_regions_rng s r) ;;;
      r0 <- allocate_pages Regions.max_region_table_size PAGE_SIZE false ;;
      if r0 =? 0 then fatal_error "failed to reserve memory for regions table"
      else
        r1 <- allocate_pages Regions.max_region_table_size PAGE_SIZE false ;;
        if r1 =? 0 then fatal_error "failed to reserve memory for regions table"
        else
          modify (fun s => set_ro_regions s r0 r1) ;;;
          s <- get_state ;;
          modify (fun s =>
                    set_regions s r0
                      (Regions.mk_regions Regions.fresh_buffer Regions.fresh_buffer
                         (Regions.regions_total (rtable s))
                         (Regions.regions_free (rtable s)))) ;;;
          e <- memory_protect_rw r0
                 (wrap (Regions.regions_total (rtable s) * Regions.sizeof_region_info)) ;;
          if negb (e =? 0) then fatal_error "failed to unprotect memory for regions table"
          else
            start <- memory_map slab_region_size ;;
            if start =? 0 then fatal_error "failed to allocate slab region"
            else
              modify (fun s => set_slab_region s start (wrap (start + slab_region_size))) ;;;
              init_classes (Z.to_nat N_SIZE_CLASSES) 0 ;;;
              modify (fun s => set_initialized s true) ;;;
              e <- memory_protect_ro_root ;;
              if negb (e =? 0) then fatal_error "failed to protect allocator data"
              else
                e <- os PthreadAtfork ;;
                if negb (e =? 0) then fatal_error "pthread_atfork failed"
                else ret tt.

Definition init : M unit :=
  ok <- is_init ;;
  if negb ok then init_slow_path else ret tt.

(** *** Large allocations *)

Definition get_guard_size (size : Z) : M Z :=
  fun s =>
    let '(u, r) := get_random_u64_uniform (regions_rng s) (size / PAGE_SIZE / 8) in
    Done (wrap (wrap (u + 1) * PAGE_SIZE), set_regions_rng s r).

Definition regions_find (q : Z) : M (option Z) :=
  fun s => lift (Regions.regions_find (rtable s) q) s.

(** [regions_insert] on the table of the process.  When the call reaches
    [memory_protect_rw] in [regions_grow], the page provider is asked for
    the other buffer and, if it grants it, to drop the one that is left:
    [regions_grow] makes that call after the entries are rehashed and
    does not look at its result.  Here the answer is read before the
    table is computed; a rehash that does not end is [Diverges] either
    way, and the calls are logged in the order of the code. *)
Definition regions_insert (q size guard_size : Z) : M Z :=
  s <- get_state ;;
  let t := rtable s in
  let asks :=
    (wrap (Regions.regions_free t * 4) <? Regions.regions_total t)
    && negb (Regions.regions_total t >? SIZE_MAX / Regions.sizeof_region_info / 2)
    && negb (wrap (Regions.regions_total t * 2) >? Regions.max_region_table_size) in
  if asks then
    let other := if regions_addr s =? ro_regions0 s
                 then ro_regions1 s else ro_regions0 s in
    e <- memory_protect_rw other
           (wrap (wrap (Regions.regions_total t * 2) * Regions.sizeof_region_info)) ;;
    if e =? 0 then
      m <- memory_map_fixed (regions_addr s)
             (wrap (Regions.regions_total t * Regions.sizeof_region_info)) ;;
      '(res, t') <- lift (Regions.regions_insert false (negb (m =? 0)) t
                            q size guard_size) ;;
      modify (fun s => set_regions s other t') ;;;
      ret res
    else
      '(res, t') <- lift (Regions.regions_insert true false t q size guard_size) ;;
      modify (fun s => set_regions s (regions_addr s) t') ;;;
      ret res
  else
    '(res, t') <- lift (Regions.regions_insert false false t q size guard_size) ;;
    modify (fun s => set_regions s (regions_addr s) t') ;;;
    ret res.

Definition regions_delete (i : Z) : M unit :=
  s <- get_state ;;
  t' <- lift (Regions.regions_delete (rtable s) i) ;;
  modify (fun s => set_regions s (regions_addr s) t').

(** [region->size = size] *)
Definition region_set_size (i size : Z) : M unit :=
  modify (fun s =>
    let t := rtable s in
    let e := Regions.regions t i in
    set_regions s (regions_addr s)
      (Regions.mk_regions
         (upd (Regions.regions t) i
            (Regions.mk_region (Regions.p e) size (Regions.guard_size e)))
         (Regions.spare t) (Regions.regions_total t) (Regions.regions_free t))).

Definition region_at (i : Z) : M Regions.region_info :=
  fun s => Done (Regions.regions (rtable s) i, s).

Definition allocate (size : Z) : M Z :=
  if size <=? max_slab_size_class then allocate_small size
  else
    guard_size <- get_guard_size size ;;
    q <- allocate_pages size guard_size true ;;
    if q =? 0 then ret 0
    else
      r <- regions_insert q size guard_size ;;
      if negb (r =? 0) then
        deallocate_pages q size guard_size ;;;
        ret 0
      else ret q.

Definition deallocate_large (q : Z) (expected_size : option Z) : M unit :=
  enforce_init ;;;
  found <- regions_find q ;;
  match found with
  | None => fatal_error "invalid free"
  | Some i =>
      region <- region_at i ;;
      let size := Regions.size region in
      if match expected_size with
         | Some expected => negb (size =? expected)
         | None => false
         end
      then fatal_error "sized deallocation mismatch"
      else
        let guard_size := Regions.guard_size region in
        regions_delete i ;;;
        deallocate_pages q size guard_size ;;;
        ret tt
  end.

(** *** The entry points *)

Definition adjust_size_for_canaries (size : Z) : Z :=
  if (0 <? size) && (size <=? max_slab_size_class)
  then wrap (size + canary_size) else size.

Definition h_malloc (size : Z) : M Z :=
  init ;;;
  let size := adjust_size_for_canaries size in
  allocate size.

Definition mremap_threshold : Z := 4 * 1024 * 1024.

Definition in_slab_region (q : Z) : M bool :=
  fun s => Done ((slab_region_start s <=? q) && (q <? slab_region_end s), s).

(** The end of [h_realloc]: a new allocation, the copy, the old one
    freed. *)
Definition realloc_move (old size old_size : Z) : M Z :=
  new <- allocate size ;;
  if new =? 0 then ret 0
  else
    let copy_size := if size <? old_size then size else old_size in
    let copy_size := if (0 <? size) && (size <=? max_slab_size_class)
                     then wrap (copy_size - canary_size) else copy_size in
    modify (fun s => set_mem s (memcpy (mem s) new old copy_size)) ;;;
    (if old_size <=? max_slab_size_class
     then deallocate_small old None
     else deallocate_large old None) ;;;
    ret new.

Definition h_realloc (old size : Z) : M Z :=
  if old =? 0 then
    init ;;;
    let size := adjust_size_for_canaries size in
    allocate size
  else
    let size := adjust_size_for_canaries size in
    small <- in_slab_region old ;;
    if small then
      old_size <- slab_usable_size old ;;
      same <- (if size <=? max_slab_size_class then
                 info <- lift (get_size_info size) ;;
                 ret (info_size info =? old_size)
               else ret false) ;;
      if same then ret old
      else realloc_move old size old_size
    else
      enforce_init ;;;
      found <- regions_find old ;;
      match found with
      | None => fatal_error "invalid realloc"
      | Some i =>
          region <- region_at i ;;
          let old_size := Regions.size region in
          let old_guard_size := Regions.guard_size region in
          if PAGE_CEILING old_size =? PAGE_CEILING size then
            region_set_size i size ;;;
            ret old
          else if (size <? old_size) && (size >? max_slab_size_class) then
            (* in-place shrink *)
            let rounded_size := PAGE_CEILING size in
            let old_rounded_size := PAGE_CEILING old_size in
            let new_end := wrap (old + rounded_size) in
            e <- memory_map_fixed new_end old_guard_size ;;
            if negb (e =? 0) then ret 0
            else
              let new_guard_end := wrap (new_end + old_guard_size) in
              memory_unmap new_guard_end (wrap (old_rounded_size - rounded_size)) ;;;
              found <- regions_find old ;;
              match found with
              | None => fatal_error "invalid realloc"
              | Some i => region_set_size i size ;;; ret old
              end
          else
            let copy_size := if size <? old_size then size else old_size in
            if copy_size >=? mremap_threshold then
              new <- allocate size ;;
              if new =? 0 then ret 0
              else
                found <- regions_find old ;;
                match found with
                | None => fatal_error "invalid realloc"
                | Some i =>
                    regions_delete i ;;;
                    e <- memory_remap_fixed old old_size new size ;;
                    (if negb (e =? 0) then
                       modify (fun s => set_mem s (memcpy (mem s) new old copy_size)) ;;;
                       deallocate_pages old old_size old_guard_size
                     else
                       memory_unmap (wrap (old - old_guard_size)) old_guard_size ;;;
                       memory_unmap (wrap (old + PAGE_CEILING old_size)) old_guard_size) ;;;
                    ret new
                end
            else realloc_move old size old_size
      end.

Definition h_free (q : Z) : M unit :=
  if q =? 0 then ret tt
  else
    small <- in_slab_region q ;;
    if small then deallocate_small q None
    else deallocate_large q None.

Definition h_free_sized (q expected_size : Z) : M unit :=
  if q =? 0 then ret tt
  else
    small <- in_slab_region q ;;
    if small then
      info <- lift (get_size_info (adjust_size_for_canaries expected_size)) ;;
      deallocate_small q (Some (info_size info))
    else deallocate_large q (Some expected_size).

Definition h_malloc_usable_size (q : Z) : M Z :=
  if q =? 0 then ret 0
  else
    small <- in_slab_region q ;;
    if small then
      size <- slab_usable_size q ;;
      ret (if negb (size =? 0) then wrap (size - canary_size) else 0)
    else
      enforce_init ;;;
      found <- regions_find q ;;
      if q =? 0 then fatal_error "invalid malloc_usable_size"
      else
        match found with
        | None => fun _ => Crash
        | Some i =>
            region <- region_at i ;;
            ret (Regions.size region)
        end.


(** *** Aligned allocations *)

Definition EINVAL : Z := 22.

(** The [for] loop of [get_size_info_align], [n] classes from [class] on. *)
Fixpoint scan_classes_align (n : nat) (class size alignment : Z) : outcome size_info :=
  match n with
  | O => Fatal "invalid size for slabs"
  | S n' =>
      let real_size := class_size class in
      if (size <=? real_size) && (Z.land real_size (wrap (alignment - 1)) =? 0)
      then Done (mk_size_info real_size class)
      else scan_classes_align n' (class + 1) size alignment
  end.

(** alignment must be a power of 2 <= PAGE_SIZE since slabs are only page
    aligned *)
Definition get_size_info_align (size alignment : Z) : outcome size_info :=
  scan_classes_align (Z.to_nat (N_SIZE_CLASSES - 1)) 1 size alignment.

(** [alloc_aligned]: the status, and the pointer stored through [memptr]
    when there is one. *)
Definition alloc_aligned (alignment size min_alignment : Z) : M (Z * option Z) :=
  if negb (Z.land (wrap (alignment - 1)) alignment =? 0) || (alignment <? min_alignment)
  then ret (EINVAL, None)
  else if alignment <=? PAGE_SIZE then
    size <- (if (size <=? max_slab_size_class) && (alignment >? min_align)
             then info <- lift (get_size_info_align size alignment) ;;
                  ret (info_size info)
             else ret size) ;;
    q <- allocate size ;;
    if q =? 0 then ret (ENOMEM, None)
    else ret (0, Some q)
  else
    guard_size <- get_guard_size size ;;
    q <- allocate_pages_aligned size alignment guard_size ;;
    if q =? 0 then ret (ENOMEM, None)
    else
      r <- regions_insert q size guard_size ;;
      if negb (r =? 0) then
        deallocate_pages q size guard_size ;;;
        ret (ENOMEM, None)
      else ret (0, Some q).

(** [alloc_aligned_simple]; its local [ptr] would be read uninitialised
    if a zero status came without a pointer. *)
Definition alloc_aligned_simple (alignment size : Z) : M Z :=
  '(r, ptr) <- alloc_aligned alignment size 1 ;;
  if negb (r =? 0) then
    modify (fun s => set_errno s r) ;;;
    ret 0
  else
    match ptr with
    | Some q => ret q
    | None => fun _ => Crash
    end.

(** The least alignment [h_posix_memalign] takes is the size of a pointer. *)
Definition h_posix_memalign (alignment size : Z) : M (Z * option Z) :=
  init ;;;
  let size := adjust_size_for_canaries size in
  alloc_aligned alignment size 8.

Definition h_aligned_alloc (alignment size : Z) : M Z :=
  init ;;;
  let size := adjust_size_for_canaries size in
  alloc_aligned_simple alignment size.

Definition h_valloc (size : Z) : M Z :=
  init ;;;
  let size := adjust_size_for_canaries size in
  alloc_aligned_simple PAGE_SIZE size.

Definition h_pvalloc (size : Z) : M Z :=
  let rounded := PAGE_CEILING size in
  if rounded =? 0 then
    modify (fun s => set_errno s ENOMEM) ;;;
    ret 0
  else
    init ;;;
    let size := adjust_size_for_canaries size in
    alloc_aligned_simple PAGE_SIZE rounded.

(** *** [h_calloc] *)

Definition h_calloc (nmemb size : Z) : M Z :=
  (* __builtin_mul_overflow(nmemb, size, &total_size) *)
  if nmemb * size >? SIZE_MAX then
    modify (fun s => set_errno s ENOMEM) ;;;
    ret 0
  else
    let total_size := nmemb * size in
    init ;;;
    let total_size := adjust_size_for_canaries total_size in
    if ZERO_ON_FREE cfg then allocate total_size
    else
      q <- allocate total_size ;;
      if q =? 0 then ret 0
      else
        (if negb (size =? 0) && (size <=? max_slab_size_class)
         then modify (fun s =>
                set_mem s (memset (mem s) q 0 (wrap (total_size - canary_size))))
         else ret tt) ;;;
        ret q.

(** *** Object sizes *)

Definition h_malloc_object_size (q : Z) : M Z :=
  if q =? 0 then ret 0
  else
    small <- in_slab_region q ;;
    if small then
      size <- slab_usable_size q ;;
      ret (if negb (size =? 0) then wrap (size - canary_size) else 0)
    else
      ok <- is_init ;;
      if negb ok then ret 0
      else
        found <- regions_find q ;;
        if q =? 0 then ret SIZE_MAX
        else
          match found with
          | None => fun _ => Crash
          | Some i =>
              region <- region_at i ;;
              ret (Regions.size region)
          end.

Definition h_malloc_object_size_fast (q : Z) : M Z :=
  if q =? 0 then ret 0
  else
    small <- in_slab_region q ;;
    if small then
      size <- slab_usable_size q ;;
      ret (if negb (size =? 0) then wrap (size - canary_size) else 0)
    else
      ok <- is_init ;;
      if negb ok then ret 0
      else ret SIZE_MAX.

(** *** [h_malloc_trim] *)

(** The [while] loop of [h_malloc_trim] over the empty list of a class,
    [iterator] being the slab looked at.  A walk that has purged [fuel]
    slabs and still has one before it is reported as divergent; the caller
    passes the number of metadata entries of the class. *)
Fixpoint trim_loop (fuel : nat) (class slab_size : Z) (iterator : option Z)
  (is_trimmed : bool) : M (option Z * bool) :=
  match iterator with
  | None => ret (None, is_trimmed)
  | Some it =>
      match fuel with
      | O => fun _ => Diverges
      | S f =>
          c <- get_class class ;;
          let slab := get_slab c slab_size it in
          r <- memory_map_fixed slab slab_size ;;
          if negb (r =? 0) then ret (Some it, is_trimmed)
          else
            let trimmed := it in
            let iterator := next (slab_info c it) in
            let c := set_empty_slabs_total c (wrap (empty_slabs_total c - slab_size)) in
            put_class class (enqueue_free_slab c trimmed) ;;;
            trim_loop f class slab_size iterator true
      end
  end.

(** The body of the [for] loop of [h_malloc_trim] for one class. *)
Definition trim_class (class : Z) (is_trimmed : bool) : M bool :=
  c <- get_class class ;;
  let slab_size := get_slab_size (class_slots class) (class_size class) in
  '(iterator, is_trimmed) <-
    trim_loop (Z.to_nat (metadata_count c)) class slab_size (empty_slabs c) is_trimmed ;;
  c <- get_class class ;;
  put_class class (set_empty_slabs c iterator) ;;;
  ret is_trimmed.

Fixpoint trim_classes (n : nat) (class : Z) (is_trimmed : bool) : M bool :=
  match n with
  | O => ret is_trimmed
  | S n' =>
      is_trimmed <- trim_class class is_trimmed ;;
      trim_classes n' (class + 1) is_trimmed
  end.

Definition h_malloc_trim : M Z :=
  ok <- is_init ;;
  if negb ok then ret 0
  else
    (* skip zero byte size class since there's nothing to change *)
    is_trimmed <- trim_classes (Z.to_nat (N_SIZE_CLASSES - 1)) 1 false ;;
    ret (if is_trimmed then 1 else 0).

(** *** After a fork *)

Fixpoint reseed_classes (n : nat) (class : Z) : M unit :=
  match n with
  | O => ret tt
  | S n' =>
      r <- random_state_init ;;
      c <- get_class class ;;
      put_class class (set_rng c r) ;;;
      reseed_classes n' (class + 1)
  end.

Definition post_fork_child : M unit :=
  r <- random_state_init ;;
  modify (fun s => set_regions_rng s r) ;;;
  reseed_classes (Z.to_nat N_SIZE_CLASSES) 0.

(** trigger early initialization to set up pthread_atfork and protect
    state as soon as possible *)
Definition trigger_early_init : M unit :=
  q <- h_malloc 16 ;;
  h_free q.
End WithConfig.

End Alloc.

(** ** Region table: what the invariants say *)

Module RegionsSpec.
Import Regions.

(** Number of downward probing steps, around the table of [n] slots, from
    slot [a] to slot [b]. *)
Definition dist (n a b : Z) : Z := if b <=? a then a - b else a - b + n.

(** The bucket a pointer hashes to in a table of [n] slots. *)
Abbreviation home n q := (Z.land (hash_page q) (wrap (n - 1))).

(** Every slot a probe crosses on its way from an entry's bucket down to
    the entry is occupied. *)
Definition probe_ok (tbl : Z -> region_info) (n : Z) : Prop :=
  forall i j, 0 <= i < n -> 0 <= j < n -> p (tbl i) <> 0 ->
    dist n (home n (p (tbl i))) j < dist n (home n (p (tbl i))) i ->
    p (tbl j) <> 0.

(** No base pointer sits in two slots. *)
Definition no_duplicates (tbl : Z -> region_info) (n : Z) : Prop :=
  forall i j, 0 <= i < n -> 0 <= j < n -> p (tbl i) <> 0 ->
    p (tbl i) = p (tbl j) -> i = j.

Definition occ (e : region_info) : Z := if p e =? 0 then 0 else 1.

(** Occupied slots among the first [k]. *)
Fixpoint count_upto (tbl : Z -> region_info) (k : nat) : Z :=
  match k with
  | O => 0
  | S k' => occ (tbl (Z.of_nat k')) + count_upto tbl k'
  end.

Definition occupied_count (s : regions_state) : Z :=
  count_upto (regions s) (Z.to_nat (regions_total s)).

(** Whether [q] is the base pointer of one of the first [k] slots. *)
Fixpoint held_upto (tbl : Z -> region_info) (q : Z) (k : nat) : bool :=
  match k with
  | O => false
  | S k' => (p (tbl (Z.of_nat k')) =? q) || held_upto tbl q k'
  end.

Definition present (s : regions_state) (q : Z) : bool :=
  held_upto (regions s) q (Z.to_nat (regions_total s)).

(** Every present key is found, at its slot, by [regions_find]. *)
Definition findable (s : regions_state) : Prop :=
  forall i, 0 <= i < regions_total s -> p (regions s i) <> 0 ->
    regions_find s (p (regions s i)) = Done (Some i).

(** The other buffer holds no entry: it is fresh memory, or
    [memory_map_fixed] has dropped what it held. *)
Definition spare_clean (s : regions_state) : Prop :=
  forall i, p (spare s i) = 0.

(** [region->size = size], the assignment [h_realloc] makes to the region
    it has found when it resizes it in place. *)
Definition resize (s : regions_state) (i sz : Z) : regions_state :=
  mk_regions
    (upd (regions s) i (mk_region (p (regions s i)) sz (guard_size (regions s i))))
    (spare s) (regions_total s) (regions_free s).

(** The tables the calls produce from the initial one, whatever the page
    provider answers and whatever pointer is registered.  [allocate]
    inserts the pointer the page provider has returned, which is not
    null; [deallocate_large] deletes the region [regions_find] returned,
    the loops of [regions_delete] taking the turns they need;
    [h_realloc] sets the size of a region. *)
Inductive reachable : regions_state -> Prop :=
| reach_init : reachable init_regions
| reach_insert s q sz guard protect_fails map_fails r s' :
    reachable s ->
    0 < q < 2 ^ 64 ->
    regions_insert protect_fails map_fails s q sz guard = Done (r, s') ->
    reachable s'
| reach_delete s q i fuel tbl :
    reachable s ->
    regions_find s q = Done (Some i) ->
    delete_loop fuel (clear_entry (regions s) i) (wrap (regions_total s - 1)) i i
      = Done tbl ->
    reachable (mk_regions tbl (spare s) (regions_total s) (wrap (regions_free s + 1)))
| reach_resize s i sz :
    reachable s -> reachable (resize s i sz).

(** The tables produced while every [memory_map_fixed] of [regions_grow]
    succeeds.  The table then holds the live regions and no other, so
    that the pointer [allocate] inserts, being a new mapping, is not the
    base pointer of any entry. *)
Inductive clean_reachable : regions_state -> Prop :=
| clean_init : clean_reachable init_regions
| clean_insert s q sz guard protect_fails r s' :
    clean_reachable s ->
    0 < q < 2 ^ 64 -> present s q = false ->
    regions_insert protect_fails false s q sz guard = Done (r, s') ->
    clean_reachable s'
| clean_delete s q i s' :
    clean_reachable s ->
    regions_find s q = Done (Some i) ->
    regions_delete s i = Done s' ->
    clean_reachable s'
| clean_resize s i sz :
    clean_reachable s -> clean_reachable (resize s i sz).

(** A request to the table.  [protect_fails] and [map_fails] are what the
    page provider answers should the insertion grow the table. *)
Inductive request : Type :=
| Insert (q sz guard : Z) (protect_fails map_fails : bool)
| Delete (q : Z).

(** One request served; [None] when the request cannot occur ([allocate]
    handed a null pointer or one the table holds) or the call does not
    return a state. *)
Definition serve (s : regions_state) (r : request) : option regions_state :=
  match r with
  | Insert q sz guard protect_fails map_fails =>
      if (0 <? q) && (q <? 2 ^ 64) && negb (present s q) then
        match regions_insert protect_fails map_fails s q sz guard with
        | Done (_, s') => Some s'
        | _ => None
        end
      else None
  | Delete q =>
      match regions_find s q with
      | Done (Some i) =>
          match regions_delete s i with
          | Done s' => Some s'
          | _ => None
          end
      | _ => None
      end
  end.

Fixpoint run (s : regions_state) (rs : list request) : option regions_state :=
  match rs with
  | [] => Some s
  | r :: rs' =>
      match serve s r with
      | Some s' => run s' rs'
      | None => None
      end
  end.

(** No [memory_map_fixed] of the requests fails. *)
Definition map_fixed_succeeds (r : request) : bool :=
  match r with
  | Insert _ _ _ _ map_fails => negb map_fails
  | Delete _ => true
  end.

(** The invariant of the loops of [regions_delete]: slot [j] is the gap,
    the probe paths are whole except where they cross the gap, and the
    entries between the gap and the slot [i] examined last do not cross
    it. *)
Definition delete_inv (tbl : Z -> region_info) (n j i : Z) : Prop :=
  0 <= j < n /\ 0 <= i < n /\ p (tbl j) = 0 /\
  (forall s x, 0 <= s < n -> 0 <= x < n -> p (tbl s) <> 0 ->
     dist n (home n (p (tbl s))) x < dist n (home n (p (tbl s))) s ->
     x <> j -> p (tbl x) <> 0) /\
  (forall s, 0 <= s < n -> 0 < dist n j s <= dist n j i ->
     p (tbl s) <> 0 /\ dist n (home n (p (tbl s))) s < dist n j s).

(** Two tables of [n] slots hold the same entries. *)
Definition same_entries (tbl tbl' : Z -> region_info) (n : Z) : Prop :=
  forall e, p e <> 0 ->
    ((exists s, 0 <= s < n /\ tbl s = e) <-> (exists s, 0 <= s < n /\ tbl' s = e)).

(** What a successful [regions_grow] makes of the table. *)
Definition grown (s s' : regions_state) : Prop :=
  regions_total s' = 2 * regions_total s /\
  regions_free s' = regions_free s + regions_total s /\
  (forall i, 0 <= i < regions_total s' -> p (regions s' i) <> 0 ->
     exists t, 0 <= t < regions_total s /\ regions s t = regions s' i) /\
  (forall t, 0 <= t < regions_total s -> p (regions s t) <> 0 ->
     exists i, 0 <= i < regions_total s' /\ regions s' i = regions s t).

(** The invariant of the table. *)
Definition Inv (s : regions_state) : Prop :=
  exists k, 8 <= k <= 25 /\ regions_total s = 2 ^ k /\
    0 <= regions_free s /\
    occupied_count s + regions_free s = regions_total s /\
    regions_total s <= 4 * regions_free s + 4 /\
    probe_ok (regions s) (regions_total s) /\
    no_duplicates (regions s) (regions_total s).

(** What holds of the table whatever the page provider answers: the
    counter [regions_free] stays within a quarter of the table, and the
    occupied slots and the counter together exceed the table by no more
    than the entries the buffers left behind can have added. *)
Definition Shape (s : regions_state) : Prop :=
  exists k, 8 <= k <= 25 /\ regions_total s = 2 ^ k /\
    0 <= regions_free s /\
    regions_total s <= 4 * regions_free s + 4 /\
    occupied_count s + regions_free s <= 2 * regions_total s - 256 /\
    (forall i, regions_total s <= i -> p (regions s i) = 0) /\
    (forall i, regions_total s <= i -> p (spare s i) = 0).

(** Large allocations at the pages [first + 1], ..., [first + n], in
    that order; none makes the page provider fail. *)
Fixpoint pages_from (first : Z) (n : nat) : list request :=
  match n with
  | O => []
  | S k => pages_from first k
           ++ [Insert (PAGE_SIZE * (first + Z.of_nat n)) 100000 PAGE_SIZE false false]
  end.

(** The page-aligned pointers [4096 * 1], ..., [4096 * n]. *)
Definition page_inserts (n : nat) : list request := pages_from 0 n.

Definition table_after (rs : list request) : regions_state :=
  match run init_regions rs with
  | Some s => s
  | None => init_regions
  end.

(** Three regions whose pages hash to bucket 127 of the initial table and
    one that does not; the first is then freed, which shifts the two
    behind it. *)
Definition sample_requests : list request :=
  [ Insert (PAGE_SIZE * 1) 100000 PAGE_SIZE false false;
    Insert (PAGE_SIZE * 257) 200000 (2 * PAGE_SIZE) false false;
    Insert (PAGE_SIZE * 2) 300000 PAGE_SIZE false false;
    Insert (PAGE_SIZE * 513) 400000 (3 * PAGE_SIZE) false false;
    Delete (PAGE_SIZE * 1) ].

Definition sample_table : regions_state := table_after sample_requests.

(** The initial table after 128, and after 193, large allocations. *)
Definition half_full_table : regions_state := table_after (page_inserts 128).
Definition crowded_table : regions_state := table_after (page_inserts 193).

(** 193 large allocations; the next one grows the table to 512 slots, and
    [memory_map_fixed] fails to drop the buffer of 256 that is left; the
    first region is freed; 192 more allocations, which leave 127 slots
    free by the counter; and one more, which grows the table to 1024
    slots, rehashed into the buffer that was not dropped. *)
Definition stale_requests : list request :=
  page_inserts 193
  ++ [Insert (PAGE_SIZE * 194) 100000 PAGE_SIZE false true;
      Delete (PAGE_SIZE * 1)]
  ++ pages_from 194 193.

Definition stale_table : regions_state := table_after stale_requests.

End RegionsSpec.

(** ** The allocator: what the properties say *)

Module AllocSpec.
Import Alloc.

(** The process image before the first call. *)
Definition boot (results : list Z) (streams : list random_state) : state :=
  mk_state 0 0 0 0 false (fun _ => zero_size_class) [] 0 Regions.init_regions
    (fun _ => 0) 0 results [] streams.

(** The default build: every hardening feature on, little-endian. *)
Definition hardened : config := mk_config true true true true true true.

(** A page provider that grants everything [init] asks for: the two
    buffers of the region table, the slab region at [2 ^ 44], and the
    metadata array of each class. *)
Definition granted : list Z :=
  [PAGE_SIZE; 2 ^ 40; 2 ^ 41; 0; 2 ^ 44]
  ++ flat_map (fun i => [2 ^ 42 + Z.of_nat i * 2 ^ 32; 0]) (seq 0 37)
  ++ [0; 0].

(** The state of a call that returned, the boot image otherwise. *)
Definition state_of {A : Type} (o : outcome (A * state)) : state :=
  match o with
  | Done (_, s) => s
  | _ => boot [] []
  end.

Definition returns {A : Type} (o : outcome A) : bool :=
  match o with
  | Done _ => true
  | _ => false
  end.

Definition value_of {A : Type} (d : A) (o : outcome (A * state)) : A :=
  match o with
  | Done (a, _) => a
  | _ => d
  end.

(** The classes of the requests of 1 to 128 bytes, checked one by one. *)
Definition small_class_ok (x : Z) : bool :=
  match get_size_info x with
  | Done info =>
      (0 <=? info_class info) && (info_class info <? 37)
      && (info_size info =? class_size (info_class info))
      && (x <=? info_size info)
  | _ => false
  end.

(** *** What [deallocate_small] derives from a pointer *)

(** The class, from the stripe the pointer lies in. *)
Abbreviation free_class s q :=
  (wrap (q - slab_region_start s) / real_class_region_size).

(** The spacing of the slots of a class: its size, 16 for class 0. *)
Abbreviation slot_size class :=
  (if class_size class =? 0 then 16 else class_size class).

Abbreviation class_slab_size class :=
  (get_slab_size (class_slots class) (slot_size class)).

(** The slab index, from the offset within the class's region. *)
Abbreviation slab_index s q :=
  (libdivide_u64_do
     (wrap (q - class_region_start (size_class_metadata s (free_class s q))))
     (slab_size_divisor (size_class_metadata s (free_class s q)))).

(** The slot, from the offset within the slab. *)
Abbreviation slot_index s q :=
  (libdivide_u32_do
     (wrap (q - get_slab (size_class_metadata s (free_class s q))
                  (class_slab_size (free_class s q)) (slab_index s q)))
     (size_divisor (size_class_metadata s (free_class s q)))).

(** The sized-deallocation check lets the call through. *)
Definition expected_ok (e : option Z) (class : Z) : Prop :=
  match e with
  | Some expected => class_size class = expected
  | None => True
  end.

(** The diagnostics [deallocate_small] can abort with before it touches
    the bitmap. *)
Definition free_diagnostics : list string :=
  [ "sized deallocation mismatch"%string;
    "invalid free within a slab yet to be used"%string;
    "invalid unaligned free"%string;
    "invalid index"%string;
    "double free"%string ].

(** *** The invariant of a class's metadata *)

(** A metadata pointer is null or points at an entry in use. *)
Definition ptr_ok (c : size_class) (o : option Z) : Prop :=
  match o with
  | None => True
  | Some i => 0 <= i < metadata_count c /\ i < metadata_allocated c
  end.

(** The entries from the high-water count on are as the page provider
    handed them out. *)
Definition untouched_zero (c : size_class) : Prop :=
  forall i, metadata_count c <= i -> slab_info c i = zero_metadata.

Definition metadata_wf (class : Z) (c : size_class) : Prop :=
  2 <= metadata_allocated c <= get_metadata_max (class_slab_size class) /\
  0 <= metadata_count c <= metadata_allocated c + 1 /\
  untouched_zero c /\
  ptr_ok c (partial_slabs c) /\ ptr_ok c (empty_slabs c) /\
  ptr_ok c (free_slabs_head c) /\ ptr_ok c (free_slabs_tail c) /\
  (forall i, ptr_ok c (next (slab_info c i)) /\ ptr_ok c (prev (slab_info c i))).

(** The counts of a class may grow, everything else stays. *)
Definition grows (c c' : size_class) : Prop :=
  class_region_start c' = class_region_start c /\
  slab_info_addr c' = slab_info_addr c /\
  size_divisor c' = size_divisor c /\
  slab_size_divisor c' = slab_size_divisor c /\
  slab_info c' = slab_info c /\
  partial_slabs c' = partial_slabs c /\
  empty_slabs c' = empty_slabs c /\
  free_slabs_head c' = free_slabs_head c /\
  free_slabs_tail c' = free_slabs_tail c /\
  rng c' = rng c /\
  metadata_allocated c <= metadata_allocated c' /\
  metadata_count c <= metadata_count c'.

(** Every field of the state but the classes, the memory, [errno] and the
    record of the page provider is the same. *)
Definition same_root (s s' : state) : Prop :=
  slab_region_start s' = slab_region_start s /\
  slab_region_end s' = slab_region_end s /\
  initialized s' = initialized s /\
  rtable s' = rtable s.

(** What [init] fixes for a class: where its region starts and the two
    divisors. *)
Definition class_geometry (s : state) (class : Z) : Prop :=
  let c := size_class_metadata s class in
  (exists gap, PAGE_SIZE <= gap <= class_region_size - PAGE_SIZE /\
     class_region_start c
     = slab_region_start s + real_class_region_size * class + gap) /\
  size_divisor c = slot_size class /\
  slab_size_divisor c = class_slab_size class.

(** The state once [init] has run. *)
Definition state_wf (s : state) : Prop :=
  initialized s = true /\
  0 < slab_region_start s /\
  slab_region_end s = slab_region_start s + slab_region_size /\
  slab_region_end s <= 2 ^ 64 /\
  forall class, 0 <= class < N_SIZE_CLASSES ->
    class_geometry s class /\ metadata_wf class (size_class_metadata s class).

(** Every field but the memory is the same in the two states. *)
Definition same_but_mem (s s' : state) : Prop := s' = set_mem s (mem s').

(** A state with the page provider ready to hand out the address
    [2 ^ 45]. *)
Definition with_results (s : state) (results : list Z) : state :=
  set_os s results (os_log s).

(** The test of [regions_insert] and those of [regions_grow] that come
    before the call to the page provider: whether an insertion asks the
    page provider for the other buffer. *)
Definition grow_asked (t : Regions.regions_state) : bool :=
  (wrap (Regions.regions_free t * 4) <? Regions.regions_total t)
  && negb (Regions.regions_total t >? SIZE_MAX / Regions.sizeof_region_info / 2)
  && negb (wrap (Regions.regions_total t * 2) >? Regions.max_region_table_size).

(** The guard size [get_guard_size] draws in state [s] for a large

    allocation of [size] bytes. *)
Definition drawn_guard (s : state) (size : Z) : Z :=
  value_of 0 (get_guard_size size s).


(** The fields of a class the list operations leave alone. *)
Definition same_geometry (c c' : size_class) : Prop :=
  class_region_start c' = class_region_start c /\
  slab_info_addr c' = slab_info_addr c /\
  size_divisor c' = size_divisor c /\
  slab_size_divisor c' = slab_size_divisor c /\
  metadata_allocated c' = metadata_allocated c /\
  metadata_count c' = metadata_count c.

Definition same_bitmaps (c c' : size_class) : Prop :=
  forall i, bitmap (slab_info c' i) = bitmap (slab_info c i).

(** The three facts about a list operation on the slab [idx]: geometry,
    bitmaps, and the metadata invariant. *)
Definition keeps (class idx : Z) (c c' : size_class) : Prop :=
  same_geometry c c' /\ same_bitmaps c c' /\
  (metadata_wf class c -> ptr_ok c (Some idx) -> metadata_wf class c').

(** *** [deallocate_small] past its checks *)

(** [slab_info[metadata].bitmap &= ~(1UL << slot)] *)
Definition cleared (c : size_class) (metadata slot : Z) : size_class :=
  md_update c metadata
    (fun m => set_bitmap m (Z.land (bitmap m) (wrap (Z.lnot (wrap (Z.shiftl 1 slot)))))).

(** What [deallocate_small] does with the pointer [q] of class [class]
    once it has derived the entry [metadata] and the slot [slot] and found
    the slot taken; [c] is the state of the class. *)
Definition release_slot (cfg : config) (class : Z) (c : size_class)
  (metadata slot q : Z) : M unit :=
  ((if negb (class_size class =? 0) then
      (if ZERO_ON_FREE cfg
       then fun s =>
              Done (tt, set_mem s (memset (mem s) q 0 (slot_size class - canary_size cfg)))
       else ret tt) ;;;
      (if negb (canary_size cfg =? 0) then
         fun s =>
           if negb (u64_of_bytes cfg
                      (load_bytes (mem s) (q + slot_size class - canary_size cfg)
                         (Z.to_nat (canary_size cfg)))
                    =? canary_value (slab_info c metadata))
           then Fatal "canary corrupted"
           else Done (tt, s)
       else ret tt)
    else ret tt) ;;;
   let c1 := if negb (has_free_slots (class_slots class) (slab_info c metadata))
             then push_partial c metadata else c in
   let c2 := cleared c1 metadata slot in
   if is_free_slab (slab_info c2 metadata) then
     let c3 := unlink_partial c2 metadata in
     purged <-
       (if wrap (empty_slabs_total c3 + class_slab_size class) >? max_empty_slabs_total
        then
          r <- memory_map_fixed (get_slab c (class_slab_size class) metadata)
                 (class_slab_size class) ;;
          ret (r =? 0)
        else ret false) ;;
     if purged then put_class class (enqueue_free_slab c3 metadata)
     else put_class class (push_empty c3 metadata (class_slab_size class))
   else put_class class c2)%alloc.

(** *** Scenarios *)

Section Scenarios.

Local Open Scope alloc_scope.

(** The streams [random_state_init] installs: the one of the region table,
    then one per class; only class 36 draws anything but zeroes, its
    twelfth draw. *)
Definition streams : list random_state :=
  repeat [] 37 ++ [repeat 0 11 ++ [0x1234567890abcdef]].

Definition booted : state := boot granted streams.

(** Five allocations of the largest class fill one slab and start a
    second; the first four are then freed. *)
Definition fill_and_free : M Z :=
  a <- h_malloc hardened 16376 ;;
  b <- h_malloc hardened 16376 ;;
  c <- h_malloc hardened 16376 ;;
  d <- h_malloc hardened 16376 ;;
  e <- h_malloc hardened 16376 ;;
  h_free hardened a ;;;
  h_free hardened b ;;;
  h_free hardened c ;;;
  h_free hardened d ;;;
  ret e.

(** The state with one cached empty slab and one live allocation. *)
Definition one_cached : state := state_of (fill_and_free booted).
Definition last_pointer : Z := value_of 0 (fill_and_free booted).

(** The last allocation freed too: its slab goes to the free list.  Four
    more allocations then use up the cached slab. *)
Definition purge_and_refill : M unit :=
  e <- fill_and_free ;;
  h_free hardened e ;;;
  h_malloc hardened 16376 ;;;
  h_malloc hardened 16376 ;;;
  h_malloc hardened 16376 ;;;
  h_malloc hardened 16376 ;;;
  ret tt.

(** The state in which the next allocation of class 36 reuses the slab of
    the free list. *)
Definition before_reuse : state := state_of (purge_and_refill booted).

(** One allocation of 16 bytes. *)
Definition one_small : state := state_of (h_malloc hardened 16 booted).
Definition small_pointer : Z := value_of 0 (h_malloc hardened 16 booted).

(** The allocation of 16 bytes freed. *)
Definition small_freed : state := state_of (h_free hardened small_pointer one_small).

(** One allocation of 0 bytes. *)
Definition one_empty : state := state_of (h_malloc hardened 0 booted).
Definition empty_pointer : Z := value_of 0 (h_malloc hardened 0 booted).

(** One allocation of 20000 bytes, at the address the page provider hands
    out for it. *)
Definition large_pointer : Z := 2 ^ 45.
Definition one_large : state :=
  state_of (h_malloc hardened 20000 (with_results one_small [large_pointer])).

End Scenarios.

(** *** Scenarios of a build without the hardening features *)

Section PlainScenarios.

Local Open Scope alloc_scope.

(** A build with every hardening feature off, little-endian. *)
Definition plain : config := mk_config false false false false false true.

(** Five chunks of the largest class, four to a slab; the first four are
    freed, which empties their slab. *)
Definition plain_fill_and_free : M Z :=
  a <- h_malloc plain 16384 ;;
  b <- h_malloc plain 16384 ;;
  c <- h_malloc plain 16384 ;;
  d <- h_malloc plain 16384 ;;
  e <- h_malloc plain 16384 ;;
  h_free plain a ;;;
  h_free plain b ;;;
  h_free plain c ;;;
  h_free plain d ;;;
  ret e.

(** The state with one cached empty slab and one live chunk, the only one
    of its slab. *)
Definition plain_cached : state := state_of (plain_fill_and_free booted).
Definition plain_last : Z := value_of 0 (plain_fill_and_free booted).

(** The state after that chunk is freed as well. *)
Definition plain_purged : state :=
  state_of (deallocate_small plain plain_last None plain_cached).


End PlainScenarios.

(** *** The invariant of the slab engine *)

(** The two 64-bit words of every metadata entry are in range. *)
Definition words_ok (c : size_class) : Prop :=
  forall i, 0 <= bitmap (slab_info c i) < 2 ^ 64 /\
            0 <= canary_value (slab_info c i) < 2 ^ 64.

(** Two states of a class with the same bitmaps and canaries. *)
Definition same_words (c c' : size_class) : Prop :=
  forall i, bitmap (slab_info c' i) = bitmap (slab_info c i) /\
            canary_value (slab_info c' i) = canary_value (slab_info c i).

(** The state once [init] has run, with the words in range and the
    region of every class starting on a page. *)
Definition heap_ok (s : state) : Prop :=
  state_wf s /\
  forall class, 0 <= class < N_SIZE_CLASSES ->
    words_ok (size_class_metadata s class) /\
    class_region_start (size_class_metadata s class) mod PAGE_SIZE = 0.

(** The class state [c'] is [c] with the slot [slot] of the slab [m]
    taken: the slot was free, it is the only bit that has changed, and
    the slab lies in committed metadata. *)
Definition took (class : Z) (c c' : size_class) (m slot : Z) : Prop :=
  0 <= slot < class_slots class /\ slot < 64 /\
  0 <= m < metadata_count c' /\ m < metadata_allocated c' /\
  Z.testbit (bitmap (slab_info c m)) slot = false /\
  bitmap (slab_info c' m) = Z.lor (bitmap (slab_info c m)) (wrap (Z.shiftl 1 slot)) /\
  (forall i, i <> m -> bitmap (slab_info c' i) = bitmap (slab_info c i)).

(** The fields of a class that [init] sets once. *)
Definition same_layout (c c' : size_class) : Prop :=
  class_region_start c' = class_region_start c /\
  slab_info_addr c' = slab_info_addr c /\
  size_divisor c' = size_divisor c /\
  slab_size_divisor c' = slab_size_divisor c.

(** Everything outside the slab engine's per-class state, the memory, the
    record of the page provider and [errno] is the same. *)
Definition same_frame (s s' : state) : Prop :=
  slab_region_start s' = slab_region_start s /\
  slab_region_end s' = slab_region_end s /\
  initialized s' = initialized s /\
  rtable s' = rtable s /\
  regions_rng s' = regions_rng s.

(** The class state [c0] on which a path of [allocate_small] takes a slot
    of the slab [m]: the lists of [c] have been rearranged, the bitmaps
    are those of [c]. *)
Definition prepared (class : Z) (c c0 : size_class) (m : Z) : Prop :=
  same_layout c c0 /\
  (forall i, bitmap (slab_info c0 i) = bitmap (slab_info c i)) /\
  metadata_wf class c0 /\ words_ok c0 /\ ptr_ok c0 (Some m).

(** The call has served the pointer [q]: the slot [slot] of the slab [m]
    of the class, which was free; nothing else is taken or released, and
    the invariant of the class is kept. *)
Definition served (class : Z) (s s' : state) (m slot q : Z) : Prop :=
  took class (size_class_metadata s class) (size_class_metadata s' class) m slot /\
  q = slot_pointer (slot_size class)
        (get_slab (size_class_metadata s class) (class_slab_size class) m) slot /\
  same_layout (size_class_metadata s class) (size_class_metadata s' class) /\
  metadata_wf class (size_class_metadata s' class) /\
  words_ok (size_class_metadata s' class) /\
  (forall k, k <> class -> size_class_metadata s' k = size_class_metadata s k) /\
  same_frame s s'.

(** The call has served nothing: the bitmaps are as they were, and the
    invariant of the class is kept. *)
Definition unserved (class : Z) (s s' : state) : Prop :=
  (forall i, bitmap (slab_info (size_class_metadata s' class) i)
             = bitmap (slab_info (size_class_metadata s class) i)) /\
  same_layout (size_class_metadata s class) (size_class_metadata s' class) /\
  metadata_wf class (size_class_metadata s' class) /\
  words_ok (size_class_metadata s' class) /\
  (forall k, k <> class -> size_class_metadata s' k = size_class_metadata s k) /\
  same_frame s s'.

(** The last bytes of the chunk [q] hold the canary of its slab [m]. *)
Definition canary_written (cfg : config) (class : Z) (s' : state) (m q : Z) : Prop :=
  exists mem0,
    mem s' = store_bytes mem0 (q + slot_size class - canary_size cfg)
               (firstn (Z.to_nat (canary_size cfg))
                  (bytes_of_u64 cfg
                     (canary_value (slab_info (size_class_metadata s' class) m)))).

(** A step that never aborts with "detected write after free" and that,
    when it returns, has left the memory as it was. *)
Definition quiet {A : Type} (m : M A) : Prop :=
  forall s,
    m s <> Fatal "detected write after free" /\
    forall a s', m s = Done (a, s') -> mem s' = mem s.

(** The slab [allocate_small] takes a slot of: the head of the partial

    list, else the head of the empty list, else the head of the free
    list, else the entry at the high-water count. *)
Definition chosen_slab (c : size_class) : Z :=
  match partial_slabs c, empty_slabs c, free_slabs_head c with
  | Some m, _, _ => m
  | None, Some m, _ => m
  | None, None, Some m => m
  | None, None, None => metadata_count c
  end.

(** The canary that slab has afterwards: its own on the first two paths,
    the next draw of the class for a slab of the free list, the next draw
    under [canary_mask] for a new slab. *)
Definition chosen_canary (cfg : config) (c : size_class) : Z :=
  match partial_slabs c, empty_slabs c, free_slabs_head c with
  | Some m, _, _ => canary_value (slab_info c m)
  | None, Some m, _ => canary_value (slab_info c m)
  | None, None, Some _ => wrap (hd 0 (rng c))
  | None, None, None => Z.land (wrap (hd 0 (rng c))) (canary_mask cfg)
  end.

(** A class as the program image has it before [init]: no slab, no
    list. *)
Definition fresh_class (c : size_class) : Prop :=
  partial_slabs c = None /\ empty_slabs c = None /\
  free_slabs_head c = None /\ free_slabs_tail c = None /\
  metadata_count c = 0.

(** What the invariant says of one class. *)
Definition class_ready (s : state) (class : Z) : Prop :=
  class_geometry s class /\
  metadata_wf class (size_class_metadata s class) /\
  words_ok (size_class_metadata s class) /\
  class_region_start (size_class_metadata s class) mod PAGE_SIZE = 0.

(** The state right after [init], from the boot image. *)
Definition ready : state := state_of (init booted).

(** The first chunk of 16 bytes served from it. *)
Definition first_small : Z := value_of 0 (h_malloc hardened 16 ready).
Definition ready_one : state := state_of (h_malloc hardened 16 ready).

(** A request of size 0 served from it instead. *)
Definition zero_chunk : Z := value_of 0 (h_malloc hardened 0 ready).
Definition ready_zero : state := state_of (h_malloc hardened 0 ready).


(** A request of 100 bytes on a 64-byte boundary, as the first call
    after [init]. *)
Definition aligned_outcome : outcome ((Z * option Z) * state) :=
  h_posix_memalign hardened (2 ^ 6) 100 ready.
Definition aligned_status : Z := fst (value_of (0, None) aligned_outcome).
Definition aligned_pointer : option Z := snd (value_of (0, None) aligned_outcome).
Definition aligned_state : state := state_of aligned_outcome.

End AllocSpec.

(** * Verification *)

Lemma upd_same {A} (a : Z -> A) i v : upd a i v i = v.
Proof. unfold upd. now rewrite Z.eqb_refl. Qed.

Lemma upd_other {A} (a : Z -> A) i v k : k <> i -> upd a i v k = a k.
Proof. unfold upd. intros H. destruct (Z.eqb_spec k i); congruence. Qed.

Lemma wrap_small x : 0 <= x < 2 ^ 64 -> wrap x = x.
Proof. intros H. unfold wrap. now apply Z.mod_small. Qed.

Lemma wrap_range x : 0 <= wrap x < 2 ^ 64.
Proof. unfold wrap. apply Z.mod_pos_bound. lia. Qed.

(** ** The region table *)

Module RegionsTheory.
Import Regions RegionsSpec.

(** *** Counting occupied slots *)

Lemma occ_range e : 0 <= occ e <= 1.
Proof. unfold occ. destruct (p e =? 0); lia. Qed.

Lemma occ_null e : p e = 0 -> occ e = 0.
Proof. unfold occ. intros ->. reflexivity. Qed.

Lemma occ_held e : p e <> 0 -> occ e = 1.
Proof. unfold occ. intros H. destruct (Z.eqb_spec (p e) 0); congruence. Qed.

Lemma count_upto_bounds tbl m : 0 <= count_upto tbl m <= Z.of_nat m.
Proof.
  induction m as [|m IH]; simpl count_upto; [lia|].
  pose proof (occ_range (tbl (Z.of_nat m))). lia.
Qed.

Lemma count_upto_upd_out tbl i v m :
  Z.of_nat m <= i -> count_upto (upd tbl i v) m = count_upto tbl m.
Proof.
  induction m as [|m IH]; intros Hi; simpl count_upto; [reflexivity|].
  rewrite upd_other by lia. rewrite IH by lia. reflexivity.
Qed.

Lemma count_upto_upd tbl i v m :
  0 <= i < Z.of_nat m ->
  count_upto (upd tbl i v) m = count_upto tbl m - occ (tbl i) + occ v.
Proof.
  induction m as [|m IH]; intros Hi; [lia|]. simpl count_upto.
  destruct (Z.eq_dec i (Z.of_nat m)) as [->|Hne].
  - rewrite upd_same. rewrite count_upto_upd_out by lia. lia.
  - rewrite upd_other by lia. rewrite IH by lia. lia.
Qed.

Lemma exists_null tbl m :
  count_upto tbl m < Z.of_nat m ->
  exists z, 0 <= z < Z.of_nat m /\ p (tbl z) = 0.
Proof.
  induction m as [|m IH]; intros H; [simpl in H; lia|].
  simpl count_upto in H.
  destruct (Z.eq_dec (p (tbl (Z.of_nat m))) 0) as [E|E].
  - exists (Z.of_nat m). split; [lia | assumption].
  - rewrite (occ_held _ E) in H. destruct IH as (z & Hz & Hn); [lia|].
    exists z. split; [lia | assumption].
Qed.

Lemma held_upto_spec tbl q m :
  held_upto tbl q m = true <->
  exists i, 0 <= i < Z.of_nat m /\ p (tbl i) = q.
Proof.
  induction m as [|m IH]; simpl held_upto.
  - split; [discriminate | intros (i & Hi & _); lia].
  - rewrite orb_true_iff, IH, Z.eqb_eq. split.
    + intros [H | (i & Hi & H)]; [exists (Z.of_nat m) | exists i]; split; try lia; assumption.
    + intros (i & Hi & H). destruct (Z.eq_dec i (Z.of_nat m)) as [->|Hne];
        [left; assumption | right; exists i; split; [lia | assumption]].
Qed.

Lemma count_upto_same_p tbl tbl' m :
  (forall i, p (tbl' i) = p (tbl i)) -> count_upto tbl' m = count_upto tbl m.
Proof.
  intros H. induction m as [|m IH]; simpl count_upto; [reflexivity|].
  rewrite IH. unfold occ. rewrite H. reflexivity.
Qed.

(** A table with no entry from slot [m] on has its entries among the first
    [m] slots. *)
Lemma count_upto_beyond tbl m m' :
  (m <= m')%nat -> (forall i, Z.of_nat m <= i -> p (tbl i) = 0) ->
  count_upto tbl m' = count_upto tbl m.
Proof.
  intros Hle Hnull. induction m' as [|m' IH].
  - replace m with O by lia. reflexivity.
  - destruct (Nat.eq_dec m (S m')) as [->|Hne]; [reflexivity|].
    simpl count_upto. rewrite IH by lia.
    rewrite occ_null by (apply Hnull; lia). lia.
Qed.

Lemma count_upto_clean tbl m : (forall i, p (tbl i) = 0) -> count_upto tbl m = 0.
Proof.
  intros H. induction m as [|m IH]; simpl count_upto; [reflexivity|].
  rewrite IH, occ_null by apply H. reflexivity.
Qed.

(** *** Index arithmetic in a table of [2 ^ k] slots *)

Ltac dist_cases :=
  unfold dist in *;
  repeat match goal with
  | |- context [?a <=? ?b] => destruct (Z.leb_spec a b)
  | H : context [?a <=? ?b] |- _ => destruct (Z.leb_spec a b)
  | |- context [?a =? ?b] => destruct (Z.eqb_spec a b)
  | H : context [?a =? ?b] |- _ => destruct (Z.eqb_spec a b)
  end;
  try lia.

Section Table.

Variable k : Z.
Hypothesis Hk : 0 <= k <= 25.

Local Abbreviation n := (2 ^ k).
Local Abbreviation mask := (wrap (2 ^ k - 1)).

Lemma n_bounds : 1 <= n <= 2 ^ 25.
Proof.
  split.
  - assert (0 < 2 ^ k) by (apply Z.pow_pos_nonneg; lia). lia.
  - apply Z.pow_le_mono_r; lia.
Qed.

Lemma mask_eq : mask = n - 1.
Proof.
  apply wrap_small. pose proof n_bounds.
  assert (2 ^ 25 < 2 ^ 64) by (apply Z.pow_lt_mono_r; lia). lia.
Qed.

Lemma land_mask x : Z.land x mask = x mod n.
Proof.
  rewrite mask_eq.
  replace (2 ^ k - 1) with (Z.ones k) by (rewrite Z.ones_equiv; lia).
  apply Z.land_ones. lia.
Qed.

Lemma home_range q : 0 <= home n q < n.
Proof.
  rewrite land_mask.
  apply Z.mod_pos_bound. pose proof n_bounds. lia.
Qed.

Lemma prev_index_eq i :
  0 <= i < n -> prev_index i mask = if i =? 0 then n - 1 else i - 1.
Proof.
  intros Hi. unfold prev_index. pose proof n_bounds as Hn.
  assert (H64 : 2 ^ 25 < 2 ^ 64) by (apply Z.pow_lt_mono_r; lia).
  destruct (Z.eqb_spec i 0) as [->|Hne].
  - rewrite Z.land_comm.
    replace (wrap (0 - 1)) with (Z.ones 64) by (vm_compute; reflexivity).
    rewrite Z.land_ones by lia. rewrite mask_eq. apply Z.mod_small. lia.
  - rewrite wrap_small by lia. rewrite land_mask. apply Z.mod_small. lia.
Qed.

Lemma prev_index_range i : 0 <= i < n -> 0 <= prev_index i mask < n.
Proof.
  intros Hi. rewrite prev_index_eq by assumption.
  destruct (Z.eqb_spec i 0); lia.
Qed.

(** *** Probing for a null slot *)

Lemma probe_null_spec fuel :
  forall tbl idx z,
    0 <= idx < n -> 0 <= z < n -> p (tbl z) = 0 ->
    dist n idx z < Z.of_nat fuel ->
    exists z', probe_null fuel tbl mask idx = Done z' /\
      0 <= z' < n /\ p (tbl z') = 0 /\
      forall j, 0 <= j < n -> dist n idx j < dist n idx z' -> p (tbl j) <> 0.
Proof.
  induction fuel as [|fuel IH]; intros tbl idx z Hidx Hz Hnull Hfuel.
  - exfalso. dist_cases.
  - simpl. destruct (Z.eqb_spec (p (tbl idx)) 0) as [E|E].
    + exists idx. repeat split; try assumption; try lia.
      intros j Hj Hd. exfalso. dist_cases.
    + assert (idx <> z) by congruence.
      pose proof (prev_index_range idx Hidx) as Hp.
      pose proof (prev_index_eq idx Hidx) as Hpe.
      destruct (IH tbl (prev_index idx mask) z Hp Hz Hnull) as (z' & Ez & Rz & Nz & Pz).
      { rewrite Hpe. dist_cases. }
      exists z'. repeat split; try assumption; try lia.
      intros j Hj Hd. destruct (Z.eq_dec j idx) as [->|Hne]; [assumption|].
      apply Pz; [assumption|]. assert (z' <> idx) by congruence.
      rewrite Hpe. dist_cases.
Qed.

(** *** Finding a key *)

Lemma find_loop_present tbl q i :
  probe_ok tbl n -> no_duplicates tbl n ->
  0 <= i < n -> p (tbl i) = q -> q <> 0 ->
  forall fuel idx, 0 <= idx < n ->
    dist n (home n q) idx <= dist n (home n q) i ->
    dist n idx i < Z.of_nat fuel ->
    find_loop fuel tbl mask q idx = Done i.
Proof.
  intros HP HD Hi Hq Hq0. pose proof (home_range q) as Hh.
  induction fuel as [|fuel IH]; intros idx Hidx Hd Hfuel.
  - exfalso. dist_cases.
  - simpl. destruct (Z.eqb_spec (p (tbl idx)) q) as [E|E]; simpl.
    + f_equal. symmetry. apply HD; try assumption; congruence.
    + assert (Hne : idx <> i) by congruence.
      assert (Hocc : p (tbl idx) <> 0).
      { apply (HP i idx Hi Hidx); [congruence|]. rewrite Hq. dist_cases. }
      destruct (Z.eqb_spec (p (tbl idx)) 0) as [E0|_]; [contradiction|]. simpl.
      pose proof (prev_index_range idx Hidx) as Hp.
      pose proof (prev_index_eq idx Hidx) as Hpe.
      apply IH; [assumption| |]; rewrite Hpe; dist_cases.
Qed.

Lemma find_loop_total tbl q z :
  0 <= z < n -> p (tbl z) = 0 ->
  forall fuel idx, 0 <= idx < n -> dist n idx z < Z.of_nat fuel ->
    exists r, find_loop fuel tbl mask q idx = Done r /\ 0 <= r < n.
Proof.
  intros Hz Hnull. induction fuel as [|fuel IH]; intros idx Hidx Hfuel.
  - exfalso. dist_cases.
  - simpl. destruct (negb (p (tbl idx) =? q) && negb (p (tbl idx) =? 0)) eqn:E.
    + pose proof (prev_index_range idx Hidx) as Hp.
      pose proof (prev_index_eq idx Hidx) as Hpe.
      apply IH; [assumption|].
      assert (idx <> z).
      { intros ->. rewrite Hnull in E. simpl in E.
        now rewrite andb_false_r in E. }
      rewrite Hpe. dist_cases.
    + exists idx. split; [reflexivity | assumption].
Qed.

(** *** Deleting with backward shift *)

(** The test of [regions_delete] keeps the entry of slot [i] in place
    exactly when its bucket [r] is reached from [i] before the gap [j]. *)
Lemma keep_test_spec i r j :
  0 <= i < n -> 0 <= r < n -> 0 <= j < n -> i <> j ->
  ((i <=? r) && (r <? j)) || ((r <? j) && (j <? i)) || ((j <? i) && (i <=? r)) = true
  <-> dist n r i < dist n j i.
Proof.
  intros Hi Hr Hj Hne. unfold dist.
  destruct (Z.leb_spec i r), (Z.ltb_spec r j), (Z.ltb_spec j i), (Z.leb_spec i j);
    simpl; split; intros; try lia; try discriminate; try reflexivity.
Qed.

Lemma delete_done tbl j i :
  delete_inv tbl n j i -> p (tbl (prev_index i mask)) = 0 -> probe_ok tbl n.
Proof.
  intros (Hj & Hi & Hjn & Ha & Hb) Hnull s x Hs Hx Hocc Hd.
  apply (Ha s x Hs Hx Hocc Hd). intros ->.
  pose proof (home_range (p (tbl s))) as Hh.
  pose proof (prev_index_range i Hi) as Hp.
  pose proof (prev_index_eq i Hi) as Hpe.
  assert (Hsj : s <> j) by congruence.
  assert (Hsi : s <> prev_index i mask) by congruence.
  destruct (Z_le_gt_dec (dist n j s) (dist n j i)) as [Hin|Hout].
  - destruct (Hb s Hs) as [_ Hkeep]; [split; [|assumption]; dist_cases|].
    revert Hd Hkeep. generalize (home n (p (tbl s))) Hh. intros h Hh' Hd Hkeep.
    dist_cases.
  - assert (Hpj : prev_index i mask <> j).
    { intros E. rewrite Hpe in E. dist_cases. }
    apply (Ha s (prev_index i mask) Hs Hp Hocc); [|assumption|assumption].
    revert Hd. generalize (home n (p (tbl s))) Hh. intros h Hh' Hd.
    rewrite Hpe in *. dist_cases.
Qed.

Lemma delete_keep tbl j i :
  delete_inv tbl n j i ->
  p (tbl (prev_index i mask)) <> 0 ->
  dist n (home n (p (tbl (prev_index i mask)))) (prev_index i mask)
    < dist n j (prev_index i mask) ->
  delete_inv tbl n j (prev_index i mask).
Proof.
  intros (Hj & Hi & Hjn & Ha & Hb) Hocc Hkeep.
  pose proof (prev_index_range i Hi) as Hp.
  pose proof (prev_index_eq i Hi) as Hpe.
  assert (Hpj : prev_index i mask <> j) by congruence.
  repeat split; try assumption; try lia.
  - destruct (Z.eq_dec s (prev_index i mask)) as [->|Hne]; [assumption|].
    apply Hb; [assumption|]. rewrite Hpe in *. dist_cases.
  - destruct (Z.eq_dec s (prev_index i mask)) as [->|Hne]; [assumption|].
    apply Hb; [assumption|]. rewrite Hpe in *. dist_cases.
Qed.

Lemma delete_move tbl j i :
  delete_inv tbl n j i ->
  p (tbl (prev_index i mask)) <> 0 ->
  ~ dist n (home n (p (tbl (prev_index i mask)))) (prev_index i mask)
      < dist n j (prev_index i mask) ->
  delete_inv (clear_entry (upd tbl j (tbl (prev_index i mask))) (prev_index i mask))
             n (prev_index i mask) (prev_index i mask).
Proof.
  intros (Hj & Hi & Hjn & Ha & Hb) Hocc Hmove.
  pose proof (prev_index_range i Hi) as Hp.
  assert (Hpj : prev_index i mask <> j) by congruence.
  set (i' := prev_index i mask) in *.
  unfold clear_entry.
  repeat split; try assumption; try lia.
  - rewrite upd_same. reflexivity.
  - intros s x Hs Hx Hoccs Hd Hxi.
    rewrite upd_other by assumption.
    destruct (Z.eq_dec s i') as [->|Hsi]; [rewrite upd_same in Hoccs; simpl in Hoccs; congruence|].
    rewrite upd_other in Hoccs, Hd by assumption.
    destruct (Z.eq_dec x j) as [->|Hxj]; [rewrite upd_same; assumption|].
    rewrite upd_other by assumption.
    destruct (Z.eq_dec s j) as [->|Hsj].
    + rewrite upd_same in Hd, Hoccs.
      apply (Ha i' x Hp Hx Hocc); [|assumption].
      pose proof (home_range (p (tbl i'))) as Hh.
      revert Hd Hmove. generalize (home n (p (tbl i'))) Hh. intros h Hh' Hd Hmove.
      dist_cases.
    + rewrite upd_other in Hd, Hoccs by assumption.
      apply (Ha s x Hs Hx Hoccs Hd Hxj).
  - exfalso. dist_cases.
  - exfalso. dist_cases.
Qed.

Lemma move_no_duplicates tbl j i' :
  no_duplicates tbl n -> 0 <= j < n -> 0 <= i' < n -> p (tbl j) = 0 ->
  no_duplicates (clear_entry (upd tbl j (tbl i')) i') n.
Proof.
  intros HD Hj Hi Hnull a b Ha Hb Hocc Heq. unfold clear_entry in *.
  destruct (Z.eq_dec a i') as [->|Hai]; [rewrite upd_same in Hocc; simpl in Hocc; congruence|].
  rewrite upd_other in Hocc, Heq by assumption.
  destruct (Z.eq_dec b i') as [->|Hbi].
  { rewrite upd_same in Heq. simpl in Heq. congruence. }
  rewrite (upd_other _ i' _ b) in Heq by assumption.
  destruct (Z.eq_dec a j) as [->|Haj], (Z.eq_dec b j) as [->|Hbj];
    try reflexivity;
    repeat (rewrite upd_same in * ) ;
    repeat (rewrite upd_other in * by assumption).
  - (* a is the gap, now holding the entry of i' *)
    exfalso. apply Hbi. symmetry. apply HD; assumption.
  - exfalso. apply Hai. symmetry. apply HD; try assumption; congruence.
  - apply HD; assumption.
Qed.

Lemma move_count tbl j i' m :
  0 <= j < Z.of_nat m -> 0 <= i' < Z.of_nat m -> i' <> j ->
  p (tbl j) = 0 -> p (tbl i') <> 0 ->
  count_upto (clear_entry (upd tbl j (tbl i')) i') m = count_upto tbl m.
Proof.
  intros Hj Hi Hne Hnull Hocc. unfold clear_entry.
  rewrite !count_upto_upd by assumption.
  rewrite (upd_other _ j _ i') by assumption.
  rewrite (occ_null (tbl j)) by assumption.
  rewrite (occ_held (tbl i')) by assumption.
  rewrite occ_null by reflexivity. lia.
Qed.

Lemma move_same_entries tbl j i' :
  0 <= j < n -> 0 <= i' < n -> i' <> j -> p (tbl j) = 0 ->
  same_entries tbl (clear_entry (upd tbl j (tbl i')) i') n.
Proof.
  intros Hj Hi Hne Hnull e He. unfold clear_entry. split.
  - intros (s & Hs & E). destruct (Z.eq_dec s i') as [->|Hsi].
    + exists j. split; [assumption|]. rewrite upd_other by congruence.
      rewrite upd_same. assumption.
    + exists s. split; [assumption|]. rewrite upd_other by assumption.
      rewrite upd_other; [assumption|]. intros ->. congruence.
  - intros (s & Hs & E). destruct (Z.eq_dec s i') as [->|Hsi].
    + rewrite upd_same in E. subst e. simpl in He. congruence.
    + rewrite upd_other in E by assumption.
      destruct (Z.eq_dec s j) as [->|Hsj].
      * rewrite upd_same in E. exists i'. split; assumption.
      * rewrite upd_other in E by assumption. exists s. split; assumption.
Qed.

Lemma same_entries_refl tbl : same_entries tbl tbl n.
Proof. intros e _. reflexivity. Qed.

Lemma same_entries_trans t1 t2 t3 :
  same_entries t1 t2 n -> same_entries t2 t3 n -> same_entries t1 t3 n.
Proof. intros H1 H2 e He. rewrite (H1 e He). apply H2, He. Qed.

Lemma delete_loop_step f tbl m j i :
  delete_loop (S f) tbl m j i =
  if p (tbl (prev_index i m)) =? 0 then Done tbl
  else if ((prev_index i m <=? Z.land (hash_page (p (tbl (prev_index i m)))) m)
           && (Z.land (hash_page (p (tbl (prev_index i m)))) m <? j))
          || ((Z.land (hash_page (p (tbl (prev_index i m)))) m <? j)
              && (j <? prev_index i m))
          || ((j <? prev_index i m)
              && (prev_index i m <=? Z.land (hash_page (p (tbl (prev_index i m)))) m))
       then delete_loop f tbl m j (prev_index i m)
       else delete_loop f (clear_entry (upd tbl j (tbl (prev_index i m))) (prev_index i m))
              m (prev_index i m) (prev_index i m).
Proof. reflexivity. Qed.

Lemma delete_loop_spec fuel :
  forall tbl j i z,
    delete_inv tbl n j i -> no_duplicates tbl n ->
    0 <= z < n -> z <> j -> p (tbl z) = 0 ->
    0 < dist n i z <= Z.of_nat fuel ->
    exists tbl', delete_loop fuel tbl mask j i = Done tbl' /\
      probe_ok tbl' n /\ no_duplicates tbl' n /\
      count_upto tbl' (Z.to_nat n) = count_upto tbl (Z.to_nat n) /\
      same_entries tbl tbl' n.
Proof.
  induction fuel as [|fuel IH]; intros tbl j i z HI HD Hz Hzj Hnull Hfuel; [lia|].
  pose proof HI as (Hj & Hi & Hjn & Ha & Hb).
  pose proof (prev_index_range i Hi) as Hp.
  pose proof (prev_index_eq i Hi) as Hpe.
  rewrite delete_loop_step.
  destruct (Z.eqb_spec (p (tbl (prev_index i mask))) 0) as [E|E].
  - exists tbl. split; [reflexivity|]. split; [eapply delete_done; eassumption|].
    split; [assumption|]. split; [reflexivity | apply same_entries_refl].
  - assert (Hpj : prev_index i mask <> j) by congruence.
    assert (Hpz : prev_index i mask <> z) by congruence.
    pose proof (home_range (p (tbl (prev_index i mask)))) as Hh.
    pose proof (keep_test_spec (prev_index i mask)
                  (home n (p (tbl (prev_index i mask)))) j Hp Hh Hj Hpj) as Ht.
    destruct (_ || _ || _).
    + apply (IH tbl j (prev_index i mask) z); try assumption.
      * apply delete_keep; try assumption. apply Ht. reflexivity.
      * rewrite Hpe. dist_cases.
    + assert (Hmove : ~ dist n (home n (p (tbl (prev_index i mask)))) (prev_index i mask)
                        < dist n j (prev_index i mask)).
      { intros H. apply Ht in H. discriminate. }
      destruct (IH (clear_entry (upd tbl j (tbl (prev_index i mask))) (prev_index i mask))
                  (prev_index i mask) (prev_index i mask) z)
        as (tbl' & Er & HP' & HD' & Hc & Hs); try assumption.
      * apply delete_move; assumption.
      * apply move_no_duplicates; assumption.
      * congruence.
      * unfold clear_entry. rewrite !upd_other by congruence. assumption.
      * rewrite Hpe. dist_cases.
      * exists tbl'. split; [assumption|]. split; [assumption|]. split; [assumption|].
        pose proof n_bounds as Hn.
        split.
        -- rewrite Hc. apply move_count; try assumption; lia.
        -- eapply same_entries_trans; [|eassumption].
           apply move_same_entries; assumption.
Qed.

(** Clearing an occupied slot of a sound table gives the loops their
    invariant. *)
Lemma clear_delete_inv tbl i :
  probe_ok tbl n -> 0 <= i < n ->
  delete_inv (clear_entry tbl i) n i i.
Proof.
  intros HP Hi. unfold clear_entry. repeat split; try lia.
  - rewrite upd_same. reflexivity.
  - intros s x Hs Hx Hocc Hd Hxi.
    destruct (Z.eq_dec s i) as [->|Hsi]; [rewrite upd_same in Hocc; simpl in Hocc; congruence|].
    rewrite upd_other in Hocc, Hd by assumption. rewrite upd_other by assumption.
    apply (HP s x Hs Hx Hocc Hd).
  - exfalso. dist_cases.
  - exfalso. dist_cases.
Qed.

Lemma clear_no_duplicates tbl i :
  no_duplicates tbl n -> 0 <= i < n -> no_duplicates (clear_entry tbl i) n.
Proof.
  intros HD Hi a b Ha Hb Hocc Heq. unfold clear_entry in *.
  destruct (Z.eq_dec a i) as [->|Hai]; [rewrite upd_same in Hocc; simpl in Hocc; congruence|].
  rewrite upd_other in Hocc, Heq by assumption.
  destruct (Z.eq_dec b i) as [->|Hbi].
  - rewrite upd_same in Heq. simpl in Heq. congruence.
  - rewrite upd_other in Heq by assumption. apply HD; assumption.
Qed.

Lemma delete_table_spec tbl i z :
  probe_ok tbl n -> no_duplicates tbl n ->
  0 <= i < n -> p (tbl i) <> 0 -> 0 <= z < n -> p (tbl z) = 0 ->
  exists tbl', delete_loop (Z.to_nat n) (clear_entry tbl i) mask i i = Done tbl' /\
    probe_ok tbl' n /\ no_duplicates tbl' n /\
    count_upto tbl' (Z.to_nat n) = count_upto tbl (Z.to_nat n) - 1 /\
    same_entries (clear_entry tbl i) tbl' n.
Proof.
  intros HP HD Hi Hocc Hz Hnull. pose proof n_bounds as Hn.
  assert (Hzi : z <> i) by congruence.
  destruct (delete_loop_spec (Z.to_nat n) (clear_entry tbl i) i i z)
    as (tbl' & E & HP' & HD' & Hc & Hs); try assumption.
  - apply clear_delete_inv; assumption.
  - apply clear_no_duplicates; assumption.
  - unfold clear_entry. rewrite upd_other by assumption. assumption.
  - rewrite Z2Nat.id by lia. dist_cases.
  - exists tbl'. repeat split; try assumption.
    + rewrite Hc. unfold clear_entry. rewrite count_upto_upd by lia.
      rewrite (occ_held (tbl i)) by assumption. rewrite occ_null by reflexivity. lia.
    + apply Hs; assumption.
    + apply Hs; assumption.
Qed.

(** *** Inserting at the first null slot *)

Lemma exists_null_table tbl :
  count_upto tbl (Z.to_nat n) < n -> exists z, 0 <= z < n /\ p (tbl z) = 0.
Proof.
  intros H. pose proof n_bounds as Hn.
  destruct (exists_null tbl (Z.to_nat n)) as (z & Hz & Hnull); [lia|].
  exists z. split; [lia | assumption].
Qed.

Lemma insert_table_spec tbl e :
  probe_ok tbl n -> no_duplicates tbl n ->
  p e <> 0 -> (forall i, 0 <= i < n -> p (tbl i) <> p e) ->
  (exists z, 0 <= z < n /\ p (tbl z) = 0) ->
  exists idx, probe_null (Z.to_nat n) tbl mask (home n (p e)) = Done idx /\
    0 <= idx < n /\ p (tbl idx) = 0 /\
    probe_ok (upd tbl idx e) n /\ no_duplicates (upd tbl idx e) n /\
    count_upto (upd tbl idx e) (Z.to_nat n) = count_upto tbl (Z.to_nat n) + 1.
Proof.
  intros HP HD He Hfresh (z & Hz & Hnull).
  pose proof n_bounds as Hn. pose proof (home_range (p e)) as Hh.
  destruct (probe_null_spec (Z.to_nat n) tbl (home n (p e)) z Hh Hz Hnull)
    as (idx & E & Hidx & Hin & Hpath).
  { rewrite Z2Nat.id by lia. dist_cases. }
  exists idx. repeat split; try assumption; try lia.
  - intros i j Hi Hj Hocc Hd.
    destruct (Z.eq_dec i idx) as [->|Hne].
    + rewrite upd_same in Hd.
      destruct (Z.eq_dec j idx) as [->|Hje]; [rewrite upd_same; assumption|].
      rewrite upd_other by assumption. apply Hpath; assumption.
    + rewrite upd_other in Hocc, Hd by assumption.
      pose proof (HP i j Hi Hj Hocc Hd) as Hoj.
      rewrite upd_other; [assumption | congruence].
  - intros a b Ha Hb Hocc Heq.
    destruct (Z.eq_dec a idx) as [->|Hae], (Z.eq_dec b idx) as [->|Hbe];
      try reflexivity;
      repeat (rewrite upd_same in * );
      repeat (rewrite upd_other in * by assumption).
    + exfalso. apply (Hfresh b Hb). congruence.
    + exfalso. apply (Hfresh a Ha). congruence.
    + apply HD; assumption.
  - rewrite count_upto_upd by lia.
    rewrite (occ_null (tbl idx)) by assumption. rewrite (occ_held e) by assumption. lia.
Qed.

(** *** Rehashing into the other buffer *)

Lemma rehash_step c i old new nt m :
  rehash (S c) i old new nt m =
  if p (old i) =? 0 then rehash c (i + 1) old new nt m
  else bind (probe_null (Z.to_nat nt) new m (Z.land (hash_page (p (old i))) m))
         (fun index => rehash c (i + 1) old (upd new index (old i)) nt m).
Proof. reflexivity. Qed.

Lemma count_upto_succ tbl i :
  0 <= i -> count_upto tbl (Z.to_nat (i + 1)) = occ (tbl i) + count_upto tbl (Z.to_nat i).
Proof.
  intros Hi. replace (Z.to_nat (i + 1)) with (S (Z.to_nat i)) by lia.
  simpl count_upto. rewrite Z2Nat.id by lia. reflexivity.
Qed.

Lemma rehash_spec old total :
  no_duplicates old total -> total < n ->
  forall c i new,
    i = total - Z.of_nat c -> 0 <= i ->
    probe_ok new n -> no_duplicates new n ->
    count_upto new (Z.to_nat n) = count_upto old (Z.to_nat i) ->
    (forall s, 0 <= s < n -> p (new s) <> 0 -> exists t, 0 <= t < i /\ old t = new s) ->
    (forall t, 0 <= t < i -> p (old t) <> 0 -> exists s, 0 <= s < n /\ new s = old t) ->
    exists tbl', rehash c i old new n mask = Done tbl' /\
      probe_ok tbl' n /\ no_duplicates tbl' n /\
      count_upto tbl' (Z.to_nat n) = count_upto old (Z.to_nat total) /\
      (forall s, 0 <= s < n -> p (tbl' s) <> 0 -> exists t, 0 <= t < total /\ old t = tbl' s) /\
      (forall t, 0 <= t < total -> p (old t) <> 0 -> exists s, 0 <= s < n /\ tbl' s = old t).
Proof.
  intros HDold Hlt. pose proof n_bounds as Hn.
  induction c as [|c IH]; intros i new Hi Hi0 HP HD Hc Hfrom Hto.
  - assert (Hit : i = total) by lia. clear Hi. rewrite Hit in *.
    exists new. simpl. repeat split; assumption.
  - rewrite rehash_step.
    destruct (Z.eqb_spec (p (old i)) 0) as [E|E].
    + apply IH; try assumption; try lia.
      * rewrite count_upto_succ by lia. rewrite (occ_null _ E). lia.
      * intros s Hs Hocc. destruct (Hfrom s Hs Hocc) as (t & Ht & Et).
        exists t. split; [lia | assumption].
      * intros t Ht Hocc. destruct (Z.eq_dec t i) as [->|Hne]; [congruence|].
        apply Hto; [lia | assumption].
    + destruct (insert_table_spec new (old i) HP HD E) as (idx & Ep & Hidx & Hnull & HP' & HD' & Hc').
      * intros s Hs Heq.
        assert (Hocc : p (new s) <> 0) by congruence.
        destruct (Hfrom s Hs Hocc) as (t & Ht & Et).
        assert (t = i); [|lia].
        apply HDold; try lia; [congruence|]. rewrite Et. assumption.
      * apply exists_null_table. rewrite Hc.
        pose proof (count_upto_bounds old (Z.to_nat i)). lia.
      * rewrite Ep. simpl bind.
        apply IH; try assumption; try lia.
        -- rewrite Hc'. rewrite count_upto_succ by lia. rewrite (occ_held _ E). lia.
        -- intros s Hs Hocc. destruct (Z.eq_dec s idx) as [->|Hne].
           ++ rewrite upd_same. exists i. split; [lia | reflexivity].
           ++ rewrite upd_other in Hocc |- * by assumption.
              destruct (Hfrom s Hs Hocc) as (t & Ht & Et). exists t. split; [lia | assumption].
        -- intros t Ht Hocc. destruct (Z.eq_dec t i) as [->|Hne].
           ++ exists idx. split; [assumption | apply upd_same].
           ++ destruct (Hto t) as (s & Hs & Es); [lia | assumption |].
              exists s. split; [assumption|]. rewrite upd_other; [assumption|].
              intros ->. congruence.
Qed.

(** *** The loops on a table that need not satisfy the invariant *)

Lemma probe_null_range fuel :
  forall tbl idx z,
    0 <= idx < n -> probe_null fuel tbl mask idx = Done z ->
    0 <= z < n /\ p (tbl z) = 0.
Proof.
  induction fuel as [|f IH]; intros tbl idx z Hidx E; [discriminate|].
  cbn [probe_null] in E. destruct (Z.eqb_spec (p (tbl idx)) 0) as [Hz|Hnz].
  - injection E as <-. split; assumption.
  - apply (IH tbl (prev_index idx mask)); [|assumption].
    apply prev_index_range; assumption.
Qed.

Lemma find_loop_range fuel :
  forall tbl q idx r,
    0 <= idx < n -> find_loop fuel tbl mask q idx = Done r -> 0 <= r < n.
Proof.
  induction fuel as [|f IH]; intros tbl q idx r Hidx E; [discriminate|].
  cbn [find_loop] in E.
  destruct (negb (p (tbl idx) =? q) && negb (p (tbl idx) =? 0)).
  - apply (IH tbl q (prev_index idx mask)); [|assumption].
    apply prev_index_range; assumption.
  - injection E as <-. assumption.
Qed.

(** The rehash adds the entries of the old buffer to those the target
    holds, and writes to none of the slots beyond the new total. *)
Lemma rehash_count old :
  forall c i new tbl',
    0 <= i -> rehash c i old new n mask = Done tbl' ->
    count_upto tbl' (Z.to_nat n)
    = count_upto new (Z.to_nat n)
      + count_upto old (Z.to_nat (i + Z.of_nat c)) - count_upto old (Z.to_nat i) /\
    (forall j, n <= j -> tbl' j = new j).
Proof.
  pose proof n_bounds as Hn.
  induction c as [|c IH]; intros i new tbl' Hi E.
  - simpl in E. injection E as <-. rewrite Z.add_0_r. split; [lia | reflexivity].
  - rewrite rehash_step in E.
    replace (i + Z.of_nat (S c)) with (i + 1 + Z.of_nat c) by lia.
    destruct (Z.eqb_spec (p (old i)) 0) as [E0|E0].
    + destruct (IH (i + 1) new tbl' ltac:(lia) E) as [Hc Hout].
      split; [|assumption]. rewrite Hc, (count_upto_succ old i Hi), (occ_null _ E0). lia.
    + destruct (probe_null _ _ _ _) as [idx| | |] eqn:Ep; try discriminate.
      cbn [bind] in E.
      destruct (probe_null_range _ _ _ _ (home_range (p (old i))) Ep) as [Hidx Hnull].
      destruct (IH (i + 1) _ tbl' ltac:(lia) E) as [Hc Hout].
      split.
      * rewrite Hc, (count_upto_succ old i Hi), (occ_held _ E0).
        rewrite count_upto_upd by lia.
        rewrite (occ_null _ Hnull), (occ_held _ E0). lia.
      * intros j Hj. rewrite Hout by assumption. apply upd_other. lia.
Qed.

(** The loops of [regions_delete] move entries and keep their number;
    they write to no slot beyond the table. *)
Lemma delete_loop_count fuel :
  forall tbl j i tbl',
    0 <= j < n -> 0 <= i < n -> p (tbl j) = 0 ->
    delete_loop fuel tbl mask j i = Done tbl' ->
    count_upto tbl' (Z.to_nat n) = count_upto tbl (Z.to_nat n) /\
    (forall x, n <= x -> tbl' x = tbl x).
Proof.
  pose proof n_bounds as Hn.
  induction fuel as [|f IH]; intros tbl j i tbl' Hj Hi Hnull E; [discriminate|].
  rewrite delete_loop_step in E.
  pose proof (prev_index_range i Hi) as Hp.
  destruct (Z.eqb_spec (p (tbl (prev_index i mask))) 0) as [E0|E0].
  - injection E as <-. split; reflexivity.
  - assert (Hpj : prev_index i mask <> j) by congruence.
    destruct (_ || _ || _).
    + apply (IH tbl j (prev_index i mask)); assumption.
    + assert (Hgap : p (clear_entry (upd tbl j (tbl (prev_index i mask)))
                           (prev_index i mask) (prev_index i mask)) = 0).
      { unfold clear_entry. rewrite upd_same. reflexivity. }
      destruct (IH _ _ _ tbl' Hp Hp Hgap E) as [Hc Hout].
      split.
      * rewrite Hc. apply move_count; try assumption; lia.
      * intros x Hx. rewrite Hout by assumption. unfold clear_entry.
        rewrite !upd_other by lia. reflexivity.
Qed.
End Table.

(** *** The invariant of the region table *)

Lemma count_upto_empty m : count_upto (fun _ => mk_region 0 0 0) m = 0.
Proof. induction m as [|m IH]; simpl; [reflexivity | rewrite IH; reflexivity]. Qed.

Lemma Inv_init : Inv init_regions.
Proof.
  exists 8.
  assert (Hc : occupied_count init_regions = 0) by apply count_upto_empty.
  rewrite Hc. change (regions_total init_regions) with 256.
  change (regions_free init_regions) with 256.
  repeat split; try lia.
  - intros i j _ _ H. simpl in H. congruence.
  - intros i j _ _ H. simpl in H. congruence.
Qed.

Lemma pow2_bounds k : 8 <= k <= 25 -> 256 <= 2 ^ k <= 2 ^ 25.
Proof.
  intros Hk. split.
  - change 256 with (2 ^ 8). apply Z.pow_le_mono_r; lia.
  - apply Z.pow_le_mono_r; lia.
Qed.

Lemma Inv_has_null s :
  Inv s -> exists z, 0 <= z < regions_total s /\ p (regions s z) = 0.
Proof.
  intros (k & Hk & Ht & Hf & Hc & Hl & _). pose proof (pow2_bounds k Hk).
  unfold occupied_count in Hc. rewrite Ht in *.
  apply (exists_null_table k); lia.
Qed.

Lemma Inv_findable s : Inv s -> findable s.
Proof.
  intros (k & Hk & Ht & Hf & Hc & Hl & HP & HD) i Hi Hocc.
  pose proof (pow2_bounds k Hk) as Hn.
  assert (Hk' : 0 <= k <= 25) by lia.
  unfold regions_find. rewrite Ht in *.
  pose proof (home_range k Hk' (p (regions s i))) as Hh.
  rewrite (find_loop_present k Hk' (regions s) (p (regions s i)) i); try assumption; try reflexivity.
  - simpl bind. rewrite Z.eqb_refl.
    destruct (Z.eqb_spec (p (regions s i)) 0); [contradiction | reflexivity].
  - dist_cases.
  - rewrite Z2Nat.id by lia. dist_cases.
Qed.

Lemma regions_find_returns s q :
  Inv s ->
  exists o, regions_find s q = Done o /\
    forall i, o = Some i ->
      0 <= i < regions_total s /\ p (regions s i) = q /\ q <> 0.
Proof.
  intros HI. destruct (Inv_has_null s HI) as (z & Hz & Hnull).
  destruct HI as (k & Hk & Ht & _).
  pose proof (pow2_bounds k Hk) as Hn.
  assert (Hk' : 0 <= k <= 25) by lia.
  unfold regions_find. rewrite Ht in *.
  pose proof (home_range k Hk' q) as Hh.
  destruct (find_loop_total k Hk' (regions s) q z Hz Hnull (Z.to_nat (2 ^ k)) (home (2 ^ k) q))
    as (r & E & Hr); [assumption | rewrite Z2Nat.id by lia; dist_cases |].
  rewrite E. simpl bind. eexists. split; [reflexivity|].
  intros i Hi.
  destruct (Z.eqb_spec (p (regions s r)) q) as [Eq|]; [|discriminate].
  destruct (Z.eqb_spec (p (regions s r)) 0) as [|Ne]; [discriminate|].
  simpl in Hi. injection Hi as <-. repeat split; try lia; congruence.
Qed.

Lemma regions_delete_spec s i :
  Inv s -> 0 <= i < regions_total s -> p (regions s i) <> 0 ->
  exists s', regions_delete s i = Done s' /\ Inv s' /\
    regions_total s' = regions_total s /\
    regions_free s' = regions_free s + 1 /\
    same_entries (clear_entry (regions s) i) (regions s') (regions_total s) /\
    spare s' = spare s.
Proof.
  intros HI Hi Hocc. destruct (Inv_has_null s HI) as (z & Hz & Hnull).
  destruct HI as (k & Hk & Ht & Hf & Hc & Hl & HP & HD).
  pose proof (pow2_bounds k Hk) as Hn.
  assert (Hk' : 0 <= k <= 25) by lia.
  assert (H64 : 2 ^ 25 < 2 ^ 64) by (apply Z.pow_lt_mono_r; lia).
  unfold regions_delete, occupied_count in *. rewrite Ht in *.
  destruct (delete_table_spec k Hk' (regions s) i z HP HD Hi Hocc Hz Hnull)
    as (tbl' & E & HP' & HD' & Hc' & Hs).
  rewrite E. simpl bind. eexists. split; [reflexivity|].
  assert (Hfree : 0 <= regions_free s <= 2 ^ k).
  { pose proof (count_upto_bounds (regions s) (Z.to_nat (2 ^ k))). lia. }
  rewrite (wrap_small (regions_free s + 1)) by lia.
  split; [|simpl; repeat split; try reflexivity; try assumption; apply Hs; assumption].
  exists k. unfold occupied_count. cbn [regions regions_total regions_free].
  repeat split; try assumption; try lia.
Qed.

(** A lookup that finds a slot has found one of the table, holding the
    pointer, which is not null. *)
Lemma find_in_range s q i :
  (exists k, 0 <= k <= 25 /\ regions_total s = 2 ^ k) ->
  regions_find s q = Done (Some i) ->
  0 <= i < regions_total s /\ p (regions s i) = q /\ q <> 0.
Proof.
  intros (k & Hk & Ht). unfold regions_find. rewrite Ht.
  destruct (find_loop _ _ _ _ _) as [r| | |] eqn:E; try discriminate.
  cbn [bind]. apply (find_loop_range k Hk) in E; [|apply home_range; assumption].
  destruct (Z.eqb_spec (p (regions s r)) q) as [Eq|]; [|discriminate].
  destruct (Z.eqb_spec (p (regions s r)) 0) as [|Ne]; [discriminate|].
  cbn [andb negb]. intros [= <-]. repeat split; try lia; congruence.
Qed.

(** Setting the size of a region moves no pointer. *)
Lemma resize_p s i sz j : p (regions (resize s i sz) j) = p (regions s j).
Proof.
  unfold resize. cbn [regions]. unfold upd.
  destruct (Z.eqb_spec j i) as [->|]; reflexivity.
Qed.

Lemma Inv_resize s i sz : Inv s -> Inv (resize s i sz).
Proof.
  intros (k & Hk & Ht & Hf & Hc & Hl & HP & HD). exists k.
  unfold occupied_count in *.
  change (regions_total (resize s i sz)) with (regions_total s).
  change (regions_free (resize s i sz)) with (regions_free s).
  rewrite (count_upto_same_p (regions s) _ _ (resize_p s i sz)).
  repeat split; try assumption; try lia.
  - intros a b Ha Hb. rewrite !resize_p. apply HP; assumption.
  - intros a b Ha Hb. rewrite !resize_p. apply HD; assumption.
Qed.

Lemma resize_find s i sz q : regions_find (resize s i sz) q = regions_find s q.
Proof.
  unfold regions_find. change (regions_total (resize s i sz)) with (regions_total s).
  assert (H : forall fuel idx,
             find_loop fuel (regions (resize s i sz)) (wrap (regions_total s - 1)) q idx
             = find_loop fuel (regions s) (wrap (regions_total s - 1)) q idx).
  { induction fuel as [|f IH]; intros idx; cbn [find_loop]; [reflexivity|].
    rewrite resize_p, IH. reflexivity. }
  rewrite H. destruct (find_loop _ _ _ _ _); cbn [bind]; try reflexivity.
  rewrite resize_p. reflexivity.
Qed.

Lemma resize_present s i sz q : present (resize s i sz) q = present s q.
Proof.
  unfold present. change (regions_total (resize s i sz)) with (regions_total s).
  induction (Z.to_nat (regions_total s)) as [|m IH]; cbn [held_upto]; [reflexivity|].
  rewrite resize_p, IH. reflexivity.
Qed.

Lemma grow_limits :
  SIZE_MAX / sizeof_region_info / 2 = 384307168202282325 /\
  max_region_table_size = 2 ^ 25.
Proof. split; vm_compute; reflexivity. Qed.

Lemma regions_grow_spec s fails keeps :
  Inv s -> spare_clean s ->
  ((fails = true \/ regions_total s = max_region_table_size) /\
   regions_grow fails keeps s = Done (1, s)) \/
  fails = false /\ regions_total s <> max_region_table_size /\
  exists s', regions_grow fails keeps s = Done (0, s') /\ grown s s' /\
    spare s' = (if keeps then regions s else fresh_buffer) /\
    exists k, 8 <= k <= 25 /\ regions_total s' = 2 ^ k /\
      occupied_count s' = occupied_count s /\
      probe_ok (regions s') (regions_total s') /\
      no_duplicates (regions s') (regions_total s').
Proof.
  intros (k & Hk & Ht & Hf & Hc & Hl & HP & HD) Hspare.
  pose proof (pow2_bounds k Hk) as Hn.
  assert (H64 : 2 ^ 25 < 2 ^ 64) by (apply Z.pow_lt_mono_r; lia).
  assert (H25 : 2 ^ 25 = 33554432) by reflexivity.
  destruct grow_limits as [Hsz Hmax].
  unfold regions_grow, occupied_count in *. rewrite Hsz, Hmax. rewrite Ht in *.
  destruct (Z.gtb_spec (2 ^ k) 384307168202282325) as [Hbig|_]; [lia|].
  assert (Hdouble : wrap (2 ^ k * 2) = 2 ^ (k + 1)).
  { rewrite Z.pow_add_r by lia. rewrite Z.pow_1_r. apply wrap_small. lia. }
  rewrite Hdouble.
  assert (Hnew : 2 ^ (k + 1) = 2 * 2 ^ k).
  { rewrite Z.pow_add_r by lia. rewrite Z.pow_1_r. lia. }
  destruct (Z.gtb_spec (2 ^ (k + 1)) (2 ^ 25)) as [Hcap|Hcap].
  { left. split; [|reflexivity]. right.
    destruct (Z.eq_dec k 25) as [->|Hne]; [reflexivity|].
    assert (2 ^ (k + 1) <= 2 ^ 25) by (apply Z.pow_le_mono_r; lia). lia. }
  destruct fails; [left; split; [left|]; reflexivity|]. right.
  split; [reflexivity|]. split; [lia|].
  assert (Hk1 : k + 1 <= 25).
  { destruct (Z_le_gt_dec (k + 1) 25) as [|Hgt]; [assumption|].
    assert (2 ^ 26 <= 2 ^ (k + 1)) by (apply Z.pow_le_mono_r; lia).
    assert (2 ^ 25 < 2 ^ 26) by (apply Z.pow_lt_mono_r; lia). lia. }
  assert (Hk' : 0 <= k + 1 <= 25) by lia.
  destruct (rehash_spec (k + 1) Hk' (regions s) (2 ^ k) HD ltac:(lia)
              (Z.to_nat (2 ^ k)) 0 (spare s))
    as (tbl' & E & HP' & HD' & Hc' & Hfrom & Hto).
  - lia.
  - lia.
  - intros i j _ _ H. rewrite Hspare in H. congruence.
  - intros i j _ _ H. rewrite Hspare in H. congruence.
  - rewrite count_upto_clean by assumption. reflexivity.
  - intros i _ H. rewrite Hspare in H. congruence.
  - intros t Hlt. lia.
  - rewrite E. simpl bind. eexists. split; [reflexivity|].
    assert (Hfree : 0 <= regions_free s <= 2 ^ k).
    { pose proof (count_upto_bounds (regions s) (Z.to_nat (2 ^ k))). lia. }
    rewrite (wrap_small (regions_free s + 2 ^ k)) by lia.
    split; [|split; [reflexivity|]].
    + unfold grown. cbn [regions regions_total regions_free]. rewrite Ht.
      repeat split; try lia; assumption.
    + exists (k + 1).
      cbn [regions regions_total regions_free].
      repeat split; try assumption; try lia.
Qed.

Lemma not_present_spec s q :
  present s q = false -> 0 <= regions_total s ->
  forall i, 0 <= i < regions_total s -> p (regions s i) <> q.
Proof.
  intros Hp Hn i Hi Heq. unfold present in Hp.
  assert (H : held_upto (regions s) q (Z.to_nat (regions_total s)) = true).
  { apply held_upto_spec. exists i. split; [lia | assumption]. }
  congruence.
Qed.

Lemma regions_insert_spec s fails keeps q sz guard :
  Inv s -> spare_clean s -> 0 < q < 2 ^ 64 -> present s q = false ->
  exists r s', regions_insert fails keeps s q sz guard = Done (r, s') /\ Inv s' /\
    (if regions_free s * 4 <? regions_total s
     then (r = 1 /\ s' = s) \/ (r = 0 /\ regions_total s' = 2 * regions_total s)
     else r = 0 /\ regions_total s' = regions_total s) /\
    (r = 0 -> exists i, 0 <= i < regions_total s' /\
                regions s' i = mk_region q sz guard) /\
    (keeps = false -> spare_clean s') /\
    (r = 0 <-> (regions_free s * 4 < regions_total s ->
                fails = false /\ regions_total s <> max_region_table_size)).
Proof.
  intros HI Hspare Hq Hfresh. pose proof HI as (k & Hk & Ht & Hf & Hc & Hl & HP & HD).
  pose proof (pow2_bounds k Hk) as Hn.
  assert (H64 : 2 ^ 25 < 2 ^ 64) by (apply Z.pow_lt_mono_r; lia).
  assert (Hfree : 0 <= regions_free s <= 2 ^ k).
  { unfold occupied_count in Hc. rewrite Ht in Hc.
    pose proof (count_upto_bounds (regions s) (Z.to_nat (2 ^ k))). lia. }
  unfold regions_insert. rewrite (wrap_small (regions_free s * 4)) by lia.
  (* the table the entry goes into: grown or not, a quarter of it is free *)
  assert (Hs1 : ((regions_free s * 4 <? regions_total s) = true /\
                 (fails = true \/ regions_total s = max_region_table_size) /\
                 regions_grow fails keeps s = Done (1, s)) \/
    exists s1, (if regions_free s * 4 <? regions_total s
                then regions_grow fails keeps s else Done (0, s)) = Done (0, s1) /\
      (regions_total s1 = if regions_free s * 4 <? regions_total s
                          then 2 * regions_total s else regions_total s) /\
      (forall i, 0 <= i < regions_total s1 -> p (regions s1 i) <> q) /\
      regions_total s1 <= 4 * regions_free s1 /\
      (keeps = false -> spare_clean s1) /\
      (regions_free s * 4 < regions_total s ->
       fails = false /\ regions_total s <> max_region_table_size) /\
      exists k1, 8 <= k1 <= 25 /\ regions_total s1 = 2 ^ k1 /\
        occupied_count s1 + regions_free s1 = regions_total s1 /\
        probe_ok (regions s1) (regions_total s1) /\
        no_duplicates (regions s1) (regions_total s1)).
  { destruct (Z.ltb_spec (regions_free s * 4) (regions_total s)) as [Hlow|Hhigh].
    - destruct (regions_grow_spec s fails keeps HI Hspare)
        as [[Hwhy E] | (Hf0 & Hmax & s1 & E & (Gt & Gf & Gfrom & Gto) & Gs & k1 & Hk1 & Ht1 & Hc1 & HP1 & HD1)].
      + left. split; [reflexivity|]. split; assumption.
      + right. exists s1. split; [assumption|]. split; [assumption|]. split.
        * intros i Hi Heq. destruct (Gfrom i Hi) as (t & Htr & Et); [lia|].
          apply (not_present_spec s q Hfresh ltac:(lia) t Htr). congruence.
        * split; [lia|]. split; [|split].
          -- intros ->. intros i. rewrite Gs. reflexivity.
          -- intros _. split; assumption.
          -- exists k1. repeat split; try assumption; try lia.
    - right. exists s. split; [reflexivity|]. split; [reflexivity|]. split.
      + apply not_present_spec; [assumption | lia].
      + split; [lia|]. split; [intros _; assumption|]. split; [lia|].
        exists k. repeat split; try assumption; lia. }
  destruct Hs1 as [(Hlow & Hwhy & E) | (s1 & E & Htot & Hfresh1 & Hquarter & Hspare1 & Hok & k1 & Hk1 & Ht1 & Hc1 & HP1 & HD1)].
  - rewrite Hlow, E. simpl. exists 1, s.
    split; [reflexivity|]. split; [assumption|]. split; [left; split; reflexivity|].
    split; [intros; lia|]. split; [intros _; assumption|].
    split; [discriminate|]. intros H. exfalso.
    destruct (Z.ltb_spec (regions_free s * 4) (regions_total s)); [|discriminate].
    destruct H as [H1 H2]; [assumption|]. destruct Hwhy; congruence.
  - rewrite E. cbn [bind]. cbn [negb Z.eqb].
    pose proof (pow2_bounds k1 Hk1) as Hn1.
    assert (Hk1' : 0 <= k1 <= 25) by lia.
    rewrite Ht1 in *.
    destruct (insert_table_spec k1 Hk1' (regions s1) (mk_region q sz guard) HP1 HD1)
      as (idx & Ep & Hidx & Hnull & HP' & HD' & Hc').
    + simpl. lia.
    + assumption.
    + apply exists_null_table; [assumption|]. unfold occupied_count in Hc1.
      rewrite Ht1 in Hc1. lia.
    + cbn [p] in Ep. rewrite Ep. cbn [bind].
      assert (Hfree1 : 0 <= regions_free s1 <= 2 ^ k1).
      { unfold occupied_count in Hc1. rewrite Ht1 in Hc1.
        pose proof (count_upto_bounds (regions s1) (Z.to_nat (2 ^ k1))). lia. }
      rewrite (wrap_small (regions_free s1 - 1)) by lia.
      eexists 0, _. split; [reflexivity|]. split; [|split; [|split; [|split]]].
      * exists k1. unfold occupied_count in *.
        cbn [regions regions_total regions_free]. rewrite Ht1 in *.
        repeat split; try assumption; try lia.
      * cbn [regions_total]. destruct (regions_free s * 4 <? regions_total s).
        -- right. split; [reflexivity | lia].
        -- split; [reflexivity | lia].
      * intros _. exists idx. cbn [regions regions_total].
        split; [assumption | apply upd_same].
      * intros Hk0. exact (Hspare1 Hk0).
      * split; [intros _; assumption | reflexivity].
Qed.

(** *** Whatever the page provider answers *)

Lemma Shape_init : Shape init_regions.
Proof.
  exists 8.
  assert (Hc : occupied_count init_regions = 0) by apply count_upto_empty.
  rewrite Hc. change (regions_total init_regions) with 256.
  change (regions_free init_regions) with 256.
  repeat split; try lia; intros; reflexivity.
Qed.

Lemma Shape_bounds s :
  Shape s ->
  256 <= regions_total s <= 2 ^ 25 /\
  0 <= regions_free s <= 2 * regions_total s /\
  0 <= occupied_count s <= regions_total s.
Proof.
  intros (k & Hk & Ht & Hf & Hl & Hc & _).
  pose proof (pow2_bounds k Hk) as Hn.
  pose proof (count_upto_bounds (regions s) (Z.to_nat (regions_total s))) as Hb.
  unfold occupied_count in *. lia.
Qed.

(** An insertion: the table it leaves, and when it grows the table. *)
Lemma regions_insert_shape s fails keeps q sz guard r s' :
  Shape s ->
  regions_insert fails keeps s q sz guard = Done (r, s') ->
  Shape s' /\
  (if regions_free s * 4 <? regions_total s
   then (r = 1 /\ s' = s /\ (fails = true \/ regions_total s = max_region_table_size)) \/
        (r = 0 /\ regions_total s' = 2 * regions_total s)
   else r = 0 /\ regions_total s' = regions_total s).
Proof.
  intros HS E. destruct (Shape_bounds s HS) as (Hn & Hfree & Hocc).
  pose proof HS as (k & Hk & Ht & Hf & Hl & Hc & Hr & Hsp).
  assert (H64 : 2 ^ 25 < 2 ^ 64) by (apply Z.pow_lt_mono_r; lia).
  assert (H25 : 2 ^ 25 = 33554432) by reflexivity.
  assert (Hk' : 0 <= k <= 25) by lia.
  destruct grow_limits as [Hsz Hmax].
  unfold regions_insert in E. rewrite (wrap_small (regions_free s * 4)) in E by lia.
  destruct (Z.ltb_spec (regions_free s * 4) (regions_total s)) as [Hlow|Hhigh].
  - unfold regions_grow in E. rewrite Hsz, Hmax in E.
    destruct (Z.gtb_spec (regions_total s) 384307168202282325) as [Hbig|_]; [lia|].
    assert (Hnew : 2 ^ (k + 1) = 2 * 2 ^ k).
    { rewrite Z.pow_add_r by lia. rewrite Z.pow_1_r. lia. }
    assert (Hdouble : wrap (regions_total s * 2) = 2 ^ (k + 1)).
    { rewrite Hnew, <- Ht, Z.mul_comm. apply wrap_small. lia. }
    rewrite Hdouble in E.
    destruct (Z.gtb_spec (2 ^ (k + 1)) (2 ^ 25)) as [Hcap|Hcap].
    { cbn [bind negb Z.eqb] in E. injection E as <- <-.
      split; [assumption|]. left. split; [reflexivity|]. split; [reflexivity|].
      right. rewrite Hmax, Ht. destruct (Z.eq_dec k 25) as [->|Hne]; [reflexivity|].
      assert (2 ^ (k + 1) <= 2 ^ 25) by (apply Z.pow_le_mono_r; lia). lia. }
    destruct fails.
    { cbn [bind negb Z.eqb] in E. injection E as <- <-.
      split; [assumption|]. left. split; [reflexivity|]. split; [reflexivity|].
      left. reflexivity. }
    assert (Hk1 : 0 <= k + 1 <= 25).
    { destruct (Z_le_gt_dec (k + 1) 25) as [|Hgt]; [lia|].
      assert (2 ^ 26 <= 2 ^ (k + 1)) by (apply Z.pow_le_mono_r; lia).
      assert (2 ^ 25 < 2 ^ 26) by (apply Z.pow_lt_mono_r; lia). lia. }
    destruct (rehash _ _ _ _ _ _) as [tbl| | |] eqn:Er; try discriminate.
    cbn [bind negb Z.eqb regions regions_total regions_free spare] in E.
    destruct (probe_null _ _ _ _) as [idx| | |] eqn:Ep; try discriminate.
    cbn [bind] in E. injection E as <- <-.
    destruct (rehash_count (k + 1) Hk1 (regions s) _ 0 _ tbl ltac:(lia) Er) as [Hcnt Hout].
    destruct (probe_null_range (k + 1) Hk1 _ _ _ _ (home_range (k + 1) Hk1 q) Ep)
      as [Hidx Hnull].
    assert (Hstale : count_upto (spare s) (Z.to_nat (2 ^ (k + 1)))
                     = count_upto (spare s) (Z.to_nat (regions_total s))).
    { apply count_upto_beyond; [lia|]. intros i Hi. apply Hsp. lia. }
    pose proof (count_upto_bounds (spare s) (Z.to_nat (regions_total s))) as Hsb.
    rewrite (wrap_small (regions_free s + regions_total s)) by lia.
    rewrite (wrap_small (regions_free s + regions_total s - 1)) by lia.
    split.
    + exists (k + 1). unfold occupied_count in *.
      cbn [regions regions_total regions_free spare].
      rewrite count_upto_upd by lia.
      rewrite (occ_null _ Hnull).
      pose proof (occ_range (mk_region q sz guard)) as Hnew1.
      rewrite Hcnt, Hstale. cbn [Z.to_nat count_upto].
      rewrite Z.add_0_l, Z2Nat.id by lia.
      repeat split; try lia.
      * intros i Hi. rewrite upd_other by lia. rewrite Hout by lia. apply Hsp. lia.
      * intros i Hi. destruct keeps; [apply Hr; lia | reflexivity].
    + right. split; [reflexivity|]. cbn [regions_total]. lia.
  - cbn [bind negb Z.eqb] in E. rewrite Ht in E.
    destruct (probe_null _ _ _ _) as [idx| | |] eqn:Ep; try discriminate.
    cbn [bind] in E. injection E as <- <-.
    destruct (probe_null_range k Hk' _ _ _ _ (home_range k Hk' q) Ep) as [Hidx Hnull].
    rewrite (wrap_small (regions_free s - 1)) by lia.
    split.
    + exists k. unfold occupied_count in *.
      cbn [regions regions_total regions_free spare].
      rewrite Ht in *. rewrite count_upto_upd by lia.
      rewrite (occ_null _ Hnull).
      pose proof (occ_range (mk_region q sz guard)) as Hnew1.
      repeat split; try lia.
      * intros i Hi. rewrite upd_other by lia. apply Hr. lia.
      * assumption.
    + split; [reflexivity|]. cbn [regions_total]. lia.
Qed.

Lemma Shape_pow2 s : Shape s -> exists k, 0 <= k <= 25 /\ regions_total s = 2 ^ k.
Proof. intros (k & Hk & Ht & _). exists k. split; [lia | assumption]. Qed.

Lemma delete_shape s q i fuel tbl :
  Shape s -> regions_find s q = Done (Some i) ->
  delete_loop fuel (clear_entry (regions s) i) (wrap (regions_total s - 1)) i i
    = Done tbl ->
  Shape (mk_regions tbl (spare s) (regions_total s) (wrap (regions_free s + 1))).
Proof.
  intros HS Ef Ed. destruct (Shape_bounds s HS) as (Hn & Hfree & Hocc).
  destruct (find_in_range s q i (Shape_pow2 s HS) Ef) as (Hi & Hp & Hq).
  pose proof HS as (k & Hk & Ht & Hf & Hl & Hc & Hr & Hsp).
  assert (H64 : 2 ^ 25 < 2 ^ 64) by (apply Z.pow_lt_mono_r; lia).
  assert (Hk' : 0 <= k <= 25) by lia.
  rewrite Ht in Ed, Hi.
  assert (Hgap : p (clear_entry (regions s) i i) = 0).
  { unfold clear_entry. rewrite upd_same. reflexivity. }
  destruct (delete_loop_count k Hk' fuel _ i i tbl Hi Hi Hgap Ed) as [Hcnt Hout].
  rewrite (wrap_small (regions_free s + 1)) by lia.
  exists k. unfold occupied_count in *.
  cbn [regions regions_total regions_free spare].
  rewrite Ht in *. rewrite Hcnt. unfold clear_entry.
  rewrite count_upto_upd by lia.
  rewrite (occ_held (regions s i)) by congruence. rewrite occ_null by reflexivity.
  repeat split; try lia.
  - intros x Hx. rewrite Hout by assumption. unfold clear_entry.
    rewrite upd_other by lia. apply Hr. assumption.
  - assumption.
Qed.

Lemma resize_shape s i sz : Shape s -> Shape (resize s i sz).
Proof.
  intros (k & Hk & Ht & Hf & Hl & Hc & Hr & Hsp). exists k.
  unfold occupied_count in *.
  change (regions_total (resize s i sz)) with (regions_total s).
  change (regions_free (resize s i sz)) with (regions_free s).
  change (spare (resize s i sz)) with (spare s).
  rewrite (count_upto_same_p (regions s) _ _ (resize_p s i sz)).
  repeat split; try assumption; try lia.
  intros j Hj. rewrite resize_p. apply Hr. assumption.
Qed.

Lemma reachable_Shape s : reachable s -> Shape s.
Proof.
  induction 1 as [| s q sz guard fails keeps r s' _ IH Hq E
                  | s q i fuel tbl _ IH Ef Ed | s i sz _ IH].
  - apply Shape_init.
  - apply (regions_insert_shape s fails keeps q sz guard r s' IH E).
  - apply (delete_shape s q i fuel tbl IH Ef Ed).
  - apply resize_shape. assumption.
Qed.

(** *** While every [memory_map_fixed] succeeds *)

Lemma spare_clean_init : spare_clean init_regions.
Proof. intros i. reflexivity. Qed.

Lemma clean_reachable_Inv s : clean_reachable s -> Inv s /\ spare_clean s.
Proof.
  induction 1 as [| s q sz guard fails r s' _ [IH IHs] Hq Hfresh E
                  | s q i s' _ [IH IHs] Ef Ed | s i sz _ [IH IHs]].
  - split; [apply Inv_init | apply spare_clean_init].
  - destruct (regions_insert_spec s fails false q sz guard IH IHs Hq Hfresh)
      as (r0 & s0 & E0 & HI & _ & _ & Hsp).
    rewrite E in E0. injection E0 as -> ->. split; [assumption | apply Hsp; reflexivity].
  - destruct (regions_find_returns s q IH) as (o & Eo & Ho).
    rewrite Ef in Eo. injection Eo as <-.
    destruct (Ho i eq_refl) as (Hi & Hp & Hq0).
    destruct (regions_delete_spec s i IH Hi) as (s0 & E0 & HI & _ & _ & _ & Hsp);
      [congruence|].
    rewrite Ed in E0. injection E0 as ->. split; [assumption|].
    intros j. rewrite Hsp. apply IHs.
  - split; [apply Inv_resize; assumption | exact IHs].
Qed.

Lemma clean_reachable_reachable s : clean_reachable s -> reachable s.
Proof.
  induction 1 as [| s q sz guard fails r s' _ IH Hq Hfresh E
                  | s q i s' _ IH Ef Ed | s i sz _ IH].
  - apply reach_init.
  - eapply reach_insert; eassumption.
  - unfold regions_delete in Ed.
    destruct (delete_loop _ _ _ _ _) as [tbl| | |] eqn:El; try discriminate.
    cbn [bind] in Ed. injection Ed as <-. eapply reach_delete; eassumption.
  - apply reach_resize. assumption.
Qed.

Lemma serve_reachable s r s' : reachable s -> serve s r = Some s' -> reachable s'.
Proof.
  intros Hs. destruct r as [q sz guard fails keeps | q]; unfold serve.
  - destruct (Z.ltb_spec 0 q); [|discriminate].
    destruct (Z.ltb_spec q (2 ^ 64)); [|discriminate].
    destruct (present s q) eqn:Hp; [discriminate|]. cbn [andb negb].
    destruct (regions_insert fails keeps s q sz guard) as [[r s0]| | |] eqn:E;
      try discriminate.
    intros [= <-]. eapply reach_insert; try eassumption. lia.
  - destruct (regions_find s q) as [[i|]| | |] eqn:Ef; try discriminate.
    destruct (regions_delete s i) as [s0| | |] eqn:Ed; try discriminate.
    intros [= <-]. unfold regions_delete in Ed.
    destruct (delete_loop _ _ _ _ _) as [tbl| | |] eqn:El; try discriminate.
    cbn [bind] in Ed. injection Ed as <-. eapply reach_delete; eassumption.
Qed.

Lemma run_reachable rs : forall s s', reachable s -> run s rs = Some s' -> reachable s'.
Proof.
  induction rs as [|r rs IH]; intros s s' Hs; simpl.
  - intros [= <-]. assumption.
  - destruct (serve s r) as [s1|] eqn:E; [|discriminate].
    apply IH. eapply serve_reachable; eassumption.
Qed.

Lemma serve_clean s r s' :
  clean_reachable s -> map_fixed_succeeds r = true -> serve s r = Some s' ->
  clean_reachable s'.
Proof.
  intros Hs. destruct r as [q sz guard fails keeps | q]; unfold serve; cbn [map_fixed_succeeds].
  - intros Hk. destruct keeps; [discriminate|].
    destruct (Z.ltb_spec 0 q); [|discriminate].
    destruct (Z.ltb_spec q (2 ^ 64)); [|discriminate].
    destruct (present s q) eqn:Hp; [discriminate|]. cbn [andb negb].
    destruct (regions_insert fails false s q sz guard) as [[r s0]| | |] eqn:E;
      try discriminate.
    intros [= <-]. eapply clean_insert; try eassumption. lia.
  - intros _. destruct (regions_find s q) as [[i|]| | |] eqn:Ef; try discriminate.
    destruct (regions_delete s i) as [s0| | |] eqn:Ed; try discriminate.
    intros [= <-]. eapply clean_delete; eassumption.
Qed.

Lemma run_clean rs :
  forall s s', clean_reachable s -> forallb map_fixed_succeeds rs = true ->
    run s rs = Some s' -> clean_reachable s'.
Proof.
  induction rs as [|r rs IH]; intros s s' Hs; simpl.
  - intros _ [= <-]. assumption.
  - intros Hall. apply andb_true_iff in Hall as [Hr Hall].
    destruct (serve s r) as [s1|] eqn:E; [|discriminate].
    apply IH; [|assumption]. eapply serve_clean; eassumption.
Qed.

(** The calls made on a table that satisfies the invariant return: an
    insertion finds its null slot, a lookup ends, a deletion ends. *)
Lemma Inv_calls_return s :
  Inv s ->
  (spare_clean s ->
   forall fails keeps q sz guard, 0 < q < 2 ^ 64 -> present s q = false ->
     exists r s', regions_insert fails keeps s q sz guard = Done (r, s')) /\
  (forall q, exists o, regions_find s q = Done o) /\
  (forall q i, regions_find s q = Done (Some i) ->
     exists s', regions_delete s i = Done s').
Proof.
  intros HI. repeat split.
  - intros Hsp fails keeps q sz guard Hq Hfresh.
    destruct (regions_insert_spec s fails keeps q sz guard HI Hsp Hq Hfresh)
      as (r & s' & E & _).
    exists r, s'. assumption.
  - intros q. destruct (regions_find_returns s q HI) as (o & E & _).
    exists o. assumption.
  - intros q i Ef. destruct (regions_find_returns s q HI) as (o & Eo & Ho).
    rewrite Ef in Eo. injection Eo as <-.
    destruct (Ho i eq_refl) as (Hi & Hp & Hq0).
    destruct (regions_delete_spec s i HI Hi) as (s0 & E0 & _); [congruence|].
    exists s0. assumption.
Qed.

Lemma clean_calls_return s :
  clean_reachable s ->
  (forall fails keeps q sz guard, 0 < q < 2 ^ 64 -> present s q = false ->
     exists r s', regions_insert fails keeps s q sz guard = Done (r, s')) /\
  (forall q, exists o, regions_find s q = Done o) /\
  (forall q i, regions_find s q = Done (Some i) ->
     exists s', regions_delete s i = Done s').
Proof.
  intros Hs. destruct (clean_reachable_Inv s Hs) as [HI Hsp].
  destruct (Inv_calls_return s HI) as (H1 & H2 & H3).
  split; [exact (H1 Hsp) | split; assumption].
Qed.

(** A deletion removes the entry it is given and keeps every other one. *)
Lemma delete_keeps_others s q i s' :
  Inv s -> regions_find s q = Done (Some i) -> regions_delete s i = Done s' ->
  forall e, p e <> 0 ->
    ((exists t, 0 <= t < regions_total s' /\ regions s' t = e) <->
     (exists t, 0 <= t < regions_total s /\ t <> i /\ regions s t = e)).
Proof.
  intros HI Ef Ed e He.
  destruct (regions_find_returns s q HI) as (o & Eo & Ho).
  rewrite Ef in Eo. injection Eo as <-.
  destruct (Ho i eq_refl) as (Hi & Hp & Hq0).
  destruct (regions_delete_spec s i HI Hi) as (s0 & E0 & _ & Ht & _ & Hsame & _); [congruence|].
  rewrite Ed in E0. injection E0 as <-. rewrite Ht.
  rewrite <- (Hsame e He). unfold clear_entry. split.
  - intros (t & Hlt & Et). destruct (Z.eq_dec t i) as [->|Hne].
    + rewrite upd_same in Et. subst e. simpl in He. congruence.
    + rewrite upd_other in Et by assumption. exists t.
      split; [assumption|]. split; assumption.
  - intros (t & Hlt & Hne & Et). exists t. split; [assumption|].
    rewrite upd_other by assumption. assumption.
Qed.
(** *** The sample tables *)

Lemma sample_table_clean : clean_reachable sample_table.
Proof.
  apply (run_clean sample_requests init_regions); [apply clean_init | |];
    vm_compute; reflexivity.
Qed.

Lemma half_full_table_clean : clean_reachable half_full_table.
Proof.
  apply (run_clean (page_inserts 128) init_regions); [apply clean_init | |];
    vm_compute; reflexivity.
Qed.

Lemma crowded_table_clean : clean_reachable crowded_table.
Proof.
  apply (run_clean (page_inserts 193) init_regions); [apply clean_init | |];
    vm_compute; reflexivity.
Qed.

Example sample_table_slots :
  map (fun i => p (regions sample_table i)) [127; 126; 125; 254]
  = [PAGE_SIZE * 257; PAGE_SIZE * 513; 0; PAGE_SIZE * 2].
Proof. vm_compute. reflexivity. Qed.

(** The table after [stale_requests]: the page freed is still held, in
    slot 127, where [regions_find] does not look for it; the second page
    is held twice; and the occupied slots and [regions_free] add up to
    more than the table has. *)
Lemma stale_table_facts :
  run init_regions stale_requests = Some stale_table /\
  regions_total stale_table = 1024 /\
  regions_free stale_table = 638 /\
  occupied_count stale_table = 579 /\
  p (regions stale_table 127) = PAGE_SIZE * 1 /\
  regions_find stale_table (PAGE_SIZE * 1) = Done None /\
  p (regions stale_table 254) = PAGE_SIZE * 2 /\
  p (regions stale_table 766) = PAGE_SIZE * 2.
Proof.
  assert (E : match run init_regions stale_requests with
              | Some s =>
                  (regions_total s, regions_free s, occupied_count s,
                   p (regions s 127), regions_find s (PAGE_SIZE * 1),
                   p (regions s 254), p (regions s 766))
              | None => (0, 0, 0, 0, Diverges, 0, 0)
              end
              = (1024, 638, 579, PAGE_SIZE * 1, Done None, PAGE_SIZE * 2, PAGE_SIZE * 2))
    by (vm_compute; reflexivity).
  unfold stale_table, table_after.
  destruct (run init_regions stale_requests) as [s|]; [|discriminate].
  injection E as E1 E2 E3 E4 E5 E6 E7. repeat split; assumption.
Qed.





(** The table does get past three quarters: 193 large allocations sit in
    the 256 slots before the next insertion grows the table. *)
Example crowded_table_load :
  run init_regions (page_inserts 193) = Some crowded_table /\
  occupied_count crowded_table = 193 /\
  regions_total crowded_table = 256 /\
  regions_free crowded_table = 63.
Proof. vm_compute. repeat split; reflexivity. Qed.

(** After a [memory_map_fixed] that failed, [regions_free] no longer
    counts the empty slots. *)
Example stale_table_load :
  reachable stale_table /\
  occupied_count stale_table + regions_free stale_table
  = regions_total stale_table + 193.
Proof.
  destruct stale_table_facts as (Hrun & Ht & Hf & Hc & _).
  revert Hrun Ht Hf Hc. generalize stale_table. intros s Hrun Ht Hf Hc.
  split; [|rewrite Ht, Hf, Hc; reflexivity].
  apply (run_reachable stale_requests init_regions); [apply reach_init | exact Hrun].
Qed.



(** *** Lookups after an insertion and after a deletion *)

Lemma probe_null_done k fuel : 0 <= k <= 25 ->
  forall tbl idx z,
    0 <= idx < 2 ^ k ->
    probe_null fuel tbl (wrap (2 ^ k - 1)) idx = Done z ->
    0 <= z < 2 ^ k /\ p (tbl z) = 0.
Proof.
  intros Hk. induction fuel as [|f IH]; intros tbl idx z Hidx E; [discriminate|].
  cbn [probe_null] in E. destruct (Z.eqb_spec (p (tbl idx)) 0) as [Hz|Hnz].
  - injection E as <-. split; assumption.
  - apply (IH tbl (prev_index idx (wrap (2 ^ k - 1)))); [|assumption].
    apply prev_index_range; assumption.
Qed.

(** What a successful insertion is made of: the table, grown or not, and
    the null slot the probe stopped at. *)
Lemma regions_insert_done fails keeps s q sz guard s' :
  regions_insert fails keeps s q sz guard = Done (0, s') ->
  exists s1 idx,
    (if wrap (regions_free s * 4) <? regions_total s
     then regions_grow fails keeps s = Done (0, s1) else s1 = s) /\
    probe_null (Z.to_nat (regions_total s1)) (regions s1)
      (wrap (regions_total s1 - 1)) (home (regions_total s1) q) = Done idx /\
    s' = mk_regions (upd (regions s1) idx (mk_region q sz guard))
           (spare s1) (regions_total s1) (wrap (regions_free s1 - 1)).
Proof.
  unfold regions_insert. intros E.
  destruct (wrap (regions_free s * 4) <? regions_total s).
  - destruct (regions_grow fails keeps s) as [[r s1]| | |]; try discriminate.
    cbn [bind] in E. destruct (Z.eqb_spec r 0) as [->|Hr]; cbn [negb] in E.
    + destruct (probe_null _ _ _ _) as [idx| | |] eqn:Ep; try discriminate.
      cbn [bind] in E. injection E as <-. exists s1, idx.
      split; [reflexivity|]. split; [assumption | reflexivity].
    + injection E as E _. congruence.
  - cbn [bind negb Z.eqb] in E.
    destruct (probe_null _ _ _ _) as [idx| | |] eqn:Ep; try discriminate.
    cbn [bind] in E. injection E as <-. exists s, idx.
    split; [reflexivity|]. split; [assumption | reflexivity].
Qed.

(** The entries of the table after a successful insertion: the new one and
    those it held. *)
Lemma regions_insert_entries fails keeps s q sz guard s' :
  Inv s -> spare_clean s -> 0 < q < 2 ^ 64 ->
  regions_insert fails keeps s q sz guard = Done (0, s') ->
  forall e, p e <> 0 ->
    ((exists t, 0 <= t < regions_total s' /\ regions s' t = e) <->
     (e = mk_region q sz guard \/ exists t, 0 <= t < regions_total s /\ regions s t = e)).
Proof.
  intros HI Hsp Hq E e He.
  destruct (regions_insert_done fails keeps s q sz guard s' E) as (s1 & idx & Hs1 & Ep & ->).
  cbn [regions regions_total].
  assert (H1 : (exists k1, 0 <= k1 <= 25 /\ regions_total s1 = 2 ^ k1) /\
               ((exists t, 0 <= t < regions_total s1 /\ regions s1 t = e) <->
                (exists t, 0 <= t < regions_total s /\ regions s t = e))).
  { destruct (wrap (regions_free s * 4) <? regions_total s).
    - destruct (regions_grow_spec s fails keeps HI Hsp)
        as [[_ Eg] | (_ & _ & s2 & Eg & (Gt & Gf & Gfrom & Gto) & _ & k1 & Hk1 & Ht1 & _)].

      + rewrite Eg in Hs1. discriminate.
      + rewrite Eg in Hs1. injection Hs1 as ->. split.
        * exists k1. split; [lia | assumption].
        * split.
          -- intros (t & Ht & Et). destruct (Gfrom t Ht) as (u & Hu & Eu); [congruence|].
             exists u. split; [assumption | congruence].
          -- intros (t & Ht & Et). destruct (Gto t Ht) as (u & Hu & Eu); [congruence|].
             exists u. split; [assumption | congruence].
    - subst s1. destruct HI as (k & Hk & Ht & _). split; [|tauto].
      exists k. split; [lia | assumption]. }
  destruct H1 as [(k1 & Hk1 & Ht1) Hsame]. rewrite <- Hsame. rewrite Ht1 in *.
  destruct (probe_null_done k1 _ Hk1 _ _ _ (home_range k1 Hk1 q) Ep) as [Hidx Hnull].
  split.
  - intros (t & Ht & Et). destruct (Z.eq_dec t idx) as [->|Hne].
    + rewrite upd_same in Et. left. congruence.
    + rewrite upd_other in Et by assumption. right. exists t. split; assumption.
  - intros [-> | (t & Ht & Et)].
    + exists idx. split; [assumption | apply upd_same].
    + exists t. split; [assumption|]. rewrite upd_other; [assumption|].
      intros ->. rewrite Et in Hnull. contradiction.
Qed.

(** An entry of a table that satisfies the invariant is found at its
    slot, and only there. *)
Lemma Inv_find_entry s e :
  Inv s -> p e <> 0 ->
  (exists t, 0 <= t < regions_total s /\ regions s t = e) ->
  exists i, regions_find s (p e) = Done (Some i) /\ regions s i = e.
Proof.
  intros HI He (t & Ht & Et). exists t. split; [|assumption].
  rewrite <- Et. apply (Inv_findable s HI t Ht). rewrite Et. assumption.
Qed.

Lemma find_entry_in_table s q i :
  Inv s -> regions_find s q = Done (Some i) ->
  0 <= i < regions_total s /\ p (regions s i) = q /\ q <> 0.
Proof.
  intros HI Ef. destruct (regions_find_returns s q HI) as (o & Eo & Ho).
  rewrite Ef in Eo. injection Eo as <-. apply Ho. reflexivity.
Qed.

Lemma find_absent_lookup s q :
  Inv s -> present s q = false -> regions_find s q = Done None.
Proof.
  intros HI Hq.
  destruct (regions_find_returns s q HI) as ([i|] & Eo & Ho); [|assumption].
  destruct (Ho i eq_refl) as (Hi & Hp & Hq0). exfalso.
  apply (not_present_spec s q Hq ltac:(lia) i Hi Hp).
Qed.

(** A successful insertion, seen through [regions_find]. *)
Lemma insert_find_facts s fails keeps q sz guard s' :
  Inv s -> spare_clean s ->
  0 < q < 2 ^ 64 -> present s q = false ->
  regions_insert fails keeps s q sz guard = Done (0, s') ->
  (exists i, regions_find s' q = Done (Some i) /\
     regions s' i = mk_region q sz guard) /\
  (forall q' i, regions_find s q' = Done (Some i) ->
     exists i', regions_find s' q' = Done (Some i') /\ regions s' i' = regions s i).
Proof.
  intros HI Hsp Hq Hfresh E.
  assert (HI' : Inv s').
  { destruct (regions_insert_spec s fails keeps q sz guard HI Hsp Hq Hfresh)
      as (r0 & s0 & E0 & HI0 & _).
    rewrite E in E0. injection E0 as _ <-. assumption. }
  pose proof (regions_insert_entries fails keeps s q sz guard s' HI Hsp Hq E) as Hent.
  split.
  - destruct (Inv_find_entry s' (mk_region q sz guard) HI') as (i & Ef & Ei).
    + cbn [p]. lia.
    + apply Hent; [cbn [p]; lia | left; reflexivity].
    + exists i. split; assumption.
  - intros q' i Ef. destruct (find_entry_in_table s q' i HI Ef) as (Hi & Hp & Hq').
    destruct (Inv_find_entry s' (regions s i) HI') as (i' & Ef' & Ei').
    + congruence.
    + apply Hent; [congruence|]. right. exists i. split; [assumption | reflexivity].
    + exists i'. rewrite Hp in Ef'. split; assumption.
Qed.

(** A deletion, seen through [regions_find]. *)
Lemma delete_find_facts s q i s' :
  Inv s ->
  regions_find s q = Done (Some i) ->
  regions_delete s i = Done s' ->
  regions_find s' q = Done None /\
  regions_total s' = regions_total s /\
  regions_free s' = regions_free s + 1 /\
  (forall q' j, q' <> q -> regions_find s q' = Done (Some j) ->
     exists j', regions_find s' q' = Done (Some j') /\ regions s' j' = regions s j).
Proof.
  intros HI Ef Ed.
  destruct (find_entry_in_table s q i HI Ef) as (Hi & Hp & Hq).
  destruct (regions_delete_spec s i HI Hi) as (s0 & E0 & HI' & Ht & Hfree & _);
    [congruence|].
  rewrite Ed in E0. injection E0 as <-.
  pose proof (delete_keeps_others s q i s' HI Ef Ed) as Hent.
  pose proof HI as (k & _ & _ & _ & _ & _ & _ & HD).
  split; [|split; [assumption | split; [assumption|]]].
  - destruct (regions_find_returns s' q HI') as ([j|] & Eo & Ho); [|assumption].
    exfalso. destruct (Ho j eq_refl) as (Hj & Hpj & _).
    destruct (proj1 (Hent (regions s' j) ltac:(congruence))) as (t & Ht' & Hne & Et).
    { exists j. split; [assumption | reflexivity]. }
    apply Hne. apply (HD t i Ht' Hi); rewrite Et; congruence.
  - intros q' j Hne Ef'.
    destruct (find_entry_in_table s q' j HI Ef') as (Hj & Hpj & Hq').
    destruct (Inv_find_entry s' (regions s j) HI') as (j' & Efj & Ej).
    + congruence.
    + apply Hent; [congruence|]. exists j. split; [assumption|].
      split; [congruence | reflexivity].
    + exists j'. rewrite Hpj in Efj. split; assumption.
Qed.


(** When [regions_insert] gets as far as asking the page provider for the
    other buffer. *)
Lemma grow_asked_spec s :
  Inv s ->
  ((wrap (regions_free s * 4) <? regions_total s)
   && negb (regions_total s >? SIZE_MAX / sizeof_region_info / 2)
   && negb (wrap (regions_total s * 2) >? max_region_table_size)) = true
  <-> regions_free s * 4 < regions_total s /\
      regions_total s <> max_region_table_size.
Proof.
  intros (k & Hk & Ht & Hf & Hc & Hl & _).
  pose proof (pow2_bounds k Hk) as Hn.
  assert (H64 : 2 ^ 25 < 2 ^ 64) by (apply Z.pow_lt_mono_r; lia).
  assert (H25 : 2 ^ 25 = 33554432) by reflexivity.
  assert (Hfree : 0 <= regions_free s <= 2 ^ k).
  { unfold occupied_count in Hc. rewrite Ht in Hc.
    pose proof (count_upto_bounds (regions s) (Z.to_nat (2 ^ k))). lia. }
  destruct grow_limits as [Hsz Hmax]. rewrite Hsz, Hmax, Ht.
  rewrite (wrap_small (regions_free s * 4)) by lia.
  rewrite (wrap_small (2 ^ k * 2)) by lia.
  destruct (Z.gtb_spec (2 ^ k) 384307168202282325) as [Hbig|_]; [lia|].
  rewrite andb_true_r.
  destruct (Z.ltb_spec (regions_free s * 4) (2 ^ k)) as [Hlow|Hhigh];
    [|split; [discriminate | lia]].
  cbn [andb].
  destruct (Z.gtb_spec (2 ^ k * 2) (2 ^ 25)) as [Hcap|Hcap]; cbn [negb].
  - split; [discriminate|]. intros [_ Hne]. exfalso. apply Hne.
    destruct (Z.eq_dec k 25) as [->|Hk25]; [reflexivity|].
    assert (2 ^ (k + 1) <= 2 ^ 25) by (apply Z.pow_le_mono_r; lia).
    rewrite Z.pow_add_r, Z.pow_1_r in H by lia. lia.
  - split; [|reflexivity]. intros _. split; [assumption|]. lia.
Qed.




(** X3. Whatever the page provider has answered before, an insertion
    that reports failure has changed nothing, and it fails only when the
    table had to grow, fewer than a quarter of its slots being free by
    the counter, and could not: the other buffer could not be made
    writable, or the table already has [max_region_table_size] slots. *)
Theorem insert_failure_leaves_table s fails keeps q sz guard r s' :
  reachable s ->
  regions_insert fails keeps s q sz guard = Done (r, s') ->
  r <> 0 ->
  s' = s /\ regions_free s * 4 < regions_total s /\
  (fails = true \/ regions_total s = max_region_table_size).
Proof.
  intros Hs E Hr. pose proof (reachable_Shape s Hs) as HS.
  destruct (regions_insert_shape s fails keeps q sz guard r s' HS E) as [_ Hg].
  destruct (Z.ltb_spec (regions_free s * 4) (regions_total s)) as [Hlow|Hhigh].
  - destruct Hg as [(_ & Hs' & Hwhy) | (Hr0 & _)]; [|contradiction].
    split; [assumption|]. split; assumption.
  - destruct Hg as [Hr0 _]. contradiction.
Qed.

Lemma insert_failure_leaves_table_witness :
  exists r s',
    regions_insert true false crowded_table (PAGE_SIZE * 194) 100000 PAGE_SIZE
      = Done (r, s') /\
    s' = crowded_table /\
    regions_free crowded_table * 4 < regions_total crowded_table.
Proof.
  pose proof crowded_table_clean as Hs.
  destruct (clean_calls_return crowded_table Hs) as (Hins & _).
  destruct (Hins true false (PAGE_SIZE * 194) 100000 PAGE_SIZE) as (r & s' & E).
  { vm_compute. split; reflexivity. }
  { vm_compute. reflexivity. }
  assert (Hr : match regions_insert true false crowded_table (PAGE_SIZE * 194) 100000
                       PAGE_SIZE
               with Done (r, _) => r | _ => 0 end = 1) by (vm_compute; reflexivity).
  rewrite E in Hr. subst r.
  exists 1, s'. split; [exact E|].
  destruct (insert_failure_leaves_table crowded_table true false (PAGE_SIZE * 194) 100000
              PAGE_SIZE 1 s' (clean_reachable_reachable _ Hs)) as (H1 & H2 & _).
  - exact E.
  - discriminate.
  - split; [exact H1 | exact H2].
Defined.



End RegionsTheory.

(** ** The allocator *)

Module AllocTheory.
Import Alloc AllocSpec.
Local Open Scope alloc_scope.

(** *** Size classes *)

Lemma N_SIZE_CLASSES_eq : N_SIZE_CLASSES = 37.
Proof. reflexivity. Qed.

Lemma in_range_list lo n x :
  Z.of_nat lo <= x < Z.of_nat lo + Z.of_nat n ->
  In x (map Z.of_nat (seq lo n)).
Proof.
  intros H. apply in_map_iff. exists (Z.to_nat x). split; [lia|].
  apply in_seq. lia.
Qed.

Lemma scan_classes_spec n : forall class size info,
  scan_classes n class size = Done info ->
  class <= info_class info < class + Z.of_nat n /\
  info_size info = class_size (info_class info) /\
  size <= info_size info.
Proof.
  induction n as [|n IH]; intros class size info H; simpl in H; [discriminate|].
  destruct (Z.leb_spec size (class_size class)).
  - injection H as <-. simpl. lia.
  - destruct (IH _ _ _ H) as (H1 & H2 & H3). lia.
Qed.

Lemma class_size_bound class : class_size class <= max_slab_size_class.
Proof.
  destruct (Z_lt_ge_dec class 0) as [Hneg|Hpos].
  - unfold class_size. replace (Z.to_nat class) with O by lia. simpl.
    unfold max_slab_size_class. lia.
  - destruct (Z_lt_ge_dec class 37) as [Hlt|Hge].
    + assert (Hin : In class (map Z.of_nat (seq 0 37))) by (apply in_range_list; lia).
      assert (Hall : forallb (fun x => class_size x <=? max_slab_size_class)
                       (map Z.of_nat (seq 0 37)) = true) by (vm_compute; reflexivity).
      rewrite forallb_forall in Hall. specialize (Hall class Hin). lia.
    + unfold class_size. rewrite nth_overflow by (simpl; lia).
      unfold max_slab_size_class. lia.
Qed.

Lemma small_classes_ok : forallb small_class_ok (map Z.of_nat (seq 1 128)) = true.
Proof. vm_compute. reflexivity. Qed.

Lemma get_size_info_spec size info :
  0 <= size ->
  get_size_info size = Done info ->
  0 <= info_class info < N_SIZE_CLASSES /\
  info_size info = class_size (info_class info) /\
  size <= info_size info <= max_slab_size_class.
Proof.
  intros Hsize H. rewrite N_SIZE_CLASSES_eq.
  assert (Hok : 0 <= info_class info < 37 /\
                info_size info = class_size (info_class info) /\
                size <= info_size info).
  { destruct (Z_le_gt_dec size 128) as [Hsmall|Hbig].
    - destruct (Z.eq_dec size 0) as [->|Hnz].
      + injection H as <-. simpl. repeat split; try lia; reflexivity.
      + pose proof small_classes_ok as Hall. rewrite forallb_forall in Hall.
        specialize (Hall size (in_range_list 1 128 size ltac:(lia))).
        unfold small_class_ok in Hall. rewrite H in Hall.
        rewrite !andb_true_iff in Hall.
        destruct Hall as [[[H1 H2] H3] H4]. lia.
    - unfold get_size_info in H.
      destruct (Z.eqb_spec size 0); [lia|].
      destruct (Z.leb_spec size 128); [lia|].
      apply scan_classes_spec in H. rewrite N_SIZE_CLASSES_eq in H.
      change (Z.of_nat (Z.to_nat (37 - 9))) with 28 in H. lia. }
  destruct Hok as (H1 & H2 & H3). repeat split; try lia.
  rewrite H2. apply class_size_bound.
Qed.

Lemma get_size_info_limit size info :
  0 <= size -> get_size_info size = Done info -> size <= max_slab_size_class.
Proof. intros H0 H. apply get_size_info_spec in H; lia. Qed.

(** Two classes of one size are one class. *)
Lemma class_size_injective a b :
  0 <= a < N_SIZE_CLASSES -> 0 <= b < N_SIZE_CLASSES ->
  class_size a = class_size b -> a = b.
Proof.
  rewrite N_SIZE_CLASSES_eq. intros Ha Hb.
  assert (Hina : In a (map Z.of_nat (seq 0 37))) by (apply in_range_list; lia).
  assert (Hinb : In b (map Z.of_nat (seq 0 37))) by (apply in_range_list; lia).
  assert (Hall : forallb (fun x => forallb (fun y =>
            negb (class_size x =? class_size y) || (x =? y))
            (map Z.of_nat (seq 0 37))) (map Z.of_nat (seq 0 37)) = true)
    by (vm_compute; reflexivity).
  rewrite forallb_forall in Hall. specialize (Hall a Hina).
  rewrite forallb_forall in Hall. specialize (Hall b Hinb).
  intros E. rewrite E, Z.eqb_refl in Hall. simpl in Hall. lia.
Qed.

(** *** The null pointer and same-class reallocation *)

(** C8. [h_free(NULL)] returns at once and leaves the state as it is,
    [h_malloc_usable_size(NULL)] is 0, and [h_realloc(NULL, n)] is
    [h_malloc(n)], whatever the state and [n]. *)
Theorem null_pointer_calls cfg s :
  h_free cfg 0 s = Done (tt, s) /\
  h_malloc_usable_size cfg 0 s = Done (0, s) /\
  forall n, h_realloc cfg 0 n s = h_malloc cfg n s.
Proof. repeat split. Qed.

Lemma adjust_size_nonneg cfg n : 0 <= n -> 0 <= adjust_size_for_canaries cfg n.
Proof.
  intros H. unfold adjust_size_for_canaries.
  destruct ((0 <? n) && (n <=? max_slab_size_class)); [apply wrap_range | assumption].
Qed.

(** C7. [h_realloc] of a pointer of the slab region, with a request whose
    canary-adjusted size classifies to the class of the pointer, returns
    the pointer and leaves the state as it is. *)
Theorem realloc_same_class cfg s old n info :
  0 <= n ->
  old <> 0 ->
  slab_region_start s <= old < slab_region_end s ->
  get_size_info (adjust_size_for_canaries cfg n) = Done info ->
  info_class info = free_class s old ->
  h_realloc cfg old n s = Done (old, s).
Proof.
  intros Hn Hold Hin Hinfo Hsame.
  pose proof (adjust_size_nonneg cfg n Hn) as Hadj.
  destruct (get_size_info_spec _ _ Hadj Hinfo) as (Hc & Hs & Hle).
  unfold h_realloc.
  destruct (Z.eqb_spec old 0) as [|_]; [contradiction|].
  unfold bindM at 1. unfold in_slab_region.
  destruct (Z.leb_spec (slab_region_start s) old); [|lia].
  destruct (Z.ltb_spec old (slab_region_end s)); [|lia].
  cbn [andb]. unfold bindM at 1.
  unfold slab_usable_size, slab_size_class, bindM at 1, ret.
  fold (free_class s old). unfold bindM at 1.
  destruct (Z.leb_spec (adjust_size_for_canaries cfg n) max_slab_size_class); [|lia].
  unfold bindM at 1. unfold lift. rewrite Hinfo. unfold ret.
  rewrite Hs, Hsame, Z.eqb_refl. reflexivity.
Qed.

Lemma realloc_same_class_witness :
  h_realloc hardened small_pointer 16 one_small = Done (small_pointer, one_small).
Proof.
  apply (realloc_same_class hardened one_small small_pointer 16 (mk_size_info 32 2)).
  - lia.
  - vm_compute. discriminate.
  - vm_compute. split; [discriminate | reflexivity].
  - reflexivity.
  - vm_compute. reflexivity.
Defined.

(** *** Requests just below the largest class *)

Lemma table_insert_registers fails keeps t q sz guard t' :
  Regions.regions_insert fails keeps t q sz guard = Done (0, t') ->
  exists i, Regions.regions t' i = Regions.mk_region q sz guard.
Proof.
  unfold Regions.regions_insert. unfold bind at 1.
  destruct (if _ <? _ then _ else _) as [[r t1]| | |]; try discriminate.
  destruct (negb (r =? 0)); [discriminate|].
  unfold bind. destruct (Regions.probe_null _ _ _ _) as [index| | |]; try discriminate.
  intros [= <-]. exists index. cbn [Regions.regions]. apply upd_same.
Qed.

Lemma regions_insert_frame q sz guard s r s' :
  regions_insert q sz guard s = Done (r, s') ->
  size_class_metadata s' = size_class_metadata s /\
  (exists l, os_log s' = l ++ os_log s) /\
  initialized s' = initialized s /\
  slab_region_start s' = slab_region_start s /\
  slab_region_end s' = slab_region_end s /\
  exists keeps,
    Regions.regions_insert (grow_asked (rtable s) && negb (hd 0 (os_next s) =? 0)) keeps
      (rtable s) q sz guard = Done (r, rtable s').
Proof.
  unfold regions_insert, memory_protect_rw, memory_map_fixed, os.
  unfold bindM, get_state, modify, lift, ret. fold (grow_asked (rtable s)).
  destruct (grow_asked (rtable s)); cbn [andb].
  - cbn [os_next os_log set_os hd tl rtable].
    destruct (hd 0 (os_next s) =? 0); cbn [negb].
    + cbv beta iota. cbn [os_next os_log set_os set_mem hd tl rtable].
      destruct (hd 0 (tl (os_next s)) =? 0) eqn:Em; cbv beta iota; rewrite ?Em;
        cbn [negb os_next os_log set_os set_mem hd tl rtable].
      * destruct (Regions.regions_insert false false (rtable s) q sz guard)
          as [[res t']| | |] eqn:E; try discriminate.
        intros [= <- <-]. cbn. split; [reflexivity|].
        split; [eexists [_; _]; reflexivity|].
        repeat (split; [reflexivity|]). exists false. assumption.
      * destruct (Regions.regions_insert false true (rtable s) q sz guard)
          as [[res t']| | |] eqn:E; try discriminate.
        intros [= <- <-]. cbn. split; [reflexivity|].
        split; [eexists [_; _]; reflexivity|].
        repeat (split; [reflexivity|]). exists true. assumption.
    + destruct (Regions.regions_insert true false (rtable s) q sz guard)
        as [[res t']| | |] eqn:E; try discriminate.
      intros [= <- <-]. cbn. split; [reflexivity|].
      split; [eexists [_]; reflexivity|].
      repeat (split; [reflexivity|]). exists false. assumption.
  - destruct (Regions.regions_insert false false (rtable s) q sz guard)
      as [[res t']| | |] eqn:E; try discriminate.
    intros [= <- <-]. cbn. split; [reflexivity|].
    split; [exists []; reflexivity|].
    repeat (split; [reflexivity|]). exists false. assumption.
Qed.

Lemma regions_insert_returns q sz guard s :
  (forall fails keeps, exists r t',
      Regions.regions_insert fails keeps (rtable s) q sz guard = Done (r, t')) ->
  exists r s', regions_insert q sz guard s = Done (r, s').
Proof.
  intros H.
  unfold regions_insert, memory_protect_rw, memory_map_fixed, os.
  unfold bindM, get_state, modify, lift, ret.
  destruct (_ && _ && _).
  - cbn [os_next os_log set_os hd tl rtable].
    destruct (hd 0 (os_next s) =? 0).
    + cbv beta iota. cbn [os_next os_log set_os set_mem hd tl rtable].
      destruct (hd 0 (tl (os_next s)) =? 0) eqn:Em; cbv beta iota; rewrite ?Em;
        cbn [negb os_next os_log set_os set_mem hd tl rtable].
      * destruct (H false false) as (r & t' & E). rewrite E. eexists _, _; reflexivity.
      * destruct (H false true) as (r & t' & E). rewrite E. eexists _, _; reflexivity.
    + destruct (H true false) as (r & t' & E). rewrite E. eexists _, _; reflexivity.
  - destruct (H false false) as (r & t' & E). rewrite E. eexists _, _; reflexivity.
Qed.

(** [regions_insert] on a table in order, for a pointer it does not hold:
    the call returns; it fails exactly when the table must grow and cannot,
    and then leaves the table as it is; otherwise the pointer is found
    afterwards, with the entry it was registered with. *)
Lemma regions_insert_runs q sz guard s :
  RegionsSpec.Inv (rtable s) -> RegionsSpec.spare_clean (rtable s) ->
  0 < q < 2 ^ 64 -> RegionsSpec.present (rtable s) q = false ->
  exists r s',
    regions_insert q sz guard s = Done (r, s') /\
    (r = 0 <->
     (Regions.regions_free (rtable s) * 4 < Regions.regions_total (rtable s) ->
      Regions.regions_total (rtable s) <> Regions.max_region_table_size /\
      hd 0 (os_next s) = 0)) /\
    (r <> 0 -> rtable s' = rtable s) /\
    (r = 0 ->
     RegionsSpec.Inv (rtable s') /\
     exists i, Regions.regions_find (rtable s') q = Done (Some i) /\
       Regions.regions (rtable s') i = Regions.mk_region q sz guard).
Proof.
  intros HI Hsp Hq Hfresh.
  destruct (regions_insert_returns q sz guard s) as (r & s' & E).
  { intros fails keeps.
    destruct (RegionsTheory.regions_insert_spec (rtable s) fails keeps q sz guard
                HI Hsp Hq Hfresh) as (r & t' & E & _).
    exists r, t'. assumption. }
  exists r, s'. split; [assumption|].
  destruct (regions_insert_frame q sz guard s r s' E) as (_ & _ & _ & _ & _ & keeps & Et).
  set (fails := grow_asked (rtable s) && negb (hd 0 (os_next s) =? 0)) in *.
  destruct (RegionsTheory.regions_insert_spec (rtable s) fails keeps q sz guard
              HI Hsp Hq Hfresh) as (r0 & t0 & E0 & HI' & Hg & _ & _ & Hr).
  rewrite Et in E0. injection E0 as <- <-.
  pose proof (RegionsTheory.grow_asked_spec (rtable s) HI) as Hasks.
  fold (grow_asked (rtable s)) in Hasks.
  split; [|split].
  - rewrite Hr. split.
    + intros H Hlow. destruct (H Hlow) as [Hf Hmax]. split; [assumption|].
      unfold fails in Hf. apply andb_false_iff in Hf. destruct Hf as [Hf|Hf].
      * exfalso. assert (grow_asked (rtable s) = true) by (apply Hasks; split; assumption).
        congruence.
      * apply negb_false_iff in Hf. apply Z.eqb_eq. assumption.
    + intros H Hlow. destruct (H Hlow) as [Hmax He]. split; [|assumption].
      unfold fails. rewrite He. cbn [Z.eqb negb]. apply andb_false_r.
  - intros Hne.
    destruct (Regions.regions_free (rtable s) * 4 <? Regions.regions_total (rtable s)).
    + destruct Hg as [[_ Hsame] | [H0 _]]; [assumption | contradiction].
    + destruct Hg as [H0 _]. contradiction.
  - intros ->. split; [assumption|].
    apply (RegionsTheory.insert_find_facts (rtable s) fails keeps q sz guard (rtable s')
             HI Hsp Hq Hfresh Et).

Qed.

Lemma init_done s : initialized s = true -> init s = Done (tt, s).
Proof. intros H. unfold init, bindM, is_init, ret. rewrite H. reflexivity. Qed.

(** The large path of [allocate], from the state [get_guard_size] and
    [allocate_pages] leave behind. *)
Lemma allocate_large_steps cfg s size :
  max_slab_size_class < size ->
  exists s1,
    size_class_metadata s1 = size_class_metadata s /\
    rtable s1 = rtable s /\
    os_next s1 = tl (os_next s) /\
    os_log s1 = AllocatePages size (drawn_guard s size) true :: os_log s /\
    initialized s1 = initialized s /\
    slab_region_start s1 = slab_region_start s /\
    slab_region_end s1 = slab_region_end s /\
    allocate cfg size s =
    (if hd 0 (os_next s) =? 0 then Done (0, s1)
     else
       match regions_insert (hd 0 (os_next s)) size (drawn_guard s size)
               (set_mem s1 (memset (mem s1) (hd 0 (os_next s)) 0 size)) with
       | Done (r, s2) =>
           if negb (r =? 0)
           then Done (0, set_os s2 (tl (os_next s2))
                           (DeallocatePages (hd 0 (os_next s)) size (drawn_guard s size)
                              :: os_log s2))
           else Done (hd 0 (os_next s), s2)
       | Fatal msg => Fatal msg
       | Crash => Crash
       | Diverges => Diverges
       end).
Proof.
  intros Hbig. unfold allocate.
  destruct (Z.leb_spec size max_slab_size_class); [lia|].
  unfold drawn_guard, value_of.
  unfold get_guard_size, allocate_pages, deallocate_pages, os.
  destruct (get_random_u64_uniform (regions_rng s) (size / PAGE_SIZE / 8)) as [u rr] eqn:Eu.
  exists (set_os (set_regions_rng s rr) (tl (os_next s))
            (AllocatePages size (wrap (wrap (u + 1) * PAGE_SIZE)) true :: os_log s)).
  repeat (split; [reflexivity|]).
  unfold bindM, ret. rewrite Eu. cbn [os_next set_regions_rng os_log hd tl].
  destruct (hd 0 (os_next s) =? 0) eqn:Eq; rewrite ?Eq; [reflexivity|].
  destruct (regions_insert _ _ _ _) as [[r s2]| | |]; try reflexivity.
  destruct (negb (r =? 0)); reflexivity.
Qed.

(** The large path of [allocate]: what every call that returns has done,
    and, on a region table in order, when it serves the request. *)
Lemma allocate_large_runs cfg s size :
  max_slab_size_class < size ->
  (forall q s', allocate cfg size s = Done (q, s') ->
     size_class_metadata s' = size_class_metadata s /\
     initialized s' = initialized s /\
     slab_region_start s' = slab_region_start s /\
     slab_region_end s' = slab_region_end s /\
     (q = 0 \/ q = hd 0 (os_next s)) /\
     exists later,
       os_log s' = later ++ AllocatePages size (drawn_guard s size) true :: os_log s) /\
  (hd 0 (os_next s) = 0 ->
   exists s', allocate cfg size s = Done (0, s') /\ rtable s' = rtable s /\
     os_log s' = AllocatePages size (drawn_guard s size) true :: os_log s) /\
  (RegionsSpec.Inv (rtable s) -> RegionsSpec.spare_clean (rtable s) ->
   0 < hd 0 (os_next s) < 2 ^ 64 ->
   RegionsSpec.present (rtable s) (hd 0 (os_next s)) = false ->
   ((Regions.regions_free (rtable s) * 4 < Regions.regions_total (rtable s) ->
     Regions.regions_total (rtable s) <> Regions.max_region_table_size /\
     hd 0 (tl (os_next s)) = 0) ->
    exists s' i,
      allocate cfg size s = Done (hd 0 (os_next s), s') /\
      RegionsSpec.Inv (rtable s') /\
      Regions.regions_find (rtable s') (hd 0 (os_next s)) = Done (Some i) /\
      Regions.regions (rtable s') i
      = Regions.mk_region (hd 0 (os_next s)) size (drawn_guard s size)) /\
   (Regions.regions_free (rtable s) * 4 < Regions.regions_total (rtable s) ->
    Regions.regions_total (rtable s) = Regions.max_region_table_size \/
    hd 0 (tl (os_next s)) <> 0 ->
    exists s' later,
      allocate cfg size s = Done (0, s') /\ rtable s' = rtable s /\
      os_log s' = DeallocatePages (hd 0 (os_next s)) size (drawn_guard s size)
                    :: later ++ AllocatePages size (drawn_guard s size) true :: os_log s)).
Proof.
  intros Hbig.
  destruct (allocate_large_steps cfg s size Hbig)
    as (s1 & Hclasses & Htable & Hnext & Hlog & Hinit & Hstart & Hend & Hsteps).
  rewrite Hsteps. clear Hsteps.
  set (s1' := set_mem s1 (memset (mem s1) (hd 0 (os_next s)) 0 size)).
  assert (Ht1 : rtable s1' = rtable s) by exact Htable.
  assert (Hn1 : os_next s1' = tl (os_next s)) by exact Hnext.
  split; [|split].
  - intros q s'. destruct (Z.eqb_spec (hd 0 (os_next s)) 0) as [Ez|Enz].
    + intros [= <- <-]. repeat (split; [assumption|]).
      split; [left; reflexivity|]. exists []. assumption.
    + destruct (regions_insert _ _ _ _) as [[r s2]| | |] eqn:Ei; try discriminate.
      destruct (regions_insert_frame _ _ _ _ _ _ Ei)
        as (Hc2 & (l & Hl2) & Hi2 & Hs2 & He2 & _).
      cbn [size_class_metadata set_mem os_log initialized slab_region_start
           slab_region_end s1'] in Hc2, Hl2, Hi2, Hs2, He2.
      destruct (Z.eqb_spec r 0) as [->|Hr]; cbn [negb].
      * intros [= <- <-]. split; [congruence|]. split; [congruence|].
        split; [congruence|]. split; [congruence|]. split; [right; reflexivity|].
        exists l. rewrite Hl2, Hlog. reflexivity.
      * intros [= <- <-].
        cbn [size_class_metadata set_os os_log initialized slab_region_start
             slab_region_end].
        split; [congruence|]. split; [congruence|].
        split; [congruence|]. split; [congruence|]. split; [left; reflexivity|].
        exists (DeallocatePages (hd 0 (os_next s)) size (drawn_guard s size) :: l).
        rewrite Hl2, Hlog. reflexivity.
  - intros Ez. rewrite Ez. cbn [Z.eqb]. exists s1. repeat split; assumption.
  - intros HI Hsp Hq Hfresh.
    destruct (Z.eqb_spec (hd 0 (os_next s)) 0) as [Ez|Enz]; [lia|].
    destruct (regions_insert_runs (hd 0 (os_next s)) size (drawn_guard s size) s1')
      as (r & s2 & Ei & Hr & Hfail & Hok).
    { rewrite Ht1. assumption. }
    { rewrite Ht1. assumption. }
    { assumption. }
    { rewrite Ht1. assumption. }
    rewrite Ei. rewrite Ht1, Hn1 in Hr. rewrite Ht1 in Hfail.
    destruct (regions_insert_frame _ _ _ _ _ _ Ei) as (_ & (l & Hl2) & _).
    cbn [set_mem os_log s1'] in Hl2.
    split.
    + intros Hcan. assert (Hr0 : r = 0) by (apply Hr; assumption). subst r.
      cbn [Z.eqb negb]. destruct (Hok eq_refl) as (HI2 & i & Ef & Ee).
      exists s2, i. repeat split; assumption.
    + intros Hlow Hwhy.
      assert (Hr0 : r <> 0).
      { intros H0. destruct (proj1 Hr H0 Hlow) as [H1 H2].
        destruct Hwhy; contradiction. }

      destruct (Z.eqb_spec r 0) as [|_]; [contradiction|]. cbn [negb].
      eexists _, l. split; [reflexivity|]. cbn [rtable set_os os_log].
      split; [apply Hfail; assumption|]. rewrite Hl2, Hlog. reflexivity.
Qed.
(** *** The occupancy bitmap *)

Lemma land_shiftr_1 b i : 0 <= i -> Z.land (Z.shiftr b i) 1 = Z.b2z (Z.testbit b i).
Proof.
  intros Hi. change 1 with (Z.ones 1) at 1. rewrite Z.land_ones by lia.
  change (2 ^ 1) with 2. rewrite <- Z.bit0_mod.
  rewrite Z.shiftr_spec by lia. reflexivity.
Qed.

Lemma testbit_one_shifted i : 0 <= i < 64 -> Z.testbit (wrap (Z.shiftl 1 i)) i = true.
Proof.
  intros Hi. unfold wrap. rewrite Z.mod_pow2_bits_low by lia.
  rewrite Z.shiftl_spec by lia. rewrite Z.sub_diag. reflexivity.
Qed.

Lemma check_index_ok i : i < 64 -> check_index i = Done tt.
Proof. intros H. unfold check_index. destruct (Z.geb_spec i 64); [lia | reflexivity]. Qed.

Lemma check_index_done i u : check_index i = Done u -> i < 64.
Proof. unfold check_index. destruct (Z.geb_spec i 64); [discriminate | lia]. Qed.

Lemma get_slot_set md i :
  0 <= i < 64 ->
  get_slot (set_bitmap md (Z.lor (bitmap md) (wrap (Z.shiftl 1 i)))) i = Done true.
Proof.
  intros Hi. unfold get_slot. rewrite check_index_ok by lia. cbn [bind bitmap set_bitmap].
  rewrite land_shiftr_1 by lia. rewrite Z.lor_spec, testbit_one_shifted by lia.
  rewrite orb_true_r. reflexivity.
Qed.

Lemma get_slot_cleared md i :
  0 <= i < 64 ->
  get_slot (set_bitmap md
              (Z.land (bitmap md) (wrap (Z.lnot (wrap (Z.shiftl 1 i)))))) i = Done false.
Proof.
  intros Hi. unfold get_slot. rewrite check_index_ok by lia. cbn [bind bitmap set_bitmap].
  rewrite land_shiftr_1 by lia. rewrite Z.land_spec.
  unfold wrap at 1. rewrite Z.mod_pow2_bits_low by lia.
  rewrite Z.lnot_spec, testbit_one_shifted by lia.
  rewrite andb_false_r. reflexivity.
Qed.

Lemma get_slot_zero md i u :
  bitmap md = 0 -> check_index i = Done u -> get_slot md i = Done false.
Proof.
  intros Hb Hc. unfold get_slot. rewrite Hc, Hb. cbn [bind].
  rewrite Z.shiftr_0_l. reflexivity.
Qed.

Lemma get_slot_true_nonzero md i : get_slot md i = Done true -> bitmap md <> 0.
Proof.
  unfold get_slot. destruct (check_index i); try discriminate. cbn [bind].
  intros H Hz. rewrite Hz, Z.shiftr_0_l in H. discriminate.
Qed.

Lemma get_free_slot_nonneg cfg r slots md slot r' :
  get_free_slot cfg r slots md = Done (slot, r') -> 0 <= slot.
Proof.
  unfold get_free_slot.
  destruct (_ =? _); [discriminate|].
  destruct (SLOT_RANDOMIZE cfg).
  - destruct (get_random_u16_uniform _ _) as [start r0].
    destruct (negb _); intros [= <- _]; apply wrap_range.
  - intros [= <- _]. apply wrap_range.
Qed.

(** *** Updates that keep the metadata invariant *)

Ltac class_fields :=
  cbn [class_region_start slab_info_addr slab_info partial_slabs empty_slabs
       empty_slabs_total free_slabs_head free_slabs_tail size_divisor
       slab_size_divisor rng metadata_allocated metadata_count
       md_update set_slab_info set_partial_slabs set_empty_slabs
       set_empty_slabs_total set_free_slabs_head set_free_slabs_tail set_rng
       set_metadata_allocated set_metadata_count
       bitmap next prev canary_value set_bitmap set_next set_prev
       set_canary_value] in *.

Ltac state_fields :=
  cbn [slab_region_start slab_region_end ro_regions0 ro_regions1 initialized
       size_class_metadata regions_rng regions_addr rtable mem errno os_next
       os_log seeds set_classes set_mem set_errno set_os set_regions
       set_regions_rng set_seeds set_ro_regions set_slab_region
       set_initialized] in *.

Lemma wf_md_update class c j f :
  metadata_wf class c ->
  ptr_ok c (Some j) ->
  ptr_ok c (next (f (slab_info c j))) ->
  ptr_ok c (prev (f (slab_info c j))) ->
  metadata_wf class (md_update c j f).
Proof.
  intros (Ha & Hc & Hz & Hp & He & Hh & Ht & Hl) Hj Hn Hpv.
  unfold metadata_wf, untouched_zero, ptr_ok in *. class_fields.
  repeat split; try assumption; try lia.
  - intros i Hi. rewrite upd_other by lia. apply Hz. assumption.
  - destruct (Z.eq_dec i j) as [->|Hne];
      [rewrite upd_same; assumption | rewrite upd_other by assumption; apply Hl].
  - destruct (Z.eq_dec i j) as [->|Hne];
      [rewrite upd_same; assumption | rewrite upd_other by assumption; apply Hl].
Qed.

Lemma wf_set_partial_slabs class c v :
  metadata_wf class c -> ptr_ok c v -> metadata_wf class (set_partial_slabs c v).
Proof.
  intros (Ha & Hc & Hz & Hp & He & Hh & Ht & Hl) Hv.
  unfold metadata_wf, untouched_zero, ptr_ok in *. class_fields.
  repeat split; try assumption; try lia; apply Hl.
Qed.

Lemma wf_set_empty_slabs class c v :
  metadata_wf class c -> ptr_ok c v -> metadata_wf class (set_empty_slabs c v).
Proof.
  intros (Ha & Hc & Hz & Hp & He & Hh & Ht & Hl) Hv.
  unfold metadata_wf, untouched_zero, ptr_ok in *. class_fields.
  repeat split; try assumption; try lia; apply Hl.
Qed.

Lemma wf_set_free_slabs_head class c v :
  metadata_wf class c -> ptr_ok c v -> metadata_wf class (set_free_slabs_head c v).
Proof.
  intros (Ha & Hc & Hz & Hp & He & Hh & Ht & Hl) Hv.
  unfold metadata_wf, untouched_zero, ptr_ok in *. class_fields.
  repeat split; try assumption; try lia; apply Hl.
Qed.

Lemma wf_set_free_slabs_tail class c v :
  metadata_wf class c -> ptr_ok c v -> metadata_wf class (set_free_slabs_tail c v).
Proof.
  intros (Ha & Hc & Hz & Hp & He & Hh & Ht & Hl) Hv.
  unfold metadata_wf, untouched_zero, ptr_ok in *. class_fields.
  repeat split; try assumption; try lia; apply Hl.
Qed.

Lemma wf_set_empty_slabs_total class c v :
  metadata_wf class c -> metadata_wf class (set_empty_slabs_total c v).
Proof.
  intros (Ha & Hc & Hz & Hp & He & Hh & Ht & Hl).
  unfold metadata_wf, untouched_zero, ptr_ok in *. class_fields.
  repeat split; try assumption; try lia; apply Hl.
Qed.

Lemma wf_set_rng class c v : metadata_wf class c -> metadata_wf class (set_rng c v).
Proof.
  intros (Ha & Hc & Hz & Hp & He & Hh & Ht & Hl).
  unfold metadata_wf, untouched_zero, ptr_ok in *. class_fields.
  repeat split; try assumption; try lia; apply Hl.
Qed.

Lemma wf_links class c i :
  metadata_wf class c ->
  ptr_ok c (next (slab_info c i)) /\ ptr_ok c (prev (slab_info c i)).
Proof. intros (_ & _ & _ & _ & _ & _ & _ & Hl). apply Hl. Qed.

(** An entry whose bitmap is not zero lies below the high-water count. *)
Lemma wf_in_use class c i :
  metadata_wf class c -> 0 <= i < metadata_allocated c ->
  bitmap (slab_info c i) <> 0 -> ptr_ok c (Some i).
Proof.
  intros (_ & _ & Hz & _) Hi Hb. unfold ptr_ok.
  destruct (Z_lt_ge_dec i (metadata_count c)) as [Hlt|Hge]; [lia|].
  exfalso. apply Hb. rewrite Hz by lia. reflexivity.
Qed.

(** *** The checks of [deallocate_small] *)

(** [deallocate_small] up to the test of the bitmap. *)
Lemma deallocate_small_checks cfg s q e :
  (~ expected_ok e (free_class s q) ->
     deallocate_small cfg q e s = Fatal "sized deallocation mismatch") /\
  (expected_ok e (free_class s q) ->
   metadata_allocated (size_class_metadata s (free_class s q)) <= slab_index s q ->
     deallocate_small cfg q e s = Fatal "invalid free within a slab yet to be used") /\
  (expected_ok e (free_class s q) ->
   slab_index s q < metadata_allocated (size_class_metadata s (free_class s q)) ->
   slot_pointer (slot_size (free_class s q))
     (get_slab (size_class_metadata s (free_class s q))
        (class_slab_size (free_class s q)) (slab_index s q))
     (slot_index s q) <> q ->
     deallocate_small cfg q e s = Fatal "invalid unaligned free") /\
  (expected_ok e (free_class s q) ->
   slab_index s q < metadata_allocated (size_class_metadata s (free_class s q)) ->
   slot_pointer (slot_size (free_class s q))
     (get_slab (size_class_metadata s (free_class s q))
        (class_slab_size (free_class s q)) (slab_index s q))
     (slot_index s q) = q ->
   64 <= slot_index s q ->
     deallocate_small cfg q e s = Fatal "invalid index") /\
  (expected_ok e (free_class s q) ->
   slab_index s q < metadata_allocated (size_class_metadata s (free_class s q)) ->
   slot_pointer (slot_size (free_class s q))
     (get_slab (size_class_metadata s (free_class s q))
        (class_slab_size (free_class s q)) (slab_index s q))
     (slot_index s q) = q ->
   get_slot (slab_info (size_class_metadata s (free_class s q)) (slab_index s q))
     (slot_index s q) = Done false ->
     deallocate_small cfg q e s = Fatal "double free").
Proof.
  unfold deallocate_small, slab_size_class, get_class, lift, get_metadata, fatal_error.
  unfold bindM. cbv beta.
  remember (free_class s q) as class eqn:Hclass.
  remember (size_class_metadata s class) as c eqn:Hc.
  assert (Hexp : (if match e with
                     | Some expected => negb (class_size class =? expected)
                     | None => false
                     end then ~ expected_ok e class else expected_ok e class)).
  { destruct e as [x|]; simpl; [|exact I].
    destruct (Z.eqb_spec (class_size class) x); simpl; assumption. }
  destruct (match e with Some _ => _ | None => _ end).
  { repeat split; intros; try contradiction; reflexivity. }
  split; [intros; contradiction|].
  remember (libdivide_u64_do (wrap (q - class_region_start c)) (slab_size_divisor c))
    as idx eqn:Hidx.
  destruct (Z.geb_spec idx (metadata_allocated c)) as [Hge|Hlt].
  { repeat split; intros; try lia; reflexivity. }
  split; [intros; lia|].
  remember (libdivide_u32_do (wrap (q - get_slab c (class_slab_size class) idx))
              (size_divisor c)) as slot eqn:Hslot.
  destruct (Z.eqb_spec (slot_pointer (slot_size class)
                          (get_slab c (class_slab_size class) idx) slot) q) as [Hp|Hp];
    cbn [negb].
  2:{ repeat split; intros; try contradiction; reflexivity. }
  split; [intros; contradiction|].
  split.
  - intros _ _ _ Hs64. unfold get_slot, check_index.
    destruct (Z.geb_spec slot 64); [reflexivity | lia].
  - intros _ _ _ Hg. rewrite Hg. reflexivity.
Qed.

Lemma h_free_small cfg s q :
  q <> 0 -> slab_region_start s <= q < slab_region_end s ->
  h_free cfg q s = deallocate_small cfg q None s.
Proof.
  intros Hq Hin. unfold h_free.
  destruct (Z.eqb_spec q 0); [contradiction|].
  unfold bindM, in_slab_region.
  destruct (Z.leb_spec (slab_region_start s) q); [|lia].
  destruct (Z.ltb_spec q (slab_region_end s)); [|lia]. reflexivity.
Qed.

(** C4. A pointer whose slab index, derived from its offset within the
    class's region, is not below the class's count of metadata entries
    makes [deallocate_small], and so [h_free] on a pointer of the slab
    region, abort: the entries from that count on are untouched, so
    whichever check is reached first fails. *)
Theorem free_beyond_high_water_aborts cfg s q e :
  untouched_zero (size_class_metadata s (free_class s q)) ->
  metadata_count (size_class_metadata s (free_class s q)) <= slab_index s q ->
  (exists msg, In msg free_diagnostics /\ deallocate_small cfg q e s = Fatal msg) /\
  (q <> 0 -> slab_region_start s <= q < slab_region_end s ->
   exists msg, In msg free_diagnostics /\ h_free cfg q s = Fatal msg).
Proof.
  intros Hz Hidx.
  assert (H : forall e', exists msg,
             In msg free_diagnostics /\ deallocate_small cfg q e' s = Fatal msg).
  { intros e'.
    destruct (deallocate_small_checks cfg s q e') as (H1 & H2 & H3 & H4 & H5).
    remember (free_class s q) as class eqn:Hclass.
    remember (size_class_metadata s class) as c eqn:Hc.
    remember (libdivide_u64_do (wrap (q - class_region_start c)) (slab_size_divisor c))
      as idx eqn:Hi.
    remember (libdivide_u32_do (wrap (q - get_slab c (class_slab_size class) idx))
                (size_divisor c)) as slot eqn:Hslot.
    assert (Hd : expected_ok e' class \/ ~ expected_ok e' class).
    { destruct e' as [x|]; simpl; [|left; exact I].
      destruct (Z.eq_dec (class_size class) x); [left | right]; assumption. }
    destruct Hd as [He|He].
    2:{ eexists. split; [|apply H1; assumption]. simpl. tauto. }
    destruct (Z_le_gt_dec (metadata_allocated c) idx) as [Hge|Hlt].
    { eexists. split; [|apply H2; assumption]. simpl. tauto. }
    destruct (Z.eq_dec (slot_pointer (slot_size class)
                          (get_slab c (class_slab_size class) idx) slot) q) as [Hp|Hp].
    2:{ eexists. split; [|apply H3; try assumption; lia]. simpl. tauto. }
    destruct (Z_le_gt_dec 64 slot) as [Hs|Hs].
    { eexists. split; [|apply H4; try assumption; lia]. simpl. tauto. }
    eexists. split; [|apply H5; try assumption; try lia].
    - simpl. tauto.
    - apply (get_slot_zero _ _ tt).
      + rewrite (Hz idx Hidx). reflexivity.
      + apply check_index_ok. lia. }
  split; [apply H|].
  intros Hq Hr. rewrite h_free_small by assumption. apply H.
Qed.

(** The test on the slab index in [get_metadata] itself is against the
    number of committed entries: an index between the count of entries in
    use and that number passes it. *)
Lemma get_metadata_passes_committed c q :
  libdivide_u64_do (wrap (q - class_region_start c)) (slab_size_divisor c)
    < metadata_allocated c ->
  get_metadata c q
  = Done (libdivide_u64_do (wrap (q - class_region_start c)) (slab_size_divisor c)).
Proof.
  intros H. unfold get_metadata.
  destruct (Z.geb_spec (libdivide_u64_do (wrap (q - class_region_start c))
                          (slab_size_divisor c)) (metadata_allocated c));
    [lia | reflexivity].
Qed.

(** [deallocate_small] on a pointer that passes the checks. *)
Lemma deallocate_small_unchecked cfg s q e :
  expected_ok e (free_class s q) ->
  slab_index s q < metadata_allocated (size_class_metadata s (free_class s q)) ->
  slot_pointer (slot_size (free_class s q))
    (get_slab (size_class_metadata s (free_class s q))
       (class_slab_size (free_class s q)) (slab_index s q))
    (slot_index s q) = q ->
  get_slot (slab_info (size_class_metadata s (free_class s q)) (slab_index s q))
    (slot_index s q) = Done true ->
  deallocate_small cfg q e s
  = release_slot cfg (free_class s q) (size_class_metadata s (free_class s q))
      (slab_index s q) (slot_index s q) q s.
Proof.
  unfold deallocate_small, release_slot, slab_size_class, get_class, lift,
    get_metadata, fatal_error, cleared.
  unfold bindM. cbv beta.
  remember (free_class s q) as class eqn:Hclass.
  remember (size_class_metadata s class) as c eqn:Hc.
  remember (libdivide_u64_do (wrap (q - class_region_start c)) (slab_size_divisor c))
    as idx eqn:Hidx.
  remember (libdivide_u32_do (wrap (q - get_slab c (class_slab_size class) idx))
              (size_divisor c)) as slot eqn:Hslot.
  intros He Hlt Hp Hg.
  assert (Hexp : match e with
                 | Some expected => negb (class_size class =? expected)
                 | None => false
                 end = false).
  { destruct e as [x|]; [|reflexivity]. simpl in He. rewrite He, Z.eqb_refl. reflexivity. }
  rewrite Hexp.
  destruct (Z.geb_spec idx (metadata_allocated c)); [lia|].
  rewrite <- Hslot.
  rewrite Hp, Z.eqb_refl. cbn [negb]. rewrite Hg. cbn [negb].
  assert (Hs64 : slot < 64).
  { unfold get_slot in Hg. destruct (check_index slot) eqn:Ec; try discriminate.
    eapply check_index_done. eassumption. }
  unfold clear_slot. rewrite (check_index_ok slot Hs64). cbn [bind].
  match goal with
  | |- context [(if negb (class_size class =? 0) then ?a else ?b) s] =>
      destruct ((if negb (class_size class =? 0) then a else b) s) as [[[] sm]| | |]
  end; reflexivity.
Qed.

(** *** The list operations *)

Lemma ptr_ok_geometry c c' o : same_geometry c c' -> ptr_ok c o -> ptr_ok c' o.
Proof.
  intros (_ & _ & _ & _ & Ha & Hc) H. destruct o as [i|]; [|exact I].
  unfold ptr_ok in *. rewrite Ha, Hc. assumption.
Qed.

Lemma same_geometry_refl c : same_geometry c c.
Proof. repeat split. Qed.

Lemma same_geometry_trans c1 c2 c3 :
  same_geometry c1 c2 -> same_geometry c2 c3 -> same_geometry c1 c3.
Proof.
  intros (A1 & A2 & A3 & A4 & A5 & A6) (B1 & B2 & B3 & B4 & B5 & B6).
  repeat split; congruence.
Qed.

Lemma same_bitmaps_refl c : same_bitmaps c c.
Proof. intros i. reflexivity. Qed.

Lemma same_bitmaps_trans c1 c2 c3 :
  same_bitmaps c1 c2 -> same_bitmaps c2 c3 -> same_bitmaps c1 c3.
Proof. intros H1 H2 i. rewrite H2. apply H1. Qed.

Lemma md_update_geometry c j f : same_geometry c (md_update c j f).
Proof. repeat split. Qed.

Lemma md_update_bitmaps c j f :
  (forall m, bitmap (f m) = bitmap m) -> same_bitmaps c (md_update c j f).
Proof.
  intros Hf i. unfold md_update. class_fields.
  destruct (Z.eq_dec i j) as [->|Hne];
    [rewrite upd_same; apply Hf | rewrite upd_other by assumption; reflexivity].
Qed.

Lemma keeps_refl class idx c : keeps class idx c c.
Proof. split; [apply same_geometry_refl|]. split; [apply same_bitmaps_refl | tauto]. Qed.

Lemma keeps_trans class idx c1 c2 c3 :
  keeps class idx c1 c2 -> keeps class idx c2 c3 -> keeps class idx c1 c3.
Proof.
  intros (G1 & B1 & W1) (G2 & B2 & W2). split; [eapply same_geometry_trans; eassumption|].
  split; [eapply same_bitmaps_trans; eassumption|].
  intros Hw Hi. apply W2; [apply W1; assumption|].
  eapply ptr_ok_geometry; eassumption.
Qed.

Lemma keeps_md_update class idx c j f :
  (forall m, bitmap (f m) = bitmap m) ->
  (metadata_wf class c -> ptr_ok c (Some idx) ->
   ptr_ok c (Some j) /\ ptr_ok c (next (f (slab_info c j)))
   /\ ptr_ok c (prev (f (slab_info c j)))) ->
  keeps class idx c (md_update c j f).
Proof.
  intros Hf Hp. split; [apply md_update_geometry|].
  split; [apply md_update_bitmaps; assumption|].
  intros Hw Hi. destruct (Hp Hw Hi) as (H1 & H2 & H3). apply wf_md_update; assumption.
Qed.

Lemma keeps_set_partial_slabs class idx c v :
  (metadata_wf class c -> ptr_ok c (Some idx) -> ptr_ok c v) ->
  keeps class idx c (set_partial_slabs c v).
Proof.
  intros Hv. split; [repeat split|]. split; [intros i; reflexivity|].
  intros Hw Hi. apply wf_set_partial_slabs; auto.
Qed.

Lemma keeps_set_empty_slabs class idx c v :
  (metadata_wf class c -> ptr_ok c (Some idx) -> ptr_ok c v) ->
  keeps class idx c (set_empty_slabs c v).
Proof.
  intros Hv. split; [repeat split|]. split; [intros i; reflexivity|].
  intros Hw Hi. apply wf_set_empty_slabs; auto.
Qed.

Lemma keeps_set_free_slabs_head class idx c v :
  (metadata_wf class c -> ptr_ok c (Some idx) -> ptr_ok c v) ->
  keeps class idx c (set_free_slabs_head c v).
Proof.
  intros Hv. split; [repeat split|]. split; [intros i; reflexivity|].
  intros Hw Hi. apply wf_set_free_slabs_head; auto.
Qed.

Lemma keeps_set_free_slabs_tail class idx c v :
  (metadata_wf class c -> ptr_ok c (Some idx) -> ptr_ok c v) ->
  keeps class idx c (set_free_slabs_tail c v).
Proof.
  intros Hv. split; [repeat split|]. split; [intros i; reflexivity|].
  intros Hw Hi. apply wf_set_free_slabs_tail; auto.
Qed.

Lemma keeps_set_empty_slabs_total class idx c v :
  keeps class idx c (set_empty_slabs_total c v).
Proof.
  split; [repeat split|]. split; [intros i; reflexivity|].
  intros Hw _. apply wf_set_empty_slabs_total. assumption.
Qed.

Lemma keeps_set_rng class idx c v : keeps class idx c (set_rng c v).
Proof.
  split; [repeat split|]. split; [intros i; reflexivity|].
  intros Hw _. apply wf_set_rng. assumption.
Qed.

Ltac peel :=
  match goal with
  | |- keeps _ _ _ (md_update ?X _ _) => apply keeps_trans with (c2 := X)
  | |- keeps _ _ _ (set_partial_slabs ?X _) => apply keeps_trans with (c2 := X)
  | |- keeps _ _ _ (set_empty_slabs ?X _) => apply keeps_trans with (c2 := X)
  | |- keeps _ _ _ (set_empty_slabs_total ?X _) => apply keeps_trans with (c2 := X)
  | |- keeps _ _ _ (set_free_slabs_head ?X _) => apply keeps_trans with (c2 := X)
  | |- keeps _ _ _ (set_free_slabs_tail ?X _) => apply keeps_trans with (c2 := X)
  | |- keeps _ _ _ (set_rng ?X _) => apply keeps_trans with (c2 := X)
  end.

Lemma keeps_push_partial class c idx : keeps class idx c (push_partial c idx).
Proof.
  unfold push_partial.
  peel; [|apply keeps_set_partial_slabs; intros _ Hi; exact Hi].
  apply keeps_trans with
    (c2 := md_update c idx (fun m => set_prev (set_next m (partial_slabs c)) None)).
  { apply keeps_md_update; [reflexivity|].
    intros Hw Hi. split; [assumption|]. class_fields. split; [apply Hw | exact I]. }
  remember (md_update c idx (fun m => set_prev (set_next m (partial_slabs c)) None))
    as c1 eqn:E1.
  destruct (partial_slabs c1) as [head|] eqn:Eh; [|apply keeps_refl].
  apply keeps_md_update; [reflexivity|].
  intros Hw Hi. pose proof Hw as (_ & _ & _ & Hp & _). rewrite Eh in Hp.
  split; [assumption|]. class_fields. split; [apply (wf_links _ _ head Hw) | assumption].
Qed.

Lemma keeps_unlink_partial class c idx : keeps class idx c (unlink_partial c idx).
Proof.
  unfold unlink_partial.
  peel.
  2:{ apply keeps_md_update; [reflexivity|].
      intros Hw Hi. class_fields. split; [assumption|].
      split; [apply (wf_links _ _ idx Hw) | exact I]. }
  apply keeps_trans with
    (c2 := match prev (slab_info c idx) with
           | Some before =>
               md_update c before (fun m => set_next m (next (slab_info c idx)))
           | None => set_partial_slabs c (next (slab_info c idx))
           end).
  { destruct (prev (slab_info c idx)) as [before|] eqn:Eb.
    + apply keeps_md_update; [reflexivity|].
      intros Hw Hi. pose proof (wf_links _ _ idx Hw) as [Hn Hp]. rewrite Eb in Hp.
      split; [assumption|]. class_fields.
      split; [assumption | apply (wf_links _ _ before Hw)].
    + apply keeps_set_partial_slabs. intros Hw _. apply (wf_links _ _ idx Hw). }
  remember (match prev (slab_info c idx) with
            | Some before =>
                md_update c before (fun m => set_next m (next (slab_info c idx)))
            | None => set_partial_slabs c (next (slab_info c idx))
            end) as c1 eqn:E1.
  destruct (next (slab_info c1 idx)) as [after|] eqn:Ea; [|apply keeps_refl].
  apply keeps_md_update; [reflexivity|].
  intros Hw Hi. pose proof (wf_links _ _ idx Hw) as [Hn Hp]. rewrite Ea in Hn.
  split; [assumption|]. class_fields.
  split; [apply (wf_links _ _ after Hw) | assumption].
Qed.

Lemma keeps_enqueue_free_slab class c idx : keeps class idx c (enqueue_free_slab c idx).
Proof.
  unfold enqueue_free_slab.
  peel; [|apply keeps_set_free_slabs_tail; intros _ Hi; exact Hi].
  apply keeps_trans with (c2 := md_update c idx (fun m => set_next m None)).
  { apply keeps_md_update; [reflexivity|].
    intros Hw Hi. split; [assumption|]. class_fields.
    split; [exact I | apply (wf_links _ _ idx Hw)]. }
  remember (md_update c idx (fun m => set_next m None)) as c1 eqn:E1.
  destruct (free_slabs_tail c1) as [tail|] eqn:Et.
  - apply keeps_md_update; [reflexivity|].
    intros Hw Hi. pose proof Hw as (_ & _ & _ & _ & _ & _ & Ht & _). rewrite Et in Ht.
    split; [assumption|]. class_fields. split; [assumption | apply (wf_links _ _ tail Hw)].
  - apply keeps_set_free_slabs_head. intros _ Hi. exact Hi.
Qed.

Lemma keeps_push_empty class c idx slab_size :
  keeps class idx c (push_empty c idx slab_size).
Proof.
  unfold push_empty.
  peel; [|apply keeps_set_empty_slabs_total].
  peel; [|apply keeps_set_empty_slabs; intros _ Hi; exact Hi].
  apply keeps_md_update; [reflexivity|].
  intros Hw Hi. split; [assumption|]. class_fields.
  split; [apply Hw | apply (wf_links _ _ idx Hw)].
Qed.

(** *** Releasing a slot *)

Lemma get_slot_bitmap m m' i : bitmap m = bitmap m' -> get_slot m i = get_slot m' i.
Proof. intros H. unfold get_slot. rewrite H. reflexivity. Qed.

Lemma cleared_props class c idx slot :
  0 <= slot < 64 ->
  same_geometry c (cleared c idx slot) /\
  get_slot (slab_info (cleared c idx slot) idx) slot = Done false /\
  (forall i, i <> idx -> slab_info (cleared c idx slot) i = slab_info c i) /\
  (metadata_wf class c -> ptr_ok c (Some idx) -> metadata_wf class (cleared c idx slot)).
Proof.
  intros Hs. unfold cleared. split; [apply md_update_geometry|]. split; [|split].
  - class_fields. rewrite upd_same. apply get_slot_cleared. assumption.
  - intros i Hi. class_fields. apply upd_other. assumption.
  - intros Hw Hi. apply wf_md_update; try assumption; class_fields; apply (wf_links _ _ idx Hw).
Qed.

(** The class a successful [release_slot] leaves behind. *)
Lemma release_slot_done cfg class c idx slot q s s' :
  0 <= slot < 64 ->
  release_slot cfg class c idx slot q s = Done (tt, s') ->
  exists c',
    size_class_metadata s' = upd (size_class_metadata s) class c' /\
    slab_region_start s' = slab_region_start s /\
    slab_region_end s' = slab_region_end s /\
    initialized s' = initialized s /\
    rtable s' = rtable s /\
    same_geometry c c' /\
    get_slot (slab_info c' idx) slot = Done false /\
    (forall i, i <> idx -> bitmap (slab_info c' i) = bitmap (slab_info c i)) /\
    (metadata_wf class c -> ptr_ok c (Some idx) -> metadata_wf class c').
Proof.
  intros Hs. unfold release_slot.
  remember (if negb (has_free_slots (class_slots class) (slab_info c idx))
            then push_partial c idx else c) as c1 eqn:E1.
  assert (K1 : keeps class idx c c1).
  { subst c1. destruct (negb _); [apply keeps_push_partial | apply keeps_refl]. }
  destruct (cleared_props class c1 idx slot Hs) as (G2 & B2 & O2 & W2).
  remember (cleared c1 idx slot) as c2 eqn:E2.
  (* the three classes the call can end with *)
  assert (Hfinal : forall c',
    keeps class idx c2 c' ->
    same_geometry c c' /\
    get_slot (slab_info c' idx) slot = Done false /\
    (forall i, i <> idx -> bitmap (slab_info c' i) = bitmap (slab_info c i)) /\
    (metadata_wf class c -> ptr_ok c (Some idx) -> metadata_wf class c')).
  { intros c' (G3 & B3 & W3). destruct K1 as (G1 & B1 & W1).
    split; [eapply same_geometry_trans; [|eassumption];
            eapply same_geometry_trans; eassumption|].
    split; [rewrite (get_slot_bitmap _ (slab_info c2 idx)); [assumption | apply B3]|].
    split.
    - intros i Hi. rewrite B3, O2 by assumption. apply B1.
    - intros Hw Hi. apply W3.
      + apply W2; [apply W1; assumption|]. apply (ptr_ok_geometry c c1); assumption.
      + apply (ptr_ok_geometry c1 c2); [assumption|].
        apply (ptr_ok_geometry c c1); assumption. }
  unfold bindM at 1.
  (* zeroing and the canary check touch the memory only *)
  match goal with
  | |- match ?scrub s with _ => _ end = _ -> _ =>
      assert (Hscrub : forall sm, scrub s = Done (tt, sm) -> same_but_mem s sm);
      [|destruct (scrub s) as [[[] sm]| | |] eqn:Es; try discriminate;
        specialize (Hscrub sm eq_refl)]
  end.
  { intros sm. unfold bindM, ret.
    destruct (negb (class_size class =? 0)).
    - destruct (ZERO_ON_FREE cfg); destruct (negb (canary_size cfg =? 0));
        try (destruct (negb (_ =? _)); try discriminate);
        intros [= <-]; destruct s; reflexivity.
    - intros [= <-]. destruct s; reflexivity. }
  assert (Hsm : size_class_metadata sm = size_class_metadata s /\
                slab_region_start sm = slab_region_start s /\
                slab_region_end sm = slab_region_end s /\
                initialized sm = initialized s /\ rtable sm = rtable s).
  { rewrite Hscrub. repeat split. }
  destruct Hsm as (Hm1 & Hm2 & Hm3 & Hm4 & Hm5).
  destruct (is_free_slab (slab_info c2 idx)).
  - unfold bindM, memory_map_fixed, os, ret, put_class.
    remember (unlink_partial c2 idx) as c3 eqn:E3.
    destruct (wrap (empty_slabs_total c3 + class_slab_size class) >? max_empty_slabs_total).
    + unfold bindM. destruct (hd 0 (os_next sm) =? 0) eqn:Er; rewrite ?Er.
      * intros [= <-]. exists (enqueue_free_slab c3 idx). state_fields. rewrite Hm1.
        repeat (split; [solve [reflexivity | assumption]|]).
        apply Hfinal. subst c3.
        eapply keeps_trans; [apply keeps_unlink_partial | apply keeps_enqueue_free_slab].
      * intros [= <-]. exists (push_empty c3 idx (class_slab_size class)). state_fields. rewrite Hm1.
        repeat (split; [solve [reflexivity | assumption]|]).
        apply Hfinal. subst c3.
        eapply keeps_trans; [apply keeps_unlink_partial | apply keeps_push_empty].
    + intros [= <-]. exists (push_empty c3 idx (class_slab_size class)). state_fields. rewrite Hm1.
      repeat (split; [solve [reflexivity | assumption]|]).
      apply Hfinal. subst c3.
      eapply keeps_trans; [apply keeps_unlink_partial | apply keeps_push_empty].
  - unfold put_class. intros [= <-]. exists c2. state_fields. rewrite Hm1.
    repeat (split; [solve [reflexivity | assumption]|]).
    apply Hfinal. apply keeps_refl.
Qed.

(** *** Double free *)

Lemma div_nonneg a d : 0 <= a -> 0 <= d -> 0 <= a / d.
Proof.
  intros Ha Hd. destruct (Z.eq_dec d 0) as [->|Hnz].
  - rewrite Z.div_0_r. lia.
  - apply Z.div_pos; lia.
Qed.

Lemma libdivide_u32_nonneg a d : 0 <= d -> 0 <= libdivide_u32_do a d.
Proof.
  intros Hd. unfold libdivide_u32_do. apply div_nonneg; [|assumption].
  apply Z.mod_pos_bound. lia.
Qed.

(** A call of [deallocate_small] that returns has passed every check. *)
Lemma deallocate_small_done_checks cfg s q e s' :
  deallocate_small cfg q e s = Done (tt, s') ->
  expected_ok e (free_class s q) /\
  slab_index s q < metadata_allocated (size_class_metadata s (free_class s q)) /\
  slot_pointer (slot_size (free_class s q))
    (get_slab (size_class_metadata s (free_class s q))
       (class_slab_size (free_class s q)) (slab_index s q))
    (slot_index s q) = q /\
  get_slot (slab_info (size_class_metadata s (free_class s q)) (slab_index s q))
    (slot_index s q) = Done true.
Proof.
  intros Hd. destruct (deallocate_small_checks cfg s q e) as (H1 & H2 & H3 & H4 & H5).
  remember (free_class s q) as class eqn:Hclass.
  remember (size_class_metadata s class) as c eqn:Hc.
  remember (libdivide_u64_do (wrap (q - class_region_start c)) (slab_size_divisor c))
    as idx eqn:Hi.
  remember (libdivide_u32_do (wrap (q - get_slab c (class_slab_size class) idx))
              (size_divisor c)) as slot eqn:Hslot.
  assert (He : expected_ok e class).
  { destruct e as [x|]; simpl; [|exact I].
    destruct (Z.eq_dec (class_size class) x) as [|Hne]; [assumption|].
    rewrite H1 in Hd by (simpl; assumption). discriminate. }
  assert (Hlt : idx < metadata_allocated c).
  { destruct (Z_lt_ge_dec idx (metadata_allocated c)) as [|Hge]; [assumption|].
    rewrite H2 in Hd by (try assumption; lia). discriminate. }
  assert (Hp : slot_pointer (slot_size class) (get_slab c (class_slab_size class) idx) slot = q).
  { destruct (Z.eq_dec (slot_pointer (slot_size class)
                          (get_slab c (class_slab_size class) idx) slot) q) as [|Hne];
      [assumption|].
    rewrite H3 in Hd by assumption. discriminate. }
  repeat split; try assumption.
  destruct (Z_lt_ge_dec slot 64) as [Hs|Hs].
  - unfold get_slot. rewrite (check_index_ok slot Hs). cbn [bind].
    destruct (negb _) eqn:Eb; [reflexivity|].
    rewrite H5 in Hd; try assumption; [discriminate|].
    unfold get_slot. rewrite (check_index_ok slot Hs). cbn [bind]. rewrite Eb. reflexivity.
  - rewrite H4 in Hd by (try assumption; lia). discriminate.
Qed.


Lemma returns_done {A : Type} (o : outcome A) :
  returns o = true -> exists a, o = Done a.
Proof. destruct o as [a| | |]; try discriminate. intros _. exists a. reflexivity. Qed.


Lemma free_beyond_high_water_aborts_witness :
  (exists msg, In msg free_diagnostics /\
     deallocate_small hardened (small_pointer + 5 * PAGE_SIZE) None one_small = Fatal msg) /\
  (small_pointer + 5 * PAGE_SIZE <> 0 ->
   slab_region_start one_small <= small_pointer + 5 * PAGE_SIZE
     < slab_region_end one_small ->
   exists msg, In msg free_diagnostics /\
     h_free hardened (small_pointer + 5 * PAGE_SIZE) one_small = Fatal msg).
Proof.
  apply (free_beyond_high_water_aborts hardened one_small
           (small_pointer + 5 * PAGE_SIZE) None).
  - intros i Hi.
    assert (E : metadata_count
                  (size_class_metadata one_small
                     (free_class one_small (small_pointer + 5 * PAGE_SIZE))) = 2)
      by (vm_compute; reflexivity).
    rewrite E in Hi. vm_compute. destruct i; try reflexivity; lia.
  - vm_compute. discriminate.
Defined.

(** *** Where an emptied slab goes *)

Lemma land_lnot_self a : 0 <= a < 2 ^ 64 -> Z.land a (wrap (Z.lnot a)) = 0.
Proof.
  intros Ha. apply Z.bits_inj'. intros i Hi. rewrite Z.land_spec, Z.bits_0.
  destruct (Z_lt_ge_dec i 64) as [Hlt|Hge].
  - unfold wrap. rewrite Z.mod_pow2_bits_low by lia. rewrite Z.lnot_spec by lia.
    apply andb_negb_r.
  - unfold wrap. rewrite Z.mod_pow2_bits_high by lia. apply andb_false_r.
Qed.

Lemma unlink_partial_lists c idx :
  empty_slabs (unlink_partial c idx) = empty_slabs c /\
  empty_slabs_total (unlink_partial c idx) = empty_slabs_total c /\
  free_slabs_head (unlink_partial c idx) = free_slabs_head c /\
  free_slabs_tail (unlink_partial c idx) = free_slabs_tail c.
Proof.
  unfold unlink_partial.
  destruct (prev (slab_info c idx)); class_fields;
    match goal with
    | |- context [match ?x with Some _ => _ | None => _ end] => destruct x
    end; class_fields; repeat split.
Qed.

Lemma cleared_lists c idx slot :
  empty_slabs (cleared c idx slot) = empty_slabs c /\
  empty_slabs_total (cleared c idx slot) = empty_slabs_total c /\
  free_slabs_head (cleared c idx slot) = free_slabs_head c /\
  free_slabs_tail (cleared c idx slot) = free_slabs_tail c.
Proof. repeat split. Qed.

(** The slab of a class with at least two slots is not full when one bit
    only is set. *)
Lemma single_bit_not_full slots md slot :
  2 <= slots -> 0 <= slot < 64 -> bitmap md = wrap (Z.shiftl 1 slot) ->
  has_free_slots slots md = true.
Proof.
  intros Hslots Hslot Hb. unfold has_free_slots. rewrite Hb.
  set (j := if slot =? 0 then 1 else 0).
  assert (Hj : 0 <= j < 2 /\ j <> slot) by (subst j; destruct (Z.eqb_spec slot 0); lia).
  apply negb_true_iff. apply Z.eqb_neq. intros E.
  assert (Hbit : Z.testbit (Z.lor (wrap (Z.shiftl 1 slot))
                   (get_mask (if slots >? 64 then 64 else slots))) j = true).
  { rewrite E. unfold wrap. rewrite Z.mod_pow2_bits_low by lia.
    rewrite Z.lnot_spec by lia. rewrite Z.bits_0. reflexivity. }
  rewrite Z.lor_spec in Hbit. apply orb_true_iff in Hbit. destruct Hbit as [Hbit|Hbit].
  - unfold wrap in Hbit. rewrite Z.mod_pow2_bits_low in Hbit by lia.
    rewrite Z.shiftl_spec in Hbit by lia.
    destruct (Z_lt_ge_dec j slot).
    + rewrite Z.testbit_neg_r in Hbit by lia. discriminate.
    + change 1 with (2 ^ 0) in Hbit. rewrite Z.pow2_bits_eqb in Hbit by lia.
      apply Z.eqb_eq in Hbit. lia.
  - unfold get_mask in Hbit.
    destruct (Z.gtb_spec slots 64).
    + simpl in Hbit. rewrite Z.bits_0 in Hbit. discriminate.
    + destruct (Z.ltb_spec slots 64); [|rewrite Z.bits_0 in Hbit; discriminate].
      unfold wrap in Hbit. rewrite Z.mod_pow2_bits_low in Hbit by lia.
      rewrite Z.shiftl_spec in Hbit by lia.
      rewrite Z.testbit_neg_r in Hbit by lia. discriminate.
Qed.

Lemma get_slot_single_bit md slot :
  0 <= slot < 64 -> bitmap md = wrap (Z.shiftl 1 slot) -> get_slot md slot = Done true.
Proof.
  intros Hs Hb. unfold get_slot. rewrite check_index_ok by lia. cbn [bind].
  rewrite land_shiftr_1 by lia. rewrite Hb, testbit_one_shifted by lia. reflexivity.
Qed.

(** Zeroing and the canary check either pass, changing the memory only,
    or find the canary corrupted. *)
Lemma scrub_outcome cfg class c idx q s :
  let scrub :=
    (if negb (class_size class =? 0) then
       (if ZERO_ON_FREE cfg
        then fun s =>
               Done (tt, set_mem s (memset (mem s) q 0 (slot_size class - canary_size cfg)))
        else ret tt) ;;;
       (if negb (canary_size cfg =? 0) then
          fun s =>
            if negb (u64_of_bytes cfg
                       (load_bytes (mem s) (q + slot_size class - canary_size cfg)
                          (Z.to_nat (canary_size cfg)))
                     =? canary_value (slab_info c idx))
            then Fatal "canary corrupted"
            else Done (tt, s)
        else ret tt)
     else ret tt) in
  scrub s = Fatal "canary corrupted" \/
  exists sm, scrub s = Done (tt, sm) /\ same_but_mem s sm /\
    (class_size class = 0 -> sm = s).
Proof.
  cbv zeta. unfold bindM, ret.
  destruct (Z.eqb_spec (class_size class) 0) as [Ez|Enz]; cbn [negb].
  - right. exists s. split; [reflexivity|]. split; [destruct s; reflexivity | tauto].
  - destruct (ZERO_ON_FREE cfg); destruct (negb (canary_size cfg =? 0));
      try (destruct (negb (_ =? _)); [left; reflexivity|]);
      right; eexists; (split; [reflexivity|]); (split; [destruct s; reflexivity | tauto]).
Qed.

(** What [deallocate_small] does with a slab whose only set bit it clears. *)
Lemma emptied_slab_facts cfg s q e :
  expected_ok e (free_class s q) ->
  slab_index s q < metadata_allocated (size_class_metadata s (free_class s q)) ->
  slot_pointer (slot_size (free_class s q))
    (get_slab (size_class_metadata s (free_class s q))
       (class_slab_size (free_class s q)) (slab_index s q))
    (slot_index s q) = q ->
  0 <= slot_index s q < 64 ->
  bitmap (slab_info (size_class_metadata s (free_class s q)) (slab_index s q))
    = wrap (Z.shiftl 1 (slot_index s q)) ->
  2 <= class_slots (free_class s q) ->
  deallocate_small cfg q e s = Fatal "canary corrupted" \/
  exists s' c3 c',
    deallocate_small cfg q e s = Done (tt, s') /\
    c3 = unlink_partial
           (cleared (size_class_metadata s (free_class s q)) (slab_index s q)
              (slot_index s q)) (slab_index s q) /\
    size_class_metadata s' (free_class s q) = c' /\
    if wrap (empty_slabs_total (size_class_metadata s (free_class s q))
             + class_slab_size (free_class s q)) >? 64 * 1024
    then
      os_log s' = MemoryMapFixed
                    (get_slab (size_class_metadata s (free_class s q))
                       (class_slab_size (free_class s q)) (slab_index s q))
                    (class_slab_size (free_class s q)) :: os_log s /\
      if hd 0 (os_next s) =? 0
      then c' = enqueue_free_slab c3 (slab_index s q) /\
           free_slabs_tail c' = Some (slab_index s q) /\
           empty_slabs c' = empty_slabs (size_class_metadata s (free_class s q)) /\
           empty_slabs_total c'
           = empty_slabs_total (size_class_metadata s (free_class s q))
      else c' = push_empty c3 (slab_index s q) (class_slab_size (free_class s q)) /\
           empty_slabs c' = Some (slab_index s q) /\
           empty_slabs_total c'
           = wrap (empty_slabs_total (size_class_metadata s (free_class s q))
                   + class_slab_size (free_class s q))
    else
      os_log s' = os_log s /\
      c' = push_empty c3 (slab_index s q) (class_slab_size (free_class s q)) /\
      empty_slabs c' = Some (slab_index s q) /\
      empty_slabs_total c'
      = wrap (empty_slabs_total (size_class_metadata s (free_class s q))
              + class_slab_size (free_class s q)).
Proof.
  intros He Hlt Hp Hs Hb Hslots.
  rewrite (deallocate_small_unchecked cfg s q e He Hlt Hp
             (get_slot_single_bit _ _ Hs Hb)).
  remember (free_class s q) as class eqn:Hclass.
  remember (size_class_metadata s class) as c eqn:Hc.
  remember (libdivide_u64_do (wrap (q - class_region_start c)) (slab_size_divisor c))
    as idx eqn:Hidx.
  remember (libdivide_u32_do (wrap (q - get_slab c (class_slab_size class) idx))
              (size_divisor c)) as slot eqn:Hslot.
  match goal with |- ?x = _ \/ _ => remember x as out eqn:Eout end.
  unfold release_slot in Eout.
  rewrite (single_bit_not_full _ _ slot Hslots Hs Hb) in Eout. cbn [negb] in Eout.
  assert (Hfree : is_free_slab (slab_info (cleared c idx slot) idx) = true).
  { unfold is_free_slab, cleared. class_fields. rewrite upd_same. class_fields.
    rewrite Hb. rewrite land_lnot_self by apply wrap_range. reflexivity. }
  rewrite Hfree in Eout.
  destruct (unlink_partial_lists (cleared c idx slot) idx) as (U1 & U2 & U3 & U4).
  remember (unlink_partial (cleared c idx slot) idx) as c3 eqn:E3.
  cbn [empty_slabs empty_slabs_total cleared md_update set_slab_info] in U1, U2.
  rewrite U2 in Eout. change (64 * 1024) with max_empty_slabs_total.
  unfold bindM at 1 in Eout.
  pose proof (scrub_outcome cfg class c idx q s) as Hscrub. cbv zeta in Hscrub.
  match type of Hscrub with
  | ?m = _ \/ _ => remember m as o eqn:Eo
  end.
  destruct Hscrub as [Ef | (sm & Es & Hsm & _)].
  { left. rewrite Eout, Ef. reflexivity. }
  right. rewrite Es in Eout.
  assert (Hlog : os_log sm = os_log s /\ os_next sm = os_next s
                 /\ size_class_metadata sm = size_class_metadata s).
  { rewrite Hsm. repeat split. }
  destruct Hlog as (Hl1 & Hl2 & Hl3).
  unfold bindM, memory_map_fixed, os, ret, put_class in Eout.
  cbv beta in Eout.
  destruct (wrap (empty_slabs_total c + class_slab_size class) >? max_empty_slabs_total)
    eqn:Eb; rewrite ?Eb in Eout.
  - unfold bindM in Eout. rewrite Hl2 in Eout.
    cbv beta in Eout. destruct (hd 0 (os_next s) =? 0) eqn:Er; rewrite ?Er in Eout.
    + eexists _, c3, _. split; [exact Eout|]. split; [reflexivity|].
      state_fields. rewrite upd_same. split; [reflexivity|].
      rewrite Hl1. split; [reflexivity|]. split; [reflexivity|].
      unfold enqueue_free_slab.
      destruct (free_slabs_tail (md_update c3 idx (fun m => set_next m None)));
        class_fields; repeat split; assumption.
    + eexists _, c3, _. split; [exact Eout|]. split; [reflexivity|].
      state_fields. rewrite upd_same. split; [reflexivity|].
      rewrite Hl1. split; [reflexivity|]. split; [reflexivity|].
      unfold push_empty. class_fields. rewrite U2. split; reflexivity.
  - eexists _, c3, _. split; [exact Eout|]. split; [reflexivity|].
    state_fields. rewrite upd_same. split; [reflexivity|].
    rewrite Hl1. split; [reflexivity|]. split; [reflexivity|].
    unfold push_empty. class_fields. rewrite U2. split; reflexivity.
Qed.


(** *** Finding a free slot *)

Lemma get_slot_testbit md i :
  0 <= i < 64 -> get_slot md i = Done (Z.testbit (bitmap md) i).
Proof.
  intros Hi. unfold get_slot. rewrite check_index_ok by lia. cbn [bind].
  rewrite land_shiftr_1 by lia. destruct (Z.testbit (bitmap md) i); reflexivity.
Qed.

Lemma ffs_from_spec n : forall i x,
  (ffs_from n i x = 0 /\
   forall j, i <= j < i + Z.of_nat n -> Z.testbit x j = false) \/
  (i < ffs_from n i x <= i + Z.of_nat n /\
   Z.testbit x (ffs_from n i x - 1) = true /\
   forall j, i <= j < ffs_from n i x - 1 -> Z.testbit x j = false).
Proof.
  induction n as [|n IH]; intros i x.
  - left. split; [reflexivity | intros j Hj; lia].
  - cbn [ffs_from]. destruct (Z.testbit x i) eqn:Eb.
    + right. split; [lia|]. split; [|intros j Hj; lia].
      replace (i + 1 - 1) with i by lia. assumption.
    + destruct (IH (i + 1) x) as [[E H] | (Hr & Hb & H)].
      * left. split; [assumption|]. intros j Hj.
        destruct (Z.eq_dec j i) as [->|]; [assumption | apply H; lia].
      * right. split; [lia|]. split; [assumption|]. intros j Hj.
        destruct (Z.eq_dec j i) as [->|]; [assumption | apply H; lia].
Qed.

Lemma all_ones : wrap (Z.lnot 0) = Z.ones 64.
Proof. reflexivity. Qed.

Lemma testbit_above x j : 0 <= x < 2 ^ 64 -> 64 <= j -> Z.testbit x j = false.
Proof.
  intros Hx Hj. destruct (Z.eq_dec x 0) as [->|Hne]; [apply Z.bits_0|].
  apply Z.bits_above_log2; [lia|].
  assert (Z.log2 x < 64) by (apply Z.log2_lt_pow2; lia). lia.
Qed.

Lemma testbit_wrap_lnot x j :
  0 <= j < 64 -> Z.testbit (wrap (Z.lnot x)) j = negb (Z.testbit x j).
Proof.
  intros Hj. unfold wrap. rewrite Z.mod_pow2_bits_low by lia.
  apply Z.lnot_spec. lia.
Qed.

(** [ffzl]: one plus the index of the lowest clear bit, 0 when the word is
    all ones. *)
Lemma ffzl_spec m :
  0 <= m < 2 ^ 64 ->
  (ffzl m = 0 /\ m = wrap (Z.lnot 0)) \/
  (1 <= ffzl m <= 64 /\ Z.testbit m (ffzl m - 1) = false /\
   forall j, 0 <= j < ffzl m - 1 -> Z.testbit m j = true).
Proof.
  intros Hm. unfold ffzl, ffsl.
  destruct (ffs_from_spec 64 0 (wrap (Z.lnot m))) as [[E H] | (Hr & Hb & H)].
  - left. split; [assumption|]. rewrite all_ones.
    apply Z.bits_inj'. intros j Hj.
    destruct (Z_lt_ge_dec j 64) as [Hlt|Hge].
    + rewrite Z.ones_spec_low by lia.
      specialize (H j ltac:(lia)). rewrite testbit_wrap_lnot in H by lia.
      destruct (Z.testbit m j); [reflexivity | discriminate].
    + rewrite Z.ones_spec_high by lia. apply testbit_above; lia.
  - right. change (Z.of_nat 64) with 64 in Hr. split; [lia|]. split.
    + rewrite testbit_wrap_lnot in Hb by lia.
      destruct (Z.testbit m _); [discriminate | reflexivity].
    + intros j Hj. specialize (H j ltac:(lia)).
      rewrite testbit_wrap_lnot in H by lia.
      destruct (Z.testbit m j); [reflexivity | discriminate].
Qed.

Lemma lor_range a b :
  0 <= a < 2 ^ 64 -> 0 <= b < 2 ^ 64 -> 0 <= Z.lor a b < 2 ^ 64.
Proof.
  intros Ha Hb. split; [apply Z.lor_nonneg; lia|].
  destruct (Z.eq_dec (Z.lor a b) 0) as [->|Hne]; [lia|].
  apply Z.log2_lt_pow2; [pose proof (proj2 (Z.lor_nonneg a b)); lia|].
  rewrite Z.log2_lor by lia.
  destruct (Z.eq_dec a 0) as [->|Ha0], (Z.eq_dec b 0) as [->|Hb0];
    cbn [Z.log2]; try lia.
  - assert (Z.log2 b < 64) by (apply Z.log2_lt_pow2; lia). lia.
  - assert (Z.log2 a < 64) by (apply Z.log2_lt_pow2; lia). lia.
  - assert (Z.log2 a < 64) by (apply Z.log2_lt_pow2; lia).
    assert (Z.log2 b < 64) by (apply Z.log2_lt_pow2; lia). lia.
Qed.

Lemma get_mask_range slots : 0 <= get_mask slots < 2 ^ 64.
Proof. unfold get_mask. destruct (slots <? 64); [apply wrap_range | lia]. Qed.

(** The mask covers the bits from [slots] on. *)
Lemma get_mask_bits slots j :
  0 <= slots <= 64 -> 0 <= j < 64 ->
  Z.testbit (get_mask slots) j = (slots <=? j).
Proof.
  intros Hs Hj. unfold get_mask. destruct (Z.ltb_spec slots 64) as [Hlt|Hge].
  - unfold wrap at 1. rewrite Z.mod_pow2_bits_low by lia.
    rewrite Z.shiftl_spec by lia. rewrite all_ones.
    destruct (Z.leb_spec slots j).
    + apply Z.ones_spec_low. lia.
    + apply Z.testbit_neg_r. lia.
  - rewrite Z.bits_0. destruct (Z.leb_spec slots j); [lia | reflexivity].
Qed.

(** The bitmap with the mask of the slots that do not exist. *)
Lemma masked_bits slots md j :
  0 <= slots -> 0 <= j < 64 ->
  Z.testbit (Z.lor (bitmap md) (get_mask (if slots >? 64 then 64 else slots))) j
  = Z.testbit (bitmap md) j || (slots <=? j).
Proof.
  intros Hs Hj. rewrite Z.lor_spec. f_equal.
  destruct (Z.gtb_spec slots 64).
  - rewrite get_mask_bits by lia.
    destruct (Z.leb_spec 64 j), (Z.leb_spec slots j); try reflexivity; lia.
  - apply get_mask_bits; lia.
Qed.

Lemma masked_clear_bit slots md m :
  0 <= slots -> 0 <= bitmap md < 2 ^ 64 ->
  0 <= m < 2 ^ 64 ->
  (forall j, 0 <= j < 64 ->
     Z.testbit m j = false ->
     Z.testbit (Z.lor (bitmap md) (get_mask (if slots >? 64 then 64 else slots))) j = false) ->
  m <> wrap (Z.lnot 0) ->
  0 <= wrap (ffzl m - 1) < slots /\ wrap (ffzl m - 1) < 64 /\
  get_slot md (wrap (ffzl m - 1)) = Done false.
Proof.
  intros Hs Hb Hm Hbits Hne.
  destruct (ffzl_spec m Hm) as [[_ E] | (Hr & Hclear & _)]; [contradiction|].
  rewrite (wrap_small (ffzl m - 1)) by lia.
  pose proof (Hbits (ffzl m - 1) ltac:(lia) Hclear) as H.
  rewrite masked_bits in H by lia. apply orb_false_elim in H. destruct H as [H1 H2].
  apply Z.leb_gt in H2.
  split; [lia|]. split; [lia|]. rewrite get_slot_testbit by lia. rewrite H1. reflexivity.
Qed.

Lemma get_free_slot_facts cfg r slots md :
  0 <= slots -> 0 <= bitmap md < 2 ^ 64 ->
  (has_free_slots slots md = false ->
   get_free_slot cfg r slots md = Fatal "no zero bits") /\
  (has_free_slots slots md = true ->
   exists slot r', get_free_slot cfg r slots md = Done (slot, r') /\
     0 <= slot < slots /\ slot < 64 /\ get_slot md slot = Done false) /\
  (forall j, 0 <= j < slots -> j < 64 -> get_slot md j = Done false ->
   has_free_slots slots md = true).
Proof.
  intros Hs Hb. unfold has_free_slots, get_free_slot.
  set (masked := Z.lor (bitmap md) (get_mask (if slots >? 64 then 64 else slots))).
  assert (Hm : 0 <= masked < 2 ^ 64) by (apply lor_range; [assumption | apply get_mask_range]).
  split; [|split].
  - intros H. apply negb_false_iff in H. rewrite H. reflexivity.
  - intros H. apply negb_true_iff in H. rewrite H. apply Z.eqb_neq in H.
    destruct (SLOT_RANDOMIZE cfg).
    + destruct (get_random_u16_uniform r (if slots >? 64 then 64 else slots))
        as [start r'].
      set (x := Z.lor masked (wrap (Z.lnot (wrap (Z.shiftl (wrap (Z.lnot 0)) start))))).
      assert (Hx : 0 <= x < 2 ^ 64) by (apply lor_range; [assumption | apply wrap_range]).
      destruct (Z.eqb_spec (ffzl x) 0) as [E0|Hn0]; cbn [negb].
      * eexists _, r'. split; [reflexivity|].
        apply (masked_clear_bit slots md masked Hs Hb Hm); [|assumption].
        intros j _ Hj. assumption.
      * eexists _, r'. split; [reflexivity|].
        apply (masked_clear_bit slots md x Hs Hb Hx).
        -- intros j _ Hj. unfold x in Hj. rewrite Z.lor_spec in Hj.
           apply orb_false_elim in Hj. apply Hj.
        -- intros E. destruct (ffzl_spec x Hx) as [[E0 _] | (Hr & Hclear & _)];
             [contradiction|].
           pose proof (Z.ones_spec_low 64 (ffzl x - 1) ltac:(lia)) as Hone.
           rewrite <- all_ones, <- E in Hone. congruence.
    + eexists _, r. split; [reflexivity|].
      apply (masked_clear_bit slots md masked Hs Hb Hm); [|assumption].
      intros j _ Hj. assumption.
  - intros j Hj H64 Hfree. apply negb_true_iff. apply Z.eqb_neq. intros E.
    rewrite get_slot_testbit in Hfree by lia. injection Hfree as Hfree.
    assert (H : Z.testbit masked j = true).
    { rewrite E, all_ones. apply Z.ones_spec_low. lia. }
    unfold masked in H. rewrite masked_bits in H by lia.
    rewrite Hfree in H. cbn [orb] in H. apply Z.leb_le in H. lia.
Qed.

(** X10. On a slab with a free slot among its first [min slots 64],
    [get_free_slot] returns one of them, whatever the PRNG draws; on a
    slab without one it aborts with "no zero bits"; and
    [has_free_slots] tells the two cases apart. *)
Theorem get_free_slot_picks_free cfg r slots md :
  0 <= slots -> 0 <= bitmap md < 2 ^ 64 ->
  (has_free_slots slots md = false ->
   get_free_slot cfg r slots md = Fatal "no zero bits") /\
  (has_free_slots slots md = true ->
   exists slot r', get_free_slot cfg r slots md = Done (slot, r') /\
     0 <= slot < slots /\ slot < 64 /\ get_slot md slot = Done false) /\
  (forall j, 0 <= j < slots -> j < 64 -> get_slot md j = Done false ->
   has_free_slots slots md = true).
Proof. apply get_free_slot_facts. Qed.

Lemma get_free_slot_picks_free_witness :
  get_free_slot hardened [6] 4 (mk_metadata 15 None None 0) = Fatal "no zero bits" /\
  exists slot r', get_free_slot hardened [6] 4 (mk_metadata 11 None None 0) = Done (slot, r') /\
    0 <= slot < 4 /\ slot < 64 /\ get_slot (mk_metadata 11 None None 0) slot = Done false.
Proof.
  split.
  - destruct (get_free_slot_picks_free hardened [6] 4 (mk_metadata 15 None None 0))
      as (H & _ & _).
    + lia.
    + cbn [bitmap]. lia.
    + apply H. vm_compute. reflexivity.
  - destruct (get_free_slot_picks_free hardened [6] 4 (mk_metadata 11 None None 0))
      as (_ & H & _).
    + lia.
    + cbn [bitmap]. lia.
    + apply H. vm_compute. reflexivity.
Defined.

(** X11. [set_slot], [clear_slot] and [get_slot] abort with "invalid
    index" from index 64 on.  Below it, a slot reads as taken after
    [set_slot] and as free after [clear_slot], no other slot reads
    differently, and the links and the canary of the entry stay. *)
Theorem slot_bits_round_trip md i :
  0 <= i ->
  (64 <= i ->
   set_slot md i = Fatal "invalid index" /\
   clear_slot md i = Fatal "invalid index" /\
   get_slot md i = Fatal "invalid index") /\
  (i < 64 ->
   exists m1 m2,
     set_slot md i = Done m1 /\ clear_slot md i = Done m2 /\
     get_slot m1 i = Done true /\ get_slot m2 i = Done false /\
     (forall j, 0 <= j < 64 -> j <> i ->
        get_slot m1 j = get_slot md j /\ get_slot m2 j = get_slot md j) /\
     (next m1, prev m1, canary_value m1) = (next md, prev md, canary_value md) /\
     (next m2, prev m2, canary_value m2) = (next md, prev md, canary_value md)).
Proof.
  intros Hi. split.
  - intros H64. unfold set_slot, clear_slot, get_slot, check_index.
    destruct (Z.geb_spec i 64); [|lia]. repeat split.
  - intros H64. unfold set_slot, clear_slot. rewrite check_index_ok by lia. cbn [bind].
    eexists _, _. split; [reflexivity|]. split; [reflexivity|].
    split; [apply get_slot_set; lia|]. split; [apply get_slot_cleared; lia|].
    split; [|split; reflexivity].
    intros j Hj Hne. rewrite !get_slot_testbit by lia. cbn [bitmap set_bitmap].
    assert (Hbit : Z.testbit (wrap (Z.shiftl 1 i)) j = false).
    { unfold wrap. rewrite Z.mod_pow2_bits_low by lia.
      rewrite Z.shiftl_spec by lia.
      destruct (Z_lt_ge_dec j i); [apply Z.testbit_neg_r; lia|].
      change 1 with (2 ^ 0). apply Z.pow2_bits_false. lia. }
    rewrite Z.lor_spec, Z.land_spec, testbit_wrap_lnot, Hbit by lia.
    rewrite orb_false_r, andb_true_r. split; reflexivity.
Qed.

Lemma slot_bits_round_trip_witness :
  get_slot (mk_metadata 5 None None 7) 64 = Fatal "invalid index" /\
  exists m1 m2,
    set_slot (mk_metadata 5 None None 7) 1 = Done m1 /\
    clear_slot (mk_metadata 5 None None 7) 1 = Done m2 /\
    get_slot m1 1 = Done true /\ get_slot m2 1 = Done false.
Proof.
  split.
  - destruct (slot_bits_round_trip (mk_metadata 5 None None 7) 64) as [H _]; [lia|].
    destruct H as (_ & _ & H); [lia | exact H].
  - destruct (slot_bits_round_trip (mk_metadata 5 None None 7) 1) as [_ H]; [lia|].
    destruct H as (m1 & m2 & H1 & H2 & H3 & H4 & _); [lia|].
    exists m1, m2. repeat split; assumption.
Defined.


(** *** The class of a request *)

Lemma class_size_monotone a b :
  0 <= a <= b -> b < 37 -> class_size a <= class_size b.
Proof.
  intros Ha Hb.
  assert (Hall : forallb (fun x => forallb (fun y => (y <? x) || (class_size x <=? class_size y))
                                     (map Z.of_nat (seq 0 37)))
                   (map Z.of_nat (seq 0 37)) = true) by (vm_compute; reflexivity).
  rewrite forallb_forall in Hall.
  specialize (Hall a ltac:(apply in_range_list; lia)).
  rewrite forallb_forall in Hall.
  specialize (Hall b ltac:(apply in_range_list; lia)).
  apply orb_true_iff in Hall. destruct Hall as [H|H]; lia.
Qed.

(** The loop of [get_size_info] stops at the first class that fits. *)
Lemma scan_classes_first n : forall class size,
  (exists c, class <= c < class + Z.of_nat n /\ size <= class_size c) ->
  exists info, scan_classes n class size = Done info /\
    class <= info_class info < class + Z.of_nat n /\
    info_size info = class_size (info_class info) /\
    size <= info_size info /\
    forall c, class <= c < info_class info -> class_size c < size.
Proof.
  induction n as [|n IH]; intros class size (c & Hc & Hfit); [lia|].
  cbn [scan_classes]. destruct (Z.leb_spec size (class_size class)) as [Hle|Hgt].
  - eexists. split; [reflexivity|]. cbn [info_class info_size].
    split; [lia|]. split; [reflexivity|]. split; [assumption|]. intros; lia.
  - destruct (IH (class + 1) size) as (info & E & Hr & Hs & Hf & Hmin).
    + exists c. split; [|assumption].
      destruct (Z.eq_dec c class) as [->|]; lia.
    + exists info. split; [assumption|]. split; [lia|]. split; [assumption|].
      split; [assumption|]. intros c' Hc'.
      destruct (Z.eq_dec c' class) as [->|]; [assumption | apply Hmin; lia].
Qed.

Lemma scan_classes_none n : forall class size,
  (forall c, class <= c < class + Z.of_nat n -> class_size c < size) ->
  scan_classes n class size = Fatal "invalid size for slabs".
Proof.
  induction n as [|n IH]; intros class size H; [reflexivity|].
  cbn [scan_classes]. destruct (Z.leb_spec size (class_size class)) as [Hle|Hgt].
  - specialize (H class ltac:(lia)). lia.
  - apply IH. intros c Hc. apply H. lia.
Qed.

Lemma get_size_info_facts size :
  0 <= size ->
  (size <= max_slab_size_class ->
   exists info, get_size_info size = Done info /\
     0 <= info_class info < N_SIZE_CLASSES /\
     info_size info = class_size (info_class info) /\
     size <= info_size info /\
     forall c, 0 <= c < info_class info -> class_size c < size) /\
  (max_slab_size_class < size ->
   get_size_info size = Fatal "invalid size for slabs").
Proof.
  intros Hsize. rewrite N_SIZE_CLASSES_eq. unfold max_slab_size_class. split.
  - intros Hmax. unfold get_size_info.
    destruct (Z.eqb_spec size 0) as [->|Hnz].
    { eexists. split; [reflexivity|]. cbn [info_class info_size].
      split; [lia|]. split; [reflexivity|]. split; [lia|]. intros; lia. }
    destruct (Z.leb_spec size 128) as [Hsmall|Hbig].
    + assert (Hall : forallb
                (fun x =>
                   match get_size_info x with
                   | Done info =>
                       (0 <? info_class info) && (info_class info <? 37)
                       && (info_size info =? class_size (info_class info))
                       && (x <=? info_size info)
                       && (class_size (info_class info - 1) <? x)
                   | _ => false
                   end) (map Z.of_nat (seq 1 128)) = true) by (vm_compute; reflexivity).
      rewrite forallb_forall in Hall.
      specialize (Hall size ltac:(apply in_range_list; lia)).
      unfold get_size_info in Hall.
      destruct (Z.eqb_spec size 0); [contradiction|].
      destruct (Z.leb_spec size 128); [|lia].
      eexists. split; [reflexivity|].
      repeat (apply andb_true_iff in Hall; destruct Hall as [Hall ?]).
      split; [lia|]. split; [lia|]. split; [lia|].
      intros c Hc.
      pose proof (class_size_monotone c
                    (info_class
                       (mk_size_info (Z.land (wrap (size + 15)) (wrap (Z.lnot 15)))
                          (wrap (Z.shiftr (wrap (size - 1)) 4 + 1))) - 1)
                    ltac:(lia) ltac:(lia)).
      lia.
    + rewrite N_SIZE_CLASSES_eq. change (Z.to_nat (37 - 9)) with 28%nat.
      destruct (scan_classes_first 28 9 size) as (info & E & Hr & Hs & Hf & Hmin).
      { exists 36. split; [lia|]. change (class_size 36) with 16384. assumption. }
      exists info. split; [assumption|]. split; [lia|]. split; [assumption|].
      split; [assumption|]. intros c Hc.
      destruct (Z_lt_ge_dec c 9) as [Hlow|Hhigh]; [|apply Hmin; lia].
      pose proof (class_size_monotone c 8 ltac:(lia) ltac:(lia)) as Hm.
      change (class_size 8) with 128 in Hm. lia.
  - intros Hover. unfold get_size_info.
    destruct (Z.eqb_spec size 0); [lia|]. destruct (Z.leb_spec size 128); [lia|].
    apply scan_classes_none. intros c _.
    pose proof (class_size_bound c) as Hb. unfold max_slab_size_class in Hb. lia.
Qed.

(** X12. [get_size_info] gives every request of at most 16384 bytes the
    first class whose size holds it, with the size of that class: no
    smaller class fits.  A larger request aborts with "invalid size for
    slabs". *)
Theorem get_size_info_best_fit size :
  0 <= size ->
  (size <= max_slab_size_class ->
   exists info, get_size_info size = Done info /\
     0 <= info_class info < N_SIZE_CLASSES /\
     info_size info = class_size (info_class info) /\
     size <= info_size info /\
     forall c, 0 <= c < info_class info -> class_size c < size) /\
  (max_slab_size_class < size ->
   get_size_info size = Fatal "invalid size for slabs").
Proof. apply get_size_info_facts. Qed.

Lemma get_size_info_best_fit_witness :
  (exists info, get_size_info 1000 = Done info /\
     0 <= info_class info < N_SIZE_CLASSES /\
     info_size info = class_size (info_class info) /\
     1000 <= info_size info /\
     forall c, 0 <= c < info_class info -> class_size c < 1000) /\
  get_size_info 16385 = Fatal "invalid size for slabs".
Proof.
  destruct (get_size_info_best_fit 1000) as [H1 _]; [lia|].
  destruct (get_size_info_best_fit 16385) as [_ H2]; [lia|].
  split; [apply H1 | apply H2]; unfold max_slab_size_class; lia.
Defined.

(** *** The class of an aligned request *)

Lemma scan_classes_align_first n : forall class size alignment,
  (exists c, class <= c < class + Z.of_nat n /\ size <= class_size c /\
     Z.land (class_size c) (wrap (alignment - 1)) = 0) ->
  exists info, scan_classes_align n class size alignment = Done info /\
    class <= info_class info < class + Z.of_nat n /\
    info_size info = class_size (info_class info) /\
    size <= info_size info /\
    Z.land (info_size info) (wrap (alignment - 1)) = 0 /\
    forall c, class <= c < info_class info ->
      ~ (size <= class_size c /\ Z.land (class_size c) (wrap (alignment - 1)) = 0).
Proof.
  induction n as [|n IH]; intros class size alignment (c & Hc & Hfit & Hal); [lia|].
  cbn [scan_classes_align].
  destruct (Z.leb_spec size (class_size class)) as [Hle|Hgt];
    [destruct (Z.eqb_spec (Z.land (class_size class) (wrap (alignment - 1))) 0)
       as [Hz|Hnz]|]; cbn [andb].
  - eexists. split; [reflexivity|]. cbn [info_class info_size].
    split; [lia|]. split; [reflexivity|]. split; [assumption|].
    split; [assumption|]. intros; lia.
  - destruct (IH (class + 1) size alignment) as (info & E & Hr & Hs & Hf & Ha & Hmin).
    + exists c. split; [|split; assumption].
      destruct (Z.eq_dec c class) as [->|]; [contradiction | lia].
    + exists info. split; [assumption|]. split; [lia|]. split; [assumption|].
      split; [assumption|]. split; [assumption|]. intros c' Hc'.
      destruct (Z.eq_dec c' class) as [->|]; [tauto | apply Hmin; lia].
  - destruct (IH (class + 1) size alignment) as (info & E & Hr & Hs & Hf & Ha & Hmin).
    + exists c. split; [|split; assumption].
      destruct (Z.eq_dec c class) as [->|]; lia.
    + exists info. split; [assumption|]. split; [lia|]. split; [assumption|].
      split; [assumption|]. split; [assumption|]. intros c' Hc'.
      destruct (Z.eq_dec c' class) as [->|]; [lia | apply Hmin; lia].
Qed.

(** The test [!(real_size & (alignment - 1))] on a power of two. *)
Lemma aligned_test x k :
  0 <= k < 64 -> Z.land x (wrap (2 ^ k - 1)) = x mod 2 ^ k.
Proof.
  intros Hk.
  assert (2 ^ k < 2 ^ 64) by (apply Z.pow_lt_mono_r; lia).
  assert (0 < 2 ^ k) by (apply Z.pow_pos_nonneg; lia).
  rewrite wrap_small by lia.
  replace (2 ^ k - 1) with (Z.ones k) by (rewrite Z.ones_equiv; lia).
  apply Z.land_ones. lia.
Qed.

Lemma get_size_info_align_facts size k :
  0 <= k <= 12 -> size <= max_slab_size_class ->
  exists info, get_size_info_align size (2 ^ k) = Done info /\
    1 <= info_class info < N_SIZE_CLASSES /\
    info_size info = class_size (info_class info) /\
    size <= info_size info /\
    info_size info mod 2 ^ k = 0 /\
    forall c, 1 <= c < info_class info ->
      ~ (size <= class_size c /\ class_size c mod 2 ^ k = 0).
Proof.
  intros Hk Hsize. unfold get_size_info_align. rewrite N_SIZE_CLASSES_eq.
  change (Z.to_nat (37 - 1)) with 36%nat.
  destruct (scan_classes_align_first 36 1 size (2 ^ k))
    as (info & E & Hr & Hs & Hf & Ha & Hmin).
  - exists 36. split; [lia|]. change (class_size 36) with 16384.
    split; [assumption|]. rewrite aligned_test by lia.
    replace 16384 with (2 ^ (14 - k) * 2 ^ k).
    + apply Z.mod_mul. apply Z.pow_nonzero; lia.
    + rewrite <- Z.pow_add_r by lia. replace (14 - k + k) with 14 by lia. reflexivity.
  - exists info. split; [assumption|]. split; [lia|]. split; [assumption|].
    split; [assumption|]. rewrite aligned_test in Ha by lia. split; [assumption|].
    intros c Hc. specialize (Hmin c ltac:(lia)).
    rewrite aligned_test in Hmin by lia. assumption.
Qed.

(** X13. For an alignment that is a power of two of at most a page and a
    size of at most 16384 bytes, [get_size_info_align] does not abort: it
    returns the first class, from class 1 on, whose size holds the
    request and is a multiple of the alignment. *)
Theorem get_size_info_align_first_fit size k :
  0 <= k <= 12 -> size <= max_slab_size_class ->
  exists info, get_size_info_align size (2 ^ k) = Done info /\
    1 <= info_class info < N_SIZE_CLASSES /\
    info_size info = class_size (info_class info) /\
    size <= info_size info /\
    info_size info mod 2 ^ k = 0 /\
    forall c, 1 <= c < info_class info ->
      ~ (size <= class_size c /\ class_size c mod 2 ^ k = 0).
Proof. apply get_size_info_align_facts. Qed.

Lemma get_size_info_align_first_fit_witness :
  exists info, get_size_info_align 100 (2 ^ 6) = Done info /\
    1 <= info_class info < N_SIZE_CLASSES /\
    info_size info = class_size (info_class info) /\
    100 <= info_size info /\
    info_size info mod 2 ^ 6 = 0 /\
    forall c, 1 <= c < info_class info ->
      ~ (100 <= class_size c /\ class_size c mod 2 ^ 6 = 0).
Proof.
  apply (get_size_info_align_first_fit 100 6); [lia|].
  unfold max_slab_size_class. lia.
Defined.


(** *** The alignment test of [alloc_aligned] *)

(** [(alignment - 1) & alignment] is zero for 0 and the powers of two
    only. *)
Lemma power_of_two_test a :
  0 <= a < 2 ^ 64 ->
  (Z.land (wrap (a - 1)) a = 0 <-> a = 0 \/ exists k, 0 <= k /\ a = 2 ^ k).
Proof.
  intros Ha. split.
  - intros H. destruct (Z.eq_dec a 0) as [->|Hnz]; [left; reflexivity | right].
    rewrite wrap_small in H by lia.
    exists (Z.log2 a). split; [apply Z.log2_nonneg|].
    destruct (Z.log2_spec a ltac:(lia)) as [Hlo Hhi].
    destruct (Z.eq_dec a (2 ^ Z.log2 a)) as [|Hne]; [assumption | exfalso].
    assert (Hpos : 0 < 2 ^ Z.log2 a)
      by (apply Z.pow_pos_nonneg; [lia | apply Z.log2_nonneg]).
    assert (Hl : Z.log2 (a - 1) = Z.log2 a).
    { apply Z.log2_unique; [apply Z.log2_nonneg | lia]. }
    assert (Hb1 : Z.testbit (a - 1) (Z.log2 a) = true).
    { rewrite <- Hl. apply Z.bit_log2. lia. }
    assert (Hb2 : Z.testbit a (Z.log2 a) = true) by (apply Z.bit_log2; lia).
    assert (Hb : Z.testbit (Z.land (a - 1) a) (Z.log2 a) = true).
    { rewrite Z.land_spec, Hb1, Hb2. reflexivity. }
    rewrite H, Z.bits_0 in Hb. discriminate.
  - intros [-> | (k & Hk & ->)]; [apply Z.land_0_r|].
    assert (Hk64 : k < 64).
    { destruct (Z_lt_ge_dec k 64); [assumption|].
      assert (2 ^ 64 <= 2 ^ k) by (apply Z.pow_le_mono_r; lia). lia. }
    rewrite Z.land_comm. rewrite aligned_test by lia.
    apply Z.mod_same. apply Z.pow_nonzero; lia.
Qed.

Lemma alloc_aligned_rejects cfg alignment size min_alignment s :
  0 <= alignment < 2 ^ 64 ->
  (forall k, 0 <= k -> alignment <> 2 ^ k) \/ alignment < min_alignment ->
  0 < min_alignment ->
  alloc_aligned cfg alignment size min_alignment s = Done ((EINVAL, None), s).
Proof.
  intros Ha Hbad Hmin. unfold alloc_aligned.
  assert (Hc : negb (Z.land (wrap (alignment - 1)) alignment =? 0)
               || (alignment <? min_alignment) = true).
  { destruct (Z.ltb_spec alignment min_alignment) as [|Hge]; [apply orb_true_r|].
    destruct Hbad as [Hbad|]; [|lia]. rewrite orb_false_r.
    destruct (Z.eqb_spec (Z.land (wrap (alignment - 1)) alignment) 0) as [E|];
      [|reflexivity].
    apply power_of_two_test in E; [|assumption].
    destruct E as [->|(k & Hk & E)]; [lia|]. exfalso. apply (Hbad k Hk E). }
  rewrite Hc. reflexivity.
Qed.

(** The status of [alloc_aligned] once the alignment is accepted. *)
Lemma alloc_aligned_accepted cfg alignment size min_alignment s r ptr s' :
  0 <= alignment < 2 ^ 64 ->
  (exists k, 0 <= k /\ alignment = 2 ^ k) -> min_alignment <= alignment ->
  alloc_aligned cfg alignment size min_alignment s = Done ((r, ptr), s') ->
  (r = 0 /\ exists q, ptr = Some q /\ q <> 0) \/ (r = ENOMEM /\ ptr = None).
Proof.
  intros Ha Hpow Hmin. unfold alloc_aligned.
  assert (Hc : negb (Z.land (wrap (alignment - 1)) alignment =? 0)
               || (alignment <? min_alignment) = false).
  { destruct (Z.ltb_spec alignment min_alignment); [lia|]. rewrite orb_false_r.
    rewrite (proj2 (power_of_two_test alignment Ha)) by (right; assumption).
    reflexivity. }
  rewrite Hc. destruct (alignment <=? PAGE_SIZE).
  - assert (Hend : forall sz s1,
              (q <- allocate cfg sz ;;
               if q =? 0 then ret (ENOMEM, None) else ret (0, Some q)) s1
              = Done ((r, ptr), s') ->
              (r = 0 /\ exists q, ptr = Some q /\ q <> 0) \/ (r = ENOMEM /\ ptr = None)).
    { intros sz s1. unfold bindM, ret.
      destruct (allocate cfg sz s1) as [[q s2]| | |]; try discriminate.
      destruct (Z.eqb_spec q 0); intros [= <- <- _]; [right | left];
        [split; reflexivity
        | split; [reflexivity | exists q; split; [reflexivity | assumption]]]. }
    destruct ((size <=? max_slab_size_class) && (alignment >? min_align)).
    + unfold bindM at 1. unfold bindM at 1. unfold lift.
      destruct (get_size_info_align size alignment) as [info| | |]; try discriminate.
      apply Hend.
    + unfold bindM at 1. unfold ret at 1. apply Hend.
  - unfold bindM at 1.
    destruct (get_guard_size size s) as [[g s1]| | |]; try discriminate.
    unfold bindM at 1.
    destruct (allocate_pages_aligned size alignment g s1) as [[q s2]| | |];
      try discriminate.
    destruct (Z.eqb_spec q 0); [intros [= <- <- _]; right; split; reflexivity|].
    unfold bindM at 1.
    destruct (regions_insert q size g s2) as [[e s3]| | |]; try discriminate.
    destruct (negb (e =? 0)).
    + unfold bindM. destruct (deallocate_pages q size g s3) as [[u s4]| | |];
        try discriminate.
      intros [= <- <- _]. right. split; reflexivity.
    + intros [= <- <- _]. left. split; [reflexivity|].
      exists q. split; [reflexivity | assumption].
Qed.

(** X14. [h_posix_memalign] returns [EINVAL], stores no pointer and
    changes nothing when the alignment is not a power of two or is less
    than the size of a pointer; [h_aligned_alloc] returns null with
    [errno] set to [EINVAL] when it is not a power of two.  For an
    accepted alignment the status is 0, with a pointer that is not null,
    or [ENOMEM], with none. *)
Theorem aligned_alloc_checks_alignment cfg s alignment size :
  0 <= alignment < 2 ^ 64 ->
  initialized s = true ->
  ((forall k, 0 <= k -> alignment <> 2 ^ k) \/ alignment < 8 ->
   h_posix_memalign cfg alignment size s = Done ((EINVAL, None), s)) /\
  ((forall k, 0 <= k -> alignment <> 2 ^ k) ->
   h_aligned_alloc cfg alignment size s = Done (0, set_errno s EINVAL)) /\
  ((exists k, 3 <= k /\ alignment = 2 ^ k) ->
   forall r ptr s', h_posix_memalign cfg alignment size s = Done ((r, ptr), s') ->
     (r = 0 /\ exists q, ptr = Some q /\ q <> 0) \/ (r = ENOMEM /\ ptr = None)).
Proof.
  intros Ha Hinit. split; [|split].
  - intros Hbad. unfold h_posix_memalign, bindM. rewrite (init_done s Hinit).
    apply alloc_aligned_rejects; [assumption | assumption | lia].
  - intros Hbad. unfold h_aligned_alloc, bindM at 1. rewrite (init_done s Hinit).
    unfold alloc_aligned_simple, bindM at 1.
    rewrite alloc_aligned_rejects; [reflexivity | assumption | left; assumption | lia].
  - intros (k & Hk & Hal) r ptr s'. unfold h_posix_memalign, bindM.
    rewrite (init_done s Hinit).
    apply alloc_aligned_accepted; [assumption | exists k; split; [lia | assumption] |].
    assert (2 ^ 3 <= 2 ^ k) by (apply Z.pow_le_mono_r; lia).
    change (2 ^ 3) with 8 in *. lia.
Qed.

Lemma aligned_alloc_checks_alignment_witness :
  h_posix_memalign hardened 4 100 one_small = Done ((EINVAL, None), one_small) /\
  h_aligned_alloc hardened 0 100 one_small = Done (0, set_errno one_small EINVAL).
Proof.
  destruct (aligned_alloc_checks_alignment hardened one_small 4 100) as (H1 & _).
  { lia. }
  { vm_compute. reflexivity. }
  destruct (aligned_alloc_checks_alignment hardened one_small 0 100) as (_ & H2 & _).
  { lia. }
  { vm_compute. reflexivity. }
  split.
  - apply H1. right. lia.
  - apply H2. intros k Hk E.
    assert (0 < 2 ^ k) by (apply Z.pow_pos_nonneg; lia). lia.
Defined.

(** *** [h_calloc] and [h_pvalloc] *)

(** X15. [h_calloc] returns null with [errno] set to [ENOMEM], without
    initialising the allocator, when the product of its arguments
    overflows [size_t]; otherwise, with [ZERO_ON_FREE], it is [h_malloc]
    of the product. *)
Theorem calloc_checks_overflow cfg s nmemb size :
  0 <= nmemb -> 0 <= size ->
  (SIZE_MAX < nmemb * size ->
   h_calloc cfg nmemb size s = Done (0, set_errno s ENOMEM)) /\
  (nmemb * size <= SIZE_MAX -> ZERO_ON_FREE cfg = true ->
   h_calloc cfg nmemb size s = h_malloc cfg (nmemb * size) s).
Proof.
  intros Hn Hs. unfold h_calloc. split.
  - intros Hover. destruct (Z.gtb_spec (nmemb * size) SIZE_MAX); [reflexivity | lia].
  - intros Hfit Hz. destruct (Z.gtb_spec (nmemb * size) SIZE_MAX); [lia|].
    rewrite Hz. reflexivity.
Qed.

Lemma calloc_checks_overflow_witness :
  h_calloc hardened (2 ^ 33) (2 ^ 33) booted = Done (0, set_errno booted ENOMEM) /\
  h_calloc hardened 3 5 booted = h_malloc hardened 15 booted.
Proof.
  destruct (calloc_checks_overflow hardened booted (2 ^ 33) (2 ^ 33)) as [H1 _];
    [lia | lia |].
  destruct (calloc_checks_overflow hardened booted 3 5) as [_ H2]; [lia | lia |].
  split.
  - apply H1. unfold SIZE_MAX. lia.
  - apply H2; [unfold SIZE_MAX; lia | reflexivity].
Defined.

Lemma land_wrap_r y m : 0 <= y < 2 ^ 64 -> Z.land y (wrap m) = Z.land y m.
Proof.
  intros Hy. apply Z.bits_inj'. intros j Hj. rewrite !Z.land_spec.
  destruct (Z_lt_ge_dec j 64).
  - unfold wrap. rewrite Z.mod_pow2_bits_low by lia. reflexivity.
  - rewrite testbit_above by lia. reflexivity.
Qed.

(** Rounding up to a page. *)
Lemma PAGE_CEILING_eq x :
  PAGE_CEILING x = PAGE_SIZE * (wrap (x + PAGE_SIZE - 1) / PAGE_SIZE).
Proof.
  unfold PAGE_CEILING, PAGE_SIZE.
  rewrite land_wrap_r by apply wrap_range.
  change (4096 - 1) with (Z.ones 12).
  rewrite <- Z.ldiff_land, Z.ldiff_ones_r by lia.
  rewrite Z.shiftl_mul_pow2, Z.shiftr_div_pow2 by lia.
  change (2 ^ 12) with 4096. lia.
Qed.

Lemma PAGE_CEILING_fits x :
  0 <= x <= SIZE_MAX - (PAGE_SIZE - 1) ->
  x <= PAGE_CEILING x < x + PAGE_SIZE /\ PAGE_CEILING x mod PAGE_SIZE = 0.
Proof.
  unfold SIZE_MAX. intros Hx. rewrite PAGE_CEILING_eq. unfold PAGE_SIZE in *.
  rewrite wrap_small by lia.
  pose proof (Z.div_mod (x + 4096 - 1) 4096 ltac:(lia)) as Hd.
  pose proof (Z.mod_pos_bound (x + 4096 - 1) 4096 ltac:(lia)) as Hm.
  split; [lia|]. rewrite Z.mul_comm. apply Z.mod_mul. lia.
Qed.

(** X16. [h_pvalloc] returns null with [errno] set to [ENOMEM], without
    initialising the allocator, for a size of 0 and for a size whose
    rounding up to a page overflows.  For every other size it asks
    [alloc_aligned_simple] for the size rounded up to the next multiple
    of the page size, to which no canary adjustment is applied. *)
Theorem pvalloc_rounds_to_pages cfg s size :
  0 <= size <= SIZE_MAX ->
  (size = 0 \/ SIZE_MAX - (PAGE_SIZE - 1) < size ->
   h_pvalloc cfg size s = Done (0, set_errno s ENOMEM)) /\
  (0 < size <= SIZE_MAX - (PAGE_SIZE - 1) ->
   size <= PAGE_CEILING size < size + PAGE_SIZE /\
   PAGE_CEILING size mod PAGE_SIZE = 0 /\
   h_pvalloc cfg size s
   = (init ;;; alloc_aligned_simple cfg PAGE_SIZE (PAGE_CEILING size)) s).
Proof.
  unfold SIZE_MAX. intros Hsize. unfold h_pvalloc. split.
  - intros Hedge.
    assert (E : PAGE_CEILING size = 0).
    { rewrite PAGE_CEILING_eq. unfold PAGE_SIZE in *.
      destruct Hedge as [->|Hbig]; [reflexivity|].
      unfold wrap. replace (size + 4096 - 1) with (size + 4095 - 2 ^ 64 + 1 * 2 ^ 64) by lia.
      rewrite Z.mod_add by lia. rewrite Z.mod_small by lia.
      rewrite Z.div_small by lia. reflexivity. }
    rewrite E. reflexivity.
  - intros Hmid.
    destruct (PAGE_CEILING_fits size) as [Hr Hm]; [unfold SIZE_MAX; lia|].
    split; [assumption|]. split; [assumption|].
    destruct (Z.eqb_spec (PAGE_CEILING size) 0); [lia | reflexivity].
Qed.

Lemma pvalloc_rounds_to_pages_witness :
  h_pvalloc hardened 0 booted = Done (0, set_errno booted ENOMEM) /\
  4090 <= PAGE_CEILING 4090 < 4090 + PAGE_SIZE /\
  h_pvalloc hardened 4090 booted
  = (init ;;; alloc_aligned_simple hardened PAGE_SIZE (PAGE_CEILING 4090)) booted.
Proof.
  destruct (pvalloc_rounds_to_pages hardened booted 0) as [H1 _];
    [unfold SIZE_MAX; lia|].
  destruct (pvalloc_rounds_to_pages hardened booted 4090) as [_ H2];
    [unfold SIZE_MAX; lia|].
  split; [apply H1; left; reflexivity|].
  destruct H2 as (Ha & _ & Hb); [unfold SIZE_MAX, PAGE_SIZE; lia|].
  split; assumption.
Defined.


(** *** The tables of the classes *)

Lemma class_table class :
  0 <= class < N_SIZE_CLASSES ->
  16 <= slot_size class <= 16384 /\
  slot_size class mod 16 = 0 /\
  1 <= class_slots class <= 256 /\
  class_slots class * slot_size class <= class_slab_size class /\
  4096 <= class_slab_size class <= 65536 /\
  class_slab_size class mod PAGE_SIZE = 0 /\
  2 ^ 21 <= get_metadata_max (class_slab_size class) <= 2 ^ 25.
Proof.
  rewrite N_SIZE_CLASSES_eq. intros Hc.
  assert (Hall : forallb
            (fun c =>
               (16 <=? slot_size c) && (slot_size c <=? 16384)
               && (slot_size c mod 16 =? 0)
               && (1 <=? class_slots c) && (class_slots c <=? 256)
               && (class_slots c * slot_size c <=? class_slab_size c)
               && (4096 <=? class_slab_size c) && (class_slab_size c <=? 65536)
               && (class_slab_size c mod PAGE_SIZE =? 0)
               && (2 ^ 21 <=? get_metadata_max (class_slab_size c))
               && (get_metadata_max (class_slab_size c) <=? 2 ^ 25))
            (map Z.of_nat (seq 0 37)) = true) by (vm_compute; reflexivity).
  rewrite forallb_forall in Hall.
  specialize (Hall class ltac:(apply in_range_list; lia)).
  repeat (apply andb_true_iff in Hall; destruct Hall as [Hall ?]).
  repeat match goal with
         | H : (_ <=? _) = true |- _ => apply Z.leb_le in H
         | H : (_ =? _) = true |- _ => apply Z.eqb_eq in H
         end.
  repeat split; assumption.
Qed.

(** The slabs below [get_metadata_max] lie in the region of the class. *)
Lemma metadata_max_fits class m :
  0 <= class < N_SIZE_CLASSES ->
  0 <= m < get_metadata_max (class_slab_size class) ->
  m * class_slab_size class + class_slab_size class <= class_region_size.
Proof.
  intros Hc Hm. destruct (class_table class Hc) as (_ & _ & _ & _ & Hs & _).
  unfold get_metadata_max in Hm.
  pose proof (Z.mul_div_le class_region_size (class_slab_size class) ltac:(lia)) as Hd.
  nia.
Qed.

(** *** Words in range *)

Lemma land_range a b : 0 <= a < 2 ^ 64 -> 0 <= Z.land a b < 2 ^ 64.
Proof.
  intros Ha.
  assert (E : Z.land a b = Z.land a b mod 2 ^ 64).
  { rewrite <- Z.land_ones by lia.
    rewrite <- Z.land_assoc, (Z.land_comm b), Z.land_assoc.
    rewrite Z.land_ones by lia. rewrite (Z.mod_small a) by lia. reflexivity. }
  rewrite E. apply Z.mod_pos_bound. lia.
Qed.

Lemma same_words_refl c : same_words c c.
Proof. intros i. split; reflexivity. Qed.

Lemma same_words_trans c1 c2 c3 :
  same_words c1 c2 -> same_words c2 c3 -> same_words c1 c3.
Proof.
  intros H1 H2 i. destruct (H1 i) as [A1 B1], (H2 i) as [A2 B2].
  split; congruence.
Qed.

Lemma same_words_ok c c' : same_words c c' -> words_ok c -> words_ok c'.
Proof.
  intros H Hw i. destruct (H i) as [A B], (Hw i) as [C D]. rewrite A, B.
  split; assumption.
Qed.

Lemma same_words_md_update c j f :
  (forall m, bitmap (f m) = bitmap m /\ canary_value (f m) = canary_value m) ->
  same_words c (md_update c j f).
Proof.
  intros Hf i. unfold md_update. class_fields.
  destruct (Z.eq_dec i j) as [->|Hne];
    [rewrite upd_same; apply Hf | rewrite upd_other by assumption; split; reflexivity].
Qed.

Ltac words_step :=
  match goal with
  | |- same_words _ (md_update ?X _ _) =>
      apply same_words_trans with (c2 := X);
      [|apply same_words_md_update; intros ?; split; reflexivity]
  | |- same_words _ (set_partial_slabs ?X _) =>
      apply same_words_trans with (c2 := X); [|intros ?; split; reflexivity]
  | |- same_words _ (set_empty_slabs ?X _) =>
      apply same_words_trans with (c2 := X); [|intros ?; split; reflexivity]
  | |- same_words _ (set_empty_slabs_total ?X _) =>
      apply same_words_trans with (c2 := X); [|intros ?; split; reflexivity]
  | |- same_words _ (set_free_slabs_head ?X _) =>
      apply same_words_trans with (c2 := X); [|intros ?; split; reflexivity]
  | |- same_words _ (set_free_slabs_tail ?X _) =>
      apply same_words_trans with (c2 := X); [|intros ?; split; reflexivity]
  | |- same_words _ (set_rng ?X _) =>
      apply same_words_trans with (c2 := X); [|intros ?; split; reflexivity]
  | |- same_words ?X ?X => apply same_words_refl
  end.

Lemma same_words_push_partial c idx : same_words c (push_partial c idx).
Proof.
  unfold push_partial. cbv zeta. words_step.
  destruct (partial_slabs _); repeat words_step.
Qed.

Lemma same_words_unlink_partial c idx : same_words c (unlink_partial c idx).
Proof.
  unfold unlink_partial. cbv zeta. words_step.
  match goal with |- same_words _ (match ?o with _ => _ end) => destruct o end;
    repeat words_step;
    match goal with |- same_words _ (match ?o with _ => _ end) => destruct o end;
    repeat words_step.
Qed.

Lemma same_words_enqueue_free_slab c idx : same_words c (enqueue_free_slab c idx).
Proof.
  unfold enqueue_free_slab. cbv zeta. words_step.
  match goal with |- same_words _ (match ?o with _ => _ end) => destruct o end;
    repeat words_step.
Qed.

Lemma same_words_push_empty c idx slab_size : same_words c (push_empty c idx slab_size).
Proof. unfold push_empty. cbv zeta. repeat words_step. Qed.


(** *** Taking a slot *)

Lemma take_slot_done cfg c slots size slab_size m c' slot q :
  0 <= slots -> 0 <= bitmap (slab_info c m) < 2 ^ 64 ->
  take_slot cfg c slots size slab_size m = Done (c', slot, q) ->
  0 <= slot < slots /\ slot < 64 /\
  Z.testbit (bitmap (slab_info c m)) slot = false /\
  (exists r', c' = md_update (set_rng c r') m
                     (fun md => set_bitmap md
                                  (Z.lor (bitmap md) (wrap (Z.shiftl 1 slot))))) /\
  q = slot_pointer size (get_slab c slab_size m) slot.
Proof.
  intros Hs Hb. unfold take_slot.
  destruct (get_free_slot_facts cfg (rng c) slots (slab_info c m) Hs Hb)
    as (Hfull & Hfree & _).
  destruct (has_free_slots slots (slab_info c m)).
  - destruct (Hfree eq_refl) as (slot0 & r' & E & Hr & H64 & Hg).
    rewrite E. cbn [bind]. unfold set_slot. rewrite check_index_ok by lia.
    cbn [bind]. class_fields. intros [= <- <- <-].
    rewrite get_slot_testbit in Hg by lia. injection Hg as Hg.
    split; [assumption|]. split; [assumption|]. split; [assumption|].
    split; [exists r'; reflexivity | reflexivity].
  - rewrite (Hfull eq_refl). discriminate.
Qed.

(** The class after a slot of the slab [m] has been taken. *)
Lemma took_slot_wf class c m slot r' :
  metadata_wf class c -> words_ok c -> ptr_ok c (Some m) ->
  metadata_wf class
    (md_update (set_rng c r') m
       (fun md => set_bitmap md (Z.lor (bitmap md) (wrap (Z.shiftl 1 slot))))) /\
  words_ok
    (md_update (set_rng c r') m
       (fun md => set_bitmap md (Z.lor (bitmap md) (wrap (Z.shiftl 1 slot))))).
Proof.
  intros Hw Hwords Hm. split.
  - apply wf_md_update; [apply wf_set_rng; assumption | assumption | |];
      class_fields; apply (wf_links class c m Hw).
  - intros i. unfold md_update. class_fields.
    destruct (Z.eq_dec i m) as [->|Hne].
    + rewrite upd_same. class_fields. destruct (Hwords m) as [Hb Hc].
      split; [|assumption]. apply lor_range; [assumption | apply wrap_range].
    + rewrite upd_other by assumption. apply Hwords.
Qed.

(** *** A new metadata entry *)

Ltac wf_grown Hl Hz :=
  unfold metadata_wf, untouched_zero, ptr_ok in *; class_fields;
  repeat split; try assumption; try lia;
  try (intros ? ?; apply Hz; lia);
  try match goal with
      | |- match ?o with Some _ => _ | None => True end =>
          let E := fresh in
          destruct o eqn:E; [|exact I];
          first [ lia
                | match goal with
                  | E : next (slab_info _ ?i) = Some _ |- _ =>
                      let N := fresh in destruct (Hl i) as [N _]; rewrite E in N; lia
                  | E : prev (slab_info _ ?i) = Some _ |- _ =>
                      let N := fresh in destruct (Hl i) as [_ N]; rewrite E in N; lia
                  end ]
      end.

Lemma alloc_metadata_done cfg class nz s found s' :
  0 <= class < N_SIZE_CLASSES ->
  metadata_wf class (size_class_metadata s class) ->
  alloc_metadata cfg class (class_slab_size class) nz s = Done (found, s') ->
  exists c',
    size_class_metadata s' class = c' /\
    (forall k, k <> class -> size_class_metadata s' k = size_class_metadata s k) /\
    same_frame s s' /\ mem s' = mem s /\
    grows (size_class_metadata s class) c' /\
    empty_slabs_total c' = empty_slabs_total (size_class_metadata s class) /\
    metadata_wf class c' /\
    match found with
    | None => metadata_count c' = metadata_count (size_class_metadata s class)
    | Some m => m = metadata_count (size_class_metadata s class) /\ ptr_ok c' (Some m) /\
        metadata_count c'
        = metadata_count (size_class_metadata s class) + (if GUARD_SLABS cfg then 2 else 1)
    end.
Proof.
  intros Hclass Hw.
  destruct (class_table class Hclass) as (_ & _ & _ & _ & _ & _ & Hmax).
  remember (size_class_metadata s class) as c eqn:Ec.
  pose proof Hw as (Ha & Hc & Hz & Hp & He & Hh & Ht & Hl).
  assert (H25 : 2 ^ 25 < 2 ^ 64) by (apply Z.pow_lt_mono_r; lia).
  unfold alloc_metadata, memory_protect_rw, os, get_class, put_class, ret.
  unfold bindM. cbv beta iota zeta. rewrite <- Ec.
  rewrite (wrap_small (metadata_allocated c * 2)) by lia.
  match goal with
  | |- context [if negb _ then _ else ?F] =>
      assert (H2 : forall s0,
        grows c (size_class_metadata s0 class) ->
        empty_slabs_total (size_class_metadata s0 class) = empty_slabs_total c ->
        metadata_count (size_class_metadata s0 class) = metadata_count c ->
        metadata_wf class (size_class_metadata s0 class) ->
        metadata_count c < metadata_allocated (size_class_metadata s0 class) ->
        (forall k, k <> class -> size_class_metadata s0 k = size_class_metadata s k) ->
        same_frame s s0 -> mem s0 = mem s ->
        F s0 = Done (found, s') ->
        exists c',
          size_class_metadata s' class = c' /\
          (forall k, k <> class -> size_class_metadata s' k = size_class_metadata s k) /\
          same_frame s s' /\ mem s' = mem s /\
          grows c c' /\ empty_slabs_total c' = empty_slabs_total c /\
          metadata_wf class c' /\
          match found with
          | Some m => m = metadata_count c /\ ptr_ok c' (Some m) /\
                    metadata_count c' = metadata_count c + (if GUARD_SLABS cfg then 2 else 1)
          | None => metadata_count c' = metadata_count c
          end)
  end.
  { intros s0. remember (size_class_metadata s0 class) as c1 eqn:Ec1.
    intros Hg Het Hcount Hw1 Hlt Ho Hf Hm. cbv beta.
    pose proof Hw1 as (Ha1 & Hc1 & Hz1 & Hp1 & He1 & Hh1 & Ht1 & Hl1).
    destruct Hg as (G1 & G2 & G3 & G4 & G5 & G6 & G7 & G8 & G9 & G10 & G11 & G12).
    destruct Hf as (F1 & F2 & F3 & F4 & F5).
    rewrite (wrap_small (metadata_count c1 + 1)) by lia.
    class_fields. rewrite (wrap_small (metadata_count c1 + 1 + 1)) by lia.
    assert (Hfail : forall s1,
              (forall k, size_class_metadata s1 k = size_class_metadata s0 k) ->
              same_frame s0 s1 -> mem s1 = mem s0 ->
              Done (@None Z, s1) = Done (found, s') ->
              exists c',
                size_class_metadata s' class = c' /\
                (forall k, k <> class -> size_class_metadata s' k = size_class_metadata s k) /\
                same_frame s s' /\ mem s' = mem s /\
                grows c c' /\ empty_slabs_total c' = empty_slabs_total c /\
                metadata_wf class c' /\
                match found with
                | Some m => m = metadata_count c /\ ptr_ok c' (Some m) /\
                    metadata_count c' = metadata_count c + (if GUARD_SLABS cfg then 2 else 1)
                | None => metadata_count c' = metadata_count c
                end).
    { intros s1 Hk (A & B & C & D & E) Hm1 [= <- <-]. exists c1.
      split; [rewrite Hk; congruence|].
      split; [intros k Hne; rewrite Hk; apply Ho; assumption|].
      split; [unfold same_frame in *; repeat split; congruence|]. split; [congruence|].
      split; [unfold grows; repeat split; assumption|].
      split; [assumption|]. split; [assumption | assumption]. }
    assert (Hok : forall s1,
              (forall k, size_class_metadata s1 k = size_class_metadata s0 k) ->
              same_frame s0 s1 -> mem s1 = mem s0 ->
              Done
                (Some (metadata_count c1),
                 set_classes s1
                   (upd (size_class_metadata s1) class
                      (if GUARD_SLABS cfg
                       then set_metadata_count
                              (set_metadata_count c1 (metadata_count c1 + 1))
                              (metadata_count c1 + 1 + 1)
                       else set_metadata_count c1 (metadata_count c1 + 1))))
              = Done (found, s') ->
              exists c',
                size_class_metadata s' class = c' /\
                (forall k, k <> class -> size_class_metadata s' k = size_class_metadata s k) /\
                same_frame s s' /\ mem s' = mem s /\
                grows c c' /\ empty_slabs_total c' = empty_slabs_total c /\
                metadata_wf class c' /\
                match found with
                | Some m => m = metadata_count c /\ ptr_ok c' (Some m) /\
                    metadata_count c' = metadata_count c + (if GUARD_SLABS cfg then 2 else 1)
                | None => metadata_count c' = metadata_count c
                end).
    { intros s1 Hk (A & B & C & D & E) Hm1 [= <- <-]. eexists.
      split; [state_fields; apply upd_same|].
      split; [intros k Hne; state_fields; rewrite upd_other by assumption;
              rewrite Hk; apply Ho; assumption|].
      split; [unfold same_frame in *; state_fields; repeat split; congruence|].
      split; [state_fields; congruence|].
      destruct (GUARD_SLABS cfg).
      - split; [unfold grows; class_fields; repeat split; try assumption; lia|].
        split; [assumption|].
        split; [wf_grown Hl1 Hz1
               | split; [congruence | split; [unfold ptr_ok; class_fields; lia
                                             | class_fields; lia]]].
      - split; [unfold grows; class_fields; repeat split; try assumption; lia|].
        split; [assumption|].
        split; [wf_grown Hl1 Hz1
               | split; [congruence | split; [unfold ptr_ok; class_fields; lia
                                             | class_fields; lia]]]. }
    destruct nz.
    - destruct (negb (hd 0 (os_next s0) =? 0)).
      + apply Hfail; [reflexivity | repeat split | reflexivity].
      + apply Hok; [reflexivity | repeat split | reflexivity].
    - cbn [negb Z.eqb]. apply Hok; [reflexivity | repeat split | reflexivity]. }
  destruct (Z.geb_spec (metadata_count c) (metadata_allocated c)) as [Hfull|Hroom].
  - destruct (Z.geb_spec (metadata_count c) (get_metadata_max (class_slab_size class)))
      as [Hmaxed|Hbelow].
    + cbn [negb]. intros [= <- <-]. exists c.
      split; [state_fields; congruence|]. split; [reflexivity|].
      split; [repeat split|]. split; [reflexivity|].
      split; [unfold grows; repeat split; lia|]. split; [reflexivity|].
      split; [assumption | reflexivity].
    + destruct (negb (hd 0 (os_next s) =? 0)).
      * cbn [negb]. intros [= <- <-]. exists c.
        split; [state_fields; congruence|]. split; [reflexivity|].
        split; [repeat split|]. split; [reflexivity|].
        split; [unfold grows; repeat split; lia|]. split; [reflexivity|].
        split; [assumption | reflexivity].
      * cbn [negb]. apply H2; state_fields; rewrite ?upd_same; class_fields.
        -- unfold grows. class_fields. repeat split; try lia.
           destruct (Z.gtb_spec (metadata_allocated c * 2)
                       (get_metadata_max (class_slab_size class))); lia.
        -- reflexivity.
        -- reflexivity.
        -- destruct (Z.gtb_spec (metadata_allocated c * 2)
                       (get_metadata_max (class_slab_size class)));
             wf_grown Hl Hz.
        -- destruct (Z.gtb_spec (metadata_allocated c * 2)
                       (get_metadata_max (class_slab_size class))); lia.
        -- intros k Hne. rewrite upd_other by assumption. reflexivity.
        -- repeat split.
        -- reflexivity.
  - cbn [negb]. apply H2; rewrite <- ?Ec.
    + unfold grows. repeat split; lia.
    + reflexivity.
    + reflexivity.
    + assumption.
    + lia.
    + reflexivity.
    + repeat split.
    + reflexivity.
Qed.

(** *** The end of every path of [allocate_small] *)

Lemma same_but_mem_fields s s' :
  same_but_mem s s' ->
  size_class_metadata s' = size_class_metadata s /\ same_frame s s' /\
  os_log s' = os_log s /\ os_next s' = os_next s /\ errno s' = errno s.
Proof. intros ->. repeat split. Qed.

Lemma get_slab_layout c c' slab_size m :
  same_layout c c' -> get_slab c' slab_size m = get_slab c slab_size m.
Proof. intros (H & _). unfold get_slab. rewrite H. reflexivity. Qed.

Lemma same_layout_refl c : same_layout c c.
Proof. repeat split. Qed.

Lemma same_layout_trans c1 c2 c3 :
  same_layout c1 c2 -> same_layout c2 c3 -> same_layout c1 c3.
Proof.
  intros (A1 & A2 & A3 & A4) (B1 & B2 & B3 & B4). repeat split; congruence.
Qed.

Lemma same_frame_refl s : same_frame s s.
Proof. repeat split. Qed.

Lemma same_frame_trans s1 s2 s3 :
  same_frame s1 s2 -> same_frame s2 s3 -> same_frame s1 s3.
Proof.
  intros (A1 & A2 & A3 & A4 & A5) (B1 & B2 & B3 & B4 & B5). repeat split; congruence.
Qed.

(** A slot of the slab [m] is taken in the prepared class [c0], the
    lists are adjusted by [P], the class is stored, and [K] writes what
    it has to in the chunk. *)
Lemma serve_tail cfg class m c0 s s0 (P : size_class -> size_class)
  (K : size_class -> Z -> Z -> M unit) q s' :
  0 <= class < N_SIZE_CLASSES ->
  prepared class (size_class_metadata s class) c0 m ->
  (forall k, k <> class -> size_class_metadata s0 k = size_class_metadata s k) ->
  same_frame s s0 ->
  (forall c1, metadata_wf class c1 -> ptr_ok c1 (Some m) ->
     keeps class m c1 (P c1) /\ same_words c1 (P c1)) ->
  (forall c1 slot q1 s1 s2, K c1 slot q1 s1 = Done (tt, s2) -> same_but_mem s1 s2) ->
  ('(c1, slot, q1) <- lift (take_slot cfg c0 (class_slots class) (slot_size class)
                              (class_slab_size class) m) ;;
   put_class class (P c1) ;;;
   K c1 slot q1 ;;;
   ret q1) s0 = Done (q, s') ->
  exists slot c1,
    served class s s' m slot q /\
    size_class_metadata s' class = P c1 /\
    same_words c1 (P c1) /\
    K c1 slot q (set_classes s0 (upd (size_class_metadata s0) class (P c1)))
    = Done (tt, s') /\
    (forall i, canary_value (slab_info c1 i) = canary_value (slab_info c0 i)).
Proof.
  intros Hclass (Hlay & Hbits & Hw & Hwords & Hm) Hothers Hframe HP HK.
  destruct (class_table class Hclass) as (_ & _ & Hslots & _).
  unfold bindM at 1. unfold lift.
  destruct (take_slot cfg c0 (class_slots class) (slot_size class)
              (class_slab_size class) m) as [[[c1 slot] q1]| | |] eqn:Et;
    try discriminate.
  destruct (take_slot_done cfg c0 (class_slots class) (slot_size class)
              (class_slab_size class) m c1 slot q1 ltac:(lia) (proj1 (Hwords m)) Et)
    as (Hslot & H64 & Hfree & (r' & Ec1) & Hq1).
  destruct (took_slot_wf class c0 m slot r' Hw Hwords Hm) as [Hw1 Hwords1].
  rewrite <- Ec1 in Hw1, Hwords1.
  assert (Hcount : metadata_count c1 = metadata_count c0 /\
                   metadata_allocated c1 = metadata_allocated c0 /\
                   same_layout c0 c1 /\
                   slab_info c1 = upd (slab_info c0) m
                                    (set_bitmap (slab_info c0 m)
                                       (Z.lor (bitmap (slab_info c0 m))
                                          (wrap (Z.shiftl 1 slot))))).
  { rewrite Ec1. repeat split. }
  destruct Hcount as (Hcnt & Hall & Hlay1 & Hinfo).
  assert (Hm1 : ptr_ok c1 (Some m)) by (unfold ptr_ok in *; lia).
  destruct (HP c1 Hw1 Hm1) as [(Hgeo & Hsb & Hkw) Hsw].
  destruct Hgeo as (G1 & G2 & G3 & G4 & G5 & G6).
  unfold put_class, bindM, ret.
  destruct (K c1 slot q1 (set_classes s0 (upd (size_class_metadata s0) class (P c1))))
    as [[[] s2]| | |] eqn:Ek; try discriminate.
  intros [= <- <-].
  destruct (same_but_mem_fields _ _ (HK _ _ _ _ _ Ek)) as (Hc2 & Hf2 & _).
  state_fields.
  assert (Ecl : size_class_metadata s2 class = P c1) by (rewrite Hc2; apply upd_same).
  exists slot, c1.
  split; [|split; [assumption | split; [assumption | split; [assumption|]]]].
  2:{ intros i. rewrite Ec1. unfold md_update. class_fields.
      destruct (Z.eq_dec i m) as [->|Hne];
        [rewrite upd_same | rewrite upd_other by assumption]; reflexivity. }
  unfold served. rewrite Ecl.
  split; [|split; [|split; [|split; [|split; [|split]]]]].
  - unfold took, ptr_ok in *. rewrite G5, G6, !Hsb, Hcnt, Hall, Hinfo.
    split; [assumption|]. split; [assumption|]. split; [lia|]. split; [lia|].
    split; [rewrite <- Hbits; assumption|].
    split; [rewrite upd_same; cbn [bitmap set_bitmap]; rewrite Hbits; reflexivity|].
    intros i Hi. rewrite Hsb, Hinfo. rewrite upd_other by assumption. apply Hbits.
  - rewrite Hq1. rewrite (get_slab_layout _ _ _ _ Hlay). reflexivity.
  - eapply same_layout_trans; [eassumption|].
    eapply same_layout_trans; [eassumption|]. repeat split; assumption.
  - apply Hkw; assumption.
  - eapply same_words_ok; eassumption.
  - intros k Hk. rewrite Hc2. rewrite upd_other by assumption. apply Hothers. assumption.
  - eapply same_frame_trans; [eassumption|].
    eapply same_frame_trans; [|eassumption]. repeat split.
Qed.

(** What the paths write in the chunk changes the memory only. *)
Lemma write_after_free_check_mem cfg q size s u s' :
  write_after_free_check cfg q size s = Done (u, s') -> s' = s.
Proof.
  unfold write_after_free_check. destruct (negb (WRITE_AFTER_FREE_CHECK cfg)).
  - intros [= _ <-]. reflexivity.
  - unfold lift. destruct (write_after_free_loop _ _ _ _ _); try discriminate.
    intros [= _ <-]. reflexivity.
Qed.

Lemma checked_canary_mem cfg n md q size s s' :
  (if negb (n =? 0) then
     write_after_free_check cfg q (size - canary_size cfg) ;;;
     set_canary cfg md q size
   else ret tt) s = Done (tt, s') ->
  same_but_mem s s'.
Proof.
  destruct (negb (n =? 0)).
  - unfold bindM.
    destruct (write_after_free_check cfg q (size - canary_size cfg) s)
      as [[u s1]| | |] eqn:E; try discriminate.
    apply write_after_free_check_mem in E. subst s1.
    unfold set_canary. intros [= <-]. destruct s; reflexivity.
  - intros [= <-]. destruct s; reflexivity.
Qed.

Lemma plain_canary_mem cfg n md q size s s' :
  (if negb (n =? 0) then set_canary cfg md q size else ret tt) s = Done (tt, s') ->
  same_but_mem s s'.
Proof.
  destruct (negb (n =? 0)); unfold set_canary, ret; intros [= <-];
    destruct s; reflexivity.
Qed.


(** *** The paths of [allocate_small] *)

Lemma size_form x : (if negb (x =? 0) then x else 16) = (if x =? 0 then 16 else x).
Proof. destruct (x =? 0); reflexivity. Qed.

(** The canary is the last thing a path writes. *)
Lemma checked_canary_written cfg n md q size s s' :
  n <> 0 ->
  (if negb (n =? 0) then
     write_after_free_check cfg q (size - canary_size cfg) ;;;
     set_canary cfg md q size
   else ret tt) s = Done (tt, s') ->
  mem s' = store_bytes (mem s) (q + size - canary_size cfg)
             (firstn (Z.to_nat (canary_size cfg)) (bytes_of_u64 cfg (canary_value md))).
Proof.
  intros Hn. destruct (Z.eqb_spec n 0); [contradiction|]. cbn [negb].
  unfold bindM.
  destruct (write_after_free_check cfg q (size - canary_size cfg) s)
    as [[u s1]| | |] eqn:E; try discriminate.
  apply write_after_free_check_mem in E. subst s1.
  unfold set_canary. intros [= <-]. reflexivity.
Qed.

Lemma plain_canary_written cfg n md q size s s' :
  n <> 0 ->
  (if negb (n =? 0) then set_canary cfg md q size else ret tt) s = Done (tt, s') ->
  mem s' = store_bytes (mem s) (q + size - canary_size cfg)
             (firstn (Z.to_nat (canary_size cfg)) (bytes_of_u64 cfg (canary_value md))).
Proof.
  intros Hn. destruct (Z.eqb_spec n 0); [contradiction|]. cbn [negb].
  unfold set_canary. intros [= <-]. reflexivity.
Qed.

(** A class state reached from [c1] by list operations on the slab [m]
    is ready for a slot of [m] to be taken. *)
Lemma keeps_prepared class c c1 c0 m :
  same_layout c c1 ->
  (forall i, bitmap (slab_info c1 i) = bitmap (slab_info c i)) ->
  metadata_wf class c1 -> ptr_ok c1 (Some m) ->
  keeps class m c1 c0 -> words_ok c0 ->
  prepared class c c0 m.
Proof.
  intros Hlay Hbits Hw Hm (Hgeo & Hsb & Hkw) Hwords.
  pose proof Hgeo as (G1 & G2 & G3 & G4 & G5 & G6).
  split; [|split; [|split; [|split]]].
  - eapply same_layout_trans; [eassumption|]. repeat split; assumption.
  - intros i. rewrite Hsb. apply Hbits.
  - apply Hkw; assumption.
  - assumption.
  - unfold ptr_ok in *. lia.
Qed.

Lemma words_ok_canary c m v :
  words_ok c -> 0 <= v < 2 ^ 64 ->
  words_ok (md_update c m (fun md => set_canary_value md v)).
Proof.
  intros Hwords Hv i. unfold md_update. class_fields.
  destruct (Z.eq_dec i m) as [->|Hne].
  - rewrite upd_same. class_fields. split; [apply Hwords | assumption].
  - rewrite upd_other by assumption. apply Hwords.
Qed.

Lemma allocate_small_done cfg n s q s' info :
  heap_ok s ->
  get_size_info n = Done info ->
  0 <= info_class info < N_SIZE_CLASSES ->
  info_size info = class_size (info_class info) ->
  allocate_small cfg n s = Done (q, s') ->
  (q = 0 /\ unserved (info_class info) s s') \/
  exists m slot,
    served (info_class info) s s' m slot q /\
    m = chosen_slab (size_class_metadata s (info_class info)) /\
    canary_value (slab_info (size_class_metadata s' (info_class info)) m)
    = chosen_canary cfg (size_class_metadata s (info_class info)) /\
    (n <> 0 -> canary_written cfg (info_class info) s' m q).
Proof.
  intros [Hwf Hwords] Hinfo Hclass Hsize.
  destruct Hwf as (Hinit & Hstart & Hend & H64 & Hcls).
  destruct (Hcls _ Hclass) as [Hgeo Hw]. destruct (Hwords _ Hclass) as [Hwd Hal].
  unfold allocate_small. unfold bindM at 1, lift at 1. rewrite Hinfo.
  unfold get_class at 1, bindM at 1. cbv zeta.
  rewrite !size_form, !Hsize.
  remember (info_class info) as class eqn:Eclass.
  remember (size_class_metadata s class) as c eqn:Ec.
  destruct (partial_slabs c) as [m|] eqn:Ep.
  - (* a partial slab *)
    intros H. subst c.
    eapply (serve_tail cfg class m _ s s) in H.
    + destruct H as (slot & c1 & Hserved & Ecl & Hsw & HK & Hcv).
      right. exists m, slot. split; [assumption|].
      unfold chosen_slab, chosen_canary. rewrite Ep.
      split; [reflexivity|].
      split; [rewrite Ecl, (proj2 (Hsw m)); apply Hcv|].
      intros Hn. rewrite <- Ecl in HK.
      eexists. eapply checked_canary_written; eassumption.
    + assumption.
    + split; [apply same_layout_refl|]. split; [reflexivity|].
      split; [assumption|]. split; [assumption|].
      destruct Hw as (_ & _ & _ & Hp & _). rewrite Ep in Hp. exact Hp.
    + reflexivity.
    + apply same_frame_refl.
    + intros c1 Hw1 Hm1. cbv beta.
      destruct (negb (has_free_slots (class_slots class) (slab_info c1 m)));
        [|split; [apply keeps_refl | apply same_words_refl]].
      cbv zeta.
      remember (set_partial_slabs c1 (next (slab_info c1 m))) as c2 eqn:E2.
      assert (K2 : keeps class m c1 c2).
      { rewrite E2. apply keeps_set_partial_slabs. intros Hw2 _.
        apply (wf_links class c1 m Hw2). }
      assert (W2 : same_words c1 c2) by (rewrite E2; intros i; split; reflexivity).
      destruct (partial_slabs c2) as [head|] eqn:Eh; [|split; assumption].
      split.
      * eapply keeps_trans; [exact K2|].
        apply keeps_md_update; [reflexivity|].
        intros Hw2 Hi. pose proof Hw2 as (_ & _ & _ & Hp & _). rewrite Eh in Hp.
        split; [assumption|]. class_fields.
        split; [apply (wf_links _ _ head Hw2) | exact I].
      * eapply same_words_trans; [exact W2|].
        apply same_words_md_update. intros md. split; reflexivity.
    + intros c1 slot q1 s1 s2. apply checked_canary_mem.
  - destruct (empty_slabs c) as [m|] eqn:Ee.
    + (* an empty slab *)
      intros H. subst c.
      eapply (serve_tail cfg class m _ s s (fun c1 => c1)) in H.
      * destruct H as (slot & c1 & Hserved & Ecl & Hsw & HK & Hcv).
        right. exists m, slot. split; [assumption|].
        unfold chosen_slab, chosen_canary. rewrite Ep, Ee.
        split; [reflexivity|].
        split; [rewrite Ecl, Hcv; class_fields; rewrite upd_same; reflexivity|].
        intros Hn. rewrite <- Ecl in HK.
        eexists. eapply checked_canary_written; eassumption.
      * assumption.
      * assert (Hm : ptr_ok (size_class_metadata s class) (Some m)).
        { destruct Hw as (_ & _ & _ & _ & He & _). rewrite Ee in He. exact He. }
        eapply keeps_prepared;
          [apply same_layout_refl | reflexivity | exact Hw | exact Hm | |].
        -- peel; [|apply keeps_set_partial_slabs; intros _ Hi; exact Hi].
           peel; [|apply keeps_md_update; [reflexivity|];
                   intros _ Hi; split; [exact Hi | split; exact I]].
           peel; [|apply keeps_set_empty_slabs_total].
           apply keeps_set_empty_slabs. intros Hw2 _.
           apply (wf_links class _ m Hw2).
        -- eapply same_words_ok; [|exact Hwd]. repeat words_step.
      * reflexivity.
      * apply same_frame_refl.
      * intros c1 _ _. split; [apply keeps_refl | apply same_words_refl].
      * intros c1 slot q1 s1 s2. apply checked_canary_mem.
    + destruct (free_slabs_head c) as [m|] eqn:Ef.
      * (* a slab of the free list *)
        unfold get_random_u64. cbv beta iota zeta.
        remember (md_update (set_rng c (tl (rng c))) m
                    (fun m0 => set_canary_value m0 (wrap (hd 0 (rng c))))) as ca eqn:Eca.
        assert (Hm : ptr_ok c (Some m)).
        { destruct Hw as (_ & _ & _ & _ & _ & Hh & _). rewrite Ef in Hh. exact Hh. }
        assert (Ka : keeps class m c ca).
        { rewrite Eca. peel; [apply keeps_set_rng|].
          apply keeps_md_update; [reflexivity|]. intros Hw2 Hi.
          split; [exact Hi|]. class_fields. apply (wf_links class _ m Hw2). }
        assert (Hwda : words_ok ca).
        { rewrite Eca. apply words_ok_canary; [|apply wrap_range].
          eapply same_words_ok; [|exact Hwd]. intros i. split; reflexivity. }
        pose proof Ka as (Hga & Hba & Hka).
        pose proof (Hka Hw Hm) as Hwa.
        assert (Hma : ptr_ok ca (Some m)) by (eapply ptr_ok_geometry; eassumption).
        assert (Hla : same_layout c ca).
        { destruct Hga as (G1 & G2 & G3 & G4 & _). repeat split; assumption. }
        unfold bindM at 1, put_class at 1.
        remember (set_classes s (upd (size_class_metadata s) class ca)) as s1 eqn:Es1.
        unfold bindM at 1.
        assert (Hmp : exists r s2,
          (if negb (n =? 0)
           then memory_protect_rw (get_slab ca (class_slab_size class) m)
                  (class_slab_size class)
           else ret 0) s1 = Done (r, s2) /\
          size_class_metadata s2 = upd (size_class_metadata s) class ca /\
          same_frame s s2).
        { destruct (negb (n =? 0)).
          - eexists. eexists. split; [reflexivity|]. rewrite Es1. state_fields.
            split; [reflexivity | repeat split].
          - eexists. eexists. split; [reflexivity|]. rewrite Es1. state_fields.
            split; [reflexivity | repeat split]. }
        destruct Hmp as (r & s2 & -> & Hc2 & Hf2).
        destruct (negb (r =? 0)).
        -- intros [= <- <-]. left. split; [reflexivity|].
           unfold unserved. rewrite Hc2, upd_same, <- Ec.
           split; [exact Hba|]. split; [exact Hla|]. split; [exact Hwa|].
           split; [exact Hwda|]. split; [|exact Hf2].
           intros k Hk. rewrite upd_other by assumption. reflexivity.
        -- intros H.
           eapply (serve_tail cfg class m _ s s2 (fun c1 => c1)) in H.
           ++ destruct H as (slot & c1 & Hserved & Ecl & Hsw & HK & Hcv).
              right. exists m, slot. split; [assumption|].
              unfold chosen_slab, chosen_canary. rewrite Ep, Ee, Ef.
              split; [reflexivity|].
              split.
              { rewrite Ecl, Hcv. class_fields. rewrite upd_same. class_fields.
                match goal with
                | |- context [match ?o with Some _ => _ | None => _ end] => destruct o
                end; class_fields; rewrite Eca; class_fields; rewrite upd_same;
                  reflexivity. }
              intros Hn. rewrite <- Ecl in HK.
              eexists. eapply plain_canary_written; eassumption.
           ++ assumption.
           ++ rewrite <- Ec.
              eapply keeps_prepared;
                [exact Hla | exact Hba | exact Hwa | exact Hma | |].
              ** peel; [|apply keeps_set_partial_slabs; intros _ Hi; exact Hi].
                 peel; [|apply keeps_md_update; [reflexivity|];
                         intros _ Hi; split; [exact Hi | split; exact I]].
                 remember (set_free_slabs_head ca (next (slab_info ca m))) as cb eqn:Ecb.
                 assert (Kb : keeps class m ca cb).
                 { rewrite Ecb. apply keeps_set_free_slabs_head. intros Hw2 _.
                   apply (wf_links class _ m Hw2). }
                 destruct (free_slabs_head cb); [exact Kb|].
                 eapply keeps_trans; [exact Kb|].
                 apply keeps_set_free_slabs_tail. intros _ _. exact I.
              ** eapply same_words_ok; [|exact Hwda].
                 do 2 words_step.
                 match goal with
                 | |- same_words _ (match ?o with Some _ => _ | None => _ end) =>
                     destruct o
                 end; repeat words_step.
           ++ intros k Hk. rewrite Hc2. apply upd_other. assumption.
           ++ exact Hf2.
           ++ intros c1 _ _. split; [apply keeps_refl | apply same_words_refl].
           ++ intros c1 slot q1 s3 s4. apply plain_canary_mem.
      * (* a new slab *)
        unfold bindM at 1.
        destruct (alloc_metadata cfg class (class_slab_size class) (negb (n =? 0)) s)
          as [[found s1]| | |] eqn:Ea; try discriminate.
        assert (Hws : metadata_wf class (size_class_metadata s class))
          by (rewrite <- Ec; exact Hw).
        destruct (alloc_metadata_done cfg class _ s found s1 Hclass Hws Ea)
          as (c' & Ec' & Ho & Hf & Hmem & Hg & Het & Hw' & Hfound).
        rewrite <- Ec in Hg, Het, Hfound.
        pose proof Hg as (G1 & G2 & G3 & G4 & G5 & G6 & G7 & G8 & G9 & G10 & G11 & G12).
        assert (Hl' : same_layout c c') by (repeat split; assumption).
        assert (Hb' : forall i, bitmap (slab_info c' i) = bitmap (slab_info c i))
          by (intros i; rewrite G5; reflexivity).
        assert (Hwd' : words_ok c') by (intros i; rewrite G5; apply Hwd).
        destruct found as [m|].
        -- destruct Hfound as (Em & Hm' & Hcnt).
           unfold get_class at 1, bindM at 1. rewrite Ec'.
           unfold get_random_u64. cbv beta iota zeta.
           intros H.
           eapply (serve_tail cfg class m _ s s1 (fun c1 => c1)) in H.
           ++ destruct H as (slot & c1 & Hserved & Ecl & Hsw & HK & Hcv).
              right. exists m, slot. split; [assumption|].
              unfold chosen_slab, chosen_canary. rewrite Ep, Ee, Ef.
              split; [exact Em|].
              split.
              { rewrite Ecl, Hcv. class_fields. rewrite upd_same. class_fields.
                rewrite G10. reflexivity. }
              intros Hn. rewrite <- Ecl in HK.
              eexists. eapply plain_canary_written; eassumption.
           ++ assumption.
           ++ rewrite <- Ec.
              eapply keeps_prepared;
                [exact Hl' | exact Hb' | exact Hw' | exact Hm' | |].
              ** peel; [|apply keeps_set_partial_slabs; intros _ Hi; exact Hi].
                 peel; [apply keeps_set_rng|].
                 apply keeps_md_update; [reflexivity|]. intros Hw2 Hi.
                 split; [exact Hi|]. class_fields. apply (wf_links class _ m Hw2).
              ** eapply same_words_ok with
                   (c := md_update (set_rng c' (tl (rng c'))) m
                           (fun md => set_canary_value md
                                        (Z.land (wrap (hd 0 (rng c'))) (canary_mask cfg))));
                   [intros i; split; reflexivity|].
                 apply words_ok_canary; [|apply land_range; apply wrap_range].
                 eapply same_words_ok; [|exact Hwd']. intros i. split; reflexivity.
           ++ exact Ho.
           ++ exact Hf.
           ++ intros c1 _ _. split; [apply keeps_refl | apply same_words_refl].
           ++ intros c1 slot q1 s3 s4. apply plain_canary_mem.
        -- intros [= <- <-]. left. split; [reflexivity|].
           unfold unserved. rewrite Ec', <- Ec.
           split; [exact Hb'|]. split; [exact Hl'|]. split; [exact Hw'|].
           split; [exact Hwd'|]. split; [exact Ho | exact Hf].
Qed.

(** *** Where a slot lies *)

(** The address of the slot [slot] of the slab [m] of a class, and what
    [deallocate_small] derives from it. *)
Lemma slot_address s class m slot :
  state_wf s -> 0 <= class < N_SIZE_CLASSES ->
  0 <= m < metadata_allocated (size_class_metadata s class) ->
  0 <= slot < class_slots class ->
  forall q,
  q = slot_pointer (slot_size class)
        (get_slab (size_class_metadata s class) (class_slab_size class) m) slot ->
  q = class_region_start (size_class_metadata s class)
      + m * class_slab_size class + slot * slot_size class /\
  slab_region_start s <= q < slab_region_end s /\
  free_class s q = class /\ slab_index s q = m /\ slot_index s q = slot.
Proof.
  intros (Hinit & Hstart & Hend & H64 & Hcls) Hclass Hm Hslot q Hq.
  destruct (Hcls class Hclass) as [((gap & Hgap & Hcs) & Hsd & Hssd) Hw].
  destruct Hw as ((_ & Hmax) & _).
  destruct (class_table class Hclass) as (Hsize & _ & Hslots & Hfit & Hslab & _ & _).
  pose proof (metadata_max_fits class m Hclass ltac:(lia)) as Hmf.
  remember (size_class_metadata s class) as c eqn:Ec.
  remember (class_slab_size class) as slab eqn:Eslab.
  remember (slot_size class) as size eqn:Esize.
  remember (m * slab) as ms eqn:Ems.
  remember (slot * size) as ss eqn:Ess.
  assert (Hms : 0 <= ms) by (rewrite Ems; apply Z.mul_nonneg_nonneg; lia).
  assert (Hss : 0 <= ss /\ ss + size <= slab).
  { split; [rewrite Ess; apply Z.mul_nonneg_nonneg; lia|].
    assert (H : (slot + 1) * size <= class_slots class * size)
      by (apply Z.mul_le_mono_nonneg_r; lia).
    lia. }
  assert (HN : N_SIZE_CLASSES = 37) by reflexivity.
  unfold slab_region_size, real_class_region_size, class_region_size, PAGE_SIZE
    in Hgap, Hmf, Hend, Hcs.
  rewrite HN in Hend, Hclass.
  assert (Hqv : q = class_region_start c + ms + ss).
  { rewrite Hq. unfold slot_pointer, get_slab. rewrite <- Ems, <- Ess.
    rewrite (wrap_small ms) by lia. rewrite (wrap_small ss) by lia.
    rewrite (wrap_small (class_region_start c + ms)) by lia.
    apply wrap_small. lia. }
  assert (Hslabv : get_slab c slab m = class_region_start c + ms).
  { unfold get_slab. rewrite <- Ems. rewrite (wrap_small ms) by lia.
    apply wrap_small. lia. }
  split; [rewrite Hqv, Ems, Ess; reflexivity|].
  split; [lia|].
  assert (Hclassv : free_class s q = class).
  { rewrite (wrap_small (q - slab_region_start s)) by lia.
    symmetry. apply (Z.div_unique_pos _ _ class (gap + ms + ss));
      unfold real_class_region_size, class_region_size; lia. }
  split; [exact Hclassv|].
  rewrite Hclassv, <- Ec, <- Esize, <- Eslab.
  assert (Hidx : libdivide_u64_do (wrap (q - class_region_start c)) (slab_size_divisor c) = m).
  { unfold libdivide_u64_do. rewrite Hssd.
    rewrite (wrap_small (q - class_region_start c)) by lia.
    symmetry. apply (Z.div_unique_pos _ _ m ss); lia. }
  split; [exact Hidx|].
  rewrite Hidx, Hslabv. unfold libdivide_u32_do. rewrite Hsd.
  rewrite (wrap_small (q - (class_region_start c + ms))) by lia.
  replace (q - (class_region_start c + ms)) with ss by lia.
  rewrite Z.mod_small by lia.
  symmetry. apply (Z.div_unique_pos _ _ slot 0); lia.
Qed.

(** The invariant after a call that has served or has not served. *)
Lemma frame_heap_ok class s s' :
  0 <= class < N_SIZE_CLASSES -> heap_ok s ->
  same_layout (size_class_metadata s class) (size_class_metadata s' class) ->
  metadata_wf class (size_class_metadata s' class) ->
  words_ok (size_class_metadata s' class) ->
  (forall k, k <> class -> size_class_metadata s' k = size_class_metadata s k) ->
  same_frame s s' ->
  heap_ok s'.
Proof.
  intros Hclass [(Hinit & Hstart & Hend & H64 & Hcls) Hwords]
         (L1 & L2 & L3 & L4) Hw Hwd Ho (F1 & F2 & F3 & F4 & F5).
  split; [split; [congruence|]; split; [lia|]; split; [congruence|]; split; [lia|]|].
  - intros k Hk. destruct (Z.eq_dec k class) as [->|Hne].
    + split; [|assumption].
      destruct (Hcls class Hclass) as [((gap & Hgap & Hcs) & Hsd & Hssd) _].
      unfold class_geometry. cbv zeta. rewrite L1, L3, L4, F1.
      split; [exists gap; split; assumption | split; assumption].
    + unfold class_geometry. rewrite (Ho k Hne), F1. apply Hcls. assumption.
  - intros k Hk. destruct (Z.eq_dec k class) as [->|Hne].
    + split; [assumption|]. rewrite L1. apply Hwords. assumption.
    + rewrite (Ho k Hne). apply Hwords. assumption.
Qed.

Lemma served_heap_ok class s s' m slot q :
  0 <= class < N_SIZE_CLASSES -> heap_ok s -> served class s s' m slot q -> heap_ok s'.
Proof.
  intros Hclass Hok (_ & _ & Hl & Hw & Hwd & Ho & Hf).
  eapply frame_heap_ok; eassumption.
Qed.

Lemma unserved_heap_ok class s s' :
  0 <= class < N_SIZE_CLASSES -> heap_ok s -> unserved class s s' -> heap_ok s'.
Proof.
  intros Hclass Hok (_ & Hl & Hw & Hwd & Ho & Hf).
  eapply frame_heap_ok; eassumption.
Qed.

(** *** The canary in memory *)

Lemma u64_bytes_round_trip cfg v :
  0 <= v < 2 ^ 64 -> u64_of_bytes cfg (bytes_of_u64 cfg v) = v.
Proof.
  intros Hv. unfold u64_of_bytes, bytes_of_u64. cbv zeta.
  assert (E : (if LITTLE_ENDIAN cfg
               then if LITTLE_ENDIAN cfg
                    then map (fun i => Z.land (Z.shiftr v (8 * i)) 255) [0; 1; 2; 3; 4; 5; 6; 7]
                    else rev (map (fun i => Z.land (Z.shiftr v (8 * i)) 255)
                                [0; 1; 2; 3; 4; 5; 6; 7])
               else rev (if LITTLE_ENDIAN cfg
                         then map (fun i => Z.land (Z.shiftr v (8 * i)) 255)
                                [0; 1; 2; 3; 4; 5; 6; 7]
                         else rev (map (fun i => Z.land (Z.shiftr v (8 * i)) 255)
                                     [0; 1; 2; 3; 4; 5; 6; 7])))
              = map (fun i => Z.land (Z.shiftr v (8 * i)) 255) [0; 1; 2; 3; 4; 5; 6; 7]).
  { destruct (LITTLE_ENDIAN cfg); [reflexivity | apply rev_involutive]. }
  rewrite E. cbn [map u64_of_le].
  change 255 with (Z.ones 8). rewrite !Z.land_ones by lia.
  rewrite !Z.shiftr_div_pow2 by lia.
  change (8 * 0) with 0. change (2 ^ 0) with 1. rewrite Z.div_1_r.
  change (2 ^ 8) with 256.
  change (2 ^ (8 * 1)) with 256.
  change (2 ^ (8 * 2)) with (256 * 256).
  change (2 ^ (8 * 3)) with (256 * 256 * 256).
  change (2 ^ (8 * 4)) with (256 * 256 * 256 * 256).
  change (2 ^ (8 * 5)) with (256 * 256 * 256 * 256 * 256).
  change (2 ^ (8 * 6)) with (256 * 256 * 256 * 256 * 256 * 256).
  change (2 ^ (8 * 7)) with (256 * 256 * 256 * 256 * 256 * 256 * 256).
  rewrite <- !Z.div_div by lia.
  remember (v / 256) as v1 eqn:E1.
  remember (v1 / 256) as v2 eqn:E2.
  remember (v2 / 256) as v3 eqn:E3.
  remember (v3 / 256) as v4 eqn:E4.
  remember (v4 / 256) as v5 eqn:E5.
  remember (v5 / 256) as v6 eqn:E6.
  remember (v6 / 256) as v7 eqn:E7.
  pose proof (Z.div_mod v 256 ltac:(lia)) as D0.
  pose proof (Z.div_mod v1 256 ltac:(lia)) as D1.
  pose proof (Z.div_mod v2 256 ltac:(lia)) as D2.
  pose proof (Z.div_mod v3 256 ltac:(lia)) as D3.
  pose proof (Z.div_mod v4 256 ltac:(lia)) as D4.
  pose proof (Z.div_mod v5 256 ltac:(lia)) as D5.
  pose proof (Z.div_mod v6 256 ltac:(lia)) as D6.
  assert (H7 : v7 mod 256 = v7).
  { apply Z.mod_small. change (2 ^ 64) with (256 * 256 * 256 * 256 * 256 * 256 * 256 * 256) in Hv.
    subst. repeat (rewrite Z.div_div by lia).
    split; [apply Z.div_pos; lia | apply Z.div_lt_upper_bound; lia]. }
  rewrite H7. lia.
Qed.

Lemma store_bytes_below l : forall m a x, x < a -> store_bytes m a l x = m x.
Proof.
  induction l as [|b l IH]; intros m a x Hx; cbn [store_bytes]; [reflexivity|].
  rewrite IH by lia. unfold upd. destruct (Z.eqb_spec x a); [lia | reflexivity].
Qed.

Lemma load_store_bytes l : forall m a,
  load_bytes (store_bytes m a l) a (List.length l) = l.
Proof.
  induction l as [|b l IH]; intros m a; cbn [store_bytes load_bytes List.length];
    [reflexivity|].
  rewrite IH. rewrite store_bytes_below by lia. unfold upd. rewrite Z.eqb_refl. reflexivity.
Qed.

Lemma load_bytes_ext n : forall m m' a,
  (forall x, a <= x -> m' x = m x) -> load_bytes m' a n = load_bytes m a n.
Proof.
  induction n as [|n IH]; intros m m' a H; cbn [load_bytes]; [reflexivity|].
  rewrite H by lia. rewrite (IH m m' (a + 1)); [reflexivity|].
  intros x Hx. apply H. lia.
Qed.

(** The check of the canary passes on the bytes a path of
    [allocate_small] has written, also once the chunk has been zeroed. *)
Lemma canary_check_passes cfg class s q v (zeroed : bool) :
  0 <= v < 2 ^ 64 ->
  (exists mem0,
     mem s = store_bytes mem0 (q + slot_size class - canary_size cfg)
               (firstn (Z.to_nat (canary_size cfg)) (bytes_of_u64 cfg v))) ->
  canary_size cfg <> 0 ->
  u64_of_bytes cfg
    (load_bytes (if zeroed then memset (mem s) q 0 (slot_size class - canary_size cfg)
                 else mem s)
       (q + slot_size class - canary_size cfg) (Z.to_nat (canary_size cfg))) = v.
Proof.
  intros Hv (mem0 & Hmem) Hcs.
  assert (E8 : canary_size cfg = 8).
  { unfold canary_size in *. destruct (SLAB_CANARY cfg); [reflexivity | contradiction]. }
  rewrite E8 in *.
  assert (Hl : firstn (Z.to_nat 8) (bytes_of_u64 cfg v) = bytes_of_u64 cfg v).
  { unfold bytes_of_u64. cbv zeta. destruct (LITTLE_ENDIAN cfg); reflexivity. }
  rewrite Hl in Hmem.
  assert (Hlen : Z.to_nat 8 = List.length (bytes_of_u64 cfg v)).
  { unfold bytes_of_u64. cbv zeta. destruct (LITTLE_ENDIAN cfg); reflexivity. }
  rewrite (load_bytes_ext _ (mem s)).
  - rewrite Hmem, Hlen, load_store_bytes. apply u64_bytes_round_trip. assumption.
  - intros x Hx. destruct zeroed; [|reflexivity]. unfold memset.
    destruct (Z.leb_spec q x), (Z.ltb_spec x (q + (slot_size class - 8)));
      cbn [andb]; try reflexivity. lia.
Qed.

(** *** [release_slot] on a chunk a path has served *)

Lemma words_ok_cleared c idx slot : words_ok c -> words_ok (cleared c idx slot).
Proof.
  intros Hwords i. unfold cleared, md_update. class_fields.
  destruct (Z.eq_dec i idx) as [->|Hne].
  - rewrite upd_same. class_fields. destruct (Hwords idx) as [Hb Hc].
    split; [apply land_range; assumption | assumption].
  - rewrite upd_other by assumption. apply Hwords.
Qed.

(** The words stay in range, and the PRNG of the region table is not
    drawn from. *)
Lemma release_slot_words cfg class c idx slot q s s' :
  words_ok c ->
  release_slot cfg class c idx slot q s = Done (tt, s') ->
  words_ok (size_class_metadata s' class) /\ regions_rng s' = regions_rng s.
Proof.
  intros Hwords. unfold release_slot.
  remember (if negb (has_free_slots (class_slots class) (slab_info c idx))
            then push_partial c idx else c) as c1 eqn:E1.
  assert (W1 : words_ok c1).
  { subst c1. destruct (negb _); [|assumption].
    eapply same_words_ok; [apply same_words_push_partial | assumption]. }
  pose proof (words_ok_cleared c1 idx slot W1) as W2.
  remember (cleared c1 idx slot) as c2 eqn:E2.
  pose proof (same_words_ok _ _ (same_words_unlink_partial c2 idx) W2) as W3.
  unfold bindM at 1.
  match goal with
  | |- match ?scrub s with _ => _ end = _ -> _ =>
      assert (Hscrub : forall sm, scrub s = Done (tt, sm) -> same_but_mem s sm);
      [|destruct (scrub s) as [[[] sm]| | |] eqn:Es; try discriminate;
        specialize (Hscrub sm eq_refl)]
  end.
  { intros sm. unfold bindM, ret.
    destruct (negb (class_size class =? 0)).
    - destruct (ZERO_ON_FREE cfg); destruct (negb (canary_size cfg =? 0));
        try (destruct (negb (_ =? _)); try discriminate);
        intros [= <-]; destruct s; reflexivity.
    - intros [= <-]. destruct s; reflexivity. }
  assert (Hsm : regions_rng sm = regions_rng s) by (rewrite Hscrub; reflexivity).
  destruct (is_free_slab (slab_info c2 idx)).
  - unfold bindM, memory_map_fixed, os, ret, put_class.
    remember (unlink_partial c2 idx) as c3 eqn:E3.
    destruct (wrap (empty_slabs_total c3 + class_slab_size class) >? max_empty_slabs_total).
    + unfold bindM. destruct (hd 0 (os_next sm) =? 0) eqn:Er; rewrite ?Er.
      * intros [= <-]. state_fields. rewrite upd_same. split; [|assumption].
        eapply same_words_ok; [apply same_words_enqueue_free_slab | assumption].
      * intros [= <-]. state_fields. rewrite upd_same. split; [|assumption].
        eapply same_words_ok; [apply same_words_push_empty | assumption].
    + intros [= <-]. state_fields. rewrite upd_same. split; [|assumption].
      eapply same_words_ok; [apply same_words_push_empty | assumption].
  - unfold put_class. intros [= <-]. state_fields. rewrite upd_same.
    split; assumption.
Qed.

(** With the canary of the slab in the last bytes of the chunk,
    [release_slot] runs to its end. *)
Lemma release_slot_passes cfg class c idx slot q s :
  (class_size class <> 0 -> canary_size cfg <> 0 ->
   forall zeroed : bool,
     u64_of_bytes cfg
       (load_bytes (if zeroed then memset (mem s) q 0 (slot_size class - canary_size cfg)
                    else mem s)
          (q + slot_size class - canary_size cfg) (Z.to_nat (canary_size cfg)))
     = canary_value (slab_info c idx)) ->
  exists s', release_slot cfg class c idx slot q s = Done (tt, s').
Proof.
  intros Hcanary. unfold release_slot.
  unfold bindM at 1.
  match goal with
  | |- exists s', match ?scrub s with _ => _ end = _ =>
      assert (Hscrub : exists sm, scrub s = Done (tt, sm))
  end.
  { unfold bindM, ret.
    destruct (Z.eqb_spec (class_size class) 0) as [|Hnz]; cbn [negb];
      [eexists; reflexivity|].
    destruct (Z.eqb_spec (canary_size cfg) 0) as [|Hcs]; cbn [negb].
    - destruct (ZERO_ON_FREE cfg); eexists; reflexivity.
    - destruct (ZERO_ON_FREE cfg).
      + state_fields. rewrite (Hcanary Hnz Hcs true). rewrite Z.eqb_refl. cbn [negb].
        eexists; reflexivity.
      + rewrite (Hcanary Hnz Hcs false). rewrite Z.eqb_refl. cbn [negb].
        eexists; reflexivity. }
  destruct Hscrub as (sm & ->).
  destruct (is_free_slab _).
  - unfold bindM, memory_map_fixed, os, ret, put_class.
    destruct (_ >? max_empty_slabs_total).
    + unfold bindM. destruct (hd 0 (os_next sm) =? 0) eqn:Er; rewrite ?Er;
        eexists; reflexivity.
    + eexists; reflexivity.
  - unfold put_class. eexists; reflexivity.
Qed.

(** *** The calls keep the invariant *)

(** A call that leaves the classes and the bounds of the slab region as
    they are keeps the invariant. *)
Lemma heap_ok_frame s s' :
  heap_ok s ->
  size_class_metadata s' = size_class_metadata s ->
  slab_region_start s' = slab_region_start s ->
  slab_region_end s' = slab_region_end s ->
  initialized s' = initialized s ->
  heap_ok s'.
Proof.
  intros [(Hinit & Hstart & Hend & H64 & Hcls) Hwords] Hc H1 H2 H3.
  split; [split; [congruence|]; split; [lia|]; split; [congruence|]; split; [lia|]|].
  - intros k Hk. unfold class_geometry. rewrite Hc, H1. apply Hcls. assumption.
  - intros k Hk. rewrite Hc. apply Hwords. assumption.
Qed.

Lemma free_class_range s q :
  state_wf s -> slab_region_start s <= q < slab_region_end s ->
  0 <= free_class s q < N_SIZE_CLASSES.
Proof.
  intros (_ & Hstart & Hend & H64 & _) Hq.
  rewrite (wrap_small (q - slab_region_start s)) by lia.
  unfold slab_region_size in Hend.
  assert (HR : 0 < real_class_region_size) by reflexivity.
  split; [apply Z.div_pos; lia|].
  apply Z.div_lt_upper_bound; lia.
Qed.

Lemma deallocate_small_keeps cfg s q e s' :
  heap_ok s -> slab_region_start s <= q < slab_region_end s ->
  deallocate_small cfg q e s = Done (tt, s') ->
  heap_ok s'.
Proof.
  intros Hok Hq Hd. pose proof Hok as [Hwf Hwords].
  pose proof (free_class_range s q Hwf Hq) as Hclass.
  destruct (deallocate_small_done_checks cfg s q e s' Hd) as (He & Hlt & Hp & Hg).
  rewrite (deallocate_small_unchecked cfg s q e He Hlt Hp Hg) in Hd.
  pose proof Hwf as (_ & _ & _ & _ & Hcls).
  destruct (Hcls _ Hclass) as [(_ & Hsd & Hssd) Hw].
  destruct (class_table _ Hclass) as (Hsize & _ & _ & _ & Hslab & _).
  assert (Hs : 0 <= slot_index s q < 64).
  { split; [apply libdivide_u32_nonneg; rewrite Hsd; lia|].
    unfold get_slot in Hg. destruct (check_index _) eqn:Ec; try discriminate.
    eapply check_index_done. eassumption. }
  assert (Hidx : 0 <= slab_index s q).
  { unfold libdivide_u64_do. apply div_nonneg; [apply wrap_range | rewrite Hssd; lia]. }
  assert (Hm : ptr_ok (size_class_metadata s (free_class s q)) (Some (slab_index s q))).
  { eapply wf_in_use; [eassumption | lia |].
    eapply get_slot_true_nonzero. eassumption. }
  destruct (release_slot_words cfg _ _ _ _ q s s' (proj1 (Hwords _ Hclass)) Hd)
    as [Hwd' Hrng].
  destruct (release_slot_done cfg _ _ _ _ q s s' Hs Hd)
    as (c' & Hc' & H1 & H2 & H3 & H4 & (G1 & G2 & G3 & G4 & _) & _ & _ & Hw').
  eapply (frame_heap_ok (free_class s q)); try eassumption.
  - rewrite Hc', upd_same. repeat split; assumption.
  - rewrite Hc', upd_same. apply Hw'; assumption.
  - intros k Hk. rewrite Hc'. apply upd_other. assumption.
  - repeat split; assumption.
Qed.

(** *** What [init] sets up *)

Lemma init_class_done class s s' :
  0 <= class < N_SIZE_CLASSES ->
  0 < slab_region_start s ->
  slab_region_start s + slab_region_size < 2 ^ 64 ->
  slab_region_start s mod PAGE_SIZE = 0 ->
  fresh_class (size_class_metadata s class) ->
  init_class class s = Done (tt, s') ->
  class_ready s' class /\
  (forall k, k <> class -> size_class_metadata s' k = size_class_metadata s k) /\
  slab_region_start s' = slab_region_start s /\
  slab_region_end s' = slab_region_end s /\
  initialized s' = initialized s.
Proof.
  intros Hclass Hstart Hfit Hal (F1 & F2 & F3 & F4 & F5).
  destruct (class_table class Hclass) as (Hsize & _ & Hslots & Hfits & Hslab & Hpage & Hmax).
  unfold init_class, random_state_init, get_state, modify, allocate_pages, os,
    memory_protect_rw, os, get_class, put_class, fatal_error, get_random_u64_uniform.
  unfold bindM, ret. cbv beta iota zeta.
  assert (EB : wrap (wrap (real_class_region_size - class_region_size) / PAGE_SIZE - 1)
               = 33554431) by reflexivity.
  rewrite EB. change (33554431 =? 0) with false. cbv iota.
  pose proof (Z.mod_pos_bound (hd 0 (regions_rng s)) 33554431 ltac:(lia)) as Hu.
  assert (HN : N_SIZE_CLASSES = 37) by reflexivity.
  assert (Estart :
    wrap (wrap (slab_region_start s + wrap (real_class_region_size * class))
          + wrap (wrap (hd 0 (regions_rng s) mod 33554431 + 1) * PAGE_SIZE))
    = slab_region_start s + real_class_region_size * class
      + (hd 0 (regions_rng s) mod 33554431 + 1) * PAGE_SIZE).
  { remember (hd 0 (regions_rng s) mod 33554431) as u eqn:Eu.
    unfold slab_region_size, real_class_region_size, class_region_size, PAGE_SIZE in *.
    rewrite HN in *.
    rewrite (wrap_small (u + 1)) by lia.
    rewrite (wrap_small ((u + 1) * 4096)) by lia.
    rewrite (wrap_small (128 * 1024 * 1024 * 1024 * 2 * class)) by lia.
    rewrite (wrap_small (slab_region_start s + _)) by lia.
    apply wrap_small. lia. }
  cbn [os_next os_log regions_rng seeds slab_region_start set_os set_regions_rng set_seeds].
  rewrite Estart.
  remember (slab_region_start s + real_class_region_size * class
            + (hd 0 (regions_rng s) mod 33554431 + 1) * PAGE_SIZE) as cstart eqn:Ecs.
  remember (hd 0 (regions_rng s) mod 33554431) as u eqn:Eu.
  destruct (hd 0 (os_next s) =? 0) eqn:Ea; cbv beta iota; rewrite ?Ea; [discriminate|].
  cbn [os_next set_os set_regions_rng set_seeds set_classes set_mem hd tl].
  destruct (negb (hd 0 (tl (os_next s)) =? 0)); [discriminate|].
  intros [= <-].
  cbn [size_class_metadata slab_region_start slab_region_end initialized
       set_os set_regions_rng set_seeds set_classes set_mem].
  split; [|split; [|repeat split]].
  - unfold class_ready, class_geometry.
    cbn [size_class_metadata slab_region_start set_os set_classes set_mem
         set_regions_rng set_seeds].
    rewrite upd_same.
    cbn [class_region_start size_divisor slab_size_divisor].
    split; [|split; [|split]].
    + split; [|split; reflexivity].
      exists ((u + 1) * PAGE_SIZE). split; [|exact Ecs].
      unfold class_region_size, PAGE_SIZE. lia.
    + unfold metadata_wf, untouched_zero, ptr_ok. class_fields.
      rewrite F1, F2, F3, F4, F5.
      change (PAGE_SIZE / sizeof_slab_metadata) with 128.
      repeat split; try exact I; try lia.
    + intros i. class_fields. cbn [zero_metadata bitmap canary_value]. lia.
    + rewrite Ecs. unfold real_class_region_size, class_region_size, PAGE_SIZE in *.
      apply Z.mod_divide in Hal; [|lia]. destruct Hal as [k Hk]. rewrite Hk.
      replace (k * 4096 + 128 * 1024 * 1024 * 1024 * 2 * class + (u + 1) * 4096)
        with ((k + 67108864 * class + u + 1) * 4096) by lia.
      apply Z.mod_mul. lia.
  - intros k Hk. apply upd_other. assumption.
Qed.

Lemma class_ready_frame s s' k :
  size_class_metadata s' k = size_class_metadata s k ->
  slab_region_start s' = slab_region_start s ->
  class_ready s k -> class_ready s' k.
Proof.
  intros Hc Hs. unfold class_ready, class_geometry. rewrite Hc, Hs. tauto.
Qed.

Lemma init_classes_done n : forall class s s',
  0 <= class -> class + Z.of_nat n <= N_SIZE_CLASSES ->
  0 < slab_region_start s ->
  slab_region_start s + slab_region_size < 2 ^ 64 ->
  slab_region_start s mod PAGE_SIZE = 0 ->
  (forall k, class <= k < class + Z.of_nat n -> fresh_class (size_class_metadata s k)) ->
  (forall k, 0 <= k < class -> class_ready s k) ->
  init_classes n class s = Done (tt, s') ->
  (forall k, 0 <= k < class + Z.of_nat n -> class_ready s' k) /\
  slab_region_start s' = slab_region_start s /\
  slab_region_end s' = slab_region_end s /\
  initialized s' = initialized s.
Proof.
  induction n as [|n IH]; intros class s s' Hclass Hn Hstart Hfit Hal Hfresh Hready.
  - cbn [init_classes]. unfold ret. intros [= <-].
    split; [|repeat split]. intros k Hk. apply Hready. lia.
  - cbn [init_classes]. unfold bindM at 1.
    destruct (init_class class s) as [[[] s1]| | |] eqn:E1; try discriminate.
    destruct (init_class_done class s s1 ltac:(lia) Hstart Hfit Hal
                (Hfresh class ltac:(lia)) E1) as (R1 & O1 & S1 & S2 & S3).
    intros E2.
    destruct (IH (class + 1) s1 s' ltac:(lia) ltac:(lia)
                ltac:(rewrite S1; assumption) ltac:(rewrite S1; assumption)
                ltac:(rewrite S1; assumption)) as (R2 & T1 & T2 & T3).
    + intros k Hk. rewrite O1 by lia. apply Hfresh. lia.
    + intros k Hk. destruct (Z.eq_dec k class) as [->|Hne]; [assumption|].
      apply (class_ready_frame s s1); [apply O1; assumption | assumption |].
      apply Hready. lia.
    + assumption.
    + split; [|repeat split; congruence].
      intros k Hk. apply R2. lia.
Qed.

Lemma init_class_frame class s s' :
  init_class class s = Done (tt, s') ->
  slab_region_start s' = slab_region_start s /\
  slab_region_end s' = slab_region_end s /\
  initialized s' = initialized s.
Proof.
  unfold init_class, random_state_init, get_state, modify, allocate_pages, os,
    memory_protect_rw, os, get_class, put_class, fatal_error, get_random_u64_uniform.
  unfold bindM, ret. cbv beta iota zeta.
  cbn [os_next set_os set_regions_rng set_seeds hd tl].
  destruct (hd 0 (os_next s) =? 0) eqn:Ea; cbv beta iota; rewrite ?Ea; [discriminate|].
  cbn [os_next set_os set_regions_rng set_seeds set_classes set_mem hd tl].
  destruct (negb (hd 0 (tl (os_next s)) =? 0)); [discriminate|].
  intros [= <-]. repeat split.
Qed.

Lemma init_classes_frame n : forall class s s',
  init_classes n class s = Done (tt, s') ->
  slab_region_start s' = slab_region_start s /\
  slab_region_end s' = slab_region_end s /\
  initialized s' = initialized s.
Proof.
  induction n as [|n IH]; intros class s s'; cbn [init_classes].
  - unfold ret. intros [= <-]. repeat split.
  - unfold bindM at 1.
    destruct (init_class class s) as [[[] s1]| | |] eqn:E1; try discriminate.
    destruct (init_class_frame class s s1 E1) as (A1 & A2 & A3).
    intros E2. destruct (IH _ _ _ E2) as (B1 & B2 & B3).
    repeat split; congruence.
Qed.

Lemma init_heap_ok_facts s s' :
  initialized s = false ->
  (forall k, 0 <= k < N_SIZE_CLASSES -> fresh_class (size_class_metadata s k)) ->
  init s = Done (tt, s') ->
  0 <= slab_region_start s' ->
  slab_region_start s' + slab_region_size < 2 ^ 64 ->
  slab_region_start s' mod PAGE_SIZE = 0 ->
  heap_ok s'.
Proof.
  intros Hinit Hfresh.
  unfold init, init_slow_path, is_init, random_state_init, get_state, modify,
    allocate_pages, memory_map, memory_protect_rw, memory_protect_ro_root, os,
    fatal_error.
  unfold bindM, ret. cbv beta iota zeta. rewrite Hinit. cbn [negb].
  cbv beta iota zeta. rewrite Hinit.
  remember (init_classes (Z.to_nat N_SIZE_CLASSES) 0) as IC eqn:EIC.
  destruct (negb (hd 0 (os_next s) =? PAGE_SIZE)); [discriminate|].
  cbv beta.
  cbn [os_next os_log seeds rtable set_regions_rng set_seeds set_os hd tl].
  destruct (hd 0 (tl (os_next s)) =? 0) eqn:E0; cbv beta iota; rewrite ?E0;
    [discriminate|].
  cbn [os_next os_log seeds rtable set_regions_rng set_seeds set_os set_mem hd tl].
  destruct (hd 0 (tl (tl (os_next s))) =? 0) eqn:E1; cbv beta iota; rewrite ?E1;
    [discriminate|].
  cbn [os_next os_log seeds rtable set_regions_rng set_seeds set_os set_mem
       set_ro_regions set_regions hd tl].
  destruct (negb (hd 0 (tl (tl (tl (os_next s)))) =? 0)); [discriminate|].
  cbv beta.
  cbn [os_next os_log seeds rtable set_regions_rng set_seeds set_os set_mem
       set_ro_regions set_regions hd tl].
  destruct (hd 0 (tl (tl (tl (tl (os_next s))))) =? 0) eqn:E4; [discriminate|].
  cbv beta.
  match goal with
  | |- match IC ?x with _ => _ end = _ -> _ => remember x as s5 eqn:E5
  end.
  assert (H5 : size_class_metadata s5 = size_class_metadata s /\
               slab_region_start s5 = hd 0 (tl (tl (tl (tl (os_next s))))) /\
               slab_region_end s5
               = wrap (hd 0 (tl (tl (tl (tl (os_next s))))) + slab_region_size))
    by (rewrite E5; repeat split).
  destruct H5 as (C5 & S5 & T5). clear E5.
  destruct (IC s5) as [[[] s6]| | |] eqn:E6; try discriminate.
  cbn [os_next os_log set_os set_initialized hd tl].
  destruct (negb (hd 0 (os_next s6) =? 0)); [discriminate|]. cbv beta.
  cbn [os_next os_log set_os set_initialized hd tl].
  destruct (negb (hd 0 (tl (os_next s6)) =? 0)); [discriminate|].
  intros [= <-].
  cbn [slab_region_start slab_region_end initialized size_class_metadata
       set_os set_initialized].
  intros Hnn Hfit Hal. rewrite EIC in E6.
  assert (HN : Z.of_nat (Z.to_nat N_SIZE_CLASSES) = N_SIZE_CLASSES) by reflexivity.
  destruct (init_classes_frame _ _ _ _ E6) as (S6 & T6 & I6).
  rewrite S6 in Hnn, Hfit, Hal.
  assert (Hpos : 0 < slab_region_start s5).
  { rewrite S5 in *. destruct (Z.eqb_spec (hd 0 (tl (tl (tl (tl (os_next s)))))) 0);
      [discriminate | lia]. }
  destruct (init_classes_done (Z.to_nat N_SIZE_CLASSES) 0 s5 s6) as (R6 & _);
    try assumption; try lia.
  { intros k Hk. rewrite C5. apply Hfresh. lia. }
  assert (Hend : slab_region_end s6 = slab_region_start s5 + slab_region_size).
  { rewrite T6, T5, <- S5. apply wrap_small.
    unfold slab_region_size, real_class_region_size, class_region_size in *.
    change N_SIZE_CLASSES with 37 in *. lia. }
  split.
  - split; [reflexivity|].
    cbn [slab_region_start slab_region_end initialized size_class_metadata
         set_os set_initialized].
    split; [lia|]. split; [congruence|]. split; [lia|].
    intros k Hk. destruct (R6 k ltac:(lia)) as (G & W & _).
    split; [|exact W]. unfold class_geometry in *.
    cbn [slab_region_start size_class_metadata set_os set_initialized]. exact G.
  - intros k Hk. destruct (R6 k ltac:(lia)) as (_ & _ & W & A).
    cbn [size_class_metadata set_os set_initialized]. split; assumption.
Qed.

(** X18. [init] on a process that is not initialised, with the classes
    as the program image has them, sets up the invariant of the slab
    engine, provided the slab region it has mapped lies on a page
    boundary and ends below [2 ^ 64]: the region of every class starts
    on a page, at least one page and at most [class_region_size] less a
    page into the stripe of the class; its two divisors are the slot
    size and the slab size of the class; its metadata counts are within
    their limits and none of its lists holds a slab. *)
Theorem init_establishes_heap_ok s s' :
  initialized s = false ->
  (forall k, 0 <= k < N_SIZE_CLASSES -> fresh_class (size_class_metadata s k)) ->
  init s = Done (tt, s') ->
  0 <= slab_region_start s' ->
  slab_region_start s' + slab_region_size < 2 ^ 64 ->
  slab_region_start s' mod PAGE_SIZE = 0 ->
  heap_ok s'.
Proof. apply init_heap_ok_facts. Qed.

Lemma booted_fresh k : fresh_class (size_class_metadata booted k).
Proof. repeat split. Qed.

Lemma ready_region : slab_region_start ready = 2 ^ 44.
Proof. vm_compute. reflexivity. Qed.

Lemma init_booted : init booted = Done (tt, ready).
Proof.
  assert (Hr : returns (init booted) = true) by (vm_compute; reflexivity).
  destruct (returns_done _ Hr) as [[[] s'] E].
  unfold ready. rewrite E. reflexivity.
Qed.

Lemma ready_heap_ok : heap_ok ready.
Proof.
  apply (init_heap_ok_facts booted ready).
  - reflexivity.
  - intros k _. apply booted_fresh.
  - exact init_booted.
  - rewrite ready_region. lia.
  - rewrite ready_region. unfold slab_region_size, real_class_region_size, class_region_size.
    change N_SIZE_CLASSES with 37. lia.
  - rewrite ready_region. reflexivity.
Qed.

Lemma init_establishes_heap_ok_witness : heap_ok ready.
Proof.
  apply (init_establishes_heap_ok booted ready).
  - reflexivity.
  - intros k _. apply booted_fresh.
  - exact init_booted.
  - rewrite ready_region. lia.
  - rewrite ready_region. unfold slab_region_size, real_class_region_size, class_region_size.
    change N_SIZE_CLASSES with 37. lia.
  - rewrite ready_region. reflexivity.
Defined.
(** *** Requests just below the largest class, served *)

(** Below eight pages the bound of the draw is 0, and the guard is one
    page. *)
Lemma drawn_guard_page s size :
  0 <= size < 8 * PAGE_SIZE -> drawn_guard s size = PAGE_SIZE.
Proof.
  intros H. unfold drawn_guard, get_guard_size, get_random_u64_uniform.
  assert (E : size / PAGE_SIZE / 8 = 0).
  { rewrite Z.div_div by (unfold PAGE_SIZE; lia).
    apply Z.div_small. unfold PAGE_SIZE in *. lia. }
  rewrite E. reflexivity.
Qed.

Lemma near_max_adjusted cfg n :
  SLAB_CANARY cfg = true -> 16384 - 8 < n <= 16384 ->
  adjust_size_for_canaries cfg n = n + 8.
Proof.
  intros Hcanary Hn.
  unfold adjust_size_for_canaries, canary_size, max_slab_size_class.
  rewrite Hcanary.
  destruct (Z.ltb_spec 0 n); [|lia]. destruct (Z.leb_spec n 16384); [|lia].
  cbn [andb]. apply wrap_small. lia.
Qed.



(** *** Pointers outside the slab region *)

Lemma in_slab_region_outside q s :
  q < slab_region_start s \/ slab_region_end s <= q ->
  in_slab_region q s = Done (false, s).
Proof.
  intros H. unfold in_slab_region.
  destruct (Z.leb_spec (slab_region_start s) q), (Z.ltb_spec q (slab_region_end s));
    try reflexivity; lia.
Qed.

Lemma enforce_init_done s : initialized s = true -> enforce_init s = Done (tt, s).
Proof. intros H. unfold enforce_init, bindM, is_init, ret. rewrite H. reflexivity. Qed.

Lemma enforce_init_fatal s :
  initialized s = false ->
  enforce_init s = Fatal "invalid uninitialized allocator usage".
Proof. intros H. unfold enforce_init, bindM, is_init, fatal_error. rewrite H. reflexivity. Qed.

Lemma regions_find_lift q s o :
  Regions.regions_find (rtable s) q = Done o -> regions_find q s = Done (o, s).
Proof. intros H. unfold regions_find, lift. rewrite H. reflexivity. Qed.

(** The lookups the large paths start with, for a pointer the lookup
    misses. *)
Lemma large_lookup_absent s q :
  initialized s = true ->
  Regions.regions_find (rtable s) q = Done None ->
  (enforce_init ;;; regions_find q) s = Done (None, s).
Proof.
  intros Hinit Hq. unfold bindM. rewrite (enforce_init_done s Hinit).
  apply regions_find_lift. assumption.
Qed.

(** A pointer that no entry holds is missed by the lookup, on a table
    produced while each [memory_map_fixed] of [regions_grow] has
    succeeded. *)
Lemma clean_lookup_misses t q :
  RegionsSpec.clean_reachable t -> RegionsSpec.present t q = false ->
  Regions.regions_find t q = Done None.
Proof.
  intros Hc Hq. destruct (RegionsTheory.clean_reachable_Inv t Hc) as [HI _].
  apply RegionsTheory.find_absent_lookup; assumption.
Qed.

(** X5. [h_free] and [h_free_sized] of a pointer that is not null and
    lies outside the slab region abort: with "invalid uninitialized
    allocator usage" before the allocator is initialised, with "invalid
    free" when [regions_find] does not find the pointer, as it does not
    when the region table, produced while each [memory_map_fixed] of
    [regions_grow] has succeeded, does not hold it. *)
Theorem free_unknown_large_aborts cfg s q :
  q <> 0 ->
  q < slab_region_start s \/ slab_region_end s <= q ->
  (initialized s = false ->
   h_free cfg q s = Fatal "invalid uninitialized allocator usage" /\
   forall n, h_free_sized cfg q n s = Fatal "invalid uninitialized allocator usage") /\
  (initialized s = true ->
   Regions.regions_find (rtable s) q = Done None ->
   h_free cfg q s = Fatal "invalid free" /\
   forall n, h_free_sized cfg q n s = Fatal "invalid free") /\
  (initialized s = true ->
   RegionsSpec.clean_reachable (rtable s) ->
   RegionsSpec.present (rtable s) q = false ->
   h_free cfg q s = Fatal "invalid free" /\
   forall n, h_free_sized cfg q n s = Fatal "invalid free").
Proof.
  intros Hq Hout.
  assert (Hf : h_free cfg q s = deallocate_large q None s).
  { unfold h_free. destruct (Z.eqb_spec q 0); [contradiction|].
    unfold bindM at 1. rewrite (in_slab_region_outside q s Hout). reflexivity. }
  assert (Hfs : forall e, h_free_sized cfg q e s = deallocate_large q (Some e) s).
  { intros e. unfold h_free_sized. destruct (Z.eqb_spec q 0); [contradiction|].
    unfold bindM at 1. rewrite (in_slab_region_outside q s Hout). reflexivity. }
  assert (Hmiss : initialized s = true ->
                  Regions.regions_find (rtable s) q = Done None ->
                  h_free cfg q s = Fatal "invalid free" /\
                  forall n, h_free_sized cfg q n s = Fatal "invalid free").
  { intros Hinit Hfind.
    assert (Hd : forall e, deallocate_large q e s = Fatal "invalid free").
    { intros e. unfold deallocate_large.
      pose proof (large_lookup_absent s q Hinit Hfind) as Hl.
      unfold bindM in Hl |- *. rewrite (enforce_init_done s Hinit) in Hl |- *.
      rewrite Hl. reflexivity. }
    split; [rewrite Hf | intros n; rewrite Hfs]; apply Hd. }
  split; [|split; [assumption|]].
  - intros Hinit.
    assert (Hd : forall e, deallocate_large q e s
                           = Fatal "invalid uninitialized allocator usage").
    { intros e. unfold deallocate_large. unfold bindM at 1.
      rewrite (enforce_init_fatal s Hinit). reflexivity. }
    split; [rewrite Hf | intros n; rewrite Hfs]; apply Hd.
  - intros Hinit Hr Hfresh. apply Hmiss; [assumption|].
    apply clean_lookup_misses; assumption.
Qed.

Lemma free_unknown_large_aborts_witness :
  h_free hardened PAGE_SIZE booted = Fatal "invalid uninitialized allocator usage" /\
  h_free hardened PAGE_SIZE one_small = Fatal "invalid free".
Proof.
  split.
  - destruct (free_unknown_large_aborts hardened booted PAGE_SIZE) as [H _].
    + discriminate.
    + right. assert (E : slab_region_end booted = 0) by (vm_compute; reflexivity).
      rewrite E. unfold PAGE_SIZE. lia.
    + destruct (H eq_refl) as [Hf _]. exact Hf.
  - destruct (free_unknown_large_aborts hardened one_small PAGE_SIZE) as (_ & _ & H).
    + discriminate.
    + left. vm_compute. reflexivity.
    + destruct H as [Hf _].
      * vm_compute. reflexivity.
      * assert (E : rtable one_small = Regions.init_regions) by (vm_compute; reflexivity).
        rewrite E. apply RegionsSpec.clean_init.
      * vm_compute. reflexivity.
      * exact Hf.
Defined.

(** *** The size of a pointer the table does not hold *)

Lemma find_loop_settles fuel : forall tbl mask q index msg,
  Regions.find_loop fuel tbl mask q index <> Fatal msg /\
  Regions.find_loop fuel tbl mask q index <> Crash.
Proof.
  induction fuel as [|f IH]; intros tbl mask q index msg; cbn [Regions.find_loop].
  - split; discriminate.
  - destruct (_ && _); [apply IH | split; discriminate].
Qed.

Lemma regions_find_settles t q msg :
  Regions.regions_find t q <> Fatal msg /\ Regions.regions_find t q <> Crash.
Proof.
  unfold Regions.regions_find.
  destruct (find_loop_settles (Z.to_nat (Regions.regions_total t)) (Regions.regions t)
              (wrap (Regions.regions_total t - 1)) q
              (Z.land (Regions.hash_page q) (wrap (Regions.regions_total t - 1))) msg)
    as [H1 H2].
  destruct (Regions.find_loop _ _ _ _ _) as [i| m | |]; cbn [bind];
    split; try discriminate; congruence.
Qed.

(** X6. [h_malloc_usable_size] never aborts with "invalid
    malloc_usable_size": the test before that call looks at the pointer,
    which is not null there, not at the region found.  For a pointer
    outside the slab region that [regions_find] does not find, as it does
    not when the region table, produced while each [memory_map_fixed] of
    [regions_grow] has succeeded, does not hold it, the call and
    [h_malloc_object_size] read the size through the null region. *)
Theorem usable_size_unknown_large cfg s q :
  h_malloc_usable_size cfg q s <> Fatal "invalid malloc_usable_size" /\
  (q <> 0 ->
   q < slab_region_start s \/ slab_region_end s <= q ->
   initialized s = true ->
   Regions.regions_find (rtable s) q = Done None ->
   h_malloc_usable_size cfg q s = Crash /\
   h_malloc_object_size cfg q s = Crash) /\
  (q <> 0 ->
   q < slab_region_start s \/ slab_region_end s <= q ->
   initialized s = true ->
   RegionsSpec.clean_reachable (rtable s) ->
   RegionsSpec.present (rtable s) q = false ->
   h_malloc_usable_size cfg q s = Crash /\
   h_malloc_object_size cfg q s = Crash).
Proof.
  assert (Hmiss : q <> 0 ->
                  q < slab_region_start s \/ slab_region_end s <= q ->
                  initialized s = true ->
                  Regions.regions_find (rtable s) q = Done None ->
                  h_malloc_usable_size cfg q s = Crash /\
                  h_malloc_object_size cfg q s = Crash).
  { intros Hq Hout Hinit Hfind.
    pose proof (large_lookup_absent s q Hinit Hfind) as Hl.
    unfold bindM in Hl. rewrite (enforce_init_done s Hinit) in Hl.
    split.
    + unfold h_malloc_usable_size. destruct (Z.eqb_spec q 0); [contradiction|].
      unfold bindM at 1. rewrite (in_slab_region_outside q s Hout).
      unfold bindM. rewrite (enforce_init_done s Hinit). rewrite Hl. reflexivity.
    + unfold h_malloc_object_size. destruct (Z.eqb_spec q 0); [contradiction|].
      unfold bindM at 1. rewrite (in_slab_region_outside q s Hout).
      unfold bindM, is_init. rewrite Hinit. cbn [negb]. rewrite Hl. reflexivity. }
  split; [|split; [assumption|]].
  - unfold h_malloc_usable_size.
    destruct (Z.eqb_spec q 0) as [|Hq]; [discriminate|].
    unfold bindM at 1. unfold in_slab_region.
    destruct (_ && _).
    + unfold slab_usable_size, slab_size_class, bindM, ret. discriminate.
    + unfold bindM at 1. unfold enforce_init, is_init, bindM at 1.
      destruct (initialized s); cbn [negb]; [|discriminate].
      unfold ret at 1. unfold bindM at 1. unfold regions_find, lift.
      destruct (regions_find_settles (rtable s) q "invalid malloc_usable_size")
        as [H1 H2].
      destruct (Regions.regions_find (rtable s) q) as [[i|]| m | |];
        try discriminate; try congruence.
  - intros Hq Hout Hinit Hr Hfresh. apply Hmiss; try assumption.
    apply clean_lookup_misses; assumption.
Qed.

Lemma usable_size_unknown_large_witness :
  h_malloc_usable_size hardened PAGE_SIZE one_small = Crash /\
  h_malloc_object_size hardened PAGE_SIZE one_small = Crash.
Proof.
  destruct (usable_size_unknown_large hardened one_small PAGE_SIZE) as (_ & _ & H).
  apply H.
  - discriminate.
  - left. vm_compute. reflexivity.
  - vm_compute. reflexivity.
  - assert (E : rtable one_small = Regions.init_regions) by (vm_compute; reflexivity).
    rewrite E. apply RegionsSpec.clean_init.
  - vm_compute. reflexivity.
Defined.

(** *** A large allocation, measured and freed *)

(** A request beyond the largest class: [h_malloc] is the large path of
    [allocate]. *)
Lemma h_malloc_is_allocate cfg s n :
  initialized s = true -> max_slab_size_class < n ->
  h_malloc cfg n s = allocate cfg n s.
Proof.
  intros Hinit Hbig.
  assert (Hadj : adjust_size_for_canaries cfg n = n).
  { unfold adjust_size_for_canaries.
    destruct (Z.leb_spec n max_slab_size_class); [lia|].
    rewrite andb_false_r. reflexivity. }
  unfold h_malloc, bindM. rewrite (init_done s Hinit), Hadj. reflexivity.
Qed.

(** A request beyond the largest class that [h_malloc] has served. *)
Lemma h_malloc_large cfg s n q s1 :
  initialized s = true ->
  max_slab_size_class < n ->
  h_malloc cfg n s = Done (q, s1) -> q <> 0 ->
  q = hd 0 (os_next s) /\
  slab_region_start s1 = slab_region_start s /\
  slab_region_end s1 = slab_region_end s /\
  initialized s1 = true /\
  size_class_metadata s1 = size_class_metadata s /\
  exists later,
    os_log s1 = later ++ AllocatePages n (drawn_guard s n) true :: os_log s.
Proof.
  intros Hinit Hbig E Hq.
  rewrite (h_malloc_is_allocate cfg s n Hinit Hbig) in E.
  destruct (allocate_large_runs cfg s n Hbig) as (Hall & _).
  destruct (Hall q s1 E) as (Hc & Hi & Hs & He & Hq0 & Hl).
  split; [destruct Hq0; [contradiction | assumption]|].
  repeat (split; [congruence|]). assumption.
Qed.

(** The same, on a region table in order: the pointer is registered. *)
Lemma h_malloc_large_registered cfg s n q s1 :
  initialized s = true ->
  RegionsSpec.Inv (rtable s) -> RegionsSpec.spare_clean (rtable s) ->
  max_slab_size_class < n ->
  h_malloc cfg n s = Done (q, s1) -> 0 < q < 2 ^ 64 ->
  RegionsSpec.present (rtable s) q = false ->
  RegionsSpec.Inv (rtable s1) /\
  exists i, Regions.regions_find (rtable s1) q = Done (Some i) /\
    Regions.regions (rtable s1) i = Regions.mk_region q n (drawn_guard s n).
Proof.
  intros Hinit HI Hsp Hbig E Hq Hfresh.
  destruct (h_malloc_large cfg s n q s1 Hinit Hbig E ltac:(lia)) as (Hq0 & _).
  rewrite (h_malloc_is_allocate cfg s n Hinit Hbig) in E.
  destruct (allocate_large_runs cfg s n Hbig) as (_ & _ & Hrun).
  rewrite <- Hq0 in Hrun.
  destruct (Hrun HI Hsp Hq Hfresh) as [Hserved Hrefused].
  destruct (Z_lt_ge_dec (Regions.regions_free (rtable s) * 4)
              (Regions.regions_total (rtable s))) as [Hlow|Hhigh].
  - destruct (Z.eq_dec (Regions.regions_total (rtable s)) Regions.max_region_table_size)
      as [Hmax|Hmax].
    { destruct (Hrefused Hlow (or_introl Hmax)) as (s' & l & E' & _).
      rewrite E in E'. injection E' as E' _. lia. }
    destruct (Z.eq_dec (hd 0 (tl (os_next s))) 0) as [He|He].
    + destruct (Hserved (fun _ => conj Hmax He)) as (s' & i & E' & HI' & Ef & Ee).
      rewrite E in E'. injection E' as <-. split; [assumption|].
      exists i. split; assumption.
    + destruct (Hrefused Hlow (or_intror He)) as (s' & l & E' & _).
      rewrite E in E'. injection E' as E' _. lia.
  - destruct Hserved as (s' & i & E' & HI' & Ef & Ee); [intros; lia|].
    rewrite E in E'. injection E' as <-. split; [assumption|].
    exists i. split; assumption.
Qed.

(** [deallocate_large] on a region the table holds. *)
Lemma deallocate_large_registered s q i e t' :
  initialized s = true ->
  Regions.regions_find (rtable s) q = Done (Some i) ->
  Regions.regions_delete (rtable s) i = Done t' ->
  match e with
  | Some expected => Regions.size (Regions.regions (rtable s) i) = expected
  | None => True
  end ->
  deallocate_large q e s
  = Done (tt, set_os (set_regions s (regions_addr s) t') (tl (os_next s))
                (DeallocatePages q (Regions.size (Regions.regions (rtable s) i))
                   (Regions.guard_size (Regions.regions (rtable s) i)) :: os_log s)).
Proof.
  intros Hinit Ef Ed He. unfold deallocate_large.
  unfold bindM at 1. rewrite (enforce_init_done s Hinit).
  unfold bindM at 1. rewrite (regions_find_lift q s _ Ef).
  unfold bindM at 1. unfold region_at.
  assert (Hexp : match e with
                 | Some expected =>
                     negb (Regions.size (Regions.regions (rtable s) i) =? expected)
                 | None => false
                 end = false).
  { destruct e as [x|]; [|reflexivity]. rewrite He, Z.eqb_refl. reflexivity. }
  rewrite Hexp. unfold regions_delete, deallocate_pages, os.
  unfold bindM, get_state, lift, modify, ret. rewrite Ed. reflexivity.
Qed.

Lemma deallocate_large_absent s q e :
  initialized s = true ->
  Regions.regions_find (rtable s) q = Done None ->
  deallocate_large q e s = Fatal "invalid free".
Proof.
  intros Hinit Ef. unfold deallocate_large.
  unfold bindM at 1. rewrite (enforce_init_done s Hinit).
  unfold bindM at 1. rewrite (regions_find_lift q s _ Ef). reflexivity.
Qed.

Lemma h_free_large cfg s q :
  q <> 0 -> q < slab_region_start s \/ slab_region_end s <= q ->
  h_free cfg q s = deallocate_large q None s.
Proof.
  intros Hq Hout. unfold h_free. destruct (Z.eqb_spec q 0); [contradiction|].
  unfold bindM at 1. rewrite (in_slab_region_outside q s Hout). reflexivity.
Qed.



(** *** Sized deallocation *)

Lemma in_slab_region_inside q s :
  slab_region_start s <= q < slab_region_end s ->
  in_slab_region q s = Done (true, s).
Proof.
  intros H. unfold in_slab_region.
  destruct (Z.leb_spec (slab_region_start s) q), (Z.ltb_spec q (slab_region_end s));
    try reflexivity; lia.
Qed.

(** A sized deallocation whose size check passes is the plain one. *)
Lemma deallocate_small_expected cfg q e s :
  class_size (free_class s q) = e ->
  deallocate_small cfg q (Some e) s = deallocate_small cfg q None s.
Proof.
  intros He. subst e. unfold deallocate_small, slab_size_class, get_class.
  unfold bindM at 1 2 3 4. cbv beta iota.
  rewrite Z.eqb_refl. cbn [negb]. cbv beta iota. reflexivity.
Qed.

(** [deallocate_large] once the region is found. *)
Lemma deallocate_large_found s q i e :
  initialized s = true ->
  Regions.regions_find (rtable s) q = Done (Some i) ->
  deallocate_large q e s
  = (if match e with
        | Some expected =>
            negb (Regions.size (Regions.regions (rtable s) i) =? expected)
        | None => false
        end
     then fatal_error "sized deallocation mismatch"
     else
       regions_delete i ;;;
       deallocate_pages q (Regions.size (Regions.regions (rtable s) i))
         (Regions.guard_size (Regions.regions (rtable s) i)) ;;;
       ret tt) s.
Proof.
  intros Hinit Ef. unfold deallocate_large.
  unfold bindM at 1. rewrite (enforce_init_done s Hinit).
  unfold bindM at 1. rewrite (regions_find_lift q s _ Ef).
  unfold bindM at 1. unfold region_at. reflexivity.
Qed.

(** X8. [h_free_sized] aborts with "sized deallocation mismatch" when the
    size it is given does not round to the size class of a slab pointer,
    or differs from the size registered for a large one; when the size
    agrees it does what [h_free] does. *)
Theorem sized_free_checks_size cfg s q n :
  q <> 0 ->
  (slab_region_start s <= q < slab_region_end s ->
   forall info, get_size_info (adjust_size_for_canaries cfg n) = Done info ->
     (info_size info <> class_size (free_class s q) ->
      h_free_sized cfg q n s = Fatal "sized deallocation mismatch") /\
     (info_size info = class_size (free_class s q) ->
      h_free_sized cfg q n s = h_free cfg q s)) /\
  (q < slab_region_start s \/ slab_region_end s <= q ->
   initialized s = true ->
   forall i, Regions.regions_find (rtable s) q = Done (Some i) ->
     (Regions.size (Regions.regions (rtable s) i) <> n ->
      h_free_sized cfg q n s = Fatal "sized deallocation mismatch") /\
     (Regions.size (Regions.regions (rtable s) i) = n ->
      h_free_sized cfg q n s = h_free cfg q s)).
Proof.
  intros Hq. split.
  - intros Hin info Hinfo.
    assert (Hs : h_free_sized cfg q n s = deallocate_small cfg q (Some (info_size info)) s).
    { unfold h_free_sized. destruct (Z.eqb_spec q 0); [contradiction|].
      unfold bindM at 1. rewrite (in_slab_region_inside q s Hin).
      unfold bindM at 1. unfold lift. rewrite Hinfo. reflexivity. }
    rewrite Hs. split.
    + intros Hne.
      apply (proj1 (deallocate_small_checks cfg s q (Some (info_size info)))).
      cbn [expected_ok]. congruence.
    + intros He. rewrite (h_free_small cfg s q Hq Hin).
      apply deallocate_small_expected. congruence.
  - intros Hout Hinit i Ef.
    assert (Hs : h_free_sized cfg q n s = deallocate_large q (Some n) s).
    { unfold h_free_sized. destruct (Z.eqb_spec q 0); [contradiction|].
      unfold bindM at 1. rewrite (in_slab_region_outside q s Hout). reflexivity. }
    rewrite Hs, (h_free_large cfg s q Hq Hout).
    rewrite !(deallocate_large_found s q i _ Hinit Ef).
    split.
    + intros Hne. destruct (Z.eqb_spec (Regions.size (Regions.regions (rtable s) i)) n);
        [contradiction | reflexivity].
    + intros He. rewrite He, Z.eqb_refl. reflexivity.
Qed.

Lemma sized_free_checks_size_witness :
  h_free_sized hardened small_pointer 100 one_small = Fatal "sized deallocation mismatch" /\
  h_free_sized hardened small_pointer 16 one_small = h_free hardened small_pointer one_small /\
  h_free_sized hardened large_pointer 20001 one_large = Fatal "sized deallocation mismatch" /\
  h_free_sized hardened large_pointer 20000 one_large = h_free hardened large_pointer one_large.
Proof.
  assert (Hp : small_pointer = 18141941862400) by (vm_compute; reflexivity).
  assert (Hstart : slab_region_start one_small = 2 ^ 44) by (vm_compute; reflexivity).
  assert (Hend : slab_region_end one_small = 2 ^ 44 + 37 * 2 ^ 38) by (vm_compute; reflexivity).
  assert (Hstart' : slab_region_start one_large = 2 ^ 44) by (vm_compute; reflexivity).
  assert (Hend' : slab_region_end one_large = 2 ^ 44 + 37 * 2 ^ 38) by (vm_compute; reflexivity).
  destruct (sized_free_checks_size hardened one_small small_pointer 100) as [H1 _].
  { rewrite Hp. discriminate. }
  destruct (sized_free_checks_size hardened one_small small_pointer 16) as [H2 _].
  { rewrite Hp. discriminate. }
  destruct (sized_free_checks_size hardened one_large large_pointer 20001) as [_ H3].
  { discriminate. }
  destruct (sized_free_checks_size hardened one_large large_pointer 20000) as [_ H4].
  { discriminate. }
  split; [|split; [|split]].
  - refine (proj1 (H1 _ (mk_size_info 112 7) _) _).
    + rewrite Hstart, Hend, Hp. lia.
    + vm_compute. reflexivity.
    + vm_compute. discriminate.
  - refine (proj2 (H2 _ (mk_size_info 32 2) _) _).
    + rewrite Hstart, Hend, Hp. lia.
    + vm_compute. reflexivity.
    + vm_compute. reflexivity.
  - refine (proj1 (H3 _ _ 254 _) _).
    + right. rewrite Hend'. unfold large_pointer. lia.
    + vm_compute. reflexivity.
    + vm_compute. reflexivity.
    + vm_compute. discriminate.
  - refine (proj2 (H4 _ _ 254 _) _).
    + right. rewrite Hend'. unfold large_pointer. lia.
    + vm_compute. reflexivity.
    + vm_compute. reflexivity.
    + vm_compute. reflexivity.
Defined.

(** *** Reallocation of a large region *)

Lemma find_loop_same_pointers fuel : forall tbl tbl' mask q index,
  (forall i, Regions.p (tbl' i) = Regions.p (tbl i)) ->
  Regions.find_loop fuel tbl' mask q index = Regions.find_loop fuel tbl mask q index.
Proof.
  induction fuel as [|f IH]; intros tbl tbl' mask q index H; cbn [Regions.find_loop];
    [reflexivity|].
  rewrite H. destruct (_ && _); [apply IH; assumption | reflexivity].
Qed.

Lemma regions_find_slot t q i :
  Regions.regions_find t q = Done (Some i) -> Regions.p (Regions.regions t i) = q.
Proof.
  unfold Regions.regions_find.
  destruct (Regions.find_loop _ _ _ _ _) as [r| | |]; try discriminate. cbn [bind].
  destruct (Z.eqb_spec (Regions.p (Regions.regions t r)) q) as [E|]; [|discriminate].
  destruct (negb _); [|discriminate]. intros [= <-]. assumption.
Qed.

(** X9. [h_realloc] of a pointer outside the slab region aborts with
    "invalid realloc" when the region table does not hold it.  When it
    does and the new size, adjusted for the canary, takes as many pages
    as the registered one, the call returns the pointer itself: no page
    is asked for or given back, no byte is copied, and the size
    registered becomes the adjusted new size, which
    [h_malloc_usable_size] then returns. *)
Theorem realloc_large cfg s old n :
  old <> 0 ->
  old < slab_region_start s \/ slab_region_end s <= old ->
  initialized s = true ->
  (Regions.regions_find (rtable s) old = Done None ->
   h_realloc cfg old n s = Fatal "invalid realloc") /\
  (forall i, Regions.regions_find (rtable s) old = Done (Some i) ->
     PAGE_CEILING (Regions.size (Regions.regions (rtable s) i))
     = PAGE_CEILING (adjust_size_for_canaries cfg n) ->
     exists s',
       h_realloc cfg old n s = Done (old, s') /\
       os_log s' = os_log s /\ mem s' = mem s /\
       size_class_metadata s' = size_class_metadata s /\
       Regions.regions (rtable s') i
       = Regions.mk_region old (adjust_size_for_canaries cfg n)
           (Regions.guard_size (Regions.regions (rtable s) i)) /\
       h_malloc_usable_size cfg old s' = Done (adjust_size_for_canaries cfg n, s')).
Proof.
  intros Hold Hout Hinit.
  assert (Hr : forall found,
    Regions.regions_find (rtable s) old = Done found ->
    h_realloc cfg old n s =
    match found with
    | None => Fatal "invalid realloc"
    | Some i =>
        if PAGE_CEILING (Regions.size (Regions.regions (rtable s) i))
           =? PAGE_CEILING (adjust_size_for_canaries cfg n)
        then (region_set_size i (adjust_size_for_canaries cfg n) ;;; ret old) s
        else h_realloc cfg old n s
    end).
  { intros found Ef. destruct found as [i|].
    - destruct (PAGE_CEILING (Regions.size (Regions.regions (rtable s) i))
                =? PAGE_CEILING (adjust_size_for_canaries cfg n)) eqn:Ec;
        [|reflexivity].
      unfold h_realloc. destruct (Z.eqb_spec old 0); [contradiction|].
      unfold bindM at 1. rewrite (in_slab_region_outside old s Hout).
      unfold bindM at 1. rewrite (enforce_init_done s Hinit).
      unfold bindM at 1. rewrite (regions_find_lift old s _ Ef).
      unfold bindM at 1. unfold region_at. rewrite Ec. reflexivity.
    - unfold h_realloc. destruct (Z.eqb_spec old 0); [contradiction|].
      unfold bindM at 1. rewrite (in_slab_region_outside old s Hout).
      unfold bindM at 1. rewrite (enforce_init_done s Hinit).
      unfold bindM at 1. rewrite (regions_find_lift old s _ Ef). reflexivity. }
  split.
  - intros Ef. apply (Hr None Ef).
  - intros i Ef Hpages. rewrite (Hr (Some i) Ef).
    rewrite Hpages, Z.eqb_refl.
    unfold region_set_size, modify, bindM, ret.
    pose proof (regions_find_slot _ _ _ Ef) as Hp.
    eexists. split; [reflexivity|].
    cbn [os_log mem size_class_metadata rtable set_regions Regions.regions].
    split; [reflexivity|]. split; [reflexivity|]. split; [reflexivity|].
    rewrite upd_same, Hp. split; [reflexivity|].
    unfold h_malloc_usable_size. destruct (Z.eqb_spec old 0); [contradiction|].
    unfold bindM at 1. rewrite in_slab_region_outside by (cbn; assumption).
    unfold bindM at 1. rewrite enforce_init_done by (cbn; assumption).
    assert (Ef' : forall t', (forall j, Regions.p (Regions.regions t' j)
                                       = Regions.p (Regions.regions (rtable s) j)) ->
                   Regions.regions_total t' = Regions.regions_total (rtable s) ->
                   Regions.regions_find t' old = Done (Some i)).
    { intros t' Hsame Htot. unfold Regions.regions_find in Ef |- *.
      rewrite Htot, (find_loop_same_pointers _ _ _ _ _ _ Hsame).
      destruct (Regions.find_loop _ _ _ _ _) as [r| | |]; try discriminate.
      cbn [bind] in Ef |- *. rewrite Hsame. assumption. }
    unfold bindM at 1. erewrite regions_find_lift.
    2:{ cbn [rtable set_regions]. apply Ef'; [|reflexivity].
        intros j. cbn [Regions.regions]. unfold upd.
        destruct (Z.eqb_spec j i) as [->|]; [|reflexivity]. cbn [Regions.p].
        symmetry. assumption. }
    unfold region_at, bindM, ret. cbn [rtable set_regions Regions.regions].
    rewrite upd_same. reflexivity.
Qed.

Lemma realloc_large_witness :
  exists s',
    h_realloc hardened large_pointer 19000 one_large = Done (large_pointer, s') /\
    os_log s' = os_log one_large /\
    h_malloc_usable_size hardened large_pointer s' = Done (19000, s').
Proof.
  assert (Hend : slab_region_end one_large = 2 ^ 44 + 37 * 2 ^ 38) by (vm_compute; reflexivity).
  destruct (realloc_large hardened one_large large_pointer 19000) as [_ H].
  - discriminate.
  - right. rewrite Hend. unfold large_pointer. lia.
  - vm_compute. reflexivity.
  - destruct (H 254) as (s' & E & Hlog & _ & _ & _ & Hu).
    + vm_compute. reflexivity.
    + vm_compute. reflexivity.
    + exists s'. split; [exact E|]. split; [exact Hlog | exact Hu].
Defined.


(** *** The calls keep the invariant of the slab engine *)

Lemma deallocate_large_keeps s q e s' :
  heap_ok s -> deallocate_large q e s = Done (tt, s') -> heap_ok s'.
Proof.
  intros Hok. unfold deallocate_large, enforce_init, is_init, regions_find, region_at,
    regions_delete, deallocate_pages, os, fatal_error, get_state, modify, lift.
  unfold bindM, ret.
  destruct (initialized s); cbn [negb]; [|discriminate].
  destruct (Regions.regions_find (rtable s) q) as [[i|]| | |]; try discriminate.
  destruct (match e with Some _ => _ | None => _ end); [discriminate|].
  destruct (Regions.regions_delete (rtable s) i) as [t'| | |]; try discriminate.
  intros [= <-]. eapply heap_ok_frame; [eassumption | | | |]; reflexivity.
Qed.

Lemma allocate_keeps cfg s n q s' :
  heap_ok s -> 0 <= n -> allocate cfg n s = Done (q, s') -> heap_ok s'.
Proof.
  intros Hok Hn. unfold allocate.
  destruct (Z.leb_spec n max_slab_size_class) as [Hsmall|Hbig].
  - intros Ha.
    destruct (proj1 (get_size_info_facts n Hn) Hsmall)
      as (info & Hinfo & Hclass & Hsize & _).
    destruct (allocate_small_done cfg n s q s' info Hok Hinfo Hclass Hsize Ha)
      as [[_ Hu]|(m & slot & Hs & _)].
    + eapply unserved_heap_ok; eassumption.
    + eapply served_heap_ok; eassumption.
  - unfold get_guard_size, allocate_pages, deallocate_pages, os. unfold bindM, ret.
    destruct (get_random_u64_uniform (regions_rng s) (n / PAGE_SIZE / 8)) as [u rr].
    cbn [os_next set_regions_rng os_log hd tl set_os].
    destruct (hd 0 (os_next s) =? 0) eqn:Eq; rewrite ?Eq.
    { intros [= _ <-]. eapply heap_ok_frame; [eassumption | | | |]; reflexivity. }
    destruct (regions_insert _ _ _ _) as [[r s2]| | |] eqn:Ei; try discriminate.
    destruct (regions_insert_frame _ _ _ _ _ _ Ei) as (Hc & _ & H3 & H1 & H2 & _).

    destruct (negb (r =? 0)); intros [= _ <-];
      (eapply heap_ok_frame; [eassumption | | | |]); state_fields; assumption.
Qed.

(** X19. The invariant of the slab engine -- the bounds of the slab
    region, where the region of every class starts, the counts of every
    class within their limits, every link of a list at a metadata entry
    in use, every entry past the high-water count still zero -- holds
    after every call of [h_malloc], [h_free] and [h_free_sized] that
    returns on a state where it holds. *)
Theorem calls_keep_heap_ok cfg s :
  heap_ok s ->
  (forall n q s', 0 <= n -> h_malloc cfg n s = Done (q, s') -> heap_ok s') /\
  (forall q s', h_free cfg q s = Done (tt, s') -> heap_ok s') /\
  (forall q n s', h_free_sized cfg q n s = Done (tt, s') -> heap_ok s').
Proof.
  intros Hok. pose proof Hok as [(Hinit & _) _].
  split; [|split].
  - intros n q s' Hn. unfold h_malloc, bindM. rewrite (init_done s Hinit).
    apply allocate_keeps; [assumption | apply adjust_size_nonneg; assumption].
  - intros q s'. unfold h_free. destruct (q =? 0); [intros [= <-]; assumption|].
    unfold bindM, in_slab_region.
    destruct (Z.leb_spec (slab_region_start s) q), (Z.ltb_spec q (slab_region_end s));
      cbn [andb];
      try (apply deallocate_large_keeps; assumption).
    apply deallocate_small_keeps; [assumption | lia].
  - intros q n s'. unfold h_free_sized. destruct (q =? 0); [intros [= <-]; assumption|].
    unfold bindM, in_slab_region.
    destruct (Z.leb_spec (slab_region_start s) q), (Z.ltb_spec q (slab_region_end s));
      cbn [andb];
      try (apply deallocate_large_keeps; assumption).
    unfold lift. destruct (get_size_info _); try discriminate.
    apply deallocate_small_keeps; [assumption | lia].
Qed.

(** *** A small chunk, from [h_malloc] to [h_free] *)

(** A small request that [h_malloc] has served. *)
Lemma small_malloc_served cfg s n q s1 :
  heap_ok s -> 0 <= n ->
  adjust_size_for_canaries cfg n <= max_slab_size_class ->
  h_malloc cfg n s = Done (q, s1) -> q <> 0 ->
  exists info m slot,
    get_size_info (adjust_size_for_canaries cfg n) = Done info /\
    0 <= info_class info < N_SIZE_CLASSES /\
    info_size info = class_size (info_class info) /\
    adjust_size_for_canaries cfg n <= class_size (info_class info) /\
    served (info_class info) s s1 m slot q /\
    m = chosen_slab (size_class_metadata s (info_class info)) /\
    canary_value (slab_info (size_class_metadata s1 (info_class info)) m)
    = chosen_canary cfg (size_class_metadata s (info_class info)) /\
    (adjust_size_for_canaries cfg n <> 0 -> canary_written cfg (info_class info) s1 m q).
Proof.
  intros Hok Hn Hsmall. pose proof Hok as [(Hinit & _) _].
  unfold h_malloc, bindM. rewrite (init_done s Hinit). cbv zeta.
  pose proof (adjust_size_nonneg cfg n Hn) as Ha.
  unfold allocate. destruct (Z.leb_spec (adjust_size_for_canaries cfg n) max_slab_size_class);
    [|lia].
  intros Hm Hq.
  destruct (proj1 (get_size_info_facts _ Ha) Hsmall)
    as (info & Hinfo & Hclass & Hsize & Hfit & _).
  destruct (allocate_small_done cfg _ s q s1 info Hok Hinfo Hclass Hsize Hm)
    as [[Hz _]|(m & slot & Hs & Hch & Hcv & Hc)]; [contradiction|].
  exists info, m, slot.
  split; [assumption|]. split; [assumption|]. split; [assumption|].
  split; [rewrite <- Hsize; assumption|]. split; [assumption|].
  split; [assumption|]. split; assumption.
Qed.

(** A second [deallocate_small] of a pointer. *)
Lemma freed_twice_aborts cfg s q s' :
  0 <= size_divisor (size_class_metadata s (free_class s q)) ->
  deallocate_small cfg q None s = Done (tt, s') ->
  deallocate_small cfg q None s' = Fatal "double free".
Proof.
  intros Hdiv Hd.
  destruct (deallocate_small_done_checks cfg s q None s' Hd) as (He & Hlt & Hp & Hg).
  rewrite (deallocate_small_unchecked cfg s q None He Hlt Hp Hg) in Hd.
  assert (Hs : 0 <= slot_index s q < 64).
  { split; [apply libdivide_u32_nonneg; assumption|].
    unfold get_slot in Hg. destruct (check_index _) eqn:Ec; try discriminate.
    eapply check_index_done. eassumption. }
  destruct (release_slot_done cfg _ _ _ _ q s s' Hs Hd)
    as (c' & Hc' & Hstart & _ & _ & _ & (G1 & _ & G3 & G4 & G5 & _) & Hclear & _).
  apply deallocate_small_checks.
  + exact I.
  + rewrite Hstart, Hc', upd_same, G1, G4, G5. assumption.
  + unfold get_slab in *. rewrite Hstart, Hc', upd_same, G1, G3, G4. assumption.
  + unfold get_slab in *. rewrite Hstart, Hc', upd_same, G1, G3, G4. assumption.
Qed.

Lemma small_chunk_facts cfg s n q s1 :
  heap_ok s -> 0 <= n ->
  adjust_size_for_canaries cfg n <= max_slab_size_class ->
  h_malloc cfg n s = Done (q, s1) -> q <> 0 ->
  slab_region_start s <= q < slab_region_end s /\
  q mod 16 = 0 /\
  (exists size, h_malloc_usable_size cfg q s1 = Done (size, s1) /\ n <= size) /\
  exists s2, h_free cfg q s1 = Done (tt, s2) /\
             h_free cfg q s2 = Fatal "double free".
Proof.
  intros Hok Hn Hsmall Hm Hq.
  destruct (small_malloc_served cfg s n q s1 Hok Hn Hsmall Hm Hq)
    as (info & m & slot & Hinfo & Hclass & Hsize & Hfit & Hserved & _ & _ & Hcanary).
  remember (info_class info) as class eqn:Eclass.
  pose proof (served_heap_ok class s s1 m slot q Hclass Hok Hserved) as Hok1.
  destruct Hserved as (Htook & Hqv & Hlay & Hw1 & Hwd1 & Ho & Hf).
  destruct Htook as (Hslot & H64 & Hmc & Hma & Hfree & Hbit & Hothers).
  pose proof Hok1 as [Hwf1 Hwords1].
  rewrite <- (get_slab_layout _ _ _ _ Hlay) in Hqv.
  destruct (slot_address s1 class m slot Hwf1 Hclass ltac:(lia) Hslot q Hqv)
    as (Hsum & Hin & E1 & E2 & E3).
  destruct Hf as (F1 & F2 & _).
  destruct (class_table class Hclass) as (Hsz & Hs16 & _ & _ & Hslab & Hpage & _).
  assert (Hcs : canary_size cfg = 0 \/ canary_size cfg = 8)
    by (unfold canary_size; destruct (SLAB_CANARY cfg); lia).
  assert (Hadj : (n = 0 /\ adjust_size_for_canaries cfg n = 0) \/
                 (0 < n /\ adjust_size_for_canaries cfg n = n + canary_size cfg)).
  { unfold adjust_size_for_canaries in *. unfold max_slab_size_class in *.
    destruct (Z.ltb_spec 0 n), (Z.leb_spec n 16384); cbn [andb] in *; try lia.
    right. split; [assumption|]. apply wrap_small. lia. }
  split; [lia|]. split; [|split].
  - (* alignment *)
    destruct (Hwords1 class Hclass) as [_ Hal].
    unfold PAGE_SIZE in *.
    apply Z.mod_divide in Hal; [|lia]. destruct Hal as [a Ha].
    apply Z.mod_divide in Hpage; [|lia]. destruct Hpage as [b Hb].
    apply Z.mod_divide in Hs16; [|lia]. destruct Hs16 as [c Hc].
    rewrite Hsum, Ha, Hb, Hc.
    replace (a * 4096 + m * (b * 4096) + slot * (c * 16))
      with ((a * 256 + m * b * 256 + slot * c) * 16) by lia.
    apply Z.mod_mul. lia.
  - (* the usable size *)
    unfold h_malloc_usable_size. destruct (Z.eqb_spec q 0); [contradiction|].
    unfold bindM at 1. rewrite (in_slab_region_inside q s1 Hin).
    unfold slab_usable_size, slab_size_class, bindM, ret. rewrite E1.
    eexists. split; [reflexivity|].
    destruct (Z.eqb_spec (class_size class) 0) as [Ez|Enz]; cbn [negb]; [lia|].
    rewrite wrap_small by lia. lia.
  - (* the two calls of [h_free] *)
    assert (Hg : get_slot (slab_info (size_class_metadata s1 class) m) slot = Done true).
    { rewrite get_slot_testbit by lia. rewrite Hbit, Z.lor_spec.
      rewrite testbit_one_shifted by lia. rewrite orb_true_r. reflexivity. }
    assert (Hrel : deallocate_small cfg q None s1
                   = release_slot cfg class (size_class_metadata s1 class) m slot q s1).
    { rewrite (deallocate_small_unchecked cfg s1 q None).
      - rewrite E3, E2, E1. reflexivity.
      - exact I.
      - rewrite E2, E1. assumption.
      - rewrite E3, E2, E1. symmetry. assumption.
      - rewrite E3, E2, E1. assumption. }
    destruct (release_slot_passes cfg class (size_class_metadata s1 class) m slot q s1)
      as (s2 & Hs2).
    { intros Hnz Hc8 zeroed. apply canary_check_passes.
      - apply Hwd1.
      - apply Hcanary. intros Hz0. apply Hnz. rewrite Hz0 in Hinfo.
        assert (E00 : get_size_info 0 = Done (mk_size_info 0 0)) by reflexivity.
        rewrite E00 in Hinfo. injection Hinfo as <-. rewrite Eclass. reflexivity.
      - assumption. }
    rewrite <- Hrel in Hs2.
    exists s2. split; [rewrite h_free_small by assumption; exact Hs2|].
    pose proof Hs2 as Hd. rewrite Hrel in Hd.
    assert (Hs64 : 0 <= slot < 64) by lia.
    destruct (release_slot_done cfg class (size_class_metadata s1 class) m slot q s1 s2
                Hs64 Hd) as (c' & Hc' & Hstart & Hend & _).
    rewrite h_free_small; [|assumption|lia].
    apply (freed_twice_aborts cfg s1 q s2); [|assumption].
    rewrite E1. pose proof Hwf1 as (_ & _ & _ & _ & Hcls).
    destruct (Hcls class Hclass) as [(_ & Hsd & _) _]. rewrite Hsd. lia.
Qed.

(** X20. A request that [h_malloc] hands to the slab engine and serves
    gives a chunk of the slab region on a 16-byte boundary whose usable
    size, as [h_malloc_usable_size] reports it, is at least the size
    asked for; [h_free] of the chunk returns, and a second [h_free] of
    it aborts with "double free". *)
Theorem small_round_trip cfg s n q s1 :
  heap_ok s -> 0 <= n ->
  adjust_size_for_canaries cfg n <= max_slab_size_class ->
  h_malloc cfg n s = Done (q, s1) -> q <> 0 ->
  slab_region_start s <= q < slab_region_end s /\
  q mod 16 = 0 /\
  (exists size, h_malloc_usable_size cfg q s1 = Done (size, s1) /\ n <= size) /\
  exists s2, h_free cfg q s1 = Done (tt, s2) /\
             h_free cfg q s2 = Fatal "double free".
Proof. apply small_chunk_facts. Qed.

(** X21. [h_malloc] of a request for the slab engine takes a slot of
    the head of the partial list of the class, else of the head of its
    empty list, else of the head of its free list, else of a new
    metadata entry at the high-water count.  The slot was free; its bit
    is the only bit of any bitmap that changes.  The slab keeps its
    canary on the first two paths, gets the next draw of the class as it
    is on the third and the next draw under [canary_mask] on the fourth;
    for a size other than 0 the last bytes of the chunk hold it.  A call
    that returns null has changed no bitmap. *)
Theorem small_malloc_policy cfg s n q s1 :
  heap_ok s -> 0 <= n ->
  adjust_size_for_canaries cfg n <= max_slab_size_class ->
  h_malloc cfg n s = Done (q, s1) ->
  exists info,
    get_size_info (adjust_size_for_canaries cfg n) = Done info /\
    ((q = 0 /\ unserved (info_class info) s s1) \/
     (q <> 0 /\
      exists slot,
        served (info_class info) s s1
          (chosen_slab (size_class_metadata s (info_class info))) slot q /\
        canary_value
          (slab_info (size_class_metadata s1 (info_class info))
             (chosen_slab (size_class_metadata s (info_class info))))
        = chosen_canary cfg (size_class_metadata s (info_class info)) /\
        (n <> 0 ->
         canary_written cfg (info_class info) s1
           (chosen_slab (size_class_metadata s (info_class info))) q))).
Proof.
  intros Hok Hn Hsmall. pose proof Hok as [(Hinit & _) _].
  unfold h_malloc, bindM. rewrite (init_done s Hinit). cbv zeta.
  pose proof (adjust_size_nonneg cfg n Hn) as Ha.
  unfold allocate.
  destruct (Z.leb_spec (adjust_size_for_canaries cfg n) max_slab_size_class); [|lia].
  intros Hm.
  destruct (proj1 (get_size_info_facts _ Ha) Hsmall)
    as (info & Hinfo & Hclass & Hsize & Hfit & _).
  exists info. split; [assumption|].
  destruct (allocate_small_done cfg _ s q s1 info Hok Hinfo Hclass Hsize Hm)
    as [[Hz Hu]|(m & slot & Hs & Hch & Hcv & Hc)]; [left; split; assumption|].
  right. subst m. split.
  - pose proof (served_heap_ok _ s s1 _ slot q Hclass Hok Hs) as Hok1.
    pose proof Hs as (Htook & Hqv & Hlay & _ & _ & _ & Hf).
    destruct Htook as (Hslot & _ & Hmc & Hma & _).
    rewrite <- (get_slab_layout _ _ _ _ Hlay) in Hqv.
    assert (Hmr : 0 <= chosen_slab (size_class_metadata s (info_class info))
                  < metadata_allocated (size_class_metadata s1 (info_class info)))
      by lia.
    destruct (slot_address s1 (info_class info) _ slot (proj1 Hok1) Hclass
                Hmr Hslot q Hqv) as (_ & Hin & _).
    destruct Hok1 as [(_ & Hpos & _) _]. lia.
  - exists slot. split; [assumption|]. split; [assumption|].
    intros Hn0. apply Hc. unfold adjust_size_for_canaries.
    destruct (Z.ltb_spec 0 n), (Z.leb_spec n max_slab_size_class); cbn [andb]; try lia.
    unfold canary_size, max_slab_size_class in *.
    destruct (SLAB_CANARY cfg); rewrite wrap_small by lia; lia.
Qed.

(** *** The first chunk served after [init] *)

Lemma returns_pair {A : Type} (d : A) (o : outcome (A * state)) :
  returns o = true -> o = Done (value_of d o, state_of o).
Proof. destruct o as [[a s]| | |]; try discriminate. reflexivity. Qed.

Lemma first_small_served : h_malloc hardened 16 ready = Done (first_small, ready_one).
Proof.
  unfold first_small, ready_one. apply returns_pair. vm_compute. reflexivity.
Qed.

Lemma first_small_not_null : first_small <> 0.
Proof. apply Z.eqb_neq. vm_compute. reflexivity. Qed.

Lemma first_small_fits : adjust_size_for_canaries hardened 16 <= max_slab_size_class.
Proof.
  assert (E : adjust_size_for_canaries hardened 16 = 24) by (vm_compute; reflexivity).
  rewrite E. unfold max_slab_size_class. lia.
Qed.

Lemma calls_keep_heap_ok_witness : heap_ok ready_one.
Proof.
  destruct (calls_keep_heap_ok hardened ready ready_heap_ok) as (H & _).
  apply (H 16 first_small); [lia | exact first_small_served].
Defined.

Lemma small_round_trip_witness :
  slab_region_start ready <= first_small < slab_region_end ready /\
  first_small mod 16 = 0 /\
  (exists size, h_malloc_usable_size hardened first_small ready_one
                = Done (size, ready_one) /\ 16 <= size) /\
  exists s2, h_free hardened first_small ready_one = Done (tt, s2) /\
             h_free hardened first_small s2 = Fatal "double free".
Proof.
  apply (small_round_trip hardened ready 16 first_small ready_one).
  - exact ready_heap_ok.
  - lia.
  - exact first_small_fits.
  - exact first_small_served.
  - exact first_small_not_null.
Defined.

Lemma small_malloc_policy_witness :
  exists info,
    get_size_info (adjust_size_for_canaries hardened 16) = Done info /\
    ((first_small = 0 /\ unserved (info_class info) ready ready_one) \/
     (first_small <> 0 /\
      exists slot,
        served (info_class info) ready ready_one
          (chosen_slab (size_class_metadata ready (info_class info))) slot first_small /\
        canary_value
          (slab_info (size_class_metadata ready_one (info_class info))
             (chosen_slab (size_class_metadata ready (info_class info))))
        = chosen_canary hardened (size_class_metadata ready (info_class info)) /\
        (16 <> 0 ->
         canary_written hardened (info_class info) ready_one
           (chosen_slab (size_class_metadata ready (info_class info))) first_small))).
Proof.
  apply (small_malloc_policy hardened ready 16 first_small ready_one).
  - exact ready_heap_ok.
  - lia.
  - exact first_small_fits.
  - exact first_small_served.
Defined.

(** *** Aligned chunks of the slab region *)

(** A request the slab engine has served, by its address. *)
Lemma allocate_chunk cfg s a q s1 :
  heap_ok s -> 0 <= a <= max_slab_size_class ->
  allocate cfg a s = Done (q, s1) -> q <> 0 ->
  exists info m slot,
    get_size_info a = Done info /\
    0 <= info_class info < N_SIZE_CLASSES /\
    a <= class_size (info_class info) /\
    (forall c, 0 <= c < info_class info -> class_size c < a) /\
    heap_ok s1 /\
    q = class_region_start (size_class_metadata s1 (info_class info))
        + m * class_slab_size (info_class info) + slot * slot_size (info_class info) /\
    slab_region_start s <= q < slab_region_end s /\
    slab_region_start s1 = slab_region_start s /\
    slab_region_end s1 = slab_region_end s /\
    free_class s1 q = info_class info.
Proof.
  intros Hok Ha. unfold allocate.
  destruct (Z.leb_spec a max_slab_size_class); [|lia].
  intros Hm Hq.
  destruct (proj1 (get_size_info_facts a ltac:(lia)) ltac:(lia))
    as (info & Hinfo & Hclass & Hsize & Hfit & Hmin).
  destruct (allocate_small_done cfg a s q s1 info Hok Hinfo Hclass Hsize Hm)
    as [[Hz _]|(m & slot & Hserved & _)]; [contradiction|].
  pose proof (served_heap_ok _ s s1 m slot q Hclass Hok Hserved) as Hok1.
  destruct Hserved as (Htook & Hqv & Hlay & _ & _ & _ & Hf).
  destruct Htook as (Hslot & _ & Hmc & Hma & _).
  rewrite <- (get_slab_layout _ _ _ _ Hlay) in Hqv.
  assert (Hmr : 0 <= m < metadata_allocated (size_class_metadata s1 (info_class info)))
    by lia.
  destruct (slot_address s1 (info_class info) m slot (proj1 Hok1) Hclass Hmr Hslot q Hqv)
    as (Hsum & Hin & E1 & _).
  destruct Hf as (F1 & F2 & _).
  exists info, m, slot.
  split; [assumption|]. split; [assumption|]. split; [lia|].
  split; [assumption|]. split; [assumption|]. split; [assumption|].
  split; [lia|]. split; [assumption|]. split; assumption.
Qed.

Lemma pow2_divide j k : 0 <= j <= k -> (2 ^ j | 2 ^ k).
Proof.
  intros H. exists (2 ^ (k - j)). rewrite <- Z.pow_add_r by lia.
  f_equal. lia.
Qed.

Lemma memalign_small_facts cfg s k n r ptr s1 :
  heap_ok s -> 0 <= n ->
  adjust_size_for_canaries cfg n <= max_slab_size_class ->
  3 <= k <= 12 ->
  h_posix_memalign cfg (2 ^ k) n s = Done ((r, ptr), s1) ->
  (r = ENOMEM /\ ptr = None) \/
  (r = 0 /\
   exists q, ptr = Some q /\ q mod 2 ^ k = 0 /\
     slab_region_start s <= q < slab_region_end s /\
     exists size, h_malloc_usable_size cfg q s1 = Done (size, s1) /\ n <= size).
Proof.
  intros Hok Hn Hsmall Hk. pose proof Hok as [(Hinit & Hpos & _) _].
  pose proof (adjust_size_nonneg cfg n Hn) as Ha0.
  assert (Hcs : canary_size cfg = 0 \/ canary_size cfg = 8)
    by (unfold canary_size; destruct (SLAB_CANARY cfg); lia).
  assert (Hadj : n <= adjust_size_for_canaries cfg n /\
                 (0 < n -> n + canary_size cfg <= adjust_size_for_canaries cfg n)).
  { unfold adjust_size_for_canaries in *. unfold max_slab_size_class in *.
    destruct (Z.ltb_spec 0 n), (Z.leb_spec n 16384); cbn [andb] in *; try lia.
    rewrite wrap_small by lia. lia. }
  assert (Hp8 : 8 <= 2 ^ k).
  { change 8 with (2 ^ 3). apply Z.pow_le_mono_r; lia. }
  assert (Hp12 : 2 ^ k <= 4096).
  { change 4096 with (2 ^ 12). apply Z.pow_le_mono_r; lia. }
  unfold h_posix_memalign, bindM at 1. rewrite (init_done s Hinit). cbv zeta.
  unfold alloc_aligned.
  assert (Hacc : negb (Z.land (wrap (2 ^ k - 1)) (2 ^ k) =? 0) || (2 ^ k <? 8) = false).
  { destruct (Z.ltb_spec (2 ^ k) 8); [lia|]. rewrite orb_false_r.
    apply negb_false_iff. apply Z.eqb_eq. apply power_of_two_test; [lia|].
    right. exists k. split; [lia | reflexivity]. }
  rewrite Hacc. unfold PAGE_SIZE. destruct (Z.leb_spec (2 ^ k) 4096); [|lia].
  destruct (Z.leb_spec (adjust_size_for_canaries cfg n) max_slab_size_class); [|lia].
  cbn [andb].
  (* the size handed to [allocate], and what divides its class *)
  assert (Hend : forall a s0,
    s0 = s -> 0 <= a <= max_slab_size_class ->
    adjust_size_for_canaries cfg n <= a ->
    (forall info, get_size_info a = Done info ->
       (2 ^ k | slot_size (info_class info))) ->
    (q <- allocate cfg a ;;
     if q =? 0 then ret (ENOMEM, None) else ret (0, Some q)) s0 = Done ((r, ptr), s1) ->
    (r = ENOMEM /\ ptr = None) \/
    (r = 0 /\
     exists q, ptr = Some q /\ q mod 2 ^ k = 0 /\
       slab_region_start s <= q < slab_region_end s /\
       exists size, h_malloc_usable_size cfg q s1 = Done (size, s1) /\ n <= size)).
  { intros a s0 -> Ha Hge Hdiv. unfold bindM.
    destruct (allocate cfg a s) as [[q s2]| | |] eqn:Eal; try discriminate.
    destruct (Z.eqb_spec q 0) as [|Hq]; unfold ret.
    - intros [= <- <- _]. left. split; reflexivity.
    - intros [= <- <- <-]. right. split; [reflexivity|].
      destruct (allocate_chunk cfg s a q s2 Hok Ha Eal Hq)
        as (info & m & slot & Hinfo & Hclass & Hfit & _ & Hok2 & Hsum & Hin & F1 & F2 & Efc).
      exists q. split; [reflexivity|].
      destruct (class_table _ Hclass) as (Hsz & _ & _ & _ & _ & Hpage & _).
      destruct Hok2 as [(_ & Hpos2 & Hend2 & H642 & _) Hwords2].
      destruct (Hwords2 _ Hclass) as [_ Hal].
      split; [|split; [assumption|]].
      + apply Z.mod_divide; [lia|]. rewrite Hsum.
        assert (H4096 : (2 ^ k | 4096)).
        { change 4096 with (2 ^ 12). apply pow2_divide. lia. }
        apply Z.divide_add_r; [apply Z.divide_add_r|].
        * eapply Z.divide_trans; [exact H4096|].
          apply Z.mod_divide; [unfold PAGE_SIZE; lia | exact Hal].
        * apply Z.divide_mul_r. eapply Z.divide_trans; [exact H4096|].
          apply Z.mod_divide; [unfold PAGE_SIZE; lia | exact Hpage].
        * apply Z.divide_mul_r. apply Hdiv. assumption.
      + unfold h_malloc_usable_size. destruct (Z.eqb_spec q 0); [contradiction|].
        unfold bindM at 1. rewrite (in_slab_region_inside q s2) by lia.
        unfold slab_usable_size, slab_size_class, bindM, ret. rewrite Efc.
        eexists. split; [reflexivity|].
        destruct (Z.eqb_spec (class_size (info_class info)) 0) as [Ez|Enz];
          cbn [negb]; [lia|].
        unfold max_slab_size_class in *. rewrite wrap_small by lia.
        destruct (Z.eq_dec n 0); lia. }
  unfold min_align. destruct (Z.gtb_spec (2 ^ k) 16) as [Hbig|Hlow].
  - (* the class is chosen for the alignment *)
    assert (Hk5 : 5 <= k).
    { destruct (Z_lt_ge_dec k 5) as [Hlt|]; [|lia].
      assert (2 ^ k <= 2 ^ 4) by (apply Z.pow_le_mono_r; lia).
      change (2 ^ 4) with 16 in *. lia. }
    destruct (get_size_info_align_facts (adjust_size_for_canaries cfg n) k
                ltac:(lia) Hsmall)
      as (ia & Eia & Hca & Hsa & Hfa & Hma & _).
    unfold bindM at 1. unfold bindM at 1. unfold lift at 1. rewrite Eia. unfold ret at 1.
    apply Hend; [reflexivity | | assumption |].
    + pose proof (class_size_bound (info_class ia)) as Hb. lia.
    + intros info Hinfo.
      destruct (proj1 (get_size_info_facts (info_size ia) ltac:(lia))
                  ltac:(pose proof (class_size_bound (info_class ia)); lia))
        as (info' & Hinfo' & Hclass & Hsize & Hfit & Hmin).
      rewrite Hinfo in Hinfo'. injection Hinfo' as <-.
      assert (Ec : info_class info = info_class ia).
      { change N_SIZE_CLASSES with 37 in *.
        destruct (Z_lt_ge_dec (info_class ia) (info_class info)) as [Hlt|Hge].
        - specialize (Hmin (info_class ia) ltac:(lia)). lia.
        - destruct (Z.eq_dec (info_class info) (info_class ia)) as [|Hne];
            [assumption|].
          pose proof (class_size_injective (info_class info) (info_class ia)) as Hinj.
          pose proof (class_size_monotone (info_class info) (info_class ia)
                        ltac:(lia) ltac:(lia)) as Hmon.
          change N_SIZE_CLASSES with 37 in Hinj.
          exfalso. apply Hne. apply Hinj; lia. }
      rewrite Ec, <- Hsa.
      assert (Hnz : info_size ia <> 0).
      { rewrite Hsa. pose proof (class_size_monotone 1 (info_class ia)) as Hm1.
        change N_SIZE_CLASSES with 37 in *.
        specialize (Hm1 ltac:(lia) ltac:(lia)). change (class_size 1) with 16 in Hm1.
        lia. }
      destruct (Z.eqb_spec (info_size ia) 0); [contradiction|].
      apply Z.mod_divide; [lia | assumption].
  - (* every class is aligned enough *)
    unfold bindM at 1. unfold ret at 1.
    apply Hend; [reflexivity | lia | lia |].
    intros info Hinfo.
    destruct (proj1 (get_size_info_facts (adjust_size_for_canaries cfg n) Ha0) Hsmall)
      as (info' & Hinfo' & Hclass & _).
    rewrite Hinfo in Hinfo'. injection Hinfo' as <-.
    destruct (class_table _ Hclass) as (_ & H16 & _).
    apply Z.divide_trans with (m := 16); [|apply Z.mod_divide; [lia | exact H16]].
    change 16 with (2 ^ 4).
    assert (k <= 4).
    { destruct (Z_le_gt_dec k 4) as [|Hgt]; [assumption|].
      assert (2 ^ 5 <= 2 ^ k) by (apply Z.pow_le_mono_r; lia).
      change (2 ^ 5) with 32 in *. lia. }
    apply pow2_divide. lia.
Qed.

(** X22. [h_posix_memalign] with an alignment that is a power of two
    from 8 to the page size, for a request the slab engine takes,
    returns [ENOMEM] and no pointer, or 0 and a chunk of the slab region
    at a multiple of the alignment whose usable size, as
    [h_malloc_usable_size] reports it, is at least the size asked
    for. *)
Theorem memalign_small_pointer cfg s k n r ptr s1 :
  heap_ok s -> 0 <= n ->
  adjust_size_for_canaries cfg n <= max_slab_size_class ->
  3 <= k <= 12 ->
  h_posix_memalign cfg (2 ^ k) n s = Done ((r, ptr), s1) ->
  (r = ENOMEM /\ ptr = None) \/
  (r = 0 /\
   exists q, ptr = Some q /\ q mod 2 ^ k = 0 /\
     slab_region_start s <= q < slab_region_end s /\
     exists size, h_malloc_usable_size cfg q s1 = Done (size, s1) /\ n <= size).
Proof. apply memalign_small_facts. Qed.

Lemma aligned_outcome_done :
  h_posix_memalign hardened (2 ^ 6) 100 ready
  = Done ((aligned_status, aligned_pointer), aligned_state).
Proof.
  unfold aligned_status, aligned_pointer, aligned_state, aligned_outcome.
  rewrite <- surjective_pairing. apply returns_pair. vm_compute. reflexivity.
Qed.

Lemma memalign_small_pointer_witness :
  (aligned_status = ENOMEM /\ aligned_pointer = None) \/
  (aligned_status = 0 /\
   exists q, aligned_pointer = Some q /\ q mod 2 ^ 6 = 0 /\
     slab_region_start ready <= q < slab_region_end ready /\
     exists size, h_malloc_usable_size hardened q aligned_state
                  = Done (size, aligned_state) /\ 100 <= size).
Proof.
  apply (memalign_small_pointer hardened ready 6 100).
  - exact ready_heap_ok.
  - lia.
  - assert (E : adjust_size_for_canaries hardened 100 = 108) by (vm_compute; reflexivity).
    rewrite E. unfold max_slab_size_class. lia.
  - lia.
  - exact aligned_outcome_done.
Defined.
(** *** The fifth chunk of the largest class, freed last *)

Lemma done_state_of {A : Type} (o : outcome (A * state)) a s :
  o = Done (a, s) -> state_of o = s.
Proof. intros ->. reflexivity. Qed.


Lemma cons_not_self {A : Type} (x : A) (l : list A) : x :: l <> l.
Proof.
  intros H. apply (f_equal (@List.length A)) in H. simpl in H. lia.
Qed.

Lemma enqueue_free_slab_empty c idx :
  empty_slabs (enqueue_free_slab c idx) = empty_slabs c.
Proof.
  unfold enqueue_free_slab.
  destruct (free_slabs_tail (md_update c idx (fun m => set_next m None)));
    class_fields; reflexivity.
Qed.


Lemma plain_purged_done :
  deallocate_small plain plain_last None plain_cached = Done (tt, plain_purged).
Proof.
  assert (Hr : returns (deallocate_small plain plain_last None plain_cached) = true)
    by (vm_compute; reflexivity).
  destruct (returns_done _ Hr) as [[[] s'] E].
  unfold plain_purged. rewrite E. reflexivity.
Qed.



(** *** The canary of the slab a chunk is served from *)

Lemma masked_low_byte v : Z.land (Z.land v 0xffffffffffffff00) 0xff = 0.
Proof. rewrite <- Z.land_assoc. change (Z.land 0xffffffffffffff00 0xff) with 0. apply Z.land_0_r. Qed.

Lemma masked_high_byte v : 0 <= Z.land v 0x00ffffffffffffff < 2 ^ 56.
Proof.
  change 0x00ffffffffffffff with (Z.ones 56). rewrite Z.land_ones by lia.
  apply Z.mod_pos_bound. lia.
Qed.

Lemma slab_canary_facts cfg s n q s1 :
  heap_ok s -> 0 <= n ->
  adjust_size_for_canaries cfg n <= max_slab_size_class ->
  h_malloc cfg n s = Done (q, s1) -> q <> 0 ->
  exists info,
    get_size_info (adjust_size_for_canaries cfg n) = Done info /\
    free_class s1 q = info_class info /\
    slab_index s1 q = chosen_slab (size_class_metadata s (info_class info)) /\
    canary_value (slab_info (size_class_metadata s1 (info_class info)) (slab_index s1 q))
    = chosen_canary cfg (size_class_metadata s (info_class info)).
Proof.
  intros Hok Hn Hsmall Hm Hq.
  destruct (small_malloc_served cfg s n q s1 Hok Hn Hsmall Hm Hq)
    as (info & m & slot & Hinfo & Hclass & _ & _ & Hserved & Hm0 & Hcv & _).
  exists info. split; [assumption|].
  pose proof (served_heap_ok _ s s1 m slot q Hclass Hok Hserved) as [Hwf1 _].
  destruct Hserved as (Htook & Hqv & Hlay & _).
  destruct Htook as (Hslot & _ & Hmc & Hma & _).
  rewrite <- (get_slab_layout _ _ _ _ Hlay) in Hqv.
  destruct (slot_address s1 (info_class info) m slot Hwf1 Hclass ltac:(lia) Hslot q Hqv)
    as (_ & _ & E1 & E2 & _).
  rewrite E1 in E2 |- *. rewrite E2.
  split; [reflexivity|]. split; [assumption|]. rewrite Hcv. reflexivity.
Qed.



(** *** A request of size 0 *)

Lemma quiet_ret {A : Type} (a : A) : quiet (ret a).
Proof. intros s. split; [discriminate|]. intros b s' [= _ <-]. reflexivity. Qed.

Lemma quiet_bind {A B : Type} (m : M A) (k : A -> M B) :
  quiet m -> (forall a, quiet (k a)) -> quiet (bindM m k).
Proof.
  intros Hm Hk s. unfold bindM. destruct (Hm s) as [Hn Hmem].
  destruct (m s) as [[a s']|msg| |].
  - destruct (Hk a s') as [Hn' Hmem'].
 split; [assumption|].
    intros b s'' Eb. rewrite (Hmem' _ _ Eb). apply (Hmem _ _ eq_refl).
  - split; [|discriminate]. intros H. apply Hn. injection H as ->. reflexivity.
  - split; discriminate.
  - split; discriminate.
Qed.

Lemma quiet_lift {A : Type} (o : outcome A) :
  o <> Fatal "detected write after free" -> quiet (lift o).
Proof.
  intros Ho s. unfold lift. destruct o as [a|msg| |].
  - split; [discriminate|]. intros b s' [= _ <-]. reflexivity.
  - split; [|discriminate]. intros H. apply Ho. injection H as ->. reflexivity.
  - split; discriminate.
  - split; discriminate.
Qed.

Lemma quiet_get_class class : quiet (get_class class).
Proof. intros s. split; [discriminate|]. intros b s' [= _ <-]. reflexivity. Qed.

Lemma quiet_put_class class c : quiet (put_class class c).
Proof. intros s. split; [discriminate|]. intros b s' [= _ <-]. reflexivity. Qed.

Lemma quiet_os call : quiet (os call).
Proof. intros s. split; [discriminate|]. intros b s' [= _ <-]. reflexivity. Qed.

Lemma take_slot_no_check cfg c slots size slab_size m :
  take_slot cfg c slots size slab_size m <> Fatal "detected write after free".
Proof.
  unfold take_slot, get_free_slot, set_slot, check_index.
  destruct (_ =? _); [discriminate|].
  destruct (SLOT_RANDOMIZE cfg).
  - destruct (get_random_u16_uniform _ _) as [start r'].
    destruct (negb _); cbn [bind]; class_fields;
      destruct (_ >=? 64); cbn [bind]; discriminate.
  - cbn [bind]. class_fields. destruct (_ >=? 64); cbn [bind]; discriminate.
Qed.

Lemma quiet_alloc_metadata cfg class slab_size b :
  quiet (alloc_metadata cfg class slab_size b).
Proof.
  unfold alloc_metadata, memory_protect_rw.
  apply quiet_bind; [apply quiet_get_class | intros c].
  apply quiet_bind.
  - destruct (_ >=? _); [|apply quiet_ret].
    destruct (_ >=? _).
    + intros s. split; [discriminate|]. intros a s' [= _ <-]. reflexivity.
    + apply quiet_bind; [apply quiet_os | intros r].
      destruct (negb _); [apply quiet_ret|].
      apply quiet_bind; [apply quiet_put_class | intros _; apply quiet_ret].
  - intros grown. destruct (negb grown); [apply quiet_ret|].
    apply quiet_bind; [apply quiet_get_class | intros c1].
    apply quiet_bind.
    + destruct b; [apply quiet_os | apply quiet_ret].
    + intros r. destruct (negb _); [apply quiet_ret|].
      apply quiet_bind; [apply quiet_put_class | intros _; apply quiet_ret].
Qed.

(** [allocate_small] of a request of size 0 runs no write-after-free
    check and writes no canary. *)
Lemma quiet_allocate_small_zero cfg : quiet (allocate_small cfg 0).
Proof.
  unfold allocate_small. cbn [Z.eqb negb].
  apply quiet_bind; [apply quiet_lift; discriminate | intros info].
  apply quiet_bind; [apply quiet_get_class | intros c].
  assert (Htail : forall c0 a b d e,
            quiet ('(c1, slot, q) <- lift (take_slot cfg c0 a b d e) ;;
                   put_class (info_class info) c1 ;;; ret tt ;;; ret q)).
  { intros. apply quiet_bind; [apply quiet_lift, take_slot_no_check | intros [[c1 slot] q]].
    apply quiet_bind; [apply quiet_put_class | intros _].
    apply quiet_bind; intros; apply quiet_ret. }
  destruct (partial_slabs c) as [m|].
  - apply quiet_bind; [apply quiet_lift, take_slot_no_check | intros [[c1 slot] q]].
    apply quiet_bind; [apply quiet_put_class | intros _].
    apply quiet_bind; intros; apply quiet_ret.
  - destruct (empty_slabs c) as [m|]; [apply Htail|].
    destruct (free_slabs_head c) as [m|].
    + destruct (get_random_u64 (rng c)) as [v r'].
      apply quiet_bind; [apply quiet_put_class | intros _].
      apply quiet_bind; [apply quiet_ret | intros r].
      destruct (negb _); [apply quiet_ret | apply Htail].
    + apply quiet_bind; [apply quiet_alloc_metadata | intros [md|]]; [|apply quiet_ret].
      apply quiet_bind; [apply quiet_get_class | intros c1].
      destruct (get_random_u64 (rng c1)) as [v r']. apply Htail.
Qed.

(** [release_slot] on a chunk of a class of size 0 neither clears the
    chunk nor looks at a canary; the memory changes only if the pages of
    the emptied slab are dropped. *)
Lemma release_slot_zero_class cfg class c m slot q s :
  class_size class = 0 ->
  release_slot cfg class c m slot q s <> Fatal "canary corrupted" /\
  forall s2, release_slot cfg class c m slot q s = Done (tt, s2) ->
    mem s2 = mem s \/
    os_log s2 = MemoryMapFixed (get_slab c (class_slab_size class) m)
                  (class_slab_size class) :: os_log s.
Proof.
  intros Hz. unfold release_slot. rewrite Hz. cbn [Z.eqb negb].
  unfold bindM at 1, ret at 1. cbv beta iota.
  destruct (is_free_slab _).
  - unfold bindM at 1. destruct (_ >? _).
    + unfold memory_map_fixed, os, bindM, ret, put_class.
      cbn [os_next os_log set_os hd tl].
      destruct (hd 0 (os_next s) =? 0) eqn:Eh; cbv beta iota; rewrite ?Eh;
        (split; [discriminate|]); intros s2 [= <-]; right; reflexivity.
    + unfold ret, put_class. split; [discriminate|].
      intros s2 [= <-]. left. reflexivity.
  - unfold put_class. split; [discriminate|]. intros s2 [= <-]. left. reflexivity.
Qed.

Lemma zero_size_facts cfg s q s1 :
  heap_ok s -> h_malloc cfg 0 s = Done (q, s1) -> q <> 0 ->
  h_malloc cfg 0 s = allocate_small cfg 0 s /\
  get_size_info (adjust_size_for_canaries cfg 0) = Done (mk_size_info 0 0) /\
  mem s1 = mem s /\
  (exists m slot,
     served 0 s s1 m slot q /\
     free_class s1 q = 0 /\ slab_index s1 q = m /\ slot_index s1 q = slot /\
     get_slot (slab_info (size_class_metadata s1 0) m) slot = Done true /\
     forall mem',
       h_malloc_usable_size cfg q (set_mem s1 mem') = Done (0, set_mem s1 mem') /\
       h_free cfg q (set_mem s1 mem')
       = release_slot cfg 0 (size_class_metadata s1 0) m slot q (set_mem s1 mem') /\
       exists s2,
         h_free cfg q (set_mem s1 mem') = Done (tt, s2) /\
         get_slot (slab_info (size_class_metadata s2 0) m) slot = Done false /\
         (forall i, i <> m ->
            bitmap (slab_info (size_class_metadata s2 0) i)
            = bitmap (slab_info (size_class_metadata s1 0) i)) /\
         (mem s2 = mem'
          \/ os_log s2
             = MemoryMapFixed (get_slab (size_class_metadata s1 0) (class_slab_size 0) m)
                 (class_slab_size 0) :: os_log s1)).
Proof.
  intros Hok Hm Hq. pose proof Hok as [(Hinit & _) _].
  assert (Hadj : adjust_size_for_canaries cfg 0 = 0) by reflexivity.
  assert (Hsmall : adjust_size_for_canaries cfg 0 <= max_slab_size_class)
    by (rewrite Hadj; unfold max_slab_size_class; lia).
  assert (Hma : h_malloc cfg 0 s = allocate_small cfg 0 s).
  { unfold h_malloc, bindM. rewrite (init_done s Hinit). reflexivity. }
  split; [assumption|]. split; [reflexivity|].
  split.
  { destruct (quiet_allocate_small_zero cfg s) as [_ Hmem].
    apply (Hmem q). rewrite <- Hma. assumption. }
  destruct (small_malloc_served cfg s 0 q s1 Hok ltac:(lia) Hsmall Hm Hq)
    as (info & m & slot & Hinfo & Hclass & Hsize & Hfit & Hserved & _).
  assert (E00 : get_size_info (adjust_size_for_canaries cfg 0) = Done (mk_size_info 0 0))
    by reflexivity.
  rewrite E00 in Hinfo. injection Hinfo as <-. cbn [info_class info_size] in *.
  exists m, slot. split; [assumption|].
  pose proof (served_heap_ok 0 s s1 m slot q Hclass Hok Hserved) as Hok1.
  destruct Hserved as (Htook & Hqv & Hlay & Hw1 & Hwd1 & Ho & Hf).
  destruct Htook as (Hslot & H64 & Hmc & Hmal & Hfree & Hbit & Hothers).
  pose proof Hok1 as [Hwf1 Hwords1].
  rewrite <- (get_slab_layout _ _ _ _ Hlay) in Hqv.
  destruct (slot_address s1 0 m slot Hwf1 Hclass ltac:(lia) Hslot q Hqv)
    as (Hsum & Hin & E1 & E2 & E3).
  split; [assumption|]. split; [assumption|]. split; [assumption|].
  assert (Hg : get_slot (slab_info (size_class_metadata s1 0) m) slot = Done true).
  { rewrite get_slot_testbit by lia. rewrite Hbit, Z.lor_spec.
    rewrite testbit_one_shifted by lia. rewrite orb_true_r. reflexivity. }
  split; [assumption|].
  intros mem'. set (st := set_mem s1 mem').
  assert (Hin' : slab_region_start st <= q < slab_region_end st) by exact Hin.
  assert (E1' : free_class st q = 0) by exact E1.
  assert (E2' : slab_index st q = m) by exact E2.
  assert (E3' : slot_index st q = slot) by exact E3.
  assert (Ec' : size_class_metadata st = size_class_metadata s1) by reflexivity.
  split; [|split].
  - unfold h_malloc_usable_size. destruct (Z.eqb_spec q 0); [contradiction|].
    unfold bindM at 1. rewrite (in_slab_region_inside q st Hin').
    unfold slab_usable_size, slab_size_class, bindM, ret. rewrite E1'. reflexivity.
  - rewrite h_free_small by assumption.
    rewrite (deallocate_small_unchecked cfg st q None).
    + rewrite E3', E2', E1', Ec'. reflexivity.
    + exact I.
    + rewrite E2', E1', Ec'. assumption.
    + rewrite E3', E2', E1', Ec'. symmetry. assumption.
    + rewrite E3', E2', E1', Ec'. assumption.
  - assert (Hrel : h_free cfg q st
                   = release_slot cfg 0 (size_class_metadata s1 0) m slot q st).
    { rewrite h_free_small by assumption.
      rewrite (deallocate_small_unchecked cfg st q None).
      + rewrite E3', E2', E1', Ec'. reflexivity.
      + exact I.
      + rewrite E2', E1', Ec'. assumption.
      + rewrite E3', E2', E1', Ec'. symmetry. assumption.
      + rewrite E3', E2', E1', Ec'. assumption. }
    destruct (release_slot_passes cfg 0 (size_class_metadata s1 0) m slot q st)
      as (s2 & Hs2).
    { intros Hnz. exfalso. apply Hnz. reflexivity. }
    exists s2. split; [rewrite Hrel; assumption|].
    assert (Hs64 : 0 <= slot < 64) by lia.
    destruct (release_slot_done cfg 0 (size_class_metadata s1 0) m slot q st s2 Hs64 Hs2)
      as (c' & Hc' & _ & _ & _ & _ & _ & Hclear & Hrest & _).
    rewrite Hc', upd_same.
    split; [assumption|]. split; [assumption|].
    destruct (release_slot_zero_class cfg 0 (size_class_metadata s1 0) m slot q st eq_refl)
      as [_ Hmem].
    destruct (Hmem s2 Hs2) as [Hm2|Hl2]; [left | right]; assumption.
Qed.

(** C10. [h_malloc] of size 0 on an initialised allocator is
    [allocate_small] of size 0, which never runs the write-after-free
    check and writes nothing to memory.  When it returns a pointer that
    is not null, the request was classified to class 0, of size 0; the
    pointer is a slot of a slab of that class, 16 bytes from the next,
    whose bit was clear and is now set; the memory is as it was; and,
    whatever the memory holds afterwards, [h_malloc_usable_size] of the
    pointer is 0 and [h_free] of it returns: it is [release_slot] for
    class 0, which neither clears the chunk nor looks at a canary, and
    it clears the bit. *)
Theorem zero_size_request cfg s q s1 :
  heap_ok s -> h_malloc cfg 0 s = Done (q, s1) -> q <> 0 ->
  quiet (allocate_small cfg 0) /\
  (forall class c m slot p st,
     class_size class = 0 ->
     release_slot cfg class c m slot p st <> Fatal "canary corrupted" /\
     forall s2, release_slot cfg class c m slot p st = Done (tt, s2) ->
       mem s2 = mem st \/
       os_log s2 = MemoryMapFixed (get_slab c (class_slab_size class) m)
                     (class_slab_size class) :: os_log st) /\
  class_size 0 = 0 /\ slot_size 0 = 16 /\
  h_malloc cfg 0 s = allocate_small cfg 0 s /\
  get_size_info (adjust_size_for_canaries cfg 0) = Done (mk_size_info 0 0) /\
  mem s1 = mem s /\
  (exists m slot,
     served 0 s s1 m slot q /\
     free_class s1 q = 0 /\ slab_index s1 q = m /\ slot_index s1 q = slot /\
     get_slot (slab_info (size_class_metadata s1 0) m) slot = Done true /\
     forall mem',
       h_malloc_usable_size cfg q (set_mem s1 mem') = Done (0, set_mem s1 mem') /\
       h_free cfg q (set_mem s1 mem')
       = release_slot cfg 0 (size_class_metadata s1 0) m slot q (set_mem s1 mem') /\
       exists s2,
         h_free cfg q (set_mem s1 mem') = Done (tt, s2) /\
         get_slot (slab_info (size_class_metadata s2 0) m) slot = Done false /\
         (forall i, i <> m ->
            bitmap (slab_info (size_class_metadata s2 0) i)
            = bitmap (slab_info (size_class_metadata s1 0) i)) /\
         (mem s2 = mem'
          \/ os_log s2
             = MemoryMapFixed (get_slab (size_class_metadata s1 0) (class_slab_size 0) m)
                 (class_slab_size 0) :: os_log s1)).
Proof.
  intros Hok Hm Hq.
  split; [apply quiet_allocate_small_zero|].
  split; [intros; apply release_slot_zero_class; assumption|].
  split; [reflexivity|]. split; [reflexivity|].
  apply zero_size_facts; assumption.
Qed.

Lemma zero_chunk_served : h_malloc hardened 0 ready = Done (zero_chunk, ready_zero).
Proof.
  unfold zero_chunk, ready_zero. apply returns_pair. vm_compute. reflexivity.
Qed.

Lemma zero_chunk_not_null : zero_chunk <> 0.
Proof. apply Z.eqb_neq. vm_compute. reflexivity. Qed.

Lemma set_mem_same s : set_mem s (mem s) = s.
Proof. destruct s. reflexivity. Defined.

Lemma zero_size_request_witness :
  mem ready_zero = mem ready /\
  h_malloc_usable_size hardened zero_chunk ready_zero = Done (0, ready_zero) /\
  exists s2, h_free hardened zero_chunk ready_zero = Done (tt, s2).
Proof.
  destruct (zero_size_request hardened ready zero_chunk ready_zero
              ready_heap_ok zero_chunk_served zero_chunk_not_null)
    as (_ & _ & _ & _ & _ & _ & Hmem & m & slot & _ & _ & _ & _ & _ & H).
  destruct (H (mem ready_zero)) as (Hu & _ & s2 & Hf & _).
  rewrite set_mem_same in Hu, Hf.
  split; [exact Hmem|]. split; [exact Hu|]. exists s2. exact Hf.
Defined.

End AllocTheory.
